(** * UltraWealth platform: tenancy, evidence ledger, replay and governance

    A shallow embedding of the platform's trust boundary
    (tenant registry and context, isolation guards, the hash-chained event
    store, the evidence linker, the replay engine, the governance adapter
    and its enforcement hooks, role-based access control), with the
    properties its specification states about them and further properties
    of the code.

    Conventions of the embedding.
    - A method of a stateful singleton ([TenantRegistry], [EventStore],
      [EvidenceLinker], [RBAC]) is a function from the state before the call to an
      outcome and the state after it; a [throw] is the outcome [Throw].
    - The ambient [AsyncLocalStorage] store is an explicit
      [option TenantContext] argument: what [getStore()] returns at the call.
    - [randomUUID()], [new Date()] and [Date.now()] are inputs of the call
      that performs them; a [Date] is its time value in milliseconds.
    - [createHash('sha256')...digest('hex')] is a parameter [sha256] of the
      sections that use it.
    - Strings are sequences of 8-bit characters and case mapping is the
      ASCII one. *)

From Stdlib Require Import ZArith String Ascii List Lia Bool.
From stdpp Require Import base option list strings gmap pretty sorting.

Set Warnings "-register-all".

Local Open Scope string_scope.
Local Open Scope Z_scope.

(** ** Outcomes of a call *)

Inductive TenantContextErrorCode :=
| NO_TENANT_CONTEXT
| TENANT_NOT_FOUND
| TENANT_NOT_ACTIVE
| PROFILE_MISMATCH
| ROLE_REQUIRED
| CROSS_TENANT_ACCESS.

(** The exceptions the modelled code raises: the class and what it carries. *)
Inductive exn :=
| TenantContextError (code : TenantContextErrorCode) (message : string)
| Error (message : string)
| TypeError (message : string)
| SyntaxError (message : string).

Inductive result (A : Type) :=
| Ok (a : A)
| Throw (e : exn).

Arguments Ok {A} a.
Arguments Throw {A} e.

#[global] Instance result_ret : MRet result := fun _ a => Ok a.

#[global] Instance result_bind : MBind result := fun _ _ k r =>
  match r with
  | Ok a => k a
  | Throw e => Throw e
  end.

#[global] Instance result_fmap : FMap result := fun _ _ f r =>
  match r with
  | Ok a => Ok (f a)
  | Throw e => Throw e
  end.

Definition is_ok {A : Type} (r : result A) : bool :=
  match r with Ok _ => true | Throw _ => false end.

(** ** JavaScript values *)

(** The values a [payload], a [metadata] bag, an export record or a replayed
    state is made of. A number is an integer or not finite ([NaN],
    [Infinity]); an object lists its own enumerable properties in order. *)
Inductive jsval :=
| JUndefined
| JNull
| JBool (b : bool)
| JNum (n : Z)
| JNaN
| JBigInt (n : Z)
| JStr (s : string)
| JDate (ms : Z)
| JArr (xs : list jsval)
| JObj (props : list (string * jsval)).

(** ** JavaScript strings *)

Module JsString.

(** The double quote, as a one-character string. *)
Definition dquote : string := String (ascii_of_nat 34) EmptyString.

Definition lower_char (c : ascii) : ascii :=
  let n := nat_of_ascii c in
  if (65 <=? n)%nat && (n <=? 90)%nat then ascii_of_nat (n + 32) else c.

(** The letters A to Z put in lower case and every other character kept:
    the folding under which a regular expression with the flag [i], and
    without [u], compares the letters of an ASCII term; what
    [String.prototype.toLowerCase] does to a string of ASCII characters. *)
Fixpoint lower_ascii (s : string) : string :=
  match s with
  | EmptyString => EmptyString
  | String c r => String (lower_char c) (lower_ascii r)
  end.

(** [String.prototype.startsWith] *)
Fixpoint startsWith (s t : string) : bool :=
  match t, s with
  | EmptyString, _ => true
  | String _ _, EmptyString => false
  | String b t', String a s' => if Ascii.eqb a b then startsWith s' t' else false
  end.

(** [String.prototype.indexOf]: the first position at which [t] occurs. *)
Fixpoint indexOf (s t : string) : option nat :=
  if startsWith s t then Some 0%nat
  else match s with
       | EmptyString => None
       | String _ r => S <$> indexOf r t
       end.

(** [String.prototype.includes] *)
Definition includes (s t : string) : bool :=
  match indexOf s t with Some _ => true | None => false end.

Fixpoint take (n : nat) (s : string) : string :=
  match n, s with
  | S k, String c r => String c (take k r)
  | _, _ => EmptyString
  end.

Fixpoint drop (n : nat) (s : string) : string :=
  match n, s with
  | S k, String _ r => drop k r
  | _, _ => s
  end.

(** [String.prototype.substring(start, end)] for [0 <= start]. *)
Definition substring (s : string) (start stop : nat) : string :=
  take (Nat.max start stop - Nat.min start stop) (drop (Nat.min start stop) s).

End JsString.

(** ** Tenant registry (platform/tenancy/tenant-registry.ts) *)

Module TenantRegistry.

Inductive TenantProfile := fo | retail | advisor.

Inductive TenantStatus :=
| provisioning
| onboarding
| active
| suspended
| offboarding
| terminated.

#[global] Instance TenantStatus_eq_dec : EqDecision TenantStatus.
Proof. solve_decision. Defined.

#[global] Instance TenantProfile_eq_dec : EqDecision TenantProfile.
Proof. solve_decision. Defined.

Definition status_name (s : TenantStatus) : string :=
  match s with
  | provisioning => "provisioning"
  | onboarding => "onboarding"
  | active => "active"
  | suspended => "suspended"
  | offboarding => "offboarding"
  | terminated => "terminated"
  end.

Record TenantConfig := {
  id : string;
  name : string;
  profile : TenantProfile;
  status : TenantStatus;
  encryptionKeyId : string;
  partitionKey : string;
  createdAt : Z;
  updatedAt : Z;
  metadata : option jsval;
}.

Record TenantProvisionRequest := {
  req_name : string;
  req_profile : TenantProfile;
  req_metadata : option jsval;
}.

Record TenantRegistryImpl := {
  tenants : gmap string TenantConfig;
  tenantsByPartition : gmap string string;
}.

Definition empty : TenantRegistryImpl :=
  {| tenants := ∅; tenantsByPartition := ∅ |}.

Definition validTransitions (from : TenantStatus) : list TenantStatus :=
  match from with
  | provisioning => [onboarding; terminated]
  | onboarding => [active; terminated]
  | active => [suspended; offboarding]
  | suspended => [active; offboarding]
  | offboarding => [terminated]
  | terminated => []
  end.

Definition validateStatusTransition (from to : TenantStatus) : result unit :=
  if bool_decide (to ∈ validTransitions from) then Ok tt
  else Throw (Error ("Invalid status transition: " +:+ status_name from
                       +:+ " -> " +:+ status_name to)).

Definition set_status (t : TenantConfig) (s : TenantStatus) (now : Z) : TenantConfig :=
  {| id := id t; name := name t; profile := profile t; status := s;
     encryptionKeyId := encryptionKeyId t; partitionKey := partitionKey t;
     createdAt := createdAt t; updatedAt := now; metadata := metadata t |}.

(** [updateStatus]; [now] is the [new Date()] of the assignment to
    [updatedAt]. *)
Definition updateStatus (reg : TenantRegistryImpl) (tenantId : string)
    (newStatus : TenantStatus) (now : Z) : result unit * TenantRegistryImpl :=
  match tenants reg !! tenantId with
  | None => (Throw (Error ("Tenant " +:+ tenantId +:+ " not found")), reg)
  | Some tenant =>
      match validateStatusTransition (status tenant) newStatus with
      | Throw e => (Throw e, reg)
      | Ok _ =>
          (Ok tt,
           {| tenants := <[tenantId := set_status tenant newStatus now]> (tenants reg);
              tenantsByPartition := tenantsByPartition reg |})
      end
  end.

(** [getById]: a frozen copy of the record, or [undefined]. *)
Definition getById (reg : TenantRegistryImpl) (tenantId : string) : option TenantConfig :=
  tenants reg !! tenantId.

Definition isActive (reg : TenantRegistryImpl) (tenantId : string) : bool :=
  match tenants reg !! tenantId with
  | Some t => bool_decide (status t = active)
  | None => false
  end.

Section WithHash.

(** [createHash('sha256').update(s).digest('hex')], and
    [String.prototype.toLowerCase]. *)
Variable sha256 : string -> string.
Variable toLowerCase : string -> string.

Definition generatePartitionKey (tenantId : string) : string :=
  "pk_" +:+ JsString.substring (sha256 ("partition:" +:+ tenantId)) 0 16.

Definition generateEncryptionKeyId (tenantId : string) : string :=
  "ek_" +:+ JsString.substring (sha256 ("encryption:" +:+ tenantId)) 0 32.

(** [provision]; [uuid] is the [randomUUID()] of the call, [now1] and [now2]
    its two [new Date()]. *)
Definition provision (reg : TenantRegistryImpl) (request : TenantProvisionRequest)
    (uuid : string) (now1 now2 : Z) : result TenantConfig * TenantRegistryImpl :=
  if bool_decide (map_Exists (fun _ t =>
       toLowerCase (name t) = toLowerCase (req_name request))
       (tenants reg))
  then (Throw (Error ("Tenant with name " +:+ JsString.dquote +:+ req_name request
                        +:+ JsString.dquote +:+ " already exists")), reg)
  else
    let tenant :=
      {| id := uuid; name := req_name request; profile := req_profile request;
         status := provisioning;
         encryptionKeyId := generateEncryptionKeyId uuid;
         partitionKey := generatePartitionKey uuid;
         createdAt := now1; updatedAt := now2;
         metadata := req_metadata request |} in
    (Ok tenant,
     {| tenants := <[uuid := tenant]> (tenants reg);
        tenantsByPartition := <[generatePartitionKey uuid := uuid]> (tenantsByPartition reg) |}).

End WithHash.

End TenantRegistry.

(** ** Tenant context (platform/tenancy/tenant-context.ts) *)

Module TenantContext.

Record TenantContext := {
  tenant : TenantRegistry.TenantConfig;
  correlationId : string;
  createdAt : Z;
  userId : option string;
  roles : list string;
}.

Record TenantContextOptions := {
  tenantId : string;
  opt_correlationId : string;
  opt_userId : option string;
  opt_roles : option (list string);
}.

(** [getTenantContext]; [als] is [tenantContextStorage.getStore()]. *)
Definition getTenantContext (als : option TenantContext) : result TenantContext :=
  match als with
  | None =>
      Throw (TenantContextError NO_TENANT_CONTEXT
        "No tenant context is active. All operations require a tenant context.")
  | Some context => Ok context
  end.

Definition tryGetTenantContext (als : option TenantContext) : option TenantContext := als.

Definition getCurrentTenantId (als : option TenantContext) : result string :=
  context ← getTenantContext als; Ok (TenantRegistry.id (tenant context)).

Definition getCurrentPartitionKey (als : option TenantContext) : result string :=
  context ← getTenantContext als; Ok (TenantRegistry.partitionKey (tenant context)).

Definition getCurrentTenantProfile (als : option TenantContext)
    : result TenantRegistry.TenantProfile :=
  context ← getTenantContext als; Ok (TenantRegistry.profile (tenant context)).

(** [withTenantContext]: [tenantContextStorage.run(context, fn)] runs [fn]
    with [context] as the store, so [fn] takes the store it observes; [now]
    is the [new Date()] of [createdAt]. *)
Definition withTenantContext {T : Type} (reg : TenantRegistry.TenantRegistryImpl)
    (options : TenantContextOptions) (now : Z)
    (fn : option TenantContext -> result T) : result T :=
  match TenantRegistry.getById reg (tenantId options) with
  | None =>
      Throw (TenantContextError TENANT_NOT_FOUND
        ("Tenant " +:+ tenantId options +:+ " does not exist"))
  | Some tenant =>
      if bool_decide (TenantRegistry.status tenant ≠ TenantRegistry.active) then
        Throw (TenantContextError TENANT_NOT_ACTIVE
          ("Tenant " +:+ tenantId options +:+ " is not active (status: "
             +:+ TenantRegistry.status_name (TenantRegistry.status tenant) +:+ ")"))
      else
        fn (Some {| tenant := tenant;
                    correlationId := opt_correlationId options;
                    createdAt := now;
                    userId := opt_userId options;
                    roles := default [] (opt_roles options) |})
  end.

End TenantContext.

(** ** Isolation guards (platform/tenancy/isolation-guards.ts) *)

Module IsolationGuards.

Inductive IsolationViolationType :=
| CROSS_TENANT_QUERY
| CROSS_TENANT_CACHE
| CROSS_TENANT_EXPORT
| CROSS_TENANT_EVENT
| MISSING_PARTITION_KEY
| INVALID_PARTITION_KEY
| MULTI_TENANT_JOIN
| SHARED_RESOURCE_ACCESS.

Record IsolationViolation := {
  type : IsolationViolationType;
  message : string;
  tenantId : string;
  attemptedResource : option string;
  timestamp : Z;
  correlationId : string;
}.

(** [record[field]]: the property, [undefined] when the record has none. *)
Definition get (record : gmap string jsval) (field : string) : jsval :=
  default JUndefined (record !! field).

(** [v === s] for a string [s]. *)
Definition strict_eq_string (v : jsval) (s : string) : bool :=
  match v with
  | JStr s' => bool_decide (s' = s)
  | _ => false
  end.

Section WithHandler.

(** What the violation handler in force acts on (the console, an audit
    sink), and the handler itself: the module's [violationHandler] variable
    at the time of the call, a function that returns. *)
Variable W : Type.
Variable violationHandler : IsolationViolation -> W -> W.

(** The built-in [String(v)] conversion. *)
Variable String_ : jsval -> string.

(** [reportViolation] never returns: it throws [NO_TENANT_CONTEXT] before the
    handler runs, or [CROSS_TENANT_ACCESS] after it. [now] is its
    [new Date()]. *)
Definition reportViolation (als : option TenantContext.TenantContext) (now : Z)
    (type : IsolationViolationType) (message : string)
    (attemptedResource : option string) (w : W) : exn * W :=
  match TenantContext.getTenantContext als with
  | Throw e => (e, w)
  | Ok context =>
      let violation :=
        {| type := type;
           message := message;
           tenantId := TenantRegistry.id (TenantContext.tenant context);
           attemptedResource := attemptedResource;
           timestamp := now;
           correlationId := TenantContext.correlationId context |} in
      (TenantContextError CROSS_TENANT_ACCESS ("Isolation violation: " +:+ message),
       violationHandler violation w)
  end.

(** [QueryGuard.validatePartitionKey]; an absent or empty key is falsy. *)
Definition QueryGuard_validatePartitionKey (als : option TenantContext.TenantContext)
    (now : Z) (queryPartitionKey : option string) (w : W) : result unit * W :=
  match queryPartitionKey with
  | None | Some "" =>
      let '(e, w') := reportViolation als now MISSING_PARTITION_KEY
        "Query must include partition key for tenant isolation" None w in
      (Throw e, w')
  | Some key =>
      match TenantContext.getCurrentPartitionKey als with
      | Throw e => (Throw e, w)
      | Ok expectedKey =>
          if bool_decide (key ≠ expectedKey) then
            let '(e, w') := reportViolation als now INVALID_PARTITION_KEY
              "Query partition key does not match current tenant" (Some key) w in
            (Throw e, w')
          else (Ok tt, w)
      end
  end.

(** The [for] loop of [validateExportData], from index [i] on. *)
Fixpoint validateExportData_loop (als : option TenantContext.TenantContext) (now : Z)
    (currentTenantId tenantIdField : string) (i : nat)
    (records : list (gmap string jsval)) (w : W) : result unit * W :=
  match records with
  | [] => (Ok tt, w)
  | record :: rest =>
      let recordTenantId := get record tenantIdField in
      if negb (strict_eq_string recordTenantId currentTenantId) then
        let '(e, w') := reportViolation als now CROSS_TENANT_EXPORT
          ("Export contains record from different tenant at index " +:+ pretty i)
          (Some (String_ recordTenantId)) w in
        (Throw e, w')
      else validateExportData_loop als now currentTenantId tenantIdField (S i) rest w
  end.

(** [ExportGuard.validateExportData] *)
Definition ExportGuard_validateExportData (als : option TenantContext.TenantContext)
    (now : Z) (records : list (gmap string jsval)) (tenantIdField : string) (w : W)
    : result unit * W :=
  match TenantContext.getCurrentTenantId als with
  | Throw e => (Throw e, w)
  | Ok currentTenantId =>
      validateExportData_loop als now currentTenantId tenantIdField 0 records w
  end.

End WithHandler.

End IsolationGuards.

(** ** JSON serialization *)

Module Json.

Definition hex_digit (n : nat) : ascii :=
  if (n <? 10)%nat then ascii_of_nat (48 + n) else ascii_of_nat (87 + n).

(** The escape of one character in [QuoteJSONString]. *)
Definition escape_char (c : ascii) : string :=
  let n := nat_of_ascii c in
  if (n =? 34)%nat then String "\" JsString.dquote
  else if (n =? 92)%nat then "\\"
  else if (n =? 8)%nat then "\b"
  else if (n =? 12)%nat then "\f"
  else if (n =? 10)%nat then "\n"
  else if (n =? 13)%nat then "\r"
  else if (n =? 9)%nat then "\t"
  else if (n <? 32)%nat then
    "\u00" +:+ String (hex_digit (n / 16)) (String (hex_digit (n mod 16)) EmptyString)
  else String c EmptyString.

Fixpoint escape (s : string) : string :=
  match s with
  | EmptyString => EmptyString
  | String c r => escape_char c +:+ escape r
  end.

Definition quote (s : string) : string :=
  JsString.dquote +:+ escape s +:+ JsString.dquote.

(** [Array.prototype.join] *)
Fixpoint join (sep : string) (parts : list string) : string :=
  match parts with
  | [] => ""
  | [p] => p
  | p :: rest => p +:+ sep +:+ join sep rest
  end.

(** A loop that stops at the first element whose step throws. *)
Fixpoint traverse {A B : Type} (f : A -> result B) (l : list A) : result (list B) :=
  match l with
  | [] => Ok []
  | x :: rest =>
      match f x with
      | Throw e => Throw e
      | Ok y =>
          match traverse f rest with
          | Throw e => Throw e
          | Ok ys => Ok (y :: ys)
          end
      end
  end.

(** The members of an object: a property whose value serializes to
    [undefined] is left out. *)
Definition member (kv : string * option string) : option string :=
  match kv.2 with
  | Some str => Some (quote kv.1 +:+ ":" +:+ str)
  | None => None
  end.

Section WithDates.

(** [Date.prototype.toISOString] *)
Variable toISOString : Z -> string.

(** [JSON.stringify(v)], also under a replacer that maps a [Date] to its
    [toISOString()] (which [toJSON] has already done when the replacer sees
    the value) and returns anything else as it is. [None] is the result
    [undefined]; a [BigInt] anywhere throws. *)
Fixpoint stringify (v : jsval) : result (option string) :=
  match v with
  | JUndefined => Ok None
  | JNull => Ok (Some "null")
  | JBool b => Ok (Some (if b then "true" else "false"))
  | JNum n => Ok (Some (pretty n))
  | JNaN => Ok (Some "null")
  | JBigInt _ => Throw (TypeError "Do not know how to serialize a BigInt")
  | JStr s => Ok (Some (quote s))
  | JDate ms => Ok (Some (quote (toISOString ms)))
  | JArr xs =>
      match traverse stringify xs with
      | Throw e => Throw e
      | Ok parts => Ok (Some ("[" +:+ join "," (default "null" <$> parts) +:+ "]"))
      end
  | JObj props =>
      match traverse (fun kv => match stringify kv.2 with
                                | Throw e => Throw e
                                | Ok s => Ok (kv.1, s)
                                end) props with
      | Throw e => Throw e
      | Ok parts => Ok (Some ("{" +:+ join "," (omap member parts) +:+ "}"))
      end
  end.

End WithDates.

(** Assignment [o[k] = v] on the property list of an object: an existing key
    keeps its place, a new one goes last. *)
Fixpoint obj_set (k : string) (v : jsval) (props : list (string * jsval))
    : list (string * jsval) :=
  match props with
  | [] => [(k, v)]
  | (k', v') :: rest =>
      if bool_decide (k' = k) then (k, v) :: rest else (k', v') :: obj_set k v rest
  end.

(** Object spread [{...props, ...more}]. *)
Definition spread (props more : list (string * jsval)) : list (string * jsval) :=
  foldl (fun acc kv => obj_set kv.1 kv.2 acc) props more.

End Json.

(** ** Event store (platform/evidence/event-store.ts) *)

Module EventStore.

Record DomainEvent := {
  id : string;
  type : string;
  version : Z;
  tenantId : string;
  partitionKey : string;
  aggregateId : string;
  aggregateType : string;
  sequence : Z;
  payload : jsval;
  evidenceRefs : list string;
  metadata : jsval;
  occurredAt : Z;
  recordedAt : Z;
  hash : string;
  previousHash : option string;
}.

Record EventQuery := {
  q_aggregateId : option string;
  q_aggregateType : option string;
  q_eventType : option string;
  q_fromTime : option Z;
  q_toTime : option Z;
  q_fromSequence : option Z;
  q_limit : option Z;
  q_cursor : option string;
}.

(** The query [{}]. *)
Definition no_filter : EventQuery :=
  {| q_aggregateId := None; q_aggregateType := None; q_eventType := None;
     q_fromTime := None; q_toTime := None; q_fromSequence := None;
     q_limit := None; q_cursor := None |}.

Record EventPage := {
  events_of : list DomainEvent;
  nextCursor : option string;
  hasMore : bool;
}.

Record EventStoreImpl := {
  events : gmap string (list DomainEvent);
  aggregateSequences : gmap string Z;
  lastHashes : gmap string string;
}.

Definition empty : EventStoreImpl :=
  {| events := ∅; aggregateSequences := ∅; lastHashes := ∅ |}.

Definition getTenantKey (partitionKey : string) : string :=
  "events:" +:+ partitionKey.

(** The key of the per-aggregate counter. *)
Definition aggregateKey (partitionKey aggregateType aggregateId : string) : string :=
  partitionKey +:+ ":" +:+ aggregateType +:+ ":" +:+ aggregateId.

(** The object [calculateHash] is given: every field but [hash], in the
    order both callers list them. *)
Definition eventData (e : DomainEvent) : jsval :=
  JObj [ ("id", JStr (id e));
         ("type", JStr (type e));
         ("version", JNum (version e));
         ("tenantId", JStr (tenantId e));
         ("partitionKey", JStr (partitionKey e));
         ("aggregateId", JStr (aggregateId e));
         ("aggregateType", JStr (aggregateType e));
         ("sequence", JNum (sequence e));
         ("payload", payload e);
         ("evidenceRefs", JArr (JStr <$> evidenceRefs e));
         ("metadata", metadata e);
         ("occurredAt", JDate (occurredAt e));
         ("recordedAt", JDate (recordedAt e));
         ("previousHash", from_option JStr JNull (previousHash e)) ].

Definition set_hash (h : string) (e : DomainEvent) : DomainEvent :=
  {| id := id e; type := type e; version := version e; tenantId := tenantId e;
     partitionKey := partitionKey e; aggregateId := aggregateId e;
     aggregateType := aggregateType e; sequence := sequence e;
     payload := payload e; evidenceRefs := evidenceRefs e; metadata := metadata e;
     occurredAt := occurredAt e; recordedAt := recordedAt e;
     hash := h; previousHash := previousHash e |}.

(** Truthiness of an optional string, and of an optional number. *)
Definition truthy_string (s : option string) : option string :=
  match s with
  | Some "" | None => None
  | Some s => Some s
  end.

Definition truthy_number (n : option Z) : option Z :=
  match n with
  | Some 0 | None => None
  | Some n => Some n
  end.

(** The predicate of [allEvents.filter] in [query]. *)
Definition matches (query : EventQuery) (event : DomainEvent) : bool :=
  match truthy_string (q_aggregateId query) with
  | Some a => bool_decide (aggregateId event = a) | None => true end
  && match truthy_string (q_aggregateType query) with
     | Some a => bool_decide (aggregateType event = a) | None => true end
  && match truthy_string (q_eventType query) with
     | Some a => bool_decide (type event = a) | None => true end
  && match q_fromTime query with
     | Some t => negb (occurredAt event <? t) | None => true end
  && match q_toTime query with
     | Some t => negb (t <? occurredAt event) | None => true end
  && match truthy_number (q_fromSequence query) with
     | Some n => negb (sequence event <? n) | None => true end.

(** [xs.slice(0, limit)] *)
Definition slice_to {A : Type} (limit : Z) (xs : list A) : list A :=
  if limit <? 0 then take (Z.to_nat (Z.of_nat (length xs) + limit)) xs
  else take (Z.to_nat limit) xs.

(** [filtered.findIndex(e => e.id === cursor)] followed by the [slice]. *)
Fixpoint after_cursor (cursor : string) (filtered : list DomainEvent)
    : option (list DomainEvent) :=
  match filtered with
  | [] => None
  | e :: rest =>
      if bool_decide (id e = cursor) then Some rest else after_cursor cursor rest
  end.

Section WithHash.

Variable sha256 : string -> string.
Variable toISOString : Z -> string.

(** [calculateHash]; it throws what [JSON.stringify] throws. *)
Definition calculateHash (e : DomainEvent) : result string :=
  match Json.stringify toISOString (eventData e) with
  | Throw err => Throw err
  | Ok content => Ok (sha256 (default "undefined" content))
  end.

(** The object [append] builds before hashing (its local [eventData]), with
    [hash] still to come. *)
Definition draft (context : TenantContext.TenantContext) (st : EventStoreImpl)
    (uuid : string) (occurred recorded : Z)
    (type aggregateId aggregateType : string) (payload : jsval)
    (evidenceRefs : list string) (metadata : option (list (string * jsval)))
    : DomainEvent :=
  let partitionKey := TenantRegistry.partitionKey (TenantContext.tenant context) in
  {| id := uuid; type := type; version := 1;
     tenantId := TenantRegistry.id (TenantContext.tenant context);
     partitionKey := partitionKey; aggregateId := aggregateId;
     aggregateType := aggregateType;
     sequence :=
       default 0 (aggregateSequences st
                    !! aggregateKey partitionKey aggregateType aggregateId) + 1;
     payload := payload; evidenceRefs := evidenceRefs;
     metadata :=
       JObj (Json.spread
               [ ("correlationId", JStr (TenantContext.correlationId context));
                 ("userId", from_option JStr JUndefined (TenantContext.userId context));
                 ("source", JStr "ultrawealth-platform") ]
               (default [] metadata));
     occurredAt := occurred; recordedAt := recorded;
     hash := ""; previousHash := lastHashes st !! getTenantKey partitionKey |}.

(** [append]. [uuid] is the call's [randomUUID()], [occurred] and [recorded]
    its two [new Date()]; [metadata] lists the properties of the override
    object, if one is passed. The state returned with a [Throw] is the one the
    call leaves behind. *)
Definition append (als : option TenantContext.TenantContext) (st : EventStoreImpl)
    (uuid : string) (occurred recorded : Z)
    (type aggregateId aggregateType : string) (payload : jsval)
    (evidenceRefs : list string) (metadata : option (list (string * jsval)))
    : result DomainEvent * EventStoreImpl :=
  match TenantContext.getTenantContext als with
  | Throw err => (Throw err, st)
  | Ok context =>
      let partitionKey := TenantRegistry.partitionKey (TenantContext.tenant context) in
      let tenantKey := getTenantKey partitionKey in
      let events1 :=
        match events st !! tenantKey with
        | Some _ => events st
        | None => <[tenantKey := []]> (events st)
        end in
      let eventData := draft context st uuid occurred recorded type aggregateId
                         aggregateType payload evidenceRefs metadata in
      let sequences1 :=
        <[aggregateKey partitionKey aggregateType aggregateId := sequence eventData]>
          (aggregateSequences st) in
      match calculateHash eventData with
      | Throw err =>
          (Throw err,
           {| events := events1; aggregateSequences := sequences1;
              lastHashes := lastHashes st |})
      | Ok hash =>
          let event := set_hash hash eventData in
          (Ok event,
           {| events := <[tenantKey := (default [] (events1 !! tenantKey) ++ [event])%list]> events1;
              aggregateSequences := sequences1;
              lastHashes := <[tenantKey := hash]> (lastHashes st) |})
      end
  end.

(** The loop of [verifyChainIntegrity]: [previous] is its running variable
    [previousHash], [errors] what was pushed so far. *)
Fixpoint verify_loop (previous : option string) (errors : list string)
    (events : list DomainEvent) : result (list string) :=
  match events with
  | [] => Ok errors
  | event :: rest =>
      let errors1 :=
        if bool_decide (previousHash event ≠ previous)
        then (errors ++ ["Event " +:+ id event +:+ ": previous hash mismatch"])%list
        else errors in
      match calculateHash event with
      | Throw err => Throw err
      | Ok expectedHash =>
          let errors2 :=
            if bool_decide (hash event ≠ expectedHash)
            then (errors1 ++ ["Event " +:+ id event +:+ ": hash mismatch"])%list
            else errors1 in
          verify_loop (Some (hash event)) errors2 rest
      end
  end.

(** [verifyChainIntegrity]: [(valid, errors)]. *)
Definition verifyChainIntegrity (als : option TenantContext.TenantContext)
    (st : EventStoreImpl) : result (bool * list string) :=
  match TenantContext.getCurrentPartitionKey als with
  | Throw err => Throw err
  | Ok partitionKey =>
      let tenantKey := getTenantKey partitionKey in
      let events := default [] (events st !! tenantKey) in
      match verify_loop None [] events with
      | Throw err => Throw err
      | Ok errors => Ok (bool_decide (length errors = 0%nat), errors)
      end
  end.

End WithHash.

Section WithHandler.

Variable W : Type.
Variable violationHandler : IsolationGuards.IsolationViolation -> W -> W.

(** [query]; [now] is the [new Date()] of a violation report, should the
    guard make one. *)
Definition query (als : option TenantContext.TenantContext) (st : EventStoreImpl)
    (now : Z) (query : EventQuery) (w : W) : result EventPage * W :=
  match TenantContext.getCurrentPartitionKey als with
  | Throw err => (Throw err, w)
  | Ok partitionKey =>
      match IsolationGuards.QueryGuard_validatePartitionKey W violationHandler
              als now (Some partitionKey) w with
      | (Throw err, w') => (Throw err, w')
      | (Ok _, w') =>
          let tenantKey := getTenantKey partitionKey in
          let allEvents := default [] (events st !! tenantKey) in
          let filtered := filter (fun e => matches query e = true) allEvents in
          let filtered :=
            match truthy_string (q_cursor query) with
            | Some cursor => default filtered (after_cursor cursor filtered)
            | None => filtered
            end in
          let limit := default 100 (q_limit query) in
          let hasMore := Z.of_nat (length filtered) >? limit in
          let events := slice_to limit filtered in
          (Ok {| events_of := events;
                 nextCursor := if hasMore then id <$> last events else None;
                 hasMore := hasMore |}, w')
      end
  end.

(** [getAggregateEvents] *)
Definition getAggregateEvents (als : option TenantContext.TenantContext)
    (st : EventStoreImpl) (now : Z) (aggregateType aggregateId : string) (w : W)
    : result (list DomainEvent) * W :=
  match query als st now
          {| q_aggregateId := Some aggregateId; q_aggregateType := Some aggregateType;
             q_eventType := None; q_fromTime := None; q_toTime := None;
             q_fromSequence := None; q_limit := None; q_cursor := None |} w with
  | (Throw err, w') => (Throw err, w')
  | (Ok result, w') => (Ok (events_of result), w')
  end.

End WithHandler.

End EventStore.

(** ** Governance adapter (platform/governance/governance-adapter.ts) *)

Module GovernanceAdapter.

Record GovernanceEnforcement := {
  forbiddenAdvisoryTerms : list string;
  forbiddenExecutionTerms : list string;
  forbiddenSorPatterns : list string;
  forbiddenDependencies : list string;
  advisoryAllowed : bool;
  executionAllowed : bool;
  sorAllowed : bool;
}.

Record GovernanceProfile := {
  name : TenantRegistry.TenantProfile;
  displayName : string;
  enforcement : GovernanceEnforcement;
}.

Inductive GovernanceViolationType :=
| ADVISORY_LANGUAGE
| EXECUTION_CAPABILITY
| SOR_LEAKAGE
| FORBIDDEN_DEPENDENCY.

Inductive Severity := error | warning.

Record GovernanceViolation := {
  type : GovernanceViolationType;
  term : string;
  context : string;
  severity : Severity;
  profile : TenantRegistry.TenantProfile;
  timestamp : Z;
}.

Definition FO_PROFILE : GovernanceProfile :=
  {| name := TenantRegistry.fo;
     displayName := "Family Office";
     enforcement :=
       {| forbiddenAdvisoryTerms :=
            [ "recommend"; "recommended"; "suggest"; "suggested"; "advise"; "advised";
              "optimise"; "optimize"; "allocate"; "allocation"; "outperform";
              "beat the market"; "should invest"; "consider investing";
              "investment opportunity"; "buy"; "sell"; "hold" ];
          forbiddenExecutionTerms :=
            [ "execute"; "placeOrder"; "submitTrade"; "rebalance"; "trade"; "order";
              "transact" ];
          forbiddenSorPatterns :=
            [ "updateBalance"; "setBalance"; "mutateBalance"; "reconcilePosition";
              "postTransaction"; "createJournalEntry"; "postJournal"; "updateLedger";
              "ledgerEntry" ];
          forbiddenDependencies :=
            [ "@turingos/ledger"; "@turingos/execution"; "@turingos/trading";
              "@turingos/oms"; "@turingos/decision-engine";
              "@turingos/allocation-engine" ];
          advisoryAllowed := false;
          executionAllowed := false;
          sorAllowed := false |} |}.

Definition RETAIL_PROFILE : GovernanceProfile :=
  {| name := TenantRegistry.retail;
     displayName := "Retail";
     enforcement :=
       {| forbiddenAdvisoryTerms :=
            [ "recommend"; "recommended"; "suggest"; "suggested"; "advise"; "advised";
              "should invest"; "consider investing" ];
          forbiddenExecutionTerms :=
            [ "execute"; "placeOrder"; "submitTrade"; "rebalance" ];
          forbiddenSorPatterns :=
            [ "updateBalance"; "setBalance"; "postTransaction"; "updateLedger" ];
          forbiddenDependencies :=
            [ "@turingos/ledger"; "@turingos/execution"; "@turingos/trading";
              "@turingos/oms" ];
          advisoryAllowed := false;
          executionAllowed := false;
          sorAllowed := false |} |}.

Definition ADVISOR_PROFILE : GovernanceProfile :=
  {| name := TenantRegistry.advisor;
     displayName := "Advisor";
     enforcement :=
       {| forbiddenAdvisoryTerms := [];
          forbiddenExecutionTerms :=
            [ "execute"; "placeOrder"; "submitTrade"; "rebalance" ];
          forbiddenSorPatterns :=
            [ "updateBalance"; "setBalance"; "postTransaction"; "updateLedger" ];
          forbiddenDependencies :=
            [ "@turingos/ledger"; "@turingos/execution"; "@turingos/trading";
              "@turingos/oms" ];
          advisoryAllowed := true;
          executionAllowed := false;
          sorAllowed := false |} |}.

(** [PROFILES.get]; the constructor of [GovernanceAdapter] keeps the profile
    it finds, so an adapter is its profile. *)
Definition PROFILES (tenantProfile : TenantRegistry.TenantProfile) : GovernanceProfile :=
  match tenantProfile with
  | TenantRegistry.fo => FO_PROFILE
  | TenantRegistry.retail => RETAIL_PROFILE
  | TenantRegistry.advisor => ADVISOR_PROFILE
  end.

Definition forCurrentTenant (als : option TenantContext.TenantContext)
    : result GovernanceProfile :=
  tenantProfile ← TenantContext.getCurrentTenantProfile als; Ok (PROFILES tenantProfile).

Section WithCase.

(** [String.prototype.toLowerCase] *)
Variable toLowerCase : string -> string.

(** [extractContext] *)
Definition extractContext (text term : string) : string :=
  let lowerText := toLowerCase text in
  let lowerTerm := toLowerCase term in
  match JsString.indexOf lowerText lowerTerm with
  | None => ""
  | Some index =>
      let start := (index - 30)%nat in
      let stop := Nat.min (String.length text) (index + String.length term + 30) in
      "..." +:+ JsString.substring text start stop +:+ "..."
  end.

(** The [for] loop of [checkAdvisoryLanguage]; [now k] is the [new Date()] of
    the violation pushed when [k] are already there. *)
Fixpoint checkAdvisoryLanguage_loop (adapter : GovernanceProfile) (now : nat -> Z)
    (text : string) (terms : list string) (violations : list GovernanceViolation)
    : list GovernanceViolation :=
  match terms with
  | [] => violations
  | term :: rest =>
      if JsString.includes (toLowerCase text) (toLowerCase term) then
        checkAdvisoryLanguage_loop adapter now text rest
          (violations ++
             [ {| type := ADVISORY_LANGUAGE;
                  term := term;
                  context := extractContext text term;
                  severity := error;
                  profile := name adapter;
                  timestamp := now (length violations) |} ])%list
      else checkAdvisoryLanguage_loop adapter now text rest violations
  end.

(** [checkAdvisoryLanguage] *)
Definition checkAdvisoryLanguage (adapter : GovernanceProfile) (now : nat -> Z)
    (text : string) : list GovernanceViolation :=
  if advisoryAllowed (enforcement adapter) then []
  else checkAdvisoryLanguage_loop adapter now text
         (forbiddenAdvisoryTerms (enforcement adapter)) [].

End WithCase.

End GovernanceAdapter.

(** ** Enforcement hooks (platform/governance/enforcement-hooks.ts) *)

Module EnforcementHooks.

(** The regular expression [new RegExp(`\\b${term}\\b`, 'gi')] for a term
    made of letters, digits and spaces, as every configured advisory term is:
    the term itself, in any case, between two word boundaries. *)

(** A character of the class [\w]. *)
Definition is_word (c : option ascii) : bool :=
  match c with
  | None => false
  | Some c =>
      let n := nat_of_ascii c in
      ((48 <=? n) && (n <=? 57) || (65 <=? n) && (n <=? 90)
       || (97 <=? n) && (n <=? 122) || (n =? 95))%nat
  end.

(** [\b] between two neighbours ([None] past either end of the input). *)
Definition boundary (before after : option ascii) : bool :=
  xorb (is_word before) (is_word after).

Definition head (s : string) : option ascii :=
  match s with
  | EmptyString => None
  | String c _ => Some c
  end.

(** The input after the characters of [term], read in any case, with the last
    character read. *)
Fixpoint strip (term s : string) (last : option ascii) : option (option ascii * string) :=
  match term with
  | EmptyString => Some (last, s)
  | String t term' =>
      match s with
      | EmptyString => None
      | String c s' =>
          if Ascii.eqb (JsString.lower_char c) (JsString.lower_char t)
          then strip term' s' (Some c)
          else None
      end
  end.

(** A match starting at the head of [s], whose left neighbour is [before]. *)
Definition match_at (term : string) (before : option ascii) (s : string) : bool :=
  match strip term s before with
  | Some (last, rest) => boundary before (head s) && boundary last (head rest)
  | None => false
  end.

(** [regex.test(s)] on a fresh regular expression. *)
Fixpoint regex_test (term : string) (before : option ascii) (s : string) : bool :=
  match_at term before s ||
  match s with
  | EmptyString => false
  | String c rest => regex_test term (Some c) rest
  end.

(** [s.replace(regex, replacement)]: every match, left to right, the search
    resuming after each; [skip] counts the characters of a match still to
    pass. *)
Fixpoint regex_replace (term replacement : string) (before : option ascii) (skip : nat)
    (s : string) : string :=
  match s with
  | EmptyString => EmptyString
  | String c rest =>
      match skip with
      | S k => regex_replace term replacement (Some c) k rest
      | O =>
          if match_at term before s then
            replacement +:+
              regex_replace term replacement (Some c) (String.length term - 1) rest
          else String c (regex_replace term replacement (Some c) 0 rest)
      end
  end.

(** The [for] loop of [sanitizeContent]. *)
Fixpoint sanitizeContent_loop (terms : list string) (sanitized : string)
    (removedTerms : list string) : string * list string :=
  match terms with
  | [] => (sanitized, removedTerms)
  | term :: rest =>
      if regex_test term None sanitized then
        sanitizeContent_loop rest (regex_replace term "[REDACTED]" None 0 sanitized)
          (removedTerms ++ [term])%list
      else sanitizeContent_loop rest sanitized removedTerms
  end.

(** [sanitizeContent]: [(sanitized, removedTerms)]. *)
Definition sanitizeContent (als : option TenantContext.TenantContext) (content : string)
    : result (string * list string) :=
  adapter ← GovernanceAdapter.forCurrentTenant als;
  Ok (sanitizeContent_loop
        (GovernanceAdapter.forbiddenAdvisoryTerms (GovernanceAdapter.enforcement adapter))
        content []).

End EnforcementHooks.

(** ** Evidence linker (platform/evidence/evidence-linker.ts) *)

Module EvidenceLinker.

Inductive EvidenceType :=
| document
| statement
| valuation
| screenshot
| api_response
| manual_entry
| external_report.

(** A [Buffer]: its bytes. *)
Abbreviation Buffer := (list Byte.byte).

Record Evidence := {
  id : string;
  type : EvidenceType;
  tenantId : string;
  partitionKey : string;
  description : string;
  source : string;
  mimeType : string;
  sizeBytes : Z;
  contentHash : string;
  storageLocation : string;
  capturedAt : Z;
  linkedAt : Z;
  linkedBy : option string;
  metadata : option (list (string * jsval));
  linkedEvents : list string;
}.

(** The [content] of a request: a [Buffer] or a string. *)
Inductive Content :=
| OfBuffer (bytes : Buffer)
| OfString (text : string).

Record EvidenceCreateRequest := {
  r_type : EvidenceType;
  r_description : string;
  r_source : string;
  r_mimeType : string;
  r_content : Content;
  r_capturedAt : option Z;
  r_metadata : option (list (string * jsval));
}.

Record EvidenceLinkRequest := {
  evidenceId : string;
  eventId : string;
}.

(** [eventToEvidence] maps an event to a [Set] of evidence ids, kept here in
    insertion order. *)
Record EvidenceLinkerImpl := {
  evidence : gmap string Evidence;
  contentStore : gmap string Buffer;
  eventToEvidence : gmap string (list string);
}.

Definition empty : EvidenceLinkerImpl :=
  {| evidence := ∅; contentStore := ∅; eventToEvidence := ∅ |}.

Definition getTenantKey (partitionKey : string) : string :=
  "evidence:" +:+ partitionKey.

Definition evidenceKey (partitionKey evidenceId : string) : string :=
  getTenantKey partitionKey +:+ ":" +:+ evidenceId.

(** [Set.prototype.add] *)
Definition set_add (x : string) (xs : list string) : list string :=
  if bool_decide (x ∈ xs) then xs else (xs ++ [x])%list.

Definition add_link (e : Evidence) (event : string) : Evidence :=
  {| id := id e; type := type e; tenantId := tenantId e; partitionKey := partitionKey e;
     description := description e; source := source e; mimeType := mimeType e;
     sizeBytes := sizeBytes e; contentHash := contentHash e;
     storageLocation := storageLocation e; capturedAt := capturedAt e;
     linkedAt := linkedAt e; linkedBy := linkedBy e; metadata := metadata e;
     linkedEvents := (linkedEvents e ++ [event])%list |}.

Section WithHash.

(** [createHash('sha256').update(buffer).digest('hex')], and
    [Buffer.from(text, 'utf-8')]. *)
Variable sha256 : Buffer -> string.
Variable utf8 : string -> Buffer.

Definition contentBuffer (content : Content) : Buffer :=
  match content with
  | OfBuffer bytes => bytes
  | OfString text => utf8 text
  end.

(** [create]; [uuid] is its [randomUUID()], [now1] the [new Date()] that
    stands in for a missing [capturedAt], [now2] the one of [linkedAt]. *)
Definition create (als : option TenantContext.TenantContext) (st : EvidenceLinkerImpl)
    (request : EvidenceCreateRequest) (uuid : string) (now1 now2 : Z)
    : result Evidence * EvidenceLinkerImpl :=
  match TenantContext.getTenantContext als with
  | Throw err => (Throw err, st)
  | Ok context =>
      let tenantId := TenantRegistry.id (TenantContext.tenant context) in
      let partitionKey := TenantRegistry.partitionKey (TenantContext.tenant context) in
      let contentBuffer := contentBuffer (r_content request) in
      let contentHash := sha256 contentBuffer in
      let storageLocation := partitionKey +:+ "/evidence/" +:+ uuid in
      let evidence1 :=
        {| id := uuid; type := r_type request; tenantId := tenantId;
           partitionKey := partitionKey; description := r_description request;
           source := r_source request; mimeType := r_mimeType request;
           sizeBytes := Z.of_nat (length contentBuffer);
           contentHash := contentHash; storageLocation := storageLocation;
           capturedAt := default now1 (r_capturedAt request);
           linkedAt := now2;
           linkedBy := TenantContext.userId context;
           metadata := r_metadata request;
           linkedEvents := [] |} in
      (Ok evidence1,
       {| evidence := <[evidenceKey partitionKey uuid := evidence1]> (evidence st);
          contentStore := <[storageLocation := contentBuffer]> (contentStore st);
          eventToEvidence := eventToEvidence st |})
  end.

Section WithHandler.

Variable W : Type.
Variable violationHandler : IsolationGuards.IsolationViolation -> W -> W.

(** [getById]; [now] is the [new Date()] of a violation report, should the
    guard make one. *)
Definition getById (als : option TenantContext.TenantContext) (st : EvidenceLinkerImpl)
    (now : Z) (evidenceId : string) (w : W) : result (option Evidence) * W :=
  match TenantContext.getCurrentPartitionKey als with
  | Throw err => (Throw err, w)
  | Ok partitionKey =>
      match IsolationGuards.QueryGuard_validatePartitionKey W violationHandler
              als now (Some partitionKey) w with
      | (Throw err, w') => (Throw err, w')
      | (Ok _, w') => (Ok (evidence st !! evidenceKey partitionKey evidenceId), w')
      end
  end.

(** [getContent] *)
Definition getContent (als : option TenantContext.TenantContext) (st : EvidenceLinkerImpl)
    (now : Z) (evidenceId : string) (w : W) : result (option Buffer) * W :=
  match getById als st now evidenceId w with
  | (Throw err, w') => (Throw err, w')
  | (Ok None, w') => (Ok None, w')
  | (Ok (Some evidence0), w') => (Ok (contentStore st !! storageLocation evidence0), w')
  end.

(** [linkToEvent] *)
Definition linkToEvent (als : option TenantContext.TenantContext)
    (st : EvidenceLinkerImpl) (now : Z) (request : EvidenceLinkRequest) (w : W)
    : result Evidence * EvidenceLinkerImpl * W :=
  match TenantContext.getCurrentPartitionKey als with
  | Throw err => (Throw err, st, w)
  | Ok partitionKey =>
      match IsolationGuards.QueryGuard_validatePartitionKey W violationHandler
              als now (Some partitionKey) w with
      | (Throw err, w') => (Throw err, st, w')
      | (Ok _, w') =>
          let key := evidenceKey partitionKey (evidenceId request) in
          match evidence st !! key with
          | None =>
              (Throw (Error ("Evidence " +:+ evidenceId request +:+ " not found")), st, w')
          | Some existing =>
              let updated := add_link existing (eventId request) in
              (Ok updated,
               {| evidence := <[key := updated]> (evidence st);
                  contentStore := contentStore st;
                  eventToEvidence :=
                    <[eventId request :=
                        set_add (evidenceId request)
                          (default [] (eventToEvidence st !! eventId request))]>
                      (eventToEvidence st) |},
               w')
          end
      end
  end.

(** The loop of [getForEvent] over the ids linked to the event. *)
Fixpoint getForEvent_loop (als : option TenantContext.TenantContext)
    (st : EvidenceLinkerImpl) (now : Z) (evidenceIds : list string)
    (results : list Evidence) (w : W) : result (list Evidence) * W :=
  match evidenceIds with
  | [] => (Ok results, w)
  | i :: rest =>
      match getById als st now i w with
      | (Throw err, w') => (Throw err, w')
      | (Ok (Some evidence0), w') =>
          getForEvent_loop als st now rest (results ++ [evidence0])%list w'
      | (Ok None, w') => getForEvent_loop als st now rest results w'
      end
  end.

(** [getForEvent] *)
Definition getForEvent (als : option TenantContext.TenantContext)
    (st : EvidenceLinkerImpl) (now : Z) (eventId : string) (w : W)
    : result (list Evidence) * W :=
  match TenantContext.getCurrentPartitionKey als with
  | Throw err => (Throw err, w)
  | Ok partitionKey =>
      match IsolationGuards.QueryGuard_validatePartitionKey W violationHandler
              als now (Some partitionKey) w with
      | (Throw err, w') => (Throw err, w')
      | (Ok _, w') =>
          getForEvent_loop als st now (default [] (eventToEvidence st !! eventId)) [] w'
      end
  end.

(** The answer of [verifyIntegrity]. *)
Record Verification := {
  valid : bool;
  expectedHash : string;
  actualHash : string;
}.

(** [verifyIntegrity] *)
Definition verifyIntegrity (als : option TenantContext.TenantContext)
    (st : EvidenceLinkerImpl) (now : Z) (evidenceId : string) (w : W)
    : result Verification * W :=
  match getById als st now evidenceId w with
  | (Throw err, w1) => (Throw err, w1)
  | (Ok None, w1) => (Throw (Error ("Evidence " +:+ evidenceId +:+ " not found")), w1)
  | (Ok (Some evidence0), w1) =>
      match getContent als st now evidenceId w1 with
      | (Throw err, w2) => (Throw err, w2)
      | (Ok None, w2) =>
          (Throw (Error ("Evidence content not found for " +:+ evidenceId)), w2)
      | (Ok (Some content), w2) =>
          let actual := sha256 content in
          (Ok {| valid := bool_decide (actual = contentHash evidence0);
                 expectedHash := contentHash evidence0;
                 actualHash := actual |}, w2)
      end
  end.

End WithHandler.

End WithHash.

End EvidenceLinker.

(** ** Replay engine (platform/evidence/replay-engine.ts) *)

Module ReplayEngine.

Record ReplayOptions := {
  asOf : option Z;
  upToEventId : option string;
  eventTypes : option (list string);
  aggregateId : option string;
  aggregateType : option string;
  includeEvidence : option bool;
}.

(** A value as a variable or a property holds it: a primitive, or a
    reference to an object of the heap. *)
Inductive value :=
| VUndefined
| VNull
| VBool (b : bool)
| VNum (n : Z)
| VNaN
| VBigInt (n : Z)
| VStr (s : string)
| VRef (l : nat).

(** An object of the heap: a plain object with its own enumerable
    properties in order, an array or a [Date]. *)
Inductive object :=
| Obj (props : list (string * value))
| Arr (xs : list value)
| Date (ms : Z).

Abbreviation Heap := (gmap nat object).

(** A handler is a JavaScript function: called on a heap with the state and
    the event, it returns a value or throws, and leaves a heap. Nothing
    limits what it reads or writes there, nor what it returns. *)
Definition EventHandler : Type :=
  Heap -> value -> EventStore.DomainEvent -> result value * Heap.

(** [this.handlers[event.type]] *)
Definition EventHandlerRegistry : Type := string -> option EventHandler.

Record ReplayEngine := {
  handlers : EventHandlerRegistry;
  initialState : value;
}.

Record ReplayResult := {
  state : value;
  events : list EventStore.DomainEvent;
  evidence : list EvidenceLinker.Evidence;
  r_asOf : option Z;
  eventCount : nat;
  durationMs : Z;
}.

Definition keep (kv : string * option jsval) : option (string * jsval) :=
  match kv.2 with
  | Some v => Some (kv.1, v)
  | None => None
  end.

(** A loop that threads the heap through the elements of a list. *)
Fixpoint thread {A B : Type} (f : A -> Heap -> B * Heap) (l : list A) (h : Heap)
    : list B * Heap :=
  match l with
  | [] => ([], h)
  | x :: rest =>
      let '(y, h1) := f x h in
      let '(ys, h2) := thread f rest h1 in
      (y :: ys, h2)
  end.

Section Walk.

(** What the walk does at a [BigInt]. *)
Variable bigint : Z -> result jsval.

(** The walk [JSON.stringify] makes from a value through the objects it
    refers to, in the order of their properties and elements; [stack] holds
    the objects it is inside of, and meeting one of them again is the
    circular structure it throws at. [fuel] bounds the depth, which the
    stack bounds by the number of objects of the heap. A reference to no
    object of the heap, which no JavaScript value is, ends the walk. *)
Fixpoint walk (fuel : nat) (stack : list nat) (h : Heap) (v : value) : result jsval :=
  match v with
  | VUndefined => Ok JUndefined
  | VNull => Ok JNull
  | VBool b => Ok (JBool b)
  | VNum n => Ok (JNum n)
  | VNaN => Ok JNaN
  | VBigInt n => bigint n
  | VStr s => Ok (JStr s)
  | VRef l =>
      if bool_decide (l ∈ stack)
      then Throw (TypeError "Converting circular structure to JSON")
      else
        match h !! l with
        | None => Throw (Error "no such object")
        | Some (Date ms) => Ok (JDate ms)
        | Some (Arr xs) =>
            match fuel with
            | O => Throw (TypeError "Converting circular structure to JSON")
            | S fuel' =>
                match Json.traverse (walk fuel' (l :: stack) h) xs with
                | Throw e => Throw e
                | Ok elements => Ok (JArr elements)
                end
            end
        | Some (Obj props) =>
            match fuel with
            | O => Throw (TypeError "Converting circular structure to JSON")
            | S fuel' =>
                match Json.traverse (fun kv => match walk fuel' (l :: stack) h kv.2 with
                                               | Throw e => Throw e
                                               | Ok x => Ok (kv.1, x)
                                               end) props with
                | Throw e => Throw e
                | Ok members => Ok (JObj members)
                end
            end
        end
  end.

End Walk.

(** What [JSON.stringify] reads of a value on a heap: the tree of the
    objects it walks through; a [BigInt] anywhere throws. *)
Definition unfold (h : Heap) (v : value) : result jsval :=
  walk (fun _ => Throw (TypeError "Do not know how to serialize a BigInt")) (size h) [] h v.

(** The value [JSON.parse] builds for a tree: every object and array of it
    is a new object of the heap. *)
Fixpoint build (t : jsval) (h : Heap) : value * Heap :=
  match t with
  | JUndefined => (VUndefined, h)
  | JNull => (VNull, h)
  | JBool b => (VBool b, h)
  | JNum n => (VNum n, h)
  | JNaN => (VNaN, h)
  | JBigInt n => (VBigInt n, h)
  | JStr s => (VStr s, h)
  | JDate ms => let l := fresh (dom h) in (VRef l, <[l := Date ms]> h)
  | JArr xs =>
      let '(elements, h1) := thread build xs h in
      let l := fresh (dom h1) in
      (VRef l, <[l := Arr elements]> h1)
  | JObj props =>
      let '(members, h1) :=
        thread (fun kv h0 => let '(x, h') := build kv.2 h0 in ((kv.1, x), h')) props h in
      let l := fresh (dom h1) in
      (VRef l, <[l := Obj members]> h1)
  end.

Section WithDates.

Variable toISOString : Z -> string.

(** The value [JSON.parse] reads back from [JSON.stringify(v)]; [None] when
    the latter is [undefined]. *)
Fixpoint reparse (v : jsval) : result (option jsval) :=
  match v with
  | JUndefined => Ok None
  | JNull => Ok (Some JNull)
  | JBool b => Ok (Some (JBool b))
  | JNum n => Ok (Some (JNum n))
  | JNaN => Ok (Some JNull)
  | JBigInt _ => Throw (TypeError "Do not know how to serialize a BigInt")
  | JStr s => Ok (Some (JStr s))
  | JDate ms => Ok (Some (JStr (toISOString ms)))
  | JArr xs =>
      match Json.traverse reparse xs with
      | Throw e => Throw e
      | Ok parts => Ok (Some (JArr (default JNull <$> parts)))
      end
  | JObj props =>
      match Json.traverse (fun kv => match reparse kv.2 with
                                     | Throw e => Throw e
                                     | Ok s => Ok (kv.1, s)
                                     end) props with
      | Throw e => Throw e
      | Ok parts => Ok (Some (JObj (omap keep parts)))
      end
  end.

(** [deepClone]: [JSON.parse(JSON.stringify(obj))], on the heap [h]. It
    returns the copy and the heap that holds it. *)
Definition deepClone (h : Heap) (obj : value) : result value * Heap :=
  match unfold h obj with
  | Throw e => (Throw e, h)
  | Ok t =>
      match reparse t with
      | Throw e => (Throw e, h)
      | Ok None => (Throw (SyntaxError "undefined is not valid JSON"), h)
      | Ok (Some copy) =>
          let '(clone, h') := build copy h in
          (Ok clone, h')
      end
  end.

(** The [for] loop that applies the handlers: [state] is the loop variable,
    which takes whatever the handler returns. *)
Fixpoint apply_handlers (handlers : EventHandlerRegistry) (h : Heap) (state : value)
    (events : list EventStore.DomainEvent) : result value * Heap :=
  match events with
  | [] => (Ok state, h)
  | event :: rest =>
      match handlers (EventStore.type event) with
      | None => apply_handlers handlers h state rest
      | Some handler =>
          match handler h state event with
          | (Throw e, h1) => (Throw e, h1)
          | (Ok state1, h1) => apply_handlers handlers h1 state1 rest
          end
      end
  end.

Section WithHandler.

Variable W : Type.
Variable violationHandler : IsolationGuards.IsolationViolation -> W -> W.

(** The loop that gathers the evidence of the replayed events. *)
Fixpoint gather_evidence (als : option TenantContext.TenantContext)
    (el : EvidenceLinker.EvidenceLinkerImpl) (now : Z)
    (events : list EventStore.DomainEvent) (evidence : list EvidenceLinker.Evidence)
    (w : W) : result (list EvidenceLinker.Evidence) * W :=
  match events with
  | [] => (Ok evidence, w)
  | event :: rest =>
      match EvidenceLinker.getForEvent W violationHandler als el now
              (EventStore.id event) w with
      | (Throw e, w') => (Throw e, w')
      | (Ok eventEvidence, w') =>
          gather_evidence als el now rest (evidence ++ eventEvidence)%list w'
      end
  end.

(** The events [replay] folds: those the store's [query] returns, narrowed
    by [eventTypes] and cut before [upToEventId]. *)
Definition select (options : ReplayOptions) (page : list EventStore.DomainEvent)
    : list EventStore.DomainEvent :=
  let events :=
    match eventTypes options with
    | Some (t :: ts) =>
        filter (fun e => EventStore.type e ∈ t :: ts) page
    | _ => page
    end in
  match EventStore.truthy_string (upToEventId options) with
  | Some upTo =>
      match list_find (fun e => EventStore.id e = upTo) events with
      | Some (index, _) => take index events
      | None => events
      end
  | None => events
  end.

(** [replay]. [startTime] and [endTime] are its two [Date.now()], [now] the
    [new Date()] of a violation report, should a guard make one. It returns
    the result, the heap it leaves and what the violation handler did. *)
Definition replay (engine : ReplayEngine) (als : option TenantContext.TenantContext)
    (es : EventStore.EventStoreImpl) (el : EvidenceLinker.EvidenceLinkerImpl)
    (startTime endTime now : Z) (options : ReplayOptions) (h : Heap) (w : W)
    : result ReplayResult * Heap * W :=
  let query :=
    {| EventStore.q_aggregateId := aggregateId options;
       EventStore.q_aggregateType := aggregateType options;
       EventStore.q_eventType := None;
       EventStore.q_fromTime := None;
       EventStore.q_toTime := asOf options;
       EventStore.q_fromSequence := None;
       EventStore.q_limit := None;
       EventStore.q_cursor := None |} in
  match EventStore.query W violationHandler als es now query w with
  | (Throw e, w1) => (Throw e, h, w1)
  | (Ok eventPage, w1) =>
      let events := select options (EventStore.events_of eventPage) in
      match deepClone h (initialState engine) with
      | (Throw e, h0) => (Throw e, h0, w1)
      | (Ok state0, h0) =>
          match apply_handlers (handlers engine) h0 state0 events with
          | (Throw e, h1) => (Throw e, h1, w1)
          | (Ok state, h1) =>
              match (if default false (includeEvidence options)
                     then gather_evidence als el now events [] w1
                     else (Ok [], w1)) with
              | (Throw e, w2) => (Throw e, h1, w2)
              | (Ok evidence, w2) =>
                  (Ok {| state := state;
                         events := events;
                         evidence := evidence;
                         r_asOf := EventStore.occurredAt <$> last events;
                         eventCount := length events;
                         durationMs := endTime - startTime |},
                   h1, w2)
              end
          end
      end
  end.

End WithHandler.

End WithDates.

End ReplayEngine.

(** ** Tenant registry: lookups and type guards
    (platform/tenancy/tenant-registry.ts) *)

Module TenantRegistryLookups.
Import TenantRegistry.

(** [getByPartitionKey]: an id that is absent or empty is falsy. *)
Definition getByPartitionKey (reg : TenantRegistryImpl) (partitionKey : string)
    : option TenantConfig :=
  match EventStore.truthy_string (tenantsByPartition reg !! partitionKey) with
  | None => None
  | Some tenantId => getById reg tenantId
  end.

(** [exists] *)
Definition exists_ (reg : TenantRegistryImpl) (tenantId : string) : bool :=
  bool_decide (is_Some (tenants reg !! tenantId)).

Definition profile_name (p : TenantProfile) : string :=
  match p with
  | fo => "fo"
  | retail => "retail"
  | advisor => "advisor"
  end.

(** [isValidTenantProfile] *)
Definition isValidTenantProfile (value : jsval) : bool :=
  IsolationGuards.strict_eq_string value "fo"
  || IsolationGuards.strict_eq_string value "retail"
  || IsolationGuards.strict_eq_string value "advisor".

(** [isValidTenantStatus] *)
Definition isValidTenantStatus (value : jsval) : bool :=
  match value with
  | JStr s =>
      bool_decide (s ∈ [ "provisioning"; "onboarding"; "active"; "suspended";
                         "offboarding"; "terminated" ])
  | _ => false
  end.

End TenantRegistryLookups.

(** ** Tenant context: accessors and assertions
    (platform/tenancy/tenant-context.ts) *)

Module TenantAssertions.
Import TenantContext.

Definition getCurrentEncryptionKeyId (als : option TenantContext) : result string :=
  context ← getTenantContext als; Ok (TenantRegistry.encryptionKeyId (tenant context)).

Definition assertTenantContext (als : option TenantContext) : result unit :=
  context ← getTenantContext als; Ok tt.

Definition assertTenantProfile (als : option TenantContext)
    (profile : TenantRegistry.TenantProfile) : result unit :=
  current ← getCurrentTenantProfile als;
  if bool_decide (current ≠ profile) then
    Throw (TenantContextError PROFILE_MISMATCH
      ("Operation requires profile " +:+ JsString.dquote
         +:+ TenantRegistryLookups.profile_name profile +:+ JsString.dquote
         +:+ " but tenant has profile " +:+ JsString.dquote
         +:+ TenantRegistryLookups.profile_name current +:+ JsString.dquote))
  else Ok tt.

Definition assertUserRole (als : option TenantContext) (role : string) : result unit :=
  context ← getTenantContext als;
  if negb (bool_decide (role ∈ roles context)) then
    Throw (TenantContextError ROLE_REQUIRED
      ("Operation requires role " +:+ JsString.dquote +:+ role +:+ JsString.dquote))
  else Ok tt.

Definition validateResourceOwnership (als : option TenantContext)
    (resourceTenantId : string) : result unit :=
  currentTenantId ← getCurrentTenantId als;
  if bool_decide (resourceTenantId ≠ currentTenantId) then
    Throw (TenantContextError CROSS_TENANT_ACCESS
      "Access denied: resource belongs to a different tenant")
  else Ok tt.

Definition validatePartitionKey (als : option TenantContext) (partitionKey : string)
    : result unit :=
  currentPartitionKey ← getCurrentPartitionKey als;
  if bool_decide (partitionKey ≠ currentPartitionKey) then
    Throw (TenantContextError CROSS_TENANT_ACCESS
      "Access denied: partition key mismatch")
  else Ok tt.

End TenantAssertions.

(** ** Isolation guards: joins, cache keys, events, resources
    (platform/tenancy/isolation-guards.ts) *)

Module Guards.
Import IsolationGuards.

(** What [createTenantFilter], [createExportMetadata] and
    [createEventMetadata] return. *)
Record TenantFilter := {
  f_partitionKey : string;
  f_tenantId : string;
}.

Record ExportMetadata := {
  x_tenantId : string;
  x_partitionKey : string;
  x_encryptionKeyId : string;
  x_exportedAt : string;
  x_correlationId : string;
}.

Record EventMetadata := {
  m_tenantId : string;
  m_partitionKey : string;
  m_correlationId : string;
  m_timestamp : string;
}.

Section WithHandler.

Variable W : Type.
Variable violationHandler : IsolationViolation -> W -> W.
Variable String_ : jsval -> string.
Variable toISOString : Z -> string.

(** The [for] loop of [validateNoMultiTenantJoin], from index [i] on;
    [partitionKeys[i]] is [undefined] past the end of the array. *)
Fixpoint validateNoMultiTenantJoin_loop (als : option TenantContext.TenantContext)
    (now : Z) (expectedKey : string) (partitionKeys : list (option string)) (i : nat)
    (tableNames : list string) (w : W) : result unit * W :=
  match tableNames with
  | [] => (Ok tt, w)
  | table :: rest =>
      match EventStore.truthy_string (mjoin (partitionKeys !! i)) with
      | None =>
          let '(e, w') := reportViolation W violationHandler als now MULTI_TENANT_JOIN
            ("Table " +:+ table +:+ " missing partition key in join") (Some table) w in
          (Throw e, w')
      | Some pk =>
          if bool_decide (pk ≠ expectedKey) then
            let '(e, w') := reportViolation W violationHandler als now MULTI_TENANT_JOIN
              ("Table " +:+ table +:+ " has different partition key in join")
              (Some table) w in
            (Throw e, w')
          else
            validateNoMultiTenantJoin_loop als now expectedKey partitionKeys (S i) rest w
      end
  end.

(** [QueryGuard.validateNoMultiTenantJoin] *)
Definition QueryGuard_validateNoMultiTenantJoin (als : option TenantContext.TenantContext)
    (now : Z) (tableNames : list string) (partitionKeys : list (option string)) (w : W)
    : result unit * W :=
  match TenantContext.getCurrentPartitionKey als with
  | Throw e => (Throw e, w)
  | Ok expectedKey =>
      validateNoMultiTenantJoin_loop als now expectedKey partitionKeys 0 tableNames w
  end.

(** [QueryGuard.createTenantFilter] *)
Definition QueryGuard_createTenantFilter (als : option TenantContext.TenantContext)
    : result TenantFilter :=
  partitionKey ← TenantContext.getCurrentPartitionKey als;
  tenantId ← TenantContext.getCurrentTenantId als;
  Ok {| f_partitionKey := partitionKey; f_tenantId := tenantId |}.

(** [CacheGuard.scopeKey] *)
Definition CacheGuard_scopeKey (als : option TenantContext.TenantContext)
    (baseKey : string) : result string :=
  partitionKey ← TenantContext.getCurrentPartitionKey als;
  Ok (partitionKey +:+ ":" +:+ baseKey).

(** [CacheGuard.validateKey] *)
Definition CacheGuard_validateKey (als : option TenantContext.TenantContext)
    (now : Z) (cacheKey : string) (w : W) : result unit * W :=
  match TenantContext.getCurrentPartitionKey als with
  | Throw e => (Throw e, w)
  | Ok partitionKey =>
      if negb (JsString.startsWith cacheKey (partitionKey +:+ ":")) then
        let '(e, w') := reportViolation W violationHandler als now CROSS_TENANT_CACHE
          "Cache key does not belong to current tenant" (Some cacheKey) w in
        (Throw e, w')
      else (Ok tt, w)
  end.

(** [CacheGuard.isProperlyScoped] *)
Definition CacheGuard_isProperlyScoped (als : option TenantContext.TenantContext)
    (cacheKey : string) : result bool :=
  partitionKey ← TenantContext.getCurrentPartitionKey als;
  Ok (JsString.startsWith cacheKey (partitionKey +:+ ":")).

(** [ExportGuard.createExportMetadata]; [now] is its [new Date()]. *)
Definition ExportGuard_createExportMetadata (als : option TenantContext.TenantContext)
    (now : Z) : result ExportMetadata :=
  context ← TenantContext.getTenantContext als;
  Ok {| x_tenantId := TenantRegistry.id (TenantContext.tenant context);
        x_partitionKey := TenantRegistry.partitionKey (TenantContext.tenant context);
        x_encryptionKeyId := TenantRegistry.encryptionKeyId (TenantContext.tenant context);
        x_exportedAt := toISOString now;
        x_correlationId := TenantContext.correlationId context |}.

(** [EventGuard.validateEventTenant] *)
Definition EventGuard_validateEventTenant (als : option TenantContext.TenantContext)
    (now : Z) (eventTenantId : string) (w : W) : result unit * W :=
  match TenantContext.getCurrentTenantId als with
  | Throw e => (Throw e, w)
  | Ok currentTenantId =>
      if bool_decide (eventTenantId ≠ currentTenantId) then
        let '(e, w') := reportViolation W violationHandler als now CROSS_TENANT_EVENT
          "Event belongs to different tenant" (Some eventTenantId) w in
        (Throw e, w')
      else (Ok tt, w)
  end.

(** [EventGuard.createEventMetadata]; [now] is its [new Date()]. *)
Definition EventGuard_createEventMetadata (als : option TenantContext.TenantContext)
    (now : Z) : result EventMetadata :=
  context ← TenantContext.getTenantContext als;
  Ok {| m_tenantId := TenantRegistry.id (TenantContext.tenant context);
        m_partitionKey := TenantRegistry.partitionKey (TenantContext.tenant context);
        m_correlationId := TenantContext.correlationId context;
        m_timestamp := toISOString now |}.

(** [ResourceGuard.validateResourceId]; the partition key is read only when
    no prefix is passed. *)
Definition ResourceGuard_validateResourceId (als : option TenantContext.TenantContext)
    (now : Z) (resourceId : string) (expectedPrefix : option string) (w : W)
    : result unit * W :=
  match (match expectedPrefix with
         | Some p => Ok p
         | None => TenantContext.getCurrentPartitionKey als
         end) with
  | Throw e => (Throw e, w)
  | Ok prefix =>
      if negb (JsString.startsWith resourceId (prefix +:+ "_")) then
        let '(e, w') := reportViolation W violationHandler als now SHARED_RESOURCE_ACCESS
          "Resource ID is not properly tenant-scoped" (Some resourceId) w in
        (Throw e, w')
      else (Ok tt, w)
  end.

(** [ResourceGuard.scopeResourceId] *)
Definition ResourceGuard_scopeResourceId (als : option TenantContext.TenantContext)
    (baseId : string) : result string :=
  partitionKey ← TenantContext.getCurrentPartitionKey als;
  Ok (partitionKey +:+ "_" +:+ baseId).

(** [IsolationGuard.forRead], [forWrite], [forExport] and [forEvent]; a
    [tenantIdField] left out takes the default of [validateExportData]. *)
Definition IsolationGuard_forRead (als : option TenantContext.TenantContext)
    (now : Z) (partitionKey : string) (w : W) : result unit * W :=
  QueryGuard_validatePartitionKey W violationHandler als now (Some partitionKey) w.

Definition IsolationGuard_forWrite (als : option TenantContext.TenantContext)
    (now : Z) (partitionKey : string) (w : W) : result unit * W :=
  QueryGuard_validatePartitionKey W violationHandler als now (Some partitionKey) w.

Definition IsolationGuard_forExport (als : option TenantContext.TenantContext)
    (now : Z) (records : list (gmap string jsval)) (tenantIdField : option string) (w : W)
    : result unit * W :=
  ExportGuard_validateExportData W violationHandler String_ als now records
    (default "tenantId" tenantIdField) w.

Definition IsolationGuard_forEvent (als : option TenantContext.TenantContext)
    (now : Z) (eventTenantId : string) (w : W) : result unit * W :=
  EventGuard_validateEventTenant als now eventTenantId w.

End WithHandler.

End Guards.

(** ** Event store: lookup by id (platform/evidence/event-store.ts) *)

Module EventStoreLookups.
Import EventStore.

(** [getById]: the first event of the tenant's list that carries the id. *)
Definition getById (als : option TenantContext.TenantContext) (st : EventStoreImpl)
    (eventId : string) : result (option DomainEvent) :=
  partitionKey ← TenantContext.getCurrentPartitionKey als;
  Ok (List.find (fun e => bool_decide (id e = eventId))
        (default [] (events st !! getTenantKey partitionKey))).

End EventStoreLookups.

(** ** Replay engine: one aggregate (platform/evidence/replay-engine.ts) *)

Module ReplayAggregate.
Import ReplayEngine.

Record AggregateReplayResult := {
  a_aggregateId : string;
  a_aggregateType : string;
  a_version : Z;
  a_state : value;
  a_events : list EventStore.DomainEvent;
}.

Section WithDates.

Variable toISOString : Z -> string.

Section WithHandler.

Variable W : Type.
Variable violationHandler : IsolationGuards.IsolationViolation -> W -> W.

(** [replayAggregate]; [now] is the [new Date()] of a violation report,
    should the guard make one. *)
Definition replayAggregate (engine : ReplayEngine)
    (als : option TenantContext.TenantContext) (es : EventStore.EventStoreImpl)
    (now : Z) (aggregateType aggregateId : string) (asOf : option Z)
    (h : Heap) (w : W) : result AggregateReplayResult * Heap * W :=
  match EventStore.getAggregateEvents W violationHandler als es now
          aggregateType aggregateId w with
  | (Throw e, w1) => (Throw e, h, w1)
  | (Ok events, w1) =>
      let filteredEvents :=
        match asOf with
        | Some t => filter (fun e => EventStore.occurredAt e <= t) events
        | None => events
        end in
      match deepClone toISOString h (initialState engine) with
      | (Throw e, h0) => (Throw e, h0, w1)
      | (Ok state0, h0) =>
          match apply_handlers (handlers engine) h0 state0 filteredEvents with
          | (Throw e, h1) => (Throw e, h1, w1)
          | (Ok state, h1) =>
              (Ok {| a_aggregateId := aggregateId;
                     a_aggregateType := aggregateType;
                     a_version :=
                       default 0 (EventStore.sequence <$> last filteredEvents);
                     a_state := state;
                     a_events := filteredEvents |},
               h1, w1)
          end
      end
  end.

(** [getStateAsOf] *)
Definition getStateAsOf (engine : ReplayEngine)
    (als : option TenantContext.TenantContext) (es : EventStore.EventStoreImpl)
    (el : EvidenceLinker.EvidenceLinkerImpl) (startTime endTime now : Z) (asOf : Z)
    (h : Heap) (w : W) : result value * Heap * W :=
  match replay toISOString W violationHandler engine als es el startTime endTime now
          {| asOf := Some asOf; upToEventId := None; eventTypes := None;
             aggregateId := None; aggregateType := None; includeEvidence := None |}
          h w with
  | (Throw e, h1, w1) => (Throw e, h1, w1)
  | (Ok result, h1, w1) => (Ok (state result), h1, w1)
  end.

End WithHandler.

End WithDates.

End ReplayAggregate.

(** ** Governance adapter: code, ledger and dependency checks
    (platform/governance/governance-adapter.ts) *)

Module GovernanceChecks.
Import GovernanceAdapter.

Section WithCase.

(** [String.prototype.toLowerCase] *)
Variable toLowerCase : string -> string.

(** The [for] loop of [checkExecutionCapability]: a term is tested with
    [new RegExp(`\\b${term}\\b`, 'gi')], fresh for each term; [now k] is the
    [new Date()] of the violation pushed when [k] are already there. *)
Fixpoint checkExecutionCapability_loop (adapter : GovernanceProfile) (now : nat -> Z)
    (code : string) (terms : list string) (violations : list GovernanceViolation)
    : list GovernanceViolation :=
  match terms with
  | [] => violations
  | term :: rest =>
      if EnforcementHooks.regex_test term None code then
        checkExecutionCapability_loop adapter now code rest
          (violations ++
             [ {| type := EXECUTION_CAPABILITY;
                  term := term;
                  context := extractContext toLowerCase code term;
                  severity := error;
                  profile := name adapter;
                  timestamp := now (length violations) |} ])%list
      else checkExecutionCapability_loop adapter now code rest violations
  end.

(** [checkExecutionCapability] *)
Definition checkExecutionCapability (adapter : GovernanceProfile) (now : nat -> Z)
    (code : string) : list GovernanceViolation :=
  if executionAllowed (enforcement adapter) then []
  else checkExecutionCapability_loop adapter now code
         (forbiddenExecutionTerms (enforcement adapter)) [].

(** The [for] loop of [checkSorLeakage]. *)
Fixpoint checkSorLeakage_loop (adapter : GovernanceProfile) (now : nat -> Z)
    (code : string) (patterns : list string) (violations : list GovernanceViolation)
    : list GovernanceViolation :=
  match patterns with
  | [] => violations
  | pattern :: rest =>
      if EnforcementHooks.regex_test pattern None code then
        checkSorLeakage_loop adapter now code rest
          (violations ++
             [ {| type := SOR_LEAKAGE;
                  term := pattern;
                  context := extractContext toLowerCase code pattern;
                  severity := error;
                  profile := name adapter;
                  timestamp := now (length violations) |} ])%list
      else checkSorLeakage_loop adapter now code rest violations
  end.

(** [checkSorLeakage] *)
Definition checkSorLeakage (adapter : GovernanceProfile) (now : nat -> Z)
    (code : string) : list GovernanceViolation :=
  if sorAllowed (enforcement adapter) then []
  else checkSorLeakage_loop adapter now code
         (forbiddenSorPatterns (enforcement adapter)) [].

(** The [for] loop of [checkDependencies]. *)
Fixpoint checkDependencies_loop (adapter : GovernanceProfile) (now : nat -> Z)
    (dependencies : list string) (violations : list GovernanceViolation)
    : list GovernanceViolation :=
  match dependencies with
  | [] => violations
  | dep :: rest =>
      if bool_decide (dep ∈ forbiddenDependencies (enforcement adapter)) then
        checkDependencies_loop adapter now rest
          (violations ++
             [ {| type := FORBIDDEN_DEPENDENCY;
                  term := dep;
                  context := "Dependency: " +:+ dep;
                  severity := error;
                  profile := name adapter;
                  timestamp := now (length violations) |} ])%list
      else checkDependencies_loop adapter now rest violations
  end.

(** [checkDependencies] *)
Definition checkDependencies (adapter : GovernanceProfile) (now : nat -> Z)
    (dependencies : list string) : list GovernanceViolation :=
  checkDependencies_loop adapter now dependencies [].

(** [checkAll]; each check has its own clock readings. An array of
    dependencies, even an empty one, is truthy. *)
Definition checkAll (adapter : GovernanceProfile) (now1 now2 now3 now4 : nat -> Z)
    (content : string) (dependencies : option (list string)) : list GovernanceViolation :=
  (checkAdvisoryLanguage toLowerCase adapter now1 content
   ++ checkExecutionCapability adapter now2 content
   ++ checkSorLeakage adapter now3 content
   ++ match dependencies with
      | Some dependencies => checkDependencies adapter now4 dependencies
      | None => []
      end)%list.

End WithCase.

End GovernanceChecks.

(** ** Enforcement hooks: reports, UI content, exports and profile guards
    (platform/governance/enforcement-hooks.ts) *)

Module Enforcement.
Import GovernanceAdapter.

Record EnforcementResult := {
  allowed : bool;
  violations : list GovernanceViolation;
  r_profile : TenantRegistry.TenantProfile;
  r_timestamp : Z;
  r_correlationId : string;
}.

Record EnforcementContext := {
  operation : string;
  resource : option string;
  content : option string;
}.

(** What a hook throws: an exception of the platform, or a
    [GovernanceEnforcementError] with its violations and profile. *)
Inductive thrown :=
| Plain (e : exn)
| GovernanceEnforcementError (violations : list GovernanceViolation)
    (profile : TenantRegistry.TenantProfile).

Inductive outcome (A : Type) :=
| Returned (a : A)
| Thrown (e : thrown).

Arguments Returned {A} a.
Arguments Thrown {A} e.

Definition type_name (t : GovernanceViolationType) : string :=
  match t with
  | ADVISORY_LANGUAGE => "ADVISORY_LANGUAGE"
  | EXECUTION_CAPABILITY => "EXECUTION_CAPABILITY"
  | SOR_LEAKAGE => "SOR_LEAKAGE"
  | FORBIDDEN_DEPENDENCY => "FORBIDDEN_DEPENDENCY"
  end.

(** The message the constructor of [GovernanceEnforcementError] builds. *)
Definition GovernanceEnforcementError_message (violations : list GovernanceViolation)
    : string :=
  "Governance violation: " +:+ Json.join ", " ((fun v => type_name (type v)) <$> violations).

Section WithHandler.

(** What the enforcement handler in force acts on, and the handler: the
    module's [enforcementHandler] variable at the time of the call, a
    function that returns. *)
Variable H : Type.
Variable enforcementHandler : EnforcementResult -> EnforcementContext -> H -> H.

(** [Date.prototype.toISOString] and [String.prototype.toLowerCase]. *)
Variable toISOString : Z -> string.
Variable toLowerCase : string -> string.

(** The steps the content hooks share once the violations are known: the
    result is built, the handler is called with it, and the hook throws or
    returns; [stamp] is the [new Date()] of the result. *)
Definition enforce (context : TenantContext.TenantContext)
    (violations : list GovernanceViolation) (stamp : Z) (about : EnforcementContext) (h : H) : outcome EnforcementResult * H :=
  let result :=
    {| allowed := bool_decide (length violations = 0%nat);
       violations := violations;
       r_profile := TenantRegistry.profile (TenantContext.tenant context);
       r_timestamp := stamp;
       r_correlationId := TenantContext.correlationId context |} in
  let h' := enforcementHandler result about h in
  if negb (allowed result) then
    (Thrown (GovernanceEnforcementError violations
               (TenantRegistry.profile (TenantContext.tenant context))), h')
  else (Returned result, h').

(** [enforceReportGeneration] *)
Definition enforceReportGeneration (als : option TenantContext.TenantContext)
    (now : nat -> Z) (stamp : Z) (reportContent reportType : string) (h : H)
    : outcome EnforcementResult * H :=
  match TenantContext.getTenantContext als with
  | Throw e => (Thrown (Plain e), h)
  | Ok context =>
      match forCurrentTenant als with
      | Throw e => (Thrown (Plain e), h)
      | Ok adapter =>
          enforce context (checkAdvisoryLanguage toLowerCase adapter now reportContent) stamp
            {| operation := "report_generation"; resource := Some reportType;
               content := Some reportContent |} h
      end
  end.

(** [enforceUiContent] *)
Definition enforceUiContent (als : option TenantContext.TenantContext)
    (now : nat -> Z) (stamp : Z) (content componentName : string) (h : H)
    : outcome EnforcementResult * H :=
  match TenantContext.getTenantContext als with
  | Throw e => (Thrown (Plain e), h)
  | Ok context =>
      match forCurrentTenant als with
      | Throw e => (Thrown (Plain e), h)
      | Ok adapter =>
          enforce context (checkAdvisoryLanguage toLowerCase adapter now content) stamp
            {| operation := "ui_render"; resource := Some componentName;
               content := Some content |} h
      end
  end.

(** [typeof v === 'string' ? v : JSON.stringify(v)]: a string, [undefined]
    ([None]) or an exception. *)
Definition to_text (v : jsval) : result (option string) :=
  match v with
  | JStr s => Ok (Some s)
  | _ => Json.stringify toISOString v
  end.

(** [checkAdvisoryLanguage] on a text that may be [undefined]: the early
    return for a profile that allows advisory language comes before
    [text.toLowerCase()]. *)
Definition checkAdvisoryLanguage_text (adapter : GovernanceProfile) (now : nat -> Z)
    (text : option string) : result (list GovernanceViolation) :=
  match text with
  | Some text => Ok (checkAdvisoryLanguage toLowerCase adapter now text)
  | None =>
      if advisoryAllowed (enforcement adapter) then Ok []
      else Throw (TypeError
                    "Cannot read properties of undefined (reading 'toLowerCase')")
  end.

(** [enforceDataExport] *)
Definition enforceDataExport (als : option TenantContext.TenantContext)
    (now : nat -> Z) (stamp : Z) (exportData : jsval) (exportType : string) (h : H)
    : outcome EnforcementResult * H :=
  match TenantContext.getTenantContext als with
  | Throw e => (Thrown (Plain e), h)
  | Ok context =>
      match forCurrentTenant als with
      | Throw e => (Thrown (Plain e), h)
      | Ok adapter =>
          match to_text exportData with
          | Throw e => (Thrown (Plain e), h)
          | Ok dataString =>
              match checkAdvisoryLanguage_text adapter now dataString with
              | Throw e => (Thrown (Plain e), h)
              | Ok violations =>
                  enforce context violations stamp
                    {| operation := "data_export"; resource := Some exportType;
                       content := dataString |} h
              end
          end
      end
  end.

(** The function [withGovernanceEnforcement] returns, applied: [ran] is
    what the wrapped function did, which comes before anything else. *)
Definition withGovernanceEnforcement (als : option TenantContext.TenantContext)
    (now : nat -> Z) (stamp : Z) (ran : outcome jsval) (operation : string) (h : H)
    : outcome jsval * H :=
  match ran with
  | Thrown e => (Thrown e, h)
  | Returned result =>
      match TenantContext.getTenantContext als with
      | Throw e => (Thrown (Plain e), h)
      | Ok context =>
          match forCurrentTenant als with
          | Throw e => (Thrown (Plain e), h)
          | Ok adapter =>
              match to_text result with
              | Throw e => (Thrown (Plain e), h)
              | Ok resultString =>
                  match checkAdvisoryLanguage_text adapter now resultString with
                  | Throw e => (Thrown (Plain e), h)
                  | Ok violations =>
                      if bool_decide (0 < length violations)%nat then
                        (Thrown (GovernanceEnforcementError violations
                                   (TenantRegistry.profile (TenantContext.tenant context))),
                         enforcementHandler
                           {| allowed := false;
                              violations := violations;
                              r_profile :=
                                TenantRegistry.profile (TenantContext.tenant context);
                              r_timestamp := stamp;
                              r_correlationId := TenantContext.correlationId context |}
                           {| operation := operation; resource := None;
                              content := resultString |} h)
                      else (Returned result, h)
                  end
              end
          end
      end
  end.

End WithHandler.

(** [assertFoGovernance]: the adapter it makes is the one of profile [fo]. *)
Definition assertFoGovernance (als : option TenantContext.TenantContext) : result unit :=
  profile ← TenantContext.getCurrentTenantProfile als;
  if bool_decide (profile ≠ TenantRegistry.fo) then Ok tt
  else
    let adapter := PROFILES TenantRegistry.fo in
    if advisoryAllowed (enforcement adapter) then
      Throw (Error "FO governance violation: advisory language must be forbidden")
    else if executionAllowed (enforcement adapter) then
      Throw (Error "FO governance violation: execution capability must be forbidden")
    else if sorAllowed (enforcement adapter) then
      Throw (Error "FO governance violation: SoR logic must be forbidden")
    else Ok tt.

(** [assertNoExecution]; [now] is the [new Date()] of the violation. *)
Definition assertNoExecution (als : option TenantContext.TenantContext) (now : Z)
    : outcome unit :=
  match forCurrentTenant als with
  | Throw e => Thrown (Plain e)
  | Ok adapter =>
      if negb (executionAllowed (enforcement adapter)) then
        match TenantContext.getCurrentTenantProfile als with
        | Throw e => Thrown (Plain e)
        | Ok profile =>
            Thrown (GovernanceEnforcementError
                      [ {| type := EXECUTION_CAPABILITY;
                           term := "execution_attempt";
                           context :=
                             "Execution operations are forbidden for this tenant profile";
                           severity := error;
                           GovernanceAdapter.profile := profile;
                           timestamp := now |} ]
                      profile)
        end
      else Returned tt
  end.

(** [assertNoSor]; [now] is the [new Date()] of the violation. *)
Definition assertNoSor (als : option TenantContext.TenantContext) (now : Z)
    : outcome unit :=
  match forCurrentTenant als with
  | Throw e => Thrown (Plain e)
  | Ok adapter =>
      if negb (sorAllowed (enforcement adapter)) then
        match TenantContext.getCurrentTenantProfile als with
        | Throw e => Thrown (Plain e)
        | Ok profile =>
            Thrown (GovernanceEnforcementError
                      [ {| type := SOR_LEAKAGE;
                           term := "sor_attempt";
                           context :=
                             "System-of-record operations are forbidden for this tenant profile";
                           severity := error;
                           GovernanceAdapter.profile := profile;
                           timestamp := now |} ]
                      profile)
        end
      else Returned tt
  end.

End Enforcement.

(** ** Role-based access control ([platform/security/rbac.ts]) *)

Module Rbac.

Inductive Permission :=
| entity_read | entity_create | entity_update | entity_archive
| relationship_read | relationship_create | relationship_update | relationship_remove
| external_asset_read | external_asset_register | external_asset_update
| external_asset_archive
| valuation_read | valuation_record | valuation_correct
| obligation_read | obligation_create | obligation_update | obligation_fulfill
| report_read | report_generate | report_export
| view_consolidated_net_worth | view_liquidity_ladder | view_exposure | view_performance
| admin_users | admin_roles | admin_audit | admin_settings.

Inductive Role :=
| owner | principal | family_member | accountant | auditor | viewer.

#[global] Instance Permission_eq_dec : EqDecision Permission.
Proof. solve_decision. Defined.

#[global] Instance Role_eq_dec : EqDecision Role.
Proof. solve_decision. Defined.

(** The string a permission or a role is at run time. *)
Definition permission_name (p : Permission) : string :=
  match p with
  | entity_read => "entity:read"
  | entity_create => "entity:create"
  | entity_update => "entity:update"
  | entity_archive => "entity:archive"
  | relationship_read => "relationship:read"
  | relationship_create => "relationship:create"
  | relationship_update => "relationship:update"
  | relationship_remove => "relationship:remove"
  | external_asset_read => "external_asset:read"
  | external_asset_register => "external_asset:register"
  | external_asset_update => "external_asset:update"
  | external_asset_archive => "external_asset:archive"
  | valuation_read => "valuation:read"
  | valuation_record => "valuation:record"
  | valuation_correct => "valuation:correct"
  | obligation_read => "obligation:read"
  | obligation_create => "obligation:create"
  | obligation_update => "obligation:update"
  | obligation_fulfill => "obligation:fulfill"
  | report_read => "report:read"
  | report_generate => "report:generate"
  | report_export => "report:export"
  | view_consolidated_net_worth => "view:consolidated_net_worth"
  | view_liquidity_ladder => "view:liquidity_ladder"
  | view_exposure => "view:exposure"
  | view_performance => "view:performance"
  | admin_users => "admin:users"
  | admin_roles => "admin:roles"
  | admin_audit => "admin:audit"
  | admin_settings => "admin:settings"
  end.

Definition role_name (r : Role) : string :=
  match r with
  | owner => "owner"
  | principal => "principal"
  | family_member => "family_member"
  | accountant => "accountant"
  | auditor => "auditor"
  | viewer => "viewer"
  end.

Record RoleDefinition := {
  name : Role;
  displayName : string;
  description : string;
  permissions : list Permission;
  inherits : option (list Role);
}.

Record UserRoleAssignment := {
  userId : string;
  tenantId : string;
  role : Role;
  assignedAt : Z;
  assignedBy : string;
  expiresAt : option Z;
}.

(** [ROLE_DEFINITIONS.get]: the map has an entry for each role, and none
    of them has [inherits]. *)
Definition ROLE_DEFINITIONS (role : Role) : RoleDefinition :=
  match role with
  | owner =>
      {| name := owner;
         displayName := "Owner";
         description := "Full access to all tenant resources and settings";
         permissions :=
           [ entity_read; entity_create; entity_update; entity_archive;
             relationship_read; relationship_create; relationship_update;
             relationship_remove;
             external_asset_read; external_asset_register; external_asset_update;
             external_asset_archive;
             valuation_read; valuation_record; valuation_correct;
             obligation_read; obligation_create; obligation_update; obligation_fulfill;
             report_read; report_generate; report_export;
             view_consolidated_net_worth; view_liquidity_ladder; view_exposure;
             view_performance;
             admin_users; admin_roles; admin_audit; admin_settings ];
         inherits := None |}
  | principal =>
      {| name := principal;
         displayName := "Principal";
         description := "Family principal with full visibility and management access";
         permissions :=
           [ entity_read; entity_create; entity_update;
             relationship_read; relationship_create; relationship_update;
             external_asset_read; external_asset_register; external_asset_update;
             valuation_read; valuation_record;
             obligation_read; obligation_create; obligation_update; obligation_fulfill;
             report_read; report_generate; report_export;
             view_consolidated_net_worth; view_liquidity_ladder; view_exposure;
             view_performance;
             admin_users ];
         inherits := None |}
  | family_member =>
      {| name := family_member;
         displayName := "Family Member";
         description := "Family member with read access and limited management";
         permissions :=
           [ entity_read; relationship_read; external_asset_read; valuation_read;
             obligation_read; report_read;
             view_consolidated_net_worth; view_liquidity_ladder; view_exposure;
             view_performance ];
         inherits := None |}
  | accountant =>
      {| name := accountant;
         displayName := "Accountant";
         description := "External accountant with financial data access";
         permissions :=
           [ entity_read; external_asset_read; valuation_read; valuation_record;
             obligation_read; report_read; report_generate; report_export;
             view_consolidated_net_worth; view_liquidity_ladder ];
         inherits := None |}
  | auditor =>
      {| name := auditor;
         displayName := "Auditor";
         description := "External auditor with read-only access and audit trail";
         permissions :=
           [ entity_read; relationship_read; external_asset_read; valuation_read;
             obligation_read; report_read; report_export;
             view_consolidated_net_worth; view_liquidity_ladder; view_exposure;
             view_performance;
             admin_audit ];
         inherits := None |}
  | viewer =>
      {| name := viewer;
         displayName := "Viewer";
         description := "Read-only access to dashboards and reports";
         permissions :=
           [ entity_read; external_asset_read; valuation_read; report_read;
             view_consolidated_net_worth ];
         inherits := None |}
  end.

(** A [Set], as the list [Array.from] makes of it: its members in the
    order they were first added. *)
Definition Set_add {A : Type} `{EqDecision A} (set : list A) (x : A) : list A :=
  if bool_decide (x ∈ set) then set else (set ++ [x])%list.

Definition new_Set {A : Type} `{EqDecision A} (xs : list A) : list A :=
  foldl Set_add [] xs.

(** [getRoleDefinition] *)
Definition getRoleDefinition (role : Role) : option RoleDefinition :=
  Some (ROLE_DEFINITIONS role).

(** [getAllRoles]: the definitions in the order the map was built with. *)
Definition getAllRoles : list RoleDefinition :=
  ROLE_DEFINITIONS <$> [owner; principal; family_member; accountant; auditor; viewer].

(** [getPermissionsForRole], which calls itself on the inherited roles of a
    definition; [depth] bounds the nesting of those calls. *)
Fixpoint getPermissionsForRole_within (depth : nat) (role : Role) : list Permission :=
  let definition := ROLE_DEFINITIONS role in
  let permissions := new_Set (permissions definition) in
  match inherits definition, depth with
  | Some inherited, S depth' =>
      foldl (fun permissions inheritedRole =>
               foldl Set_add permissions
                 (getPermissionsForRole_within depth' inheritedRole))
        permissions inherited
  | _, _ => permissions
  end.

(** A chain of inherited roles that names no role twice is at most as long
    as there are roles. *)
Definition getPermissionsForRole (role : Role) : list Permission :=
  getPermissionsForRole_within 6 role.

Record RBACImpl := {
  assignments : gmap string (list UserRoleAssignment);
}.

Definition empty : RBACImpl := {| assignments := ∅ |}.

(** [`${tenantId}:${userId}`] *)
Definition assignmentKey (tenantId userId : string) : string :=
  tenantId +:+ ":" +:+ userId.

(** [a => a.role !== role] *)
Definition other_role (role0 : Role) (a : UserRoleAssignment) : Prop := role a ≠ role0.

#[global] Instance other_role_dec role0 a : Decision (other_role role0 a).
Proof. unfold other_role. apply _. Defined.

(** [assignRole]; [now] is the [new Date()] of [assignedAt]. *)
Definition assignRole (als : option TenantContext.TenantContext) (now : Z)
    (st : RBACImpl) (userId : string) (role : Role) (assignedBy : string)
    (expiresAt : option Z) : result UserRoleAssignment * RBACImpl :=
  match TenantContext.getTenantContext als with
  | Throw e => (Throw e, st)
  | Ok context =>
      let tenantId := TenantRegistry.id (TenantContext.tenant context) in
      let assignment :=
        {| userId := userId; tenantId := tenantId; role := role; assignedAt := now;
           assignedBy := assignedBy; expiresAt := expiresAt |} in
      let key := assignmentKey tenantId userId in
      let existing := default [] (assignments st !! key) in
      let filtered := (filter (other_role role) existing ++ [assignment])%list in
      (Ok assignment, {| assignments := <[key := filtered]> (assignments st) |})
  end.

(** [removeRole] *)
Definition removeRole (als : option TenantContext.TenantContext) (st : RBACImpl)
    (userId : string) (role : Role) : result unit * RBACImpl :=
  match TenantContext.getTenantContext als with
  | Throw e => (Throw e, st)
  | Ok context =>
      let tenantId := TenantRegistry.id (TenantContext.tenant context) in
      let key := assignmentKey tenantId userId in
      match assignments st !! key with
      | Some existing =>
          (Ok tt,
           {| assignments := <[key := filter (other_role role) existing]> (assignments st) |})
      | None => (Ok tt, st)
      end
  end.

(** [a => !a.expiresAt || a.expiresAt > now] *)
Definition unexpired (now : Z) (a : UserRoleAssignment) : Prop :=
  match expiresAt a with
  | None => True
  | Some expires => now < expires
  end.

#[global] Instance unexpired_dec now a : Decision (unexpired now a).
Proof. unfold unexpired. destruct (expiresAt a); apply _. Defined.

(** [getUserRoles]; [now] is its [new Date()]. *)
Definition getUserRoles (als : option TenantContext.TenantContext) (now : Z)
    (st : RBACImpl) (userId : string) : result (list Role) :=
  context ← TenantContext.getTenantContext als;
  let tenantId := TenantRegistry.id (TenantContext.tenant context) in
  let key := assignmentKey tenantId userId in
  let assignments := default [] (assignments st !! key) in
  let active := filter (unexpired now) assignments in
  Ok (role <$> active).

(** [getUserPermissions] *)
Definition getUserPermissions (als : option TenantContext.TenantContext) (now : Z)
    (st : RBACImpl) (userId : string) : result (list Permission) :=
  roles ← getUserRoles als now st userId;
  Ok (foldl (fun permissions role => foldl Set_add permissions (getPermissionsForRole role))
        [] roles).

(** [hasPermission] *)
Definition hasPermission (als : option TenantContext.TenantContext) (now : Z)
    (st : RBACImpl) (userId : string) (permission : Permission) : result bool :=
  permissions ← getUserPermissions als now st userId;
  Ok (bool_decide (permission ∈ permissions)).

(** [hasRole] *)
Definition hasRole (als : option TenantContext.TenantContext) (now : Z)
    (st : RBACImpl) (userId : string) (role : Role) : result bool :=
  roles ← getUserRoles als now st userId;
  Ok (bool_decide (role ∈ roles)).

(** What an assertion throws: an exception of the platform, or one of the
    two errors of this module with what it carries. *)
Inductive thrown :=
| Plain (e : exn)
| PermissionDeniedError (permission : Permission) (userId : string)
| RoleDeniedError (role : Role) (userId : string).

Inductive outcome (A : Type) :=
| Returned (a : A)
| Thrown (e : thrown).

Arguments Returned {A} a.
Arguments Thrown {A} e.

(** The messages the constructors of the two errors build. *)
Definition PermissionDeniedError_message (permission : Permission) (userId : string)
    : string :=
  "Permission denied: " +:+ permission_name permission +:+ " for user " +:+ userId.

Definition RoleDeniedError_message (role : Role) (userId : string) : string :=
  "Role required: " +:+ role_name role +:+ " for user " +:+ userId.

(** [assertPermission] *)
Definition assertPermission (als : option TenantContext.TenantContext) (now : Z)
    (st : RBACImpl) (userId : string) (permission : Permission) : outcome unit :=
  match hasPermission als now st userId permission with
  | Throw e => Thrown (Plain e)
  | Ok hasPermission =>
      if negb hasPermission then Thrown (PermissionDeniedError permission userId)
      else Returned tt
  end.

(** [assertRole] *)
Definition assertRole (als : option TenantContext.TenantContext) (now : Z)
    (st : RBACImpl) (userId : string) (role : Role) : outcome unit :=
  match hasRole als now st userId role with
  | Throw e => Thrown (Plain e)
  | Ok hasRole =>
      if negb hasRole then Thrown (RoleDeniedError role userId)
      else Returned tt
  end.

(** [checkPermission]: [!context.userId] holds of a missing and of an empty
    user id. *)
Definition checkPermission (als : option TenantContext.TenantContext) (now : Z)
    (st : RBACImpl) (permission : Permission) : result bool :=
  context ← TenantContext.getTenantContext als;
  match EventStore.truthy_string (TenantContext.userId context) with
  | None => Ok false
  | Some userId => hasPermission als now st userId permission
  end.

(** [requirePermission] *)
Definition requirePermission (als : option TenantContext.TenantContext) (now : Z)
    (st : RBACImpl) (permission : Permission) : outcome unit :=
  match TenantContext.getTenantContext als with
  | Throw e => Thrown (Plain e)
  | Ok context =>
      match EventStore.truthy_string (TenantContext.userId context) with
      | None => Thrown (PermissionDeniedError permission "anonymous")
      | Some userId => assertPermission als now st userId permission
      end
  end.

(** [requireRole] *)
Definition requireRole (als : option TenantContext.TenantContext) (now : Z)
    (st : RBACImpl) (role : Role) : outcome unit :=
  match TenantContext.getTenantContext als with
  | Throw e => Thrown (Plain e)
  | Ok context =>
      match EventStore.truthy_string (TenantContext.userId context) with
      | None => Thrown (RoleDeniedError role "anonymous")
      | Some userId => assertRole als now st userId role
      end
  end.

End Rbac.

(** * Properties *)

(** ** Sample data *)

Module Samples.

(** An active family-office tenant and a context for it. *)
Definition tenant_A : TenantRegistry.TenantConfig :=
  {| TenantRegistry.id := "A"; TenantRegistry.name := "Acme FO";
     TenantRegistry.profile := TenantRegistry.fo;
     TenantRegistry.status := TenantRegistry.active;
     TenantRegistry.encryptionKeyId := "ek_A"; TenantRegistry.partitionKey := "pk_A";
     TenantRegistry.createdAt := 0; TenantRegistry.updatedAt := 0;
     TenantRegistry.metadata := None |}.

Definition context_A : TenantContext.TenantContext :=
  {| TenantContext.tenant := tenant_A; TenantContext.correlationId := "req-1";
     TenantContext.createdAt := 1; TenantContext.userId := None;
     TenantContext.roles := [] |}.

(** A registry holding tenant A alone, and one holding it while it is still
    being provisioned. *)
Definition registry_A : TenantRegistry.TenantRegistryImpl :=
  {| TenantRegistry.tenants := {[ "A" := tenant_A ]};
     TenantRegistry.tenantsByPartition := {[ "pk_A" := "A" ]} |}.

Definition tenant_new : TenantRegistry.TenantConfig :=
  TenantRegistry.set_status tenant_A TenantRegistry.provisioning 0.

Definition registry_new : TenantRegistry.TenantRegistryImpl :=
  {| TenantRegistry.tenants := {[ "A" := tenant_new ]};
     TenantRegistry.tenantsByPartition := {[ "pk_A" := "A" ]} |}.

End Samples.

(** ** Strings *)

Module JsStringProps.
Import JsString.

Lemma append_cons x (a b : string) : String x a +:+ b = String x (a +:+ b).
Proof. reflexivity. Qed.

Lemma append_nil_l (b : string) : "" +:+ b = b.
Proof. reflexivity. Qed.

Lemma append_nil_r (a : string) : a +:+ "" = a.
Proof. induction a as [|x a IH]; [done|]. by rewrite append_cons, IH. Qed.

Lemma append_assoc (a b c : string) : (a +:+ b) +:+ c = a +:+ b +:+ c.
Proof. induction a as [|x a IH]; [done|]. by rewrite !append_cons, IH. Qed.

Lemma length_append (a b : string) :
  String.length (a +:+ b) = (String.length a + String.length b)%nat.
Proof. induction a as [|x a IH]; [done|]. rewrite append_cons. cbn. by rewrite IH. Qed.

Lemma append_inv_length (a a' b b' : string) :
  String.length a = String.length a' -> a +:+ b = a' +:+ b' -> a = a' /\ b = b'.
Proof.
  revert a'. induction a as [|x a IH]; intros [|x' a'] Hlen Heq; try discriminate.
  - done.
  - rewrite !append_cons in Heq. injection Heq as -> Heq. injection Hlen as Hlen.
    destruct (IH a' Hlen Heq) as [-> ->]. done.
Qed.

Lemma lower_ascii_append (a b : string) :
  lower_ascii (a +:+ b) = lower_ascii a +:+ lower_ascii b.
Proof. induction a as [|x a IH]; [done|]. rewrite !append_cons. cbn. by rewrite IH. Qed.

Lemma length_lower_ascii (a : string) : String.length (lower_ascii a) = String.length a.
Proof. induction a as [|x a IH]; [done|]. cbn. by rewrite IH. Qed.

Lemma take_drop (n : nat) (s : string) : take n s +:+ drop n s = s.
Proof.
  revert s. induction n as [|n IH]; intros [|x s]; try done.
  cbn. rewrite append_cons. by rewrite IH.
Qed.

Lemma length_take (n : nat) (s : string) :
  String.length (take n s) = Nat.min n (String.length s).
Proof. revert s. induction n as [|n IH]; intros [|x s]; cbn; [done..|]. by rewrite IH. Qed.

Lemma drop_0 (s : string) : drop 0 s = s.
Proof. by destruct s. Qed.

Lemma drop_append (a b : string) : drop (String.length a) (a +:+ b) = b.
Proof. induction a as [|x a IH]; [by destruct b|]. by rewrite append_cons. Qed.

Lemma take_append (a b : string) : take (String.length a) (a +:+ b) = a.
Proof.
  induction a as [|x a IH]; [by destruct b|]. rewrite append_cons. cbn. by rewrite IH.
Qed.

Lemma drop_append_le (n : nat) (a b : string) :
  (n <= String.length a)%nat -> drop n (a +:+ b) = drop n a +:+ b.
Proof.
  revert a. induction n as [|n IH]; intros a Hn.
  - by rewrite !drop_0.
  - destruct a as [|x a]; cbn in Hn; [lia|]. rewrite append_cons. cbn. apply IH. lia.
Qed.

Lemma take_append_ge (n : nat) (a b : string) :
  (String.length a <= n)%nat -> take n (a +:+ b) = a +:+ take (n - String.length a) b.
Proof.
  revert n. induction a as [|x a IH]; intros n Hn; cbn in *.
  - by rewrite Nat.sub_0_r.
  - destruct n as [|n]; [lia|]. rewrite !append_cons. cbn. rewrite IH by lia. done.
Qed.

(** [startsWith] tells a prefix. *)
Lemma startsWith_spec (s t : string) : startsWith s t = true <-> exists r, s = t +:+ r.
Proof.
  revert s. induction t as [|b t IH]; intros s; cbn.
  - split; [intros _; by exists s | by destruct s].
  - destruct s as [|a s]; cbn; [split; [done|intros [r Hr]; discriminate]|].
    destruct (Ascii.eqb_spec a b) as [->|Hne].
    + rewrite (IH s). split; intros [r Hr]; exists r.
      * by rewrite append_cons, Hr.
      * rewrite append_cons in Hr. by injection Hr.
    + split; [done|]. intros [r Hr]. rewrite append_cons in Hr. by injection Hr.
Qed.

(** [indexOf] finds an occurrence, at the position it returns. *)
Lemma indexOf_Some (s t : string) (i : nat) :
  indexOf s t = Some i ->
  exists before after, s = before +:+ t +:+ after /\ String.length before = i.
Proof.
  revert i. induction s as [|a s IH]; intros i; cbn [indexOf].
  - destruct (startsWith "" t) eqn:Hst; [|done]. intros [= <-].
    apply startsWith_spec in Hst as [r Hr]. by exists "", r.
  - destruct (startsWith (String a s) t) eqn:Hst.
    + intros [= <-]. apply startsWith_spec in Hst as [r Hr]. by exists "", r.
    + destruct (indexOf s t) as [j|]; [|done]. cbn. intros [= <-].
      destruct (IH j eq_refl) as (before & after & -> & <-).
      by exists (String a before), after.
Qed.

(** [includes] tells a substring. *)
Lemma includes_spec (s t : string) :
  includes s t = true <-> exists before after, s = before +:+ t +:+ after.
Proof.
  unfold includes. split.
  - destruct (indexOf s t) as [i|] eqn:Hi; [|done]. intros _.
    destruct (indexOf_Some _ _ _ Hi) as (before & after & Hs & _). eauto.
  - intros (before & after & ->).
    induction before as [|a before IH].
    + rewrite append_nil_l.
      assert (startsWith (t +:+ after) t = true) as Hst by (apply startsWith_spec; eauto).
      destruct (t +:+ after); cbn [indexOf]; by rewrite Hst.
    + rewrite append_cons. cbn [indexOf].
      destruct (startsWith _ t); [done|].
      by destruct (indexOf (before +:+ t +:+ after) t).
Qed.

End JsStringProps.

(** ** Tenant lifecycle *)

Module TenantRegistryProps.
Import TenantRegistry.

(** The lifecycle graph as the specification draws it. *)
Inductive edge : TenantStatus -> TenantStatus -> Prop :=
| edge_provisioning_onboarding : edge provisioning onboarding
| edge_provisioning_terminated : edge provisioning terminated
| edge_onboarding_active : edge onboarding active
| edge_onboarding_terminated : edge onboarding terminated
| edge_active_suspended : edge active suspended
| edge_active_offboarding : edge active offboarding
| edge_suspended_active : edge suspended active
| edge_suspended_offboarding : edge suspended offboarding
| edge_offboarding_terminated : edge offboarding terminated.

(** One call on the registry singleton: an [updateStatus] with any
    arguments, or a [provision] whose [randomUUID()] is not yet a key. *)
Inductive step (sha256 toLowerCase : string -> string) (r : TenantRegistryImpl)
    : TenantRegistryImpl -> Prop :=
| step_updateStatus tenantId newStatus now :
    step sha256 toLowerCase r (updateStatus r tenantId newStatus now).2
| step_provision request uuid now1 now2 :
    tenants r !! uuid = None ->
    step sha256 toLowerCase r (provision sha256 toLowerCase r request uuid now1 now2).2.

Definition status_of (r : TenantRegistryImpl) (tenantId : string) : option TenantStatus :=
  status <$> tenants r !! tenantId.

Lemma validTransitions_edge from to : to ∈ validTransitions from <-> edge from to.
Proof.
  split.
  - destruct from; cbn; intros H; set_unfold; intuition subst; constructor.
  - destruct 1; cbn; set_solver.
Qed.

Lemma validateStatusTransition_ok from to :
  edge from to -> validateStatusTransition from to = Ok tt.
Proof.
  intros H. unfold validateStatusTransition.
  rewrite bool_decide_eq_true_2; [done | by apply validTransitions_edge].
Qed.

Lemma validateStatusTransition_throw from to :
  ~ edge from to -> exists e, validateStatusTransition from to = Throw e.
Proof.
  intros H. unfold validateStatusTransition.
  rewrite bool_decide_eq_false_2; [eauto | by rewrite validTransitions_edge].
Qed.

Lemma updateStatus_edge r tenantId t newStatus now :
  tenants r !! tenantId = Some t -> edge (status t) newStatus ->
  updateStatus r tenantId newStatus now =
    (Ok tt, {| tenants := <[tenantId := set_status t newStatus now]> (tenants r);
               tenantsByPartition := tenantsByPartition r |}).
Proof.
  intros Ht He. unfold updateStatus.
  by rewrite Ht, (validateStatusTransition_ok _ _ He).
Qed.

Lemma updateStatus_status r tenantId newStatus now i s :
  status_of r i = Some s ->
  status_of (updateStatus r tenantId newStatus now).2 i = Some s \/
  (edge s newStatus /\ status_of (updateStatus r tenantId newStatus now).2 i = Some newStatus).
Proof.
  unfold status_of, updateStatus. intros Hs.
  destruct (tenants r !! tenantId) as [t|] eqn:Ht; [|by left].
  unfold validateStatusTransition. case_bool_decide as Hin; [|by left]. cbn.
  destruct (decide (tenantId = i)) as [->|Hne].
  - right. rewrite Ht in Hs. injection Hs as <-.
    rewrite lookup_insert_eq. split; [by apply validTransitions_edge | done].
  - left. by rewrite lookup_insert_ne.
Qed.

Lemma provision_status sha256 toLowerCase r request uuid now1 now2 i s :
  tenants r !! uuid = None ->
  status_of r i = Some s ->
  status_of (provision sha256 toLowerCase r request uuid now1 now2).2 i = Some s.
Proof.
  unfold status_of, provision. intros Hfresh Hs.
  case_bool_decide; [done|]. cbn.
  rewrite lookup_insert_ne; [done|]. intros ->. by rewrite Hfresh in Hs.
Qed.

Lemma step_status sha256 toLowerCase r r' i s :
  step sha256 toLowerCase r r' -> status_of r i = Some s ->
  exists s', status_of r' i = Some s' /\ (s' = s \/ edge s s').
Proof.
  intros [tenantId newStatus now | request uuid now1 now2 Hfresh] Hs.
  - destruct (updateStatus_status r tenantId newStatus now i s Hs) as [H|[He H]]; eauto.
  - exists s. split; [by apply provision_status | by left].
Qed.

(** C6. [updateStatus] on an existing tenant succeeds exactly on the edges of
    the lifecycle graph, setting the status and [updatedAt]; off the graph it
    throws and leaves the registry, hence status and [updatedAt], as they
    were. Along any sequence of registry calls a tenant's status moves along
    a path of the graph, and [terminated] is never left. *)
Theorem updateStatus_lifecycle :
  (forall r tenantId t newStatus now,
     tenants r !! tenantId = Some t ->
     (edge (status t) newStatus ->
        exists r', updateStatus r tenantId newStatus now = (Ok tt, r') /\
          tenants r' !! tenantId = Some (set_status t newStatus now)) /\
     (~ edge (status t) newStatus ->
        exists e, updateStatus r tenantId newStatus now = (Throw e, r)) /\
     (is_ok (updateStatus r tenantId newStatus now).1 = true <->
        edge (status t) newStatus)) /\
  (forall sha256 toLowerCase r r' tenantId s,
     rtc (step sha256 toLowerCase) r r' -> status_of r tenantId = Some s ->
     exists s', status_of r' tenantId = Some s' /\ rtc edge s s' /\
       (s = terminated -> s' = terminated)).
Proof.
  split.
  - intros r tenantId t newStatus now Ht. unfold updateStatus. rewrite Ht.
    split; [|split].
    + intros He. rewrite (validateStatusTransition_ok _ _ He).
      eexists. split; [done|]. cbn. by rewrite lookup_insert_eq.
    + intros He. destruct (validateStatusTransition_throw _ _ He) as [e ->]. eauto.
    + destruct (decide (newStatus ∈ validTransitions (status t))) as [He|He];
        rewrite validTransitions_edge in He.
      * rewrite (validateStatusTransition_ok _ _ He). done.
      * destruct (validateStatusTransition_throw _ _ He) as [e ->]. cbn. split; [done|tauto].
  - intros sha256 toLowerCase r r' tenantId s Hrtc. revert s.
    induction Hrtc as [r|r r1 r2 Hstep _ IH]; intros s Hs.
    + exists s. split; [done|]. split; [constructor|done].
    + destruct (step_status _ _ _ _ _ _ Hstep Hs) as (s1 & Hs1 & Hmove).
      destruct (IH _ Hs1) as (s2 & Hs2 & Hpath & Habs).
      exists s2. split; [done|]. split.
      * destruct Hmove as [->|He]; [done | by eapply rtc_l].
      * intros ->. apply Habs. destruct Hmove as [->|He]; [done | inversion He].
Qed.

(** A provisioned tenant's partition key is not empty. *)
Lemma provision_partitionKey sha256 toLowerCase r request uuid now1 now2 t :
  (provision sha256 toLowerCase r request uuid now1 now2).1 = Ok t ->
  partitionKey t = generatePartitionKey sha256 uuid /\ partitionKey t <> "".
Proof.
  unfold provision. case_bool_decide; cbn; [done|]. intros [= <-]. done.
Qed.

Lemma updateStatus_lifecycle_witness :
  (exists r', updateStatus Samples.registry_new "A" onboarding 7 = (Ok tt, r') /\
     tenants r' !! "A" = Some (set_status Samples.tenant_new onboarding 7)) /\
  (exists e, updateStatus Samples.registry_new "A" active 7
             = (Throw e, Samples.registry_new)).
Proof.
  pose proof (proj1 updateStatus_lifecycle Samples.registry_new "A" Samples.tenant_new) as H.
  split.
  - apply (H onboarding 7); [reflexivity | constructor].
  - apply (H active 7); [reflexivity | inversion 1].
Defined.

End TenantRegistryProps.

(** ** Tenant context *)

Module TenantContextProps.
Import TenantRegistry TenantContext.

(** The context [withTenantContext] installs for a tenant record. *)
Definition context_for (t : TenantConfig) (options : TenantContextOptions) (now : Z)
    : TenantContext :=
  {| tenant := t;
     correlationId := opt_correlationId options;
     createdAt := now;
     userId := opt_userId options;
     roles := default [] (opt_roles options) |}.

Definition acme_fo : TenantProvisionRequest :=
  {| req_name := "Acme FO"; req_profile := fo; req_metadata := None |}.

Definition options_for (tenantId correlationId : string) : TenantContextOptions :=
  {| tenantId := tenantId; opt_correlationId := correlationId;
     opt_userId := None; opt_roles := None |}.

Lemma withTenantContext_not_found {T} reg options now (fn : option TenantContext -> result T) :
  tenants reg !! tenantId options = None ->
  withTenantContext reg options now fn =
    Throw (TenantContextError TENANT_NOT_FOUND
             ("Tenant " +:+ tenantId options +:+ " does not exist")).
Proof. intros H. unfold withTenantContext, getById. by rewrite H. Qed.

Lemma withTenantContext_not_active {T} reg options now (fn : option TenantContext -> result T) t :
  tenants reg !! tenantId options = Some t ->
  status t <> active ->
  withTenantContext reg options now fn =
    Throw (TenantContextError TENANT_NOT_ACTIVE
             ("Tenant " +:+ tenantId options +:+ " is not active (status: "
                +:+ status_name (status t) +:+ ")")).
Proof.
  intros H Hs. unfold withTenantContext, getById. rewrite H.
  by rewrite bool_decide_eq_true_2.
Qed.

Lemma withTenantContext_active {T} reg options now (fn : option TenantContext -> result T) t :
  tenants reg !! tenantId options = Some t ->
  status t = active ->
  withTenantContext reg options now fn = fn (Some (context_for t options now)).
Proof.
  intros H Hs. unfold withTenantContext, getById. rewrite H.
  rewrite bool_decide_eq_false_2; [done | by intros []].
Qed.

(** C7. [withTenantContext] throws [TENANT_NOT_FOUND] for an unknown id,
    [TENANT_NOT_ACTIVE] for a tenant in any status but [active], and
    otherwise returns what [fn] returns when run with a context that
    [getTenantContext] yields and whose tenant is the registry's record.
    A tenant provisioned as "Acme FO" with profile [fo] starts in
    [provisioning], where [withTenantContext] throws [TENANT_NOT_ACTIVE]; once
    moved to [onboarding] and then [active], the installed context has profile
    [fo]. *)
Theorem withTenantContext_outcome :
  (forall T reg options now (fn : option TenantContext -> result T),
     tenants reg !! tenantId options = None ->
     exists m, withTenantContext reg options now fn =
                 Throw (TenantContextError TENANT_NOT_FOUND m)) /\
  (forall T reg options now (fn : option TenantContext -> result T) t,
     tenants reg !! tenantId options = Some t -> status t <> active ->
     exists m, withTenantContext reg options now fn =
                 Throw (TenantContextError TENANT_NOT_ACTIVE m)) /\
  (forall T reg options now (fn : option TenantContext -> result T) t,
     tenants reg !! tenantId options = Some t -> status t = active ->
     exists context,
       withTenantContext reg options now fn = fn (Some context) /\
       getTenantContext (Some context) = Ok context /\
       tenant context = t /\
       correlationId context = opt_correlationId options) /\
  (forall T sha256 toLowerCase reg uuid c now1 now2 now3 now4 now
      (fn : option TenantContext -> result T) t,
     (provision sha256 toLowerCase reg acme_fo uuid now1 now2).1 = Ok t ->
     let r1 := (provision sha256 toLowerCase reg acme_fo uuid now1 now2).2 in
     let r2 := (updateStatus r1 uuid onboarding now3).2 in
     let r3 := (updateStatus r2 uuid active now4).2 in
     status t = provisioning /\
     (exists m, withTenantContext r1 (options_for uuid c) now fn =
                  Throw (TenantContextError TENANT_NOT_ACTIVE m)) /\
     (exists context,
        withTenantContext r3 (options_for uuid c) now fn = fn (Some context) /\
        getTenantContext (Some context) = Ok context /\
        tenants r3 !! uuid = Some (tenant context) /\
        profile (tenant context) = fo)).
Proof.
  split; [|split; [|split]].
  - intros. eexists. by apply withTenantContext_not_found.
  - intros. eexists. by eapply withTenantContext_not_active.
  - intros T reg options now fn t Ht Hs. exists (context_for t options now).
    split; [by apply withTenantContext_active | done].
  - intros T sha256 toLowerCase reg uuid c now1 now2 now3 now4 now fn t Hprov r1 r2 r3.
    assert (tenants r1 !! uuid = Some t /\ status t = provisioning /\ profile t = fo)
      as (Ht & Hs & Hp).
    { subst r1. revert Hprov. unfold provision.
      case_bool_decide; cbn; [discriminate|]. intros [= <-].
      by rewrite lookup_insert_eq. }
    clearbody r1. clear Hprov.
    assert (tenants r2 !! uuid = Some (set_status t onboarding now3)) as Ht2.
    { subst r2. erewrite TenantRegistryProps.updateStatus_edge; [|done|rewrite Hs; constructor].
      cbn. by rewrite lookup_insert_eq. }
    clearbody r2.
    assert (tenants r3 !! uuid
              = Some (set_status (set_status t onboarding now3) active now4)) as Ht3.
    { subst r3. erewrite TenantRegistryProps.updateStatus_edge; [|done|constructor].
      cbn. by rewrite lookup_insert_eq. }
    clearbody r3.
    split; [done|]. split.
    + eexists. eapply withTenantContext_not_active; [done|]. by rewrite Hs.
    + eexists. split; [by eapply withTenantContext_active|]. done.
Qed.

Lemma withTenantContext_outcome_witness :
  (exists m, withTenantContext Samples.registry_new (options_for "A" "req-1") 1
               getCurrentTenantId = Throw (TenantContextError TENANT_NOT_ACTIVE m)) /\
  (exists context,
     withTenantContext Samples.registry_A (options_for "A" "req-1") 1 getCurrentTenantId
       = getCurrentTenantId (Some context) /\
     getTenantContext (Some context) = Ok context /\
     tenant context = Samples.tenant_A /\
     correlationId context = "req-1").
Proof.
  destruct withTenantContext_outcome as (_ & Hinactive & Hactive & _).
  split.
  - apply (Hinactive _ Samples.registry_new (options_for "A" "req-1") 1
             getCurrentTenantId Samples.tenant_new); [reflexivity | discriminate].
  - apply (Hactive _ Samples.registry_A (options_for "A" "req-1") 1
             getCurrentTenantId Samples.tenant_A); reflexivity.
Defined.

End TenantContextProps.

(** ** Export guard *)

Module IsolationGuardsProps.
Import IsolationGuards.

(** A record that does not belong to tenant [cur]. *)
Definition foreign (cur : string) (record : gmap string jsval) : Prop :=
  strict_eq_string (get record "tenantId") cur = false.

#[global] Instance foreign_dec cur record : Decision (foreign cur record).
Proof. unfold foreign. apply _. Defined.

(** The violation record dispatched for record [record] at index [i]. *)
Definition export_violation (String_ : jsval -> string)
    (context : TenantContext.TenantContext) (now : Z) (i : nat)
    (record : gmap string jsval) : IsolationViolation :=
  {| type := CROSS_TENANT_EXPORT;
     message := "Export contains record from different tenant at index " +:+ pretty i;
     tenantId := TenantRegistry.id (TenantContext.tenant context);
     attemptedResource := Some (String_ (get record "tenantId"));
     timestamp := now;
     correlationId := TenantContext.correlationId context |}.

Definition export_error (i : nat) : exn :=
  TenantContextError CROSS_TENANT_ACCESS
    ("Isolation violation: Export contains record from different tenant at index "
       +:+ pretty i).

Definition tenant_named (tenantId : string) (context : TenantContext.TenantContext) : Prop :=
  TenantRegistry.id (TenantContext.tenant context) = tenantId.

Lemma strict_eq_string_true v s : strict_eq_string v s = true <-> v = JStr s.
Proof.
  destruct v; cbn; try (split; [discriminate|discriminate]).
  rewrite bool_decide_eq_true. split; [by intros ->|by intros [= ->]].
Qed.

Lemma foreign_iff cur record : ~ foreign cur record <-> record !! "tenantId" = Some (JStr cur).
Proof.
  unfold foreign. rewrite not_false_iff_true, strict_eq_string_true. unfold get.
  destruct (record !! "tenantId") as [v|]; cbn; [|split; discriminate].
  split; [by intros ->|by intros [= ->]].
Qed.

Section Loop.

Context {W : Type} (violationHandler : IsolationViolation -> W -> W)
  (String_ : jsval -> string).

Lemma validateExportData_loop_find context now i records w :
  validateExportData_loop W violationHandler String_ (Some context) now
    (TenantRegistry.id (TenantContext.tenant context)) "tenantId" i records w =
  match list_find (foreign (TenantRegistry.id (TenantContext.tenant context))) records with
  | None => (Ok tt, w)
  | Some (j, record) =>
      (Throw (export_error (i + j)),
       violationHandler (export_violation String_ context now (i + j) record) w)
  end.
Proof.
  revert i. induction records as [|record rest IH]; intros i; [done|].
  cbn [validateExportData_loop list_find].
  unfold foreign at 1. destruct (decide _) as [Hf|Hf].
  - rewrite Hf. cbn. by rewrite Nat.add_0_r.
  - apply not_false_iff_true in Hf. rewrite Hf. cbn [negb]. rewrite IH.
    destruct (list_find _ rest) as [[j r]|]; cbn; [|done].
    by rewrite Nat.add_succ_r.
Qed.

End Loop.



End IsolationGuardsProps.

(** ** JSON serialization *)

Module JsonProps.

Lemma is_ok_traverse {A B : Type} (f : A -> result B) (l : list A) :
  is_ok (Json.traverse f l) = forallb (fun x => is_ok (f x)) l.
Proof.
  induction l as [|x l IH]; cbn; [done|].
  destruct (f x); cbn; [|done]. rewrite <- IH. by destruct (Json.traverse f l).
Qed.

(** An object serializes unless one of its property values throws. *)
Lemma is_ok_stringify_JObj toISOString props :
  is_ok (Json.stringify toISOString (JObj props)) =
  forallb (fun kv => is_ok (Json.stringify toISOString kv.2)) props.
Proof.
  cbn [Json.stringify].
  rewrite <- (is_ok_traverse (fun kv => Json.stringify toISOString kv.2)).
  induction props as [|[k v] props IH]; cbn; [done|].
  destruct (Json.stringify toISOString v); cbn; [|done].
  revert IH. do 2 destruct (Json.traverse _ props); cbn; congruence.
Qed.

Lemma is_ok_stringify_strings toISOString (l : list string) :
  is_ok (Json.stringify toISOString (JArr (JStr <$> l))) = true.
Proof.
  cbn [Json.stringify].
  induction l as [|x l IH]; cbn; [done|]. revert IH. by destruct (Json.traverse _ _).
Qed.

(** Induction on a value, with the hypothesis for every element of an array
    and every property value of an object. *)
Section Induction.

Variable P : jsval -> Prop.
Hypothesis HUndefined : P JUndefined.
Hypothesis HNull : P JNull.
Hypothesis HBool : forall b, P (JBool b).
Hypothesis HNum : forall n, P (JNum n).
Hypothesis HNaN : P JNaN.
Hypothesis HBigInt : forall n, P (JBigInt n).
Hypothesis HStr : forall s, P (JStr s).
Hypothesis HDate : forall ms, P (JDate ms).
Hypothesis HArr : forall xs, Forall P xs -> P (JArr xs).
Hypothesis HObj : forall props, Forall (fun kv => P kv.2) props -> P (JObj props).

Fixpoint jsval_nested_ind (v : jsval) : P v :=
  match v with
  | JUndefined => HUndefined
  | JNull => HNull
  | JBool b => HBool b
  | JNum n => HNum n
  | JNaN => HNaN
  | JBigInt n => HBigInt n
  | JStr s => HStr s
  | JDate ms => HDate ms
  | JArr xs =>
      HArr xs ((fix elements (l : list jsval) : Forall P l :=
                  match l with
                  | [] => List.Forall_nil P
                  | x :: rest =>
                      @List.Forall_cons _ P x rest (jsval_nested_ind x) (elements rest)
                  end) xs)
  | JObj props =>
      HObj props ((fix members (l : list (string * jsval)) : Forall (fun kv => P kv.2) l :=
                     match l with
                     | [] => List.Forall_nil _
                     | kv :: rest =>
                         @List.Forall_cons _ (fun kv => P kv.2) kv rest
                           (jsval_nested_ind kv.2) (members rest)
                     end) props)
  end.

End Induction.

Lemma traverse_Ok {A B : Type} (f : A -> result B) (g : A -> B) (l : list A) :
  Forall (fun x => f x = Ok (g x)) l -> Json.traverse f l = Ok (g <$> l).
Proof.
  induction 1 as [|x l Hx _ IH]; [done|]. cbn. by rewrite Hx, IH.
Qed.

Lemma traverse_Forall2 {A B : Type} (f : A -> result B) (l : list A) (ys : list B) :
  Json.traverse f l = Ok ys <-> Forall2 (fun x y => f x = Ok y) l ys.
Proof.
  revert ys. induction l as [|x l IH]; intros ys; cbn.
  - split; [intros [= <-]; constructor|by intros ->%Forall2_nil_inv_l].
  - split.
    + destruct (f x) as [y|] eqn:Hx; [|done].
      destruct (Json.traverse f l) as [ys'|]; [|done]. intros [= <-].
      constructor; [done|]. by apply IH.
    + intros (y & ys' & Hx & Hrest & ->)%Forall2_cons_inv_l. rewrite Hx.
      apply IH in Hrest. by rewrite Hrest.
Qed.

Lemma traverse_rel {A A' B : Type} (f : A -> result B) (g : A' -> result B) l l' :
  Forall2 (fun x x' => f x = g x') l l' -> Json.traverse f l = Json.traverse g l'.
Proof. induction 1 as [|x x' l l' Hx _ IH]; [done|]. cbn. by rewrite Hx, IH. Qed.

Lemma traverse_ext {A B : Type} (f g : A -> result B) l :
  (forall x, f x = g x) -> Json.traverse f l = Json.traverse g l.
Proof. intros Hfg. induction l as [|x l IH]; [done|]. cbn. by rewrite Hfg, IH. Qed.

End JsonProps.

(** ** The JSON round trip *)

Module RoundTripProps.
Import ReplayEngine.

(** A value [JSON.stringify] writes without loss: no [undefined], no number
    that is not finite, no [BigInt], no [Date]. *)
Fixpoint plain (v : jsval) : bool :=
  match v with
  | JNull | JBool _ | JNum _ | JStr _ => true
  | JUndefined | JNaN | JBigInt _ | JDate _ => false
  | JArr xs => forallb plain xs
  | JObj props => forallb (fun kv => plain kv.2) props
  end.

Lemma reparse_plain toISOString v :
  plain v = true -> reparse toISOString v = Ok (Some v).
Proof.
  induction v as [| |b|n| |n|s|ms|xs IH|props IH] using JsonProps.jsval_nested_ind;
    cbn [plain reparse]; try done.
  - intros Hall. rewrite (JsonProps.traverse_Ok _ Some).
    + do 3 f_equal. rewrite <- list_fmap_compose. by apply list_fmap_id.
    + rewrite forallb_forall in Hall. rewrite Forall_forall in IH.
      apply Forall_forall. intros x Hx. apply IH; [done|].
      by apply Hall, list_elem_of_In.
  - intros Hall. rewrite (JsonProps.traverse_Ok _ (fun kv => (kv.1, Some kv.2))).
    + do 3 f_equal. clear. induction props as [|[k x] props IHp]; [done|].
      cbn. by rewrite IHp.
    + rewrite forallb_forall in Hall. rewrite Forall_forall in IH.
      apply Forall_forall. intros kv Hkv. rewrite IH; [done|done|].
      by apply Hall, list_elem_of_In.
Qed.

(** What [reparse] yields is a value [JSON.stringify] writes as it writes the
    original: the text [JSON.parse] was given. *)
Definition same_text (toISOString : Z -> string) (v : jsval) : Prop :=
  match reparse toISOString v with
  | Throw e => Json.stringify toISOString v = Throw e
  | Ok None => Json.stringify toISOString v = Ok None
  | Ok (Some v') =>
      exists text,
        Json.stringify toISOString v = Ok (Some text) /\
        Json.stringify toISOString v' = Ok (Some text)
  end.

Lemma same_text_elements toISOString xs :
  Forall (same_text toISOString) xs ->
  match Json.traverse (reparse toISOString) xs with
  | Throw e => Json.traverse (Json.stringify toISOString) xs = Throw e
  | Ok parts =>
      exists texts,
        Json.traverse (Json.stringify toISOString) xs = Ok texts /\
        Json.traverse (Json.stringify toISOString) (default JNull <$> parts)
          = Ok (Some <$> (default "null" <$> texts))
  end.
Proof.
  induction 1 as [|x xs Hx _ IH]; cbn [Json.traverse]; [by exists []|].
  unfold same_text in Hx.
  destruct (reparse toISOString x) as [[x'|]|e]; [| |by rewrite Hx].
  - destruct Hx as (text & -> & Hx').
    destruct (Json.traverse (reparse toISOString) xs) as [parts|e]; [|by rewrite IH].
    destruct IH as (texts & -> & IH). exists (Some text :: texts). split; [done|].
    cbn. by rewrite Hx', IH.
  - rewrite Hx.
    destruct (Json.traverse (reparse toISOString) xs) as [parts|e]; [|by rewrite IH].
    destruct IH as (texts & -> & IH). exists (None :: texts). split; [done|].
    cbn. by rewrite IH.
Qed.

Lemma same_text_members toISOString (props : list (string * jsval)) :
  Forall (fun kv => same_text toISOString kv.2) props ->
  match Json.traverse (fun kv => match reparse toISOString kv.2 with
                                 | Throw e => Throw e
                                 | Ok s => Ok (kv.1, s)
                                 end) props with
  | Throw e =>
      Json.traverse (fun kv => match Json.stringify toISOString kv.2 with
                               | Throw e => Throw e
                               | Ok s => Ok (kv.1, s)
                               end) props = Throw e
  | Ok parts =>
      exists texts,
        Json.traverse (fun kv => match Json.stringify toISOString kv.2 with
                                 | Throw e => Throw e
                                 | Ok s => Ok (kv.1, s)
                                 end) props = Ok texts /\
        exists texts',
          Json.traverse (fun kv => match Json.stringify toISOString kv.2 with
                                   | Throw e => Throw e
                                   | Ok s => Ok (kv.1, s)
                                   end) (omap keep parts) = Ok texts' /\
          omap Json.member texts' = omap Json.member texts
  end.
Proof.
  induction 1 as [|[k x] props Hx _ IH]; cbn [Json.traverse snd fst];
    [exists []; split; [done|]; by exists []|].
  unfold same_text in Hx. cbn [snd] in Hx.
  destruct (reparse toISOString x) as [[x'|]|e]; [| |by rewrite Hx].
  - destruct Hx as (text & -> & Hx').
    destruct (Json.traverse _ props) as [parts|e]; [|by rewrite IH].
    destruct IH as (texts & -> & texts' & IH & Hm).
    exists ((k, Some text) :: texts). split; [done|].
    exists ((k, Some text) :: texts'). cbn. rewrite Hx', IH. cbn. by rewrite Hm.
  - rewrite Hx.
    destruct (Json.traverse _ props) as [parts|e]; [|by rewrite IH].
    destruct IH as (texts & -> & texts' & IH & Hm).
    exists ((k, None) :: texts). split; [done|].
    exists texts'. cbn. by rewrite IH.
Qed.

Lemma stringify_reparse toISOString v : same_text toISOString v.
Proof.
  induction v as [| |b|n| |n|s|ms|xs IH|props IH] using JsonProps.jsval_nested_ind;
    unfold same_text; cbn [reparse Json.stringify]; eauto.
  - pose proof (same_text_elements toISOString xs IH) as H.
    destruct (Json.traverse (reparse toISOString) xs) as [parts|e]; [|by rewrite H].
    destruct H as (texts & -> & Hparts). eexists. split; [done|].
    cbn [Json.stringify]. rewrite Hparts.
    do 4 f_equal. rewrite <- list_fmap_compose. f_equal. by apply list_fmap_id.
  - pose proof (same_text_members toISOString props IH) as H.
    destruct (Json.traverse _ props) as [parts|e]; [|by rewrite H].
    destruct H as (texts & -> & texts' & Hparts & Hm). eexists. split; [done|].
    cbn [Json.stringify]. by rewrite Hparts, Hm.
Qed.

End RoundTripProps.

(** ** The text of a value *)

Module JsonTextProps.
Import ReplayEngine JsStringProps RoundTripProps.

(** *** Reading a text back *)

Fixpoint all_chars (P : ascii -> bool) (s : string) : bool :=
  match s with
  | EmptyString => true
  | String c r => P c && all_chars P r
  end.

(** The first character of [r], if any, satisfies [P]. *)
Definition heads (P : ascii -> bool) (r : string) : bool :=
  match r with
  | EmptyString => false
  | String c _ => P c
  end.

Lemma append_cancel_l (a x y : string) : a +:+ x = a +:+ y -> x = y.
Proof. induction a as [|c a IH]; [done|]. rewrite !append_cons. intros [= H]. auto. Qed.

Lemma append_eq_prefix (a b x y : string) :
  a +:+ x = b +:+ y -> (exists d, a = b +:+ d) \/ (exists d, b = a +:+ d).
Proof.
  revert b. induction a as [|c a IH]; intros b; [right; by exists b|].
  destruct b as [|c' b]; [left; by exists (String c a)|].
  rewrite !append_cons. intros [= -> H]. destruct (IH b H) as [[d ->]|[d ->]].
  - left. by exists d.
  - right. by exists d.
Qed.

(** A run of characters of one class, followed by a character that is not
    of it, is read in one way. *)
Lemma span_unique P (a b r r' : string) :
  all_chars P a = true -> all_chars P b = true ->
  heads P r = false -> heads P r' = false ->
  a +:+ r = b +:+ r' -> a = b /\ r = r'.
Proof.
  revert b. induction a as [|c a IH]; intros [|c' b] Ha Hb Hr Hr';
    rewrite ?append_nil_l, ?append_cons; cbn in Ha, Hb.
  - done.
  - intros Heq. subst r. cbn in Hr. apply andb_true_iff in Hb as [Hc _]. congruence.
  - intros Heq. subst r'. cbn in Hr'. apply andb_true_iff in Ha as [Hc _]. congruence.
  - intros [= -> H].
    apply andb_true_iff in Ha as [_ Ha]. apply andb_true_iff in Hb as [_ Hb].
    by destruct (IH b Ha Hb Hr Hr' H) as [-> ->].
Qed.

(** **** Numbers *)

Definition is_digit (c : ascii) : bool :=
  (48 <=? nat_of_ascii c)%nat && (nat_of_ascii c <=? 57)%nat.

Lemma pretty_N_char_digit x : is_digit (pretty_N_char x) = true.
Proof. unfold pretty_N_char. by repeat case_match. Qed.

Lemma pretty_N_go_digits x s :
  all_chars is_digit s = true -> all_chars is_digit (pretty_N_go x s) = true.
Proof.
  revert s. induction (N.lt_wf_0 x) as [x _ IH]; intros s Hs.
  assert (x = 0 \/ 0 < x)%N as [->|Hx] by lia; [by rewrite pretty_N_go_0|].
  rewrite pretty_N_go_step by done. apply IH; [by apply N.div_lt|].
  cbn. by rewrite pretty_N_char_digit.
Qed.

Lemma pretty_N_go_length x s : (String.length s <= String.length (pretty_N_go x s))%nat.
Proof.
  revert s. induction (N.lt_wf_0 x) as [x _ IH]; intros s.
  assert (x = 0 \/ 0 < x)%N as [->|Hx] by lia; [by rewrite pretty_N_go_0|].
  rewrite pretty_N_go_step by done.
  etrans; [|apply IH; by apply N.div_lt]. cbn. lia.
Qed.

(** The decimal text of a natural number: digits, and at least one. *)
Lemma pretty_N_digits (x : N) :
  all_chars is_digit (pretty x) = true /\ pretty x <> "".
Proof.
  unfold pretty, pretty_N. case_decide as Hx; [done|]. split.
  - by apply pretty_N_go_digits.
  - assert (0 < x)%N as Hpos by lia. rewrite pretty_N_go_step by done.
    intros Hnil. pose proof (pretty_N_go_length (x `div` 10)%N
      (String (pretty_N_char (x `mod` 10)) "")) as Hlen.
    rewrite Hnil in Hlen. cbn in Hlen. lia.
Qed.

(** The text of an integer: digits, after a minus sign when it is
    negative. *)
Lemma pretty_Z_digits (n : Z) :
  exists digits,
    all_chars is_digit digits = true /\ digits <> "" /\
    pretty n = (if bool_decide (n < 0) then "-" +:+ digits else digits).
Proof.
  destruct n as [|p|p].
  - by exists "0".
  - exists (pretty (N.pos p)). by destruct (pretty_N_digits (N.pos p)).
  - exists (pretty (N.pos p)). by destruct (pretty_N_digits (N.pos p)).
Qed.

Lemma pretty_Z_unique (n m : Z) (r r' : string) :
  heads is_digit r = false -> heads is_digit r' = false ->
  pretty n +:+ r = pretty m +:+ r' -> n = m /\ r = r'.
Proof.
  intros Hr Hr' Heq.
  destruct (pretty_Z_digits n) as (dn & Hdn & Hn0 & Hn).
  destruct (pretty_Z_digits m) as (dm & Hdm & Hm0 & Hm).
  assert (pretty n = pretty m /\ r = r') as [Hp ->]; [|split; [by apply (inj pretty)|done]].
  rewrite Hn, Hm in Heq |- *. clear Hn Hm.
  destruct (bool_decide (n < 0)), (bool_decide (m < 0)).
  - rewrite !append_cons, !append_nil_l in Heq. injection Heq as Heq.
    by destruct (span_unique is_digit dn dm r r' Hdn Hdm Hr Hr' Heq) as [-> ->].
  - destruct dm as [|c dm]; [done|]. rewrite !append_cons in Heq. injection Heq as <- _.
    cbn in Hdm. done.
  - destruct dn as [|c dn]; [done|]. rewrite !append_cons in Heq. injection Heq as -> _.
    cbn in Hdn. done.
  - by destruct (span_unique is_digit dn dm r r' Hdn Hdm Hr Hr' Heq) as [-> ->].
Qed.

(** **** Strings *)

Definition all_ascii : list ascii := ascii_of_nat <$> seq 0 256.

Lemma elem_of_all_ascii c : c ∈ all_ascii.
Proof.
  rewrite <- (ascii_nat_embedding c). apply list_elem_of_fmap.
  exists (nat_of_ascii c). split; [done|]. apply elem_of_seq.
  pose proof (nat_ascii_bounded c). lia.
Qed.

Lemma for_all_ascii (P : ascii -> bool) : forallb P all_ascii = true -> forall c, P c = true.
Proof.
  intros Hall c. rewrite forallb_forall in Hall. apply Hall, list_elem_of_In.
  apply elem_of_all_ascii.
Qed.

(** No escape is the beginning of the escape of another character, and none
    begins with a double quote. *)
Lemma escape_char_prefix_free c c' :
  JsString.startsWith (Json.escape_char c) (Json.escape_char c') = true -> c = c'.
Proof.
  assert (forallb (fun c => forallb (fun c' =>
            implb (JsString.startsWith (Json.escape_char c) (Json.escape_char c'))
                  (Ascii.eqb c c')) all_ascii) all_ascii = true) as Hall
    by (vm_compute; reflexivity).
  pose proof (for_all_ascii _ (for_all_ascii _ Hall c) c') as H. cbn beta in H.
  intros Hs. rewrite Hs in H. by apply Ascii.eqb_eq.
Qed.

Lemma escape_char_head c :
  exists x rest, Json.escape_char c = String x rest /\ x <> ascii_of_nat 34.
Proof.
  assert (forallb (fun c => match Json.escape_char c with
                            | EmptyString => false
                            | String x _ => negb (Ascii.eqb x (ascii_of_nat 34))
                            end) all_ascii = true) as Hall by (vm_compute; reflexivity).
  pose proof (for_all_ascii _ Hall c) as H. cbn beta in H.
  destruct (Json.escape_char c) as [|x rest]; [done|]. exists x, rest. split; [done|].
  intros ->. by rewrite Ascii.eqb_refl in H.
Qed.

(** An escaped string is read in one way up to the quote that closes it. *)
Lemma escape_unique (s s' r r' : string) :
  Json.escape s +:+ String (ascii_of_nat 34) r = Json.escape s' +:+ String (ascii_of_nat 34) r' ->
  s = s' /\ r = r'.
Proof.
  revert s'. induction s as [|c s IH]; intros [|c' s']; cbn [Json.escape].
  - rewrite !append_nil_l. by intros [= ->].
  - rewrite append_nil_l, append_assoc.
    destruct (escape_char_head c') as (x & rest & -> & Hx).
    rewrite append_cons. by intros [= <- _].
  - rewrite append_nil_l, append_assoc.
    destruct (escape_char_head c) as (x & rest & -> & Hx).
    rewrite append_cons. by intros [= -> _].
  - rewrite !append_assoc. intros Heq.
    assert (c = c') as <-.
    { destruct (append_eq_prefix _ _ _ _ Heq) as [[d Hd]|[d Hd]].
      - apply escape_char_prefix_free. apply startsWith_spec. eauto.
      - symmetry. apply escape_char_prefix_free. apply startsWith_spec. eauto. }
    apply append_cancel_l in Heq. by destruct (IH s' Heq) as [-> ->].
Qed.

Lemma quote_unique (s s' r r' : string) :
  Json.quote s +:+ r = Json.quote s' +:+ r' -> s = s' /\ r = r'.
Proof.
  unfold Json.quote, JsString.dquote.
  rewrite !append_cons, !append_nil_l, !append_assoc, !append_cons, !append_nil_l.
  intros [= Heq]. by apply escape_unique.
Qed.

(** **** Values *)

(** The text [JSON.stringify] writes for a plain value. *)
Fixpoint text (v : jsval) : string :=
  match v with
  | JNull => "null"
  | JBool b => if b then "true" else "false"
  | JNum n => pretty n
  | JStr s => Json.quote s
  | JArr xs => "[" +:+ Json.join "," (text <$> xs) +:+ "]"
  | JObj props =>
      "{" +:+ Json.join "," ((fun kv => Json.quote kv.1 +:+ ":" +:+ text kv.2) <$> props)
      +:+ "}"
  | _ => ""
  end.

Lemma stringify_plain toISOString v :
  plain v = true -> Json.stringify toISOString v = Ok (Some (text v)).
Proof.
  induction v as [| |b|n| |n|s|ms|xs IH|props IH] using JsonProps.jsval_nested_ind;
    cbn [plain Json.stringify text]; try done.
  - intros Hall. rewrite (JsonProps.traverse_Ok _ (fun x => Some (text x))).
    + do 4 f_equal. rewrite <- list_fmap_compose. f_equal.
    + rewrite forallb_forall in Hall. rewrite Forall_forall in IH.
      apply Forall_forall. intros x Hx. apply IH; [done|]. by apply Hall, list_elem_of_In.
  - intros Hall. rewrite (JsonProps.traverse_Ok _ (fun kv => (kv.1, Some (text kv.2)))).
    + do 5 f_equal. clear. induction props as [|[k x] props IHp]; [done|].
      cbn. by rewrite IHp.
    + rewrite forallb_forall in Hall. rewrite Forall_forall in IH.
      apply Forall_forall. intros kv Hkv. rewrite IH; [done|done|].
      by apply Hall, list_elem_of_In.
Qed.

(** The kind of a value, and the kind of value a character begins. *)
Definition tag (v : jsval) : nat :=
  match v with
  | JNull => 0
  | JBool _ => 1
  | JNum _ => 2
  | JStr _ => 3
  | JArr _ => 4
  | JObj _ => 5
  | _ => 6
  end.

Definition class (c : ascii) : nat :=
  let n := nat_of_ascii c in
  if (n =? 110)%nat then 0
  else if (n =? 116)%nat || (n =? 102)%nat then 1
  else if is_digit c || (n =? 45)%nat then 2
  else if (n =? 34)%nat then 3
  else if (n =? 91)%nat then 4
  else if (n =? 123)%nat then 5
  else 6.

(** What may follow a value in a text: nothing, a comma or a closing
    bracket. *)
Definition stops (r : string) : bool :=
  match r with
  | EmptyString => true
  | String c _ =>
      let n := nat_of_ascii c in (n =? 44)%nat || (n =? 93)%nat || (n =? 125)%nat
  end.

Lemma is_digit_class c : is_digit c = true -> class c = 2%nat.
Proof.
  assert (forallb (fun c => implb (is_digit c) (class c =? 2)%nat) all_ascii = true) as Hall
    by (vm_compute; reflexivity).
  pose proof (for_all_ascii _ Hall c) as H. cbn beta in H.
  intros Hc. rewrite Hc in H. by apply Nat.eqb_eq.
Qed.

Lemma stops_class c r : stops (String c r) = true -> class c = 6%nat.
Proof.
  assert (forallb (fun c => implb (stops (String c "")) (class c =? 6)%nat) all_ascii = true)
    as Hall by (vm_compute; reflexivity).
  pose proof (for_all_ascii _ Hall c) as H. cbn beta in H.
  intros Hc. change (stops (String c "")) with (stops (String c r)) in H.
  rewrite Hc in H. by apply Nat.eqb_eq.
Qed.

Lemma stops_not_digit r : stops r = true -> heads is_digit r = false.
Proof.
  destruct r as [|c r]; [done|]. intros Hc%stops_class. cbn.
  destruct (is_digit c) eqn:Hd; [|done]. apply is_digit_class in Hd. congruence.
Qed.

Lemma text_head v :
  plain v = true -> exists c rest, text v = String c rest /\ class c = tag v.
Proof.
  destruct v as [| |b|n| |n|s|ms|xs|props]; try done; intros _; cbn [text tag].
  - by exists "n"%char, "ull".
  - destruct b; [by exists "t"%char, "rue"|by exists "f"%char, "alse"].
  - destruct (pretty_Z_digits n) as (digits & Hd & Hne & ->).
    case_bool_decide; [by exists "-"%char, digits|].
    destruct digits as [|c rest]; [done|]. exists c, rest. split; [done|].
    cbn in Hd. apply is_digit_class. by destruct (is_digit c).
  - unfold Json.quote, JsString.dquote. rewrite append_cons. by eexists _, _.
  - rewrite append_cons. by eexists _, _.
  - rewrite append_cons. by eexists _, _.
Qed.

Lemma text_tag a b r r' :
  plain a = true -> plain b = true -> text a +:+ r = text b +:+ r' -> tag a = tag b.
Proof.
  intros (c & rest & -> & <-)%text_head (c' & rest' & -> & <-)%text_head.
  rewrite !append_cons. by intros [= -> _].
Qed.

Lemma text_not_stops v r rest :
  plain v = true -> stops r = true -> r <> "" -> text v +:+ rest <> r.
Proof.
  intros Hp Hr Hne Heq. destruct (text_head v Hp) as (c & rest' & Htext & Hc).
  rewrite Htext, append_cons in Heq. subst r.
  apply stops_class in Hr. destruct v; cbn in Hp, Hc; congruence.
Qed.

(** A text is read in one way: [a] is the one plain value whose text
    begins a text that goes on with a comma, a closing bracket or
    nothing. *)
Definition reads (a : jsval) : Prop :=
  forall b r r',
    plain b = true -> stops r = true -> stops r' = true ->
    text a +:+ r = text b +:+ r' -> a = b /\ r = r'.

Lemma join_cons (p q : string) (rest : list string) :
  Json.join "," (p :: q :: rest) = p +:+ "," +:+ Json.join "," (q :: rest).
Proof. done. Qed.

(** The items of a list written with commas between them, up to the
    bracket that closes the list, are read in one way when each item is. *)
Lemma items_unique {A : Type} (item : A -> string) (ok : A -> bool) (close : ascii) xs :
  stops (String close "") = true -> close <> ","%char ->
  (forall x rest r, ok x = true -> item x +:+ rest <> String close r) ->
  Forall (fun x => ok x = true ->
                   forall y r r', ok y = true -> stops r = true -> stops r' = true ->
                                  item x +:+ r = item y +:+ r' -> x = y /\ r = r') xs ->
  forallb ok xs = true ->
  forall ys r r',
    forallb ok ys = true ->
    Json.join "," (item <$> xs) +:+ String close r
    = Json.join "," (item <$> ys) +:+ String close r' ->
    xs = ys /\ r = r'.
Proof.
  intros Hclose Hcomma Hhead. induction 1 as [|x xs Hx _ IH]; intros Hxs ys r r' Hys.
  - destruct ys as [|y ys]; [by intros [= ->]|]. cbn in Hys.
    apply andb_true_iff in Hys as [Hy _]. intros Heq. exfalso. symmetry in Heq. revert Heq.
    destruct ys as [|y2 ys]; cbn [fmap list_fmap Json.join];
      rewrite ?append_assoc; by apply Hhead.
  - cbn in Hxs. apply andb_true_iff in Hxs as [Hpx Hxs].
    destruct ys as [|y ys].
    { intros Heq. exfalso. revert Heq.
      destruct xs as [|x2 xs]; cbn [fmap list_fmap Json.join];
        rewrite ?append_assoc; by apply Hhead. }
    cbn in Hys. apply andb_true_iff in Hys as [Hpy Hys].
    destruct xs as [|x2 xs], ys as [|y2 ys]; cbn [fmap list_fmap Json.join];
      rewrite ?append_assoc; intros Heq;
      apply (Hx Hpx) in Heq as [-> Heq]; try done.
    + by injection Heq as ->.
    + rewrite append_cons in Heq. by injection Heq as -> _.
    + rewrite append_cons in Heq. by injection Heq as <- _.
    + apply append_cancel_l in Heq.
      by destruct (IH Hxs (y2 :: ys) r r' Hys Heq) as [-> ->].
Qed.

(** The text of a property. *)
Definition member_text (kv : string * jsval) : string :=
  Json.quote kv.1 +:+ ":" +:+ text kv.2.

Lemma member_text_head kv rest r : member_text kv +:+ rest <> String "}" r.
Proof. unfold member_text, Json.quote, JsString.dquote. by rewrite !append_cons. Qed.

Lemma text_unique a : plain a = true -> reads a.
Proof.
  induction a as [| |b|n| |n|s|ms|xs IH|props IH] using JsonProps.jsval_nested_ind;
    try done; intros Ha b' r r' Hb Hr Hr' Heq;
    pose proof (text_tag _ _ _ _ Ha Hb Heq) as Htag;
    destruct b' as [| |b2|n2| |n2|s2|ms2|ys|props']; try done; cbn [text] in Heq.
  - by apply append_cancel_l in Heq.
  - destruct b, b2; rewrite ?append_cons in Heq; try done;
      by apply (append_cancel_l "") in Heq; injection Heq.
  - apply pretty_Z_unique in Heq as [-> ->]; [done|by apply stops_not_digit..].
  - by apply quote_unique in Heq as [-> ->].
  - rewrite !append_assoc, !append_cons, !append_nil_l in Heq. injection Heq as Heq.
    rewrite ?append_cons, ?append_nil_l in Heq.
    apply (items_unique text plain "]") in Heq as [-> ->]; try done.
    intros x rest r0 Hx. by apply text_not_stops.
  - change (fun kv : string * jsval => Json.quote kv.1 +:+ ":" +:+ text kv.2)
      with member_text in Heq.
    rewrite !append_assoc, !append_cons, !append_nil_l in Heq. injection Heq as Heq.
    rewrite ?append_cons, ?append_nil_l in Heq.
    apply (items_unique member_text (fun kv => plain kv.2) "}") in Heq as [-> ->];
      try done; try (intros kv rest r0 _; apply member_text_head).
    eapply Forall_impl; [exact IH|]. intros [k x] Hx Hpx [k' y] r1 r2 Hpy Hr1 Hr2.
    unfold member_text. cbn [fst snd] in *. rewrite !append_assoc.
    intros [-> Hrest]%quote_unique. apply append_cancel_l in Hrest.
    by apply (Hx Hpx) in Hrest as [-> ->].
Qed.

(** [JSON.stringify] writes plain values that differ differently. *)
Lemma text_inj a b : plain a = true -> plain b = true -> text a = text b -> a = b.
Proof.
  intros Ha Hb Heq.
  destruct (text_unique a Ha b "" "" Hb eq_refl eq_refl) as [-> _]; [|done].
  by rewrite !append_nil_r.
Qed.

(** What [reparse] yields is plain. *)
Lemma reparse_is_plain toISOString v v' :
  reparse toISOString v = Ok (Some v') -> plain v' = true.
Proof.
  revert v'.
  induction v as [| |b|n| |n|s|ms|xs IH|props IH] using JsonProps.jsval_nested_ind;
    intros v'; cbn [reparse]; try (by intros [= <-]).
  - destruct (Json.traverse _ xs) as [parts|] eqn:Hparts; [|done]. intros [= <-].
    apply JsonProps.traverse_Forall2 in Hparts.
    cbn [plain]. apply forallb_forall. intros w Hw%list_elem_of_In.
    apply list_elem_of_fmap in Hw as (p & -> & Hp).
    apply list_elem_of_lookup in Hp as [i Hi].
    destruct (Forall2_lookup_r _ _ _ _ _ Hparts Hi) as (x & Hx & Hrx).
    destruct p as [w|]; [|done]. cbn.
    rewrite Forall_forall in IH. eapply IH; [|done]. by eapply list_elem_of_lookup_2.
  - destruct (Json.traverse _ props) as [parts|] eqn:Hparts; [|done]. intros [= <-].
    apply JsonProps.traverse_Forall2 in Hparts.
    cbn [plain]. apply forallb_forall. intros [k w] Hin%list_elem_of_In.
    apply list_elem_of_omap in Hin as ([k' p] & Hp & Hkeep).
    unfold keep in Hkeep. cbn in Hkeep. destruct p as [w'|]; [|done].
    injection Hkeep as -> ->. cbn.
    apply list_elem_of_lookup in Hp as [i Hi].
    destruct (Forall2_lookup_r _ _ _ _ _ Hparts Hi) as ([k0 x] & Hx & Hrx).
    cbn in Hrx. destruct (reparse toISOString x) as [p|] eqn:Hp; [|done].
    injection Hrx as -> ->.
    rewrite Forall_forall in IH. eapply (IH (k, x)); [|done]. by eapply list_elem_of_lookup_2.
Qed.

(** Two values have the same text exactly when [JSON.parse] reads the same
    value back from it. *)
Lemma same_text_iff toISOString v v' t :
  Json.stringify toISOString v = Ok (Some t) ->
  Json.stringify toISOString v' = Ok (Some t) <-> reparse toISOString v' = reparse toISOString v.
Proof.
  intros Hv. pose proof (stringify_reparse toISOString v) as Hsame.
  pose proof (stringify_reparse toISOString v') as Hsame'.
  unfold same_text in *.
  destruct (reparse toISOString v) as [[w|]|] eqn:Hw; [|congruence..].
  destruct Hsame as (t0 & Ht0 & Hwt). rewrite Hv in Ht0. injection Ht0 as <-.
  pose proof (reparse_is_plain _ _ _ Hw) as Hpw.
  rewrite (stringify_plain _ _ Hpw) in Hwt. injection Hwt as Hwt.
  split.
  - intros Hv'. destruct (reparse toISOString v') as [[w'|]|] eqn:Hw'; [|congruence..].
    destruct Hsame' as (t0 & Ht0 & Hwt'). rewrite Hv' in Ht0. injection Ht0 as <-.
    pose proof (reparse_is_plain _ _ _ Hw') as Hpw'.
    rewrite (stringify_plain _ _ Hpw') in Hwt'. injection Hwt' as Hwt'.
    do 2 f_equal. apply text_inj; congruence.
  - intros Heq. rewrite Heq in Hsame'. destruct Hsame' as (t0 & -> & Hwt').
    rewrite (stringify_plain _ _ Hpw) in Hwt'. congruence.
Qed.

End JsonTextProps.

(** ** The query guard *)

Module QueryGuardProps.

Lemma getCurrentPartitionKey_Some context :
  TenantContext.getCurrentPartitionKey (Some context)
  = Ok (TenantRegistry.partitionKey (TenantContext.tenant context)).
Proof. reflexivity. Qed.

Section Guard.

Context {W : Type} (violationHandler : IsolationGuards.IsolationViolation -> W -> W).

(** The query guard lets the current partition key through, unless it is
    empty. *)
Lemma validatePartitionKey_current context now w :
  TenantRegistry.partitionKey (TenantContext.tenant context) <> "" ->
  IsolationGuards.QueryGuard_validatePartitionKey W violationHandler (Some context) now
    (Some (TenantRegistry.partitionKey (TenantContext.tenant context))) w = (Ok tt, w).
Proof.
  intros Hpk. unfold IsolationGuards.QueryGuard_validatePartitionKey.
  destruct (TenantRegistry.partitionKey (TenantContext.tenant context)) as [|c pk] eqn:Hk;
    [done|].
  cbn. rewrite Hk. rewrite bool_decide_eq_false_2; [done|]. by intros [].
Qed.

(** What the guard answers does not depend on the clock, on the violation
    handler or on what it has seen. *)
Lemma validatePartitionKey_result {W'} (violationHandler' : _ -> W' -> W')
    als now now' key (w : W) (w' : W') :
  (IsolationGuards.QueryGuard_validatePartitionKey W violationHandler als now key w).1 =
  (IsolationGuards.QueryGuard_validatePartitionKey W' violationHandler' als now' key w').1.
Proof.
  unfold IsolationGuards.QueryGuard_validatePartitionKey, IsolationGuards.reportViolation.
  destruct key as [[|c key]|]; destruct als as [context|]; cbn; try done.
  by case_bool_decide.
Qed.

End Guard.

End QueryGuardProps.

(** ** Event store: the hash chain *)

Module EventStoreProps.
Import EventStore.

(** The store after a caller with access to it overwrites the [i]-th event
    of partition [partitionKey] with [e']. *)
Definition tamper (st : EventStoreImpl) (partitionKey : string) (i : nat)
    (e' : DomainEvent) : EventStoreImpl :=
  {| events :=
       <[getTenantKey partitionKey :=
           <[i := e']> (default [] (events st !! getTenantKey partitionKey))]> (events st);
     aggregateSequences := aggregateSequences st;
     lastHashes := lastHashes st |}.

Definition set_previousHash (p : option string) (e : DomainEvent) : DomainEvent :=
  {| id := id e; type := type e; version := version e; tenantId := tenantId e;
     partitionKey := partitionKey e; aggregateId := aggregateId e;
     aggregateType := aggregateType e; sequence := sequence e;
     payload := payload e; evidenceRefs := evidenceRefs e; metadata := metadata e;
     occurredAt := occurredAt e; recordedAt := recordedAt e;
     hash := hash e; previousHash := p |}.

Definition set_payload (v : jsval) (e : DomainEvent) : DomainEvent :=
  {| id := id e; type := type e; version := version e; tenantId := tenantId e;
     partitionKey := partitionKey e; aggregateId := aggregateId e;
     aggregateType := aggregateType e; sequence := sequence e;
     payload := v; evidenceRefs := evidenceRefs e; metadata := metadata e;
     occurredAt := occurredAt e; recordedAt := recordedAt e;
     hash := hash e; previousHash := previousHash e |}.

(** The events of the partition a context selects. *)
Definition partition_events (st : EventStoreImpl) (context : TenantContext.TenantContext)
    : list DomainEvent :=
  default [] (events st !! getTenantKey
                (TenantRegistry.partitionKey (TenantContext.tenant context))).

(** The value of the loop variable [previousHash] after the events [l]. *)
Definition tail_hash (prev : option string) (l : list DomainEvent) : option string :=
  foldl (fun _ e => Some (hash e)) prev l.

Section Chain.

Variable sha256 : string -> string.
Variable toISOString : Z -> string.

(** The stores [append] calls build, whatever their arguments and ambient
    context, and whether they return or throw. *)
Inductive reachable : EventStoreImpl -> Prop :=
| reachable_empty : reachable empty
| reachable_append st als uuid occurred recorded type aggregateId aggregateType
    payload evidenceRefs metadata :
    reachable st ->
    reachable (append sha256 toISOString als st uuid occurred recorded type
                 aggregateId aggregateType payload evidenceRefs metadata).2.

(** A well-linked run of events: each stores the hash of its own fields and
    the hash of its predecessor. *)
Fixpoint chain (prev : option string) (l : list DomainEvent) : Prop :=
  match l with
  | [] => True
  | e :: rest =>
      previousHash e = prev /\
      calculateHash sha256 toISOString e = Ok (hash e) /\
      chain (Some (hash e)) rest
  end.

Definition linked (st : EventStoreImpl) : Prop :=
  forall k, chain None (default [] (events st !! k)) /\
            lastHashes st !! k = tail_hash None (default [] (events st !! k)).

Lemma calculateHash_set_hash h e :
  calculateHash sha256 toISOString (set_hash h e) = calculateHash sha256 toISOString e.
Proof. reflexivity. Qed.

Lemma tail_hash_app prev l1 l2 :
  tail_hash prev (l1 ++ l2) = tail_hash (tail_hash prev l1) l2.
Proof. apply foldl_app. Qed.

Lemma chain_app prev l1 l2 :
  chain prev (l1 ++ l2) <-> chain prev l1 /\ chain (tail_hash prev l1) l2.
Proof.
  revert prev. induction l1 as [|e l1 IH]; intros prev; cbn; [tauto|].
  rewrite IH. tauto.
Qed.

Lemma chain_calculateHash prev l :
  chain prev l -> Forall (fun e => calculateHash sha256 toISOString e = Ok (hash e)) l.
Proof.
  revert prev. induction l as [|e l IH]; intros prev; cbn; [constructor|].
  intros (_ & He & Hl). constructor; eauto.
Qed.

Lemma chain_lookup prev l i e :
  chain prev l -> l !! i = Some e ->
  previousHash e = tail_hash prev (take i l) /\
  calculateHash sha256 toISOString e = Ok (hash e).
Proof.
  intros Hc Hi. rewrite <- (take_drop_middle l i e Hi) in Hc.
  apply chain_app in Hc as (_ & Hp & He & _). done.
Qed.

Lemma verify_loop_chain prev errors l :
  chain prev l -> verify_loop sha256 toISOString prev errors l = Ok errors.
Proof.
  revert prev. induction l as [|e l IH]; intros prev; cbn; [done|].
  intros (Hp & He & Hl). rewrite He.
  rewrite bool_decide_eq_false_2 by (intros H; by apply H).
  rewrite bool_decide_eq_false_2 by (intros H; by apply H).
  by apply IH.
Qed.

Lemma verify_loop_total prev errors l :
  Forall (fun e => is_ok (calculateHash sha256 toISOString e) = true) l ->
  exists more, verify_loop sha256 toISOString prev errors l = Ok (errors ++ more)%list.
Proof.
  revert prev errors. induction l as [|e l IH]; intros prev errors Hall; cbn.
  - exists []. by rewrite app_nil_r.
  - apply Forall_cons in Hall as [He Hl].
    destruct (calculateHash sha256 toISOString e) as [h|]; [|discriminate].
    edestruct (IH (Some (hash e))) as [more ->]; [done|].
    repeat case_bool_decide; rewrite <- ?app_assoc; eauto.
Qed.

Lemma verify_loop_app prev errors l1 l2 :
  chain prev l1 ->
  verify_loop sha256 toISOString prev errors (l1 ++ l2) =
  verify_loop sha256 toISOString (tail_hash prev l1) errors l2.
Proof.
  revert prev. induction l1 as [|e l1 IH]; intros prev; cbn; [done|].
  intros (Hp & He & Hl). rewrite He.
  rewrite bool_decide_eq_false_2 by (intros H; by apply H).
  rewrite bool_decide_eq_false_2 by (intros H; by apply H).
  by apply IH.
Qed.

Lemma append_linked als st uuid occurred recorded type aggregateId aggregateType
    payload evidenceRefs metadata :
  linked st ->
  linked (append sha256 toISOString als st uuid occurred recorded type
            aggregateId aggregateType payload evidenceRefs metadata).2.
Proof.
  intros Hst. unfold append.
  destruct (TenantContext.getTenantContext als) as [context|]; [|done].
  set (pk := TenantRegistry.partitionKey (TenantContext.tenant context)).
  set (evs1 := match events st !! getTenantKey pk with
               | Some _ => events st
               | None => <[getTenantKey pk := []]> (events st)
               end).
  assert (forall k, default [] (evs1 !! k) = default [] (events st !! k)) as Hevs1.
  { intros k. subst evs1. destruct (events st !! getTenantKey pk) eqn:Hk; [done|].
    destruct (decide (getTenantKey pk = k)) as [<-|Hne].
    - by rewrite lookup_insert_eq, Hk.
    - by rewrite lookup_insert_ne. }
  match goal with |- context [calculateHash _ _ ?d] => set (data := d) end.
  destruct (calculateHash sha256 toISOString data) as [h|err] eqn:Hh; cbn.
  - intros k. cbn. destruct (decide (getTenantKey pk = k)) as [<-|Hne].
    + rewrite !lookup_insert_eq. cbn. rewrite Hevs1.
      destruct (Hst (getTenantKey pk)) as [Hc Hl]. split.
      * apply chain_app. split; [done|]. cbn. rewrite <- Hl. done.
      * by rewrite tail_hash_app.
    + rewrite !lookup_insert_ne by done. rewrite Hevs1. apply Hst.
  - intros k. cbn. rewrite Hevs1. apply Hst.
Qed.

Lemma reachable_linked st : reachable st -> linked st.
Proof.
  induction 1 as [|st ? ? ? ? ? ? ? ? ? ? _ IH].
  - intros k. cbn. by rewrite !lookup_empty.
  - by apply append_linked.
Qed.

Lemma tail_hash_take prev (l : list DomainEvent) i :
  tail_hash prev (take i l) =
  match i with
  | O => prev
  | S j => match l !! j with Some x => Some (hash x) | None => tail_hash prev l end
  end.
Proof.
  destruct i as [|j]; [done|].
  destruct (l !! j) as [x|] eqn:Hj.
  - rewrite (take_S_r _ _ _ Hj), tail_hash_app. done.
  - rewrite take_ge; [done|]. apply lookup_ge_None in Hj. lia.
Qed.

(** [calculateHash] throws only when the payload or the metadata does. *)
Lemma is_ok_calculateHash e :
  is_ok (calculateHash sha256 toISOString e) =
  is_ok (Json.stringify toISOString (payload e)) &&
  is_ok (Json.stringify toISOString (metadata e)).
Proof.
  unfold calculateHash.
  transitivity (is_ok (Json.stringify toISOString (eventData e))).
  { by destruct (Json.stringify toISOString (eventData e)). }
  unfold eventData. rewrite JsonProps.is_ok_stringify_JObj.
  cbn [forallb snd]. rewrite JsonProps.is_ok_stringify_strings.
  destruct (previousHash e); cbn [from_option Json.stringify is_ok andb];
    by rewrite andb_true_r.
Qed.

Lemma is_ok_calculateHash_previousHash p e :
  is_ok (calculateHash sha256 toISOString (set_previousHash p e)) =
  is_ok (calculateHash sha256 toISOString e).
Proof. by rewrite !is_ok_calculateHash. Qed.

Lemma verifyChainIntegrity_linked st context :
  linked st ->
  verifyChainIntegrity sha256 toISOString (Some context) st = Ok (true, []).
Proof.
  intros Hst. unfold verifyChainIntegrity. cbn.
  destruct (Hst (getTenantKey (TenantRegistry.partitionKey (TenantContext.tenant context))))
    as [Hc _].
  by rewrite (verify_loop_chain _ _ _ Hc).
Qed.

(** What the verification of a store answers once one event of the checked
    partition has been overwritten by [e']: the errors raised at [e'] come
    first, those its successor may raise follow. *)
Lemma verifyChainIntegrity_tamper st context i e e' h' :
  linked st ->
  partition_events st context !! i = Some e ->
  calculateHash sha256 toISOString e' = Ok h' ->
  exists more,
    verifyChainIntegrity sha256 toISOString (Some context)
      (tamper st (TenantRegistry.partitionKey (TenantContext.tenant context)) i e') =
    Ok (bool_decide (length
          ((if bool_decide (previousHash e' ≠ previousHash e)
            then ["Event " +:+ id e' +:+ ": previous hash mismatch"] else []) ++
           (if bool_decide (hash e' ≠ h')
            then ["Event " +:+ id e' +:+ ": hash mismatch"] else []) ++ more)%list = 0%nat),
        ((if bool_decide (previousHash e' ≠ previousHash e)
          then ["Event " +:+ id e' +:+ ": previous hash mismatch"] else []) ++
         (if bool_decide (hash e' ≠ h')
          then ["Event " +:+ id e' +:+ ": hash mismatch"] else []) ++ more)%list).
Proof.
  intros Hst Hi He'. unfold partition_events in Hi.
  set (pk := TenantRegistry.partitionKey (TenantContext.tenant context)) in *.
  destruct (Hst (getTenantKey pk)) as [Hc _].
  set (l := default [] (events st !! getTenantKey pk)) in *.
  destruct (chain_lookup _ _ _ _ Hc Hi) as [Hprev _].
  pose proof Hc as Hc'. rewrite <- (take_drop_middle l i e Hi) in Hc'.
  apply chain_app in Hc' as (Hc1 & _ & _ & Hc2).
  unfold verifyChainIntegrity, tamper. cbn. fold pk. rewrite lookup_insert_eq. cbn. fold l.
  rewrite insert_take_drop by (by eapply lookup_lt_Some).
  rewrite (verify_loop_app _ _ _ _ Hc1). cbn [verify_loop]. rewrite He', <- Hprev.
  edestruct (verify_loop_total (Some (hash e'))) as [more ->].
  { eapply Forall_impl; [exact (chain_calculateHash _ _ Hc2)|].
    intros x Hx. cbn in Hx. by rewrite Hx. }
  exists more.
  destruct (bool_decide (previousHash e' ≠ previousHash e)), (bool_decide (hash e' ≠ h'));
    cbn [app]; reflexivity.
Qed.

Lemma chain_replace l i e e' :
  chain None l -> l !! i = Some e ->
  previousHash e' = previousHash e -> hash e' = hash e ->
  calculateHash sha256 toISOString e' = Ok (hash e') ->
  chain None (<[i := e']> l).
Proof.
  intros Hc Hi Hp Hh He'.
  rewrite insert_take_drop by (by eapply lookup_lt_Some).
  rewrite <- (take_drop_middle l i e Hi) in Hc.
  apply chain_app in Hc as (Hc1 & Hprev & _ & Hc2).
  apply chain_app. split; [done|]. cbn. rewrite Hp. rewrite Hh in *. done.
Qed.

Lemma calculateHash_set_payload v e :
  Json.stringify toISOString v = Json.stringify toISOString (payload e) ->
  calculateHash sha256 toISOString (set_payload v e) = calculateHash sha256 toISOString e.
Proof.
  intros Hv. unfold calculateHash, eventData.
  cbn [Json.stringify Json.traverse snd fst set_payload id type version tenantId
       partitionKey aggregateId aggregateType sequence payload evidenceRefs metadata
       occurredAt recordedAt hash previousHash].
  by rewrite Hv.
Qed.

(** A payload replaced by one with the same serialization goes unnoticed. *)
Lemma verifyChainIntegrity_same_serialization st context i e v :
  linked st ->
  partition_events st context !! i = Some e ->
  Json.stringify toISOString v = Json.stringify toISOString (payload e) ->
  verifyChainIntegrity sha256 toISOString (Some context)
    (tamper st (TenantRegistry.partitionKey (TenantContext.tenant context)) i
       (set_payload v e)) = Ok (true, []).
Proof.
  intros Hst Hi Hv. unfold partition_events in Hi.
  destruct (Hst (getTenantKey (TenantRegistry.partitionKey (TenantContext.tenant context))))
    as [Hc _].
  destruct (chain_lookup _ _ _ _ Hc Hi) as [_ He].
  unfold verifyChainIntegrity, tamper. cbn. rewrite lookup_insert_eq. cbn.
  rewrite (verify_loop_chain None []); [done|].
  eapply chain_replace; [done..|]. by rewrite calculateHash_set_payload.
Qed.

End Chain.

(** *** Sequences of calls *)

(** The arguments of one [append] call, with the ambient context it runs
    under and the values its [randomUUID()] and [new Date()] take. *)
Record call := {
  c_als : option TenantContext.TenantContext;
  c_uuid : string;
  c_occurred : Z;
  c_recorded : Z;
  c_type : string;
  c_aggregateId : string;
  c_aggregateType : string;
  c_payload : jsval;
  c_evidenceRefs : list string;
  c_metadata : option (list (string * jsval));
}.

(** The counter key of a call that gets past the context check. *)
Definition key_of (c : call) : option string :=
  (fun context =>
     aggregateKey (TenantRegistry.partitionKey (TenantContext.tenant context))
       (c_aggregateType c) (c_aggregateId c)) <$> c_als c.

(** The calls made for the same tenant partition and aggregate as [c]. *)
Definition same_aggregate (c c' : call) : Prop :=
  (TenantRegistry.partitionKey <$> (TenantContext.tenant <$> c_als c'))
    = (TenantRegistry.partitionKey <$> (TenantContext.tenant <$> c_als c)) /\
  c_aggregateType c' = c_aggregateType c /\
  c_aggregateId c' = c_aggregateId c.

#[global] Instance same_aggregate_dec c c' : Decision (same_aggregate c c').
Proof. unfold same_aggregate. apply _. Defined.

Fixpoint no_colon (s : string) : bool :=
  match s with
  | EmptyString => true
  | String a r => negb (Ascii.eqb a ":") && no_colon r
  end.

(** A call whose partition key and aggregate type hold no [:], so that its
    counter key reads back as one partition, type and id only. *)
Definition unambiguous (c : call) : Prop :=
  from_option (fun context =>
    no_colon (TenantRegistry.partitionKey (TenantContext.tenant context)) = true)
    True (c_als c) /\
  no_colon (c_aggregateType c) = true.

Section Calls.

Variable sha256 : string -> string.
Variable toISOString : Z -> string.

Definition perform (st : EventStoreImpl) (c : call) : result DomainEvent * EventStoreImpl :=
  append sha256 toISOString (c_als c) st (c_uuid c) (c_occurred c) (c_recorded c)
    (c_type c) (c_aggregateId c) (c_aggregateType c) (c_payload c)
    (c_evidenceRefs c) (c_metadata c).

(** The store after the calls, made one after the other: [append] has no
    suspension point, so calls issued concurrently run in some such order. *)
Definition run (st : EventStoreImpl) (calls : list call) : EventStoreImpl :=
  foldl (fun st c => (perform st c).2) st calls.

Lemma run_snoc st calls c : run st (calls ++ [c]) = (perform (run st calls) c).2.
Proof. unfold run. by rewrite foldl_app. Qed.

Lemma run_reachable calls : reachable sha256 toISOString (run empty calls).
Proof.
  induction calls as [|c calls IH] using rev_ind; [constructor|].
  rewrite run_snoc. by apply reachable_append.
Qed.

Lemma perform_sequences st c k :
  key_of c = Some k ->
  aggregateSequences (perform st c).2
    = <[k := default 0 (aggregateSequences st !! k) + 1]> (aggregateSequences st).
Proof.
  unfold key_of, perform, append. destruct (c_als c) as [context|]; [|done].
  cbn. intros [= <-]. by destruct (calculateHash _ _ _).
Qed.

Lemma perform_sequences_None st c :
  key_of c = None -> aggregateSequences (perform st c).2 = aggregateSequences st.
Proof.
  unfold key_of, perform, append. by destruct (c_als c) as [context|].
Qed.

Lemma perform_sequence st c e :
  (perform st c).1 = Ok e ->
  exists k, key_of c = Some k /\
            sequence e = default 0 (aggregateSequences st !! k) + 1.
Proof.
  unfold key_of, perform, append. destruct (c_als c) as [context|]; [|done]. cbn.
  destruct (calculateHash _ _ _); cbn; [|done]. intros [= <-]. eauto.
Qed.

(** The counter of a key counts the calls made for that key. *)
Lemma run_sequences calls k :
  default 0 (aggregateSequences (run empty calls) !! k)
    = Z.of_nat (length (filter (fun c => key_of c = Some k) calls)).
Proof.
  induction calls as [|c calls IH] using rev_ind; [done|].
  rewrite run_snoc, filter_app, length_app, Nat2Z.inj_add, <- IH.
  destruct (key_of c) as [k'|] eqn:Hk.
  - rewrite (perform_sequences _ _ _ Hk). destruct (decide (k' = k)) as [->|Hne].
    + rewrite lookup_insert_eq. cbn. rewrite decide_True by done. cbn. lia.
    + rewrite lookup_insert_ne by done. cbn. rewrite decide_False by congruence. cbn. lia.
  - rewrite (perform_sequences_None _ _ Hk). cbn. rewrite decide_False by congruence.
    cbn. lia.
Qed.

End Calls.

Lemma no_colon_split a a' b b' :
  no_colon a = true -> no_colon a' = true ->
  a +:+ ":" +:+ b = a' +:+ ":" +:+ b' -> a = a' /\ b = b'.
Proof.
  revert a'. induction a as [|x a IH]; intros [|x' a'] Ha Ha' Heq;
    rewrite ?JsStringProps.append_cons, ?JsStringProps.append_nil_l in Heq; cbn in Ha, Ha'.
  - by injection Heq as ->.
  - injection Heq as <- _. done.
  - injection Heq as -> _. done.
  - apply andb_prop in Ha as [_ Ha]. apply andb_prop in Ha' as [_ Ha'].
    injection Heq as -> Heq. destruct (IH a' Ha Ha' Heq) as [-> ->]. done.
Qed.

(** Off the colon, the counter key tells aggregates apart. *)
Lemma key_of_same_aggregate c c' k :
  unambiguous c -> unambiguous c' -> key_of c = Some k ->
  key_of c' = Some k <-> same_aggregate c c'.
Proof.
  unfold unambiguous, key_of, same_aggregate, aggregateKey.
  destruct (c_als c) as [context|]; [|done].
  destruct (c_als c') as [context'|]; cbn; [|intros _ _ _; split; [done|intros [[=] _]]].
  intros [Hpk Ht] [Hpk' Ht'] [= <-]. split.
  - intros [= Heq]. apply no_colon_split in Heq as [Hp Heq]; [|done..].
    apply no_colon_split in Heq as [HT HI]; [|done..]. by rewrite Hp.
  - intros ([= ->] & -> & ->). done.
Qed.

(** A store holding one event, appended under tenant A with the given
    payload. *)
Definition store_with (sha256 : string -> string) (toISOString : Z -> string)
    (payload : jsval) : EventStoreImpl :=
  (append sha256 toISOString (Some Samples.context_A) empty "evt-1" 10 10
     "valuation.recorded" "asset_1" "ExternalAsset" payload [] None).2.

(** An entry of the error list that names the event [ident]. *)
Definition names (ident : string) (errors : list string) : Prop :=
  ("Event " +:+ ident +:+ ": previous hash mismatch") ∈ errors \/
  ("Event " +:+ ident +:+ ": hash mismatch") ∈ errors.

(** The store after the payload of the [i]-th event of a partition is
    overwritten by [v]. *)
Definition replace_payload (st : EventStoreImpl) (partitionKey : string) (i : nat)
    (v : jsval) : EventStoreImpl :=
  match default [] (events st !! getTenantKey partitionKey) !! i with
  | Some e => tamper st partitionKey i (set_payload v e)
  | None => st
  end.


(** *** Replacements that change the text that is hashed *)

(** A number JavaScript holds exactly and writes with all its digits. *)
Definition safe (n : Z) : bool := (- 9007199254740991 <=? n) && (n <=? 9007199254740991).

(** A value [JSON.stringify] writes without loss, whose numbers are safe
    integers. *)
Fixpoint exact (v : jsval) : bool :=
  match v with
  | JNull | JBool _ | JStr _ => true
  | JNum n => safe n
  | JUndefined | JNaN | JBigInt _ | JDate _ => false
  | JArr xs => forallb exact xs
  | JObj props => forallb (fun kv => exact kv.2) props
  end.

(** A payload or a metadata bag that is written as it is: an exact value,
    or none. *)
Definition faithful (v : jsval) : Prop := exact v = true \/ v = JUndefined.

(** An event [e'] that differs from [e] in a field other than [hash], where
    the payloads and the metadata compared are faithful and the numbers
    safe. *)
Definition differs (e e' : DomainEvent) : Prop :=
  id e' <> id e \/ type e' <> type e \/
  (safe (version e) = true /\ safe (version e') = true /\ version e' <> version e) \/
  tenantId e' <> tenantId e \/ partitionKey e' <> partitionKey e \/
  aggregateId e' <> aggregateId e \/ aggregateType e' <> aggregateType e \/
  (safe (sequence e) = true /\ safe (sequence e') = true /\ sequence e' <> sequence e) \/
  (faithful (payload e) /\ faithful (payload e') /\ payload e' <> payload e) \/
  evidenceRefs e' <> evidenceRefs e \/
  (faithful (metadata e) /\ faithful (metadata e') /\ metadata e' <> metadata e) \/
  occurredAt e' <> occurredAt e \/ recordedAt e' <> recordedAt e \/
  previousHash e' <> previousHash e.

Lemma exact_plain v : exact v = true -> RoundTripProps.plain v = true.
Proof.
  induction v as [| |b|n| |n|s|ms|xs IH|props IH] using JsonProps.jsval_nested_ind;
    cbn; try done.
  - intros Hall. apply forallb_forall. intros x Hx.
    rewrite forallb_forall in Hall. rewrite Forall_forall in IH.
    apply IH; [by apply list_elem_of_In|by apply Hall].
  - intros Hall. apply forallb_forall. intros kv Hkv.
    rewrite forallb_forall in Hall. rewrite Forall_forall in IH.
    apply IH; [by apply list_elem_of_In|by apply Hall].
Qed.

Lemma faithful_reparse toISOString v v' :
  faithful v -> faithful v' ->
  ReplayEngine.reparse toISOString v' = ReplayEngine.reparse toISOString v -> v' = v.
Proof.
  intros [Hv%exact_plain| ->] [Hv'%exact_plain| ->];
    rewrite ?(RoundTripProps.reparse_plain _ _ Hv), ?(RoundTripProps.reparse_plain _ _ Hv');
    cbn; congruence.
Qed.

Lemma reparse_strings toISOString (l : list string) :
  Json.traverse (ReplayEngine.reparse toISOString) (JStr <$> l) = Ok (Some <$> (JStr <$> l)).
Proof. induction l as [|x l IH]; [done|]. cbn. by rewrite IH. Qed.

Lemma strings_inj (l l' : list string) : JStr <$> l = JStr <$> l' -> l = l'.
Proof.
  revert l'. induction l as [|x l IH]; intros [|x' l']; cbn; try done.
  intros [= -> Hl]. f_equal. by apply IH.
Qed.

(** What [JSON.parse] reads back from the text that is hashed. *)
Lemma reparse_eventData toISOString e :
  ReplayEngine.reparse toISOString (eventData e) =
  match ReplayEngine.reparse toISOString (payload e),
        ReplayEngine.reparse toISOString (metadata e) with
  | Throw err, _ => Throw err
  | Ok _, Throw err => Throw err
  | Ok p, Ok m =>
      Ok (Some (JObj (
        [ ("id", JStr (id e)); ("type", JStr (type e)); ("version", JNum (version e));
          ("tenantId", JStr (tenantId e)); ("partitionKey", JStr (partitionKey e));
          ("aggregateId", JStr (aggregateId e));
          ("aggregateType", JStr (aggregateType e)); ("sequence", JNum (sequence e)) ]
        ++ from_option (fun x => [("payload", x)]) [] p
        ++ [ ("evidenceRefs", JArr (JStr <$> evidenceRefs e)) ]
        ++ from_option (fun x => [("metadata", x)]) [] m
        ++ [ ("occurredAt", JStr (toISOString (occurredAt e)));
             ("recordedAt", JStr (toISOString (recordedAt e)));
             ("previousHash", from_option JStr JNull (previousHash e)) ])))
  end.
Proof.
  unfold eventData. cbn [ReplayEngine.reparse Json.traverse fst snd].
  destruct (ReplayEngine.reparse toISOString (payload e)) as [p|]; [|done].
  rewrite reparse_strings.
  destruct (ReplayEngine.reparse toISOString (metadata e)) as [m|]; [|done].
  assert (default JNull <$> (Some <$> (JStr <$> evidenceRefs e)) = JStr <$> evidenceRefs e)
    as -> by (rewrite <- list_fmap_compose; by apply list_fmap_id).
  by destruct (previousHash e), p, m.
Qed.

(** The fields of an event are written as a text, unless the payload or
    the metadata throws. *)
Lemma stringify_eventData toISOString e :
  (exists t, Json.stringify toISOString (eventData e) = Ok (Some t)) \/
  (exists err, Json.stringify toISOString (eventData e) = Throw err).
Proof.
  unfold eventData. cbn [Json.stringify].
  destruct (Json.traverse _ _) as [parts|err]; eauto.
Qed.

Section Text.

Variable toISOString : Z -> string.
Hypothesis toISOString_inj : forall a b, toISOString a = toISOString b -> a = b.

(** An event that differs is hashed from another text. *)
Lemma differs_text e e' t :
  differs e e' ->
  Json.stringify toISOString (eventData e) = Ok (Some t) ->
  Json.stringify toISOString (eventData e') <> Ok (Some t).
Proof.
  intros Hdiff Ht Ht'.
  apply (JsonTextProps.same_text_iff toISOString _ _ t Ht) in Ht'.
  pose proof (RoundTripProps.stringify_reparse toISOString (eventData e)) as Hsame.
  unfold RoundTripProps.same_text in Hsame. rewrite Ht in Hsame.
  destruct (ReplayEngine.reparse toISOString (eventData e)) as [[w|]|] eqn:Hw; [|done..].
  clear Hsame. rewrite reparse_eventData in Hw, Ht'. rewrite <- Hw in Ht'.
  pose proof (faithful_reparse toISOString (payload e) (payload e')) as Hpayload.
  pose proof (faithful_reparse toISOString (metadata e) (metadata e')) as Hmetadata.
  destruct (ReplayEngine.reparse toISOString (payload e)) as [p|]; [|done].
  destruct (ReplayEngine.reparse toISOString (metadata e)) as [m|]; [|done].
  destruct (ReplayEngine.reparse toISOString (payload e')) as [p'|]; [|done].
  destruct (ReplayEngine.reparse toISOString (metadata e')) as [m'|]; [|done].
  assert (id e' = id e /\ type e' = type e /\ version e' = version e /\
          tenantId e' = tenantId e /\ partitionKey e' = partitionKey e /\
          aggregateId e' = aggregateId e /\ aggregateType e' = aggregateType e /\
          sequence e' = sequence e /\ p' = p /\
          JStr <$> evidenceRefs e' = JStr <$> evidenceRefs e /\ m' = m /\
          toISOString (occurredAt e') = toISOString (occurredAt e) /\
          toISOString (recordedAt e') = toISOString (recordedAt e) /\
          from_option JStr JNull (previousHash e') = from_option JStr JNull (previousHash e))
    as (H1 & H2 & H3 & H4 & H5 & H6 & H7 & H8 & H9 & H10 & H11 & H12 & H13 & H14).
  { destruct p as [x|], p' as [x'|], m as [y|], m' as [y'|]; cbn in Ht';
      by simplify_eq. }
  subst p' m'.
  apply strings_inj in H10.
  assert (previousHash e' = previousHash e) as H14'
    by (destruct (previousHash e'), (previousHash e); by simplify_eq).
  apply toISOString_inj in H12, H13.
  destruct Hdiff
    as [H|[H|[(_ & _ & H)|[H|[H|[H|[H|[(_ & _ & H)|[(Hf & Hf' & H)|[H|[(Hf & Hf' & H)|
        [H|[H|H]]]]]]]]]]]]]; try (by apply H).
  - by apply H, Hpayload.
  - by apply H, Hmetadata.
Qed.

End Text.



(** *** Sequence numbers *)

(** An update of aggregate Entity/ent_1 under tenant A, the [k]-th of a
    test run; [oversized] is one whose payload [JSON.stringify] rejects. *)
Definition entity_updated (k : nat) : call :=
  {| c_als := Some Samples.context_A; c_uuid := "evt-" +:+ pretty k;
     c_occurred := Z.of_nat k; c_recorded := Z.of_nat k;
     c_type := "entity.updated"; c_aggregateId := "ent_1"; c_aggregateType := "Entity";
     c_payload := JObj [("revision", JNum (Z.of_nat k))];
     c_evidenceRefs := []; c_metadata := None |}.

Definition oversized (k : nat) : call :=
  {| c_als := Some Samples.context_A; c_uuid := "evt-" +:+ pretty k;
     c_occurred := Z.of_nat k; c_recorded := Z.of_nat k;
     c_type := "entity.updated"; c_aggregateId := "ent_1"; c_aggregateType := "Entity";
     c_payload := JObj [("units", JBigInt 9007199254740993)];
     c_evidenceRefs := []; c_metadata := None |}.

(** A call for aggregate [aggregateType]/[aggregateId] under tenant A. *)
Definition created (k : nat) (aggregateType aggregateId : string) : call :=
  {| c_als := Some Samples.context_A; c_uuid := "evt-" +:+ pretty k;
     c_occurred := Z.of_nat k; c_recorded := Z.of_nat k;
     c_type := "entity.created"; c_aggregateId := aggregateId;
     c_aggregateType := aggregateType;
     c_payload := JNull; c_evidenceRefs := []; c_metadata := None |}.

Lemma filter_ext_Forall {A : Type} (P Q : A -> Prop) `{!forall x, Decision (P x)}
    `{!forall x, Decision (Q x)} (l : list A) :
  Forall (fun x => P x <-> Q x) l -> filter P l = filter Q l.
Proof.
  induction 1 as [|x l Hx _ IH]; [done|].
  rewrite !filter_cons, IH. destruct (decide (P x)), (decide (Q x)); tauto.
Qed.

(** The claim of C3 fails as stated: the counter moves before the hash is
    computed, so a call that throws there uses up its number, and the events
    of the aggregate then carry 1 and 3. *)
Lemma failed_append_burns_sequence_number :
  Forall unambiguous [entity_updated 1; oversized 2; entity_updated 3] /\
  forall sha256 toISOString,
    is_ok (perform sha256 toISOString
             (run sha256 toISOString empty [entity_updated 1]) (oversized 2)).1 = false /\
    (fun e => (aggregateType e, aggregateId e, sequence e)) <$>
      partition_events
        (run sha256 toISOString empty [entity_updated 1; oversized 2; entity_updated 3])
        Samples.context_A
    = [("Entity", "ent_1", 1); ("Entity", "ent_1", 3)].
Proof.
  split; [repeat constructor|]. intros sha256 toISOString.
  split; vm_compute; reflexivity.
Qed.

(** Two aggregates share a counter when their keys read the same: the
    first event of a:b/c is numbered 2 after one event of a/b:c. *)
Lemma aggregateKey_collision :
  aggregateKey "pk_A" "a" "b:c" = aggregateKey "pk_A" "a:b" "c" /\
  forall sha256 toISOString,
    (fun e => (aggregateType e, aggregateId e, sequence e)) <$>
      partition_events
        (run sha256 toISOString empty [created 1 "a" "b:c"; created 2 "a:b" "c"])
        Samples.context_A
    = [("a", "b:c", 1); ("a:b", "c", 2)].
Proof. split; [reflexivity|]. intros. vm_compute. reflexivity. Qed.

(** C3, as the code has it. Among calls whose partition key and aggregate
    type hold no colon, made one after the other in any order, a call that
    returns an event numbers it one more than the calls made before it for
    the same tenant partition, aggregate type and aggregate id, whether those
    returned or threw; so two events of an aggregate never share a number,
    and a later one carries the larger. *)
Theorem append_assigns_next_sequence :
  forall sha256 toISOString calls c e,
    Forall unambiguous (c :: calls) ->
    (perform sha256 toISOString (run sha256 toISOString empty calls) c).1 = Ok e ->
    sequence e = 1 + Z.of_nat (length (filter (same_aggregate c) calls)) /\
    (forall earlier later c0 e0,
       calls = (earlier ++ c0 :: later)%list ->
       same_aggregate c c0 ->
       (perform sha256 toISOString (run sha256 toISOString empty earlier) c0).1 = Ok e0 ->
       sequence e0 < sequence e).
Proof.
  intros sha256 toISOString calls c e Hun He.
  assert (forall calls c e,
    Forall unambiguous (c :: calls) ->
    (perform sha256 toISOString (run sha256 toISOString empty calls) c).1 = Ok e ->
    sequence e = 1 + Z.of_nat (length (filter (same_aggregate c) calls))) as Hnext.
  { clear. intros calls c e Hun He.
    apply perform_sequence in He as (k & Hk & ->).
    rewrite run_sequences. apply Forall_cons in Hun as [Hc Hcalls].
    rewrite (filter_ext_Forall _ (same_aggregate c)); [lia|].
    eapply Forall_impl; [exact Hcalls|]. intros c' Hc'. cbn.
    by apply key_of_same_aggregate. }
  split; [by apply Hnext|].
  intros earlier later c0 e0 -> Hsame He0.
  rewrite (Hnext _ _ _ Hun He).
  apply Forall_cons in Hun as [Hc Hcalls].
  apply Forall_app in Hcalls as [Hearlier Hlater].
  apply Forall_cons in Hlater as [Hc0 Hlater].
  rewrite (Hnext earlier c0 e0); [|by constructor|done].
  rewrite filter_app, filter_cons_True, length_app by done. cbn [length].
  rewrite (filter_ext_Forall (same_aggregate c0) (same_aggregate c) earlier); [lia|].
  apply Forall_forall. intros c' _. unfold same_aggregate in *.
  destruct Hsame as (Hp & Ht & Hi). rewrite Hp, Ht, Hi. done.
Qed.

Lemma append_assigns_next_sequence_witness :
  sequence <$> (perform (fun s => s) pretty
                  (run (fun s => s) pretty empty [entity_updated 1; oversized 2])
                  (entity_updated 3)).1 = Ok 3.
Proof.
  destruct (perform (fun s => s) pretty
              (run (fun s => s) pretty empty [entity_updated 1; oversized 2])
              (entity_updated 3)).1 as [e|err] eqn:He; [|vm_compute in He; discriminate].
  cbn. f_equal.
  apply (append_assigns_next_sequence (fun s => s) pretty
           [entity_updated 1; oversized 2] (entity_updated 3) e); [|exact He].
  repeat constructor.
Defined.

(** *** Aggregate queries *)

(** Scenario B: 'entity.created' then 'entity.updated' for ent_1 are
    numbered 1 and 2, [getAggregateEvents] returns both in that order, and the
    chain verifies. *)
Lemma scenario_B sha256 toISOString W
    (violationHandler : IsolationGuards.IsolationViolation -> W -> W) now (w : W) :
  let st := run sha256 toISOString empty
              [created 1 "Entity" "ent_1"; entity_updated 2] in
  (fmap (M := list) (fun e => (type e, sequence e)) <$>
     (getAggregateEvents W violationHandler (Some Samples.context_A) st now
        "Entity" "ent_1" w).1) = Ok [("entity.created", 1); ("entity.updated", 2)] /\
  verifyChainIntegrity sha256 toISOString (Some Samples.context_A) st = Ok (true, []).
Proof.
  intros st. split; [vm_compute; reflexivity|].
  apply verifyChainIntegrity_linked, reachable_linked, run_reachable.
Qed.


Section Queries.

Context {W : Type} (violationHandler : IsolationGuards.IsolationViolation -> W -> W).

Lemma length_slice_to {A : Type} (limit : Z) (xs : list A) :
  0 <= limit -> length (slice_to limit xs) = Nat.min (Z.to_nat limit) (length xs).
Proof.
  intros Hl. unfold slice_to. rewrite (proj2 (Z.ltb_ge _ _) Hl). apply length_take.
Qed.

(** [getAggregateEvents] never hands back more than the default page. *)
Lemma getAggregateEvents_at_most_100 als st now aggregateType aggregateId w evs w' :
  getAggregateEvents W violationHandler als st now aggregateType aggregateId w
    = (Ok evs, w') ->
  (length evs <= 100)%nat.
Proof.
  unfold getAggregateEvents, query.
  destruct (TenantContext.getCurrentPartitionKey als) as [pk|]; [|done].
  destruct (IsolationGuards.QueryGuard_validatePartitionKey _ _ _ _ _ _) as [[[]|] w1];
    [|done].
  cbn -[slice_to]. intros [= <- _]. rewrite length_slice_to by lia. lia.
Qed.

End Queries.

(** *** Order of an aggregate's events *)

(** The counter key an event was numbered under. *)
Definition event_key (e : DomainEvent) : string :=
  aggregateKey (partitionKey e) (aggregateType e) (aggregateId e).

Section Numbering.

Variable sha256 : string -> string.
Variable toISOString : Z -> string.

(** In every partition the events filed under it carry its key, a number
    between 1 and their counter, and, among those of one counter, numbers
    that grow. *)
Definition numbered (st : EventStoreImpl) : Prop :=
  (forall K, 0 <= default 0 (aggregateSequences st !! K)) /\
  (forall k e, e ∈ default [] (events st !! k) ->
     getTenantKey (partitionKey e) = k /\
     1 <= sequence e <= default 0 (aggregateSequences st !! event_key e)) /\
  (forall k K,
     StronglySorted Z.lt
       (sequence <$> filter (fun e => event_key e = K) (default [] (events st !! k)))).

Lemma default_Some {A : Type} (d x : A) : default d (Some x) = x.
Proof. reflexivity. Qed.

Lemma append_numbered als st uuid occurred recorded type aggregateId aggregateType
    payload evidenceRefs metadata :
  numbered st ->
  numbered (append sha256 toISOString als st uuid occurred recorded type
              aggregateId aggregateType payload evidenceRefs metadata).2.
Proof.
  intros (Hcount & Hbound & Hsorted). unfold append.
  destruct (TenantContext.getTenantContext als) as [context|]; [|done].
  set (pk := TenantRegistry.partitionKey (TenantContext.tenant context)).
  set (evs1 := match events st !! getTenantKey pk with
               | Some _ => events st
               | None => <[getTenantKey pk := []]> (events st)
               end).
  assert (forall k, default [] (evs1 !! k) = default [] (events st !! k)) as Hevs1.
  { intros k. subst evs1. destruct (events st !! getTenantKey pk) eqn:Hk; [done|].
    destruct (decide (getTenantKey pk = k)) as [<-|Hne].
    - by rewrite lookup_insert_eq, Hk.
    - by rewrite lookup_insert_ne. }
  set (data := draft context st uuid occurred recorded type aggregateId aggregateType
                 payload evidenceRefs metadata).
  set (K0 := aggregateKey pk aggregateType aggregateId).
  assert (sequence data = default 0 (aggregateSequences st !! K0) + 1) as Hseq by done.
  assert (forall h, event_key (set_hash h data) = K0) as Hkey by done.
  assert (partitionKey data = pk) as Hdata by done.
  clearbody data.
  assert (forall K, default 0 (aggregateSequences st !! K)
                    <= default 0 (<[K0 := sequence data]> (aggregateSequences st) !! K))
    as Hgrow.
  { intros K. destruct (decide (K0 = K)) as [<-|Hne].
    - rewrite lookup_insert_eq, default_Some. lia.
    - by rewrite lookup_insert_ne. }
  assert (forall K, 0 <= default 0 (<[K0 := sequence data]> (aggregateSequences st) !! K))
    as Hcount'.
  { intros K. specialize (Hcount K). specialize (Hgrow K). lia. }
  destruct (calculateHash sha256 toISOString data) as [h|err]; cbn [snd].
  - split; [exact Hcount'|]. split.
    + intros k e. cbn [events aggregateSequences].
      destruct (decide (getTenantKey pk = k)) as [<-|Hne].
      * rewrite lookup_insert_eq, default_Some, Hevs1.
        intros [He| ->%list_elem_of_singleton]%elem_of_app.
        -- destruct (Hbound _ _ He) as [Hk Hb]. split; [done|].
           specialize (Hgrow (event_key e)). lia.
        -- split; [by cbn; rewrite Hdata|]. rewrite Hkey, lookup_insert_eq, default_Some.
           change (sequence (set_hash h data)) with (sequence data).
           specialize (Hcount K0). lia.
      * rewrite lookup_insert_ne by done. rewrite Hevs1. intros He.
        destruct (Hbound _ _ He) as [Hk Hb]. split; [done|].
        specialize (Hgrow (event_key e)). lia.
    + intros k K. cbn [events].
      destruct (decide (getTenantKey pk = k)) as [<-|Hne].
      * rewrite lookup_insert_eq, default_Some, Hevs1.
        rewrite filter_app, fmap_app. apply StronglySorted_app_2; [|apply Hsorted|].
        -- intros s1 s2 (e1 & -> & [He1 Hin1]%list_elem_of_filter)%list_elem_of_fmap Hs2.
           rewrite filter_cons in Hs2. destruct (decide _) as [HK|]; [|by inversion Hs2].
           apply list_elem_of_singleton in Hs2 as ->.
           rewrite Hkey in HK.
           destruct (Hbound _ _ Hin1) as [_ Hb]. rewrite He1, <- HK in Hb.
           change (sequence (set_hash h data)) with (sequence data). lia.
        -- rewrite filter_cons. destruct (decide _); cbn; repeat constructor.
      * rewrite lookup_insert_ne by done. rewrite Hevs1. apply Hsorted.
  - split; [exact Hcount'|]. split.
    + intros k e. cbn [events aggregateSequences]. rewrite Hevs1. intros He.
      destruct (Hbound _ _ He) as [Hk Hb]. split; [done|].
      specialize (Hgrow (event_key e)). lia.
    + intros k K. cbn [events]. rewrite Hevs1. apply Hsorted.
Qed.

Lemma reachable_numbered st : reachable sha256 toISOString st -> numbered st.
Proof.
  induction 1 as [|st ? ? ? ? ? ? ? ? ? ? _ IH]; [|by apply append_numbered].
  split; [|split].
  - intros K. cbn. by rewrite lookup_empty.
  - intros k e. cbn. rewrite lookup_empty. by inversion 1.
  - intros k K. cbn. rewrite lookup_empty. constructor.
Qed.

End Numbering.

Lemma getTenantKey_inj a b : getTenantKey a = getTenantKey b -> a = b.
Proof. unfold getTenantKey. intros H. cbv [String.append] in H. by injection H. Qed.

Lemma StronglySorted_fmap_filter {A B : Type} (R : relation B) (f : A -> B)
    (P : A -> Prop) `{!forall x, Decision (P x)} (l : list A) :
  StronglySorted R (f <$> l) -> StronglySorted R (f <$> filter P l).
Proof.
  induction l as [|x l IH]; [done|]. rewrite fmap_cons, StronglySorted_cons.
  intros [Hx Hl]. rewrite filter_cons. destruct (decide (P x)); [|by apply IH].
  rewrite fmap_cons, StronglySorted_cons. split; [|by apply IH].
  rewrite Forall_forall in Hx. apply Forall_forall.
  intros y (a & -> & [_ Ha]%list_elem_of_filter)%list_elem_of_fmap.
  apply Hx, list_elem_of_fmap. eauto.
Qed.

Lemma StronglySorted_take {A : Type} (R : relation A) (n : nat) (l : list A) :
  StronglySorted R l -> StronglySorted R (take n l).
Proof.
  intros Hl. rewrite <- (take_drop n l) in Hl. by apply StronglySorted_app_1_l in Hl.
Qed.

(** The events of an aggregate, as [getAggregateEvents] selects them. *)
Definition of_aggregate (aggregateType aggregateId : string) (e : DomainEvent) : Prop :=
  EventStore.aggregateType e = aggregateType /\ EventStore.aggregateId e = aggregateId.

#[global] Instance of_aggregate_dec aggregateType aggregateId e :
  Decision (of_aggregate aggregateType aggregateId e).
Proof. unfold of_aggregate. apply _. Defined.

(** On a store built by [append] calls, for a tenant and an aggregate whose
    partition key, type and id are not empty, [getAggregateEvents] returns
    the first hundred events of the aggregate, in the order they were
    appended, and their sequence numbers grow. *)
Theorem getAggregateEvents_ascending :
  forall sha256 toISOString W (violationHandler : IsolationGuards.IsolationViolation -> W -> W)
      st context now aggregateType aggregateId (w : W),
    reachable sha256 toISOString st ->
    TenantRegistry.partitionKey (TenantContext.tenant context) <> "" ->
    aggregateType <> "" -> aggregateId <> "" ->
    let selected := take 100 (filter (of_aggregate aggregateType aggregateId)
                                (partition_events st context)) in
    getAggregateEvents W violationHandler (Some context) st now aggregateType aggregateId w
      = (Ok selected, w) /\
    StronglySorted Z.lt (sequence <$> selected).
Proof.
  intros sha256 toISOString W violationHandler st context now aggregateType aggregateId w
    Hreach Hpk Htype Hid selected.
  apply reachable_numbered in Hreach as (_ & Hbound & Hsorted).
  set (pk := TenantRegistry.partitionKey (TenantContext.tenant context)) in *.
  split.
  - unfold getAggregateEvents, query.
    rewrite QueryGuardProps.getCurrentPartitionKey_Some.
    rewrite QueryGuardProps.validatePartitionKey_current by done.
    cbn -[slice_to filter]. do 2 f_equal. subst selected. unfold slice_to. cbn [Z.ltb Z.compare].
    change (Z.to_nat 100) with 100%nat. f_equal. unfold partition_events. fold pk.
    apply list_filter_iff. intros e. unfold matches, of_aggregate. cbn.
    destruct aggregateId as [|c1 i]; [done|]. destruct aggregateType as [|c2 t]; [done|].
    cbn. rewrite !andb_true_r, andb_true_iff, !bool_decide_eq_true. tauto.
  - subst selected. rewrite fmap_take. apply StronglySorted_take.
    set (K := aggregateKey pk aggregateType aggregateId).
    assert (filter (of_aggregate aggregateType aggregateId) (partition_events st context)
            = filter (of_aggregate aggregateType aggregateId)
                (filter (fun e => event_key e = K) (partition_events st context))) as ->.
    { rewrite list_filter_filter. apply filter_ext_Forall, Forall_forall.
      intros e He. split; [|tauto]. intros [Ht Hi]. split; [done|].
      destruct (Hbound _ _ He) as [Hk%getTenantKey_inj _].
      unfold K, event_key. by rewrite Hk, Ht, Hi. }
    apply StronglySorted_fmap_filter, Hsorted.
Qed.

Lemma getAggregateEvents_ascending_witness :
  StronglySorted Z.lt
    (sequence <$>
       take 100 (filter (of_aggregate "Entity" "ent_1")
                   (partition_events
                      (run (fun s => s) pretty empty
                         [entity_updated 1; oversized 2; entity_updated 3])
                      Samples.context_A))).
Proof.
  exact (proj2 (getAggregateEvents_ascending (fun s => s) pretty unit (fun _ w => w)
                  (run (fun s => s) pretty empty
                     [entity_updated 1; oversized 2; entity_updated 3])
                  Samples.context_A 0 "Entity" "ent_1" tt
                  (run_reachable _ _ _)
                  ltac:(discriminate) ltac:(discriminate) ltac:(discriminate))).
Defined.

(** C8 fails on the code: [getAggregateEvents] goes through [query] and its
    default limit of 100. After 101 events appended for Entity/ent_1, all
    stored, it returns 100 of them, the first one numbered 1 and the last
    one 100. *)
Theorem getAggregateEvents_truncates :
  forall sha256 toISOString W (violationHandler : IsolationGuards.IsolationViolation -> W -> W)
      now (w : W),
    let st := run sha256 toISOString empty (entity_updated <$> seq 1 101) in
    (fun e => (aggregateType e, aggregateId e)) <$> partition_events st Samples.context_A
      = replicate 101 ("Entity", "ent_1") /\
    (fmap (M := list) sequence <$>
       (getAggregateEvents W violationHandler (Some Samples.context_A) st now
          "Entity" "ent_1" w).1) = Ok (Z.of_nat <$> seq 1 100).
Proof. intros. vm_compute. split; reflexivity. Qed.

End EventStoreProps.

(** ** Governance: advisory language *)

Module GovernanceProps.
Import JsString JsStringProps GovernanceAdapter.

(** A string of ASCII characters. *)
Fixpoint ascii_only (s : string) : bool :=
  match s with
  | EmptyString => true
  | String c r => (nat_of_ascii c <? 128)%nat && ascii_only r
  end.

(** What is known of [String.prototype.toLowerCase] on a string of ASCII
    characters: it puts the letters A to Z in lower case and keeps the
    rest. *)
Definition lowers_ascii (toLowerCase : string -> string) : Prop :=
  forall s, ascii_only s = true -> toLowerCase s = lower_ascii s.

(** What is known of it around a copy of [term] in another letter case:
    the copy comes out as the term does, whatever stands before and after
    it. *)
Definition keeps (toLowerCase : string -> string) (term : string) : Prop :=
  forall pre m post,
    lower_ascii m = lower_ascii term ->
    exists pre' post', toLowerCase (pre +:+ m +:+ post) = pre' +:+ toLowerCase term +:+ post'.

Lemma lower_ascii_lowers_ascii : lowers_ascii lower_ascii.
Proof. by intros s _. Qed.

Lemma lower_ascii_keeps term : keeps lower_ascii term.
Proof.
  intros pre m post Hm. exists (lower_ascii pre), (lower_ascii post).
  by rewrite !lower_ascii_append, Hm.
Qed.

Lemma ascii_only_append a b : ascii_only (a +:+ b) = ascii_only a && ascii_only b.
Proof.
  induction a as [|c a IH]; [done|]. rewrite append_cons. cbn [ascii_only].
  by rewrite IH, andb_assoc.
Qed.

Lemma length_drop (n : nat) (s : string) :
  String.length (drop n s) = (String.length s - n)%nat.
Proof. revert s. induction n as [|n IH]; intros [|x s]; cbn; try done. Qed.

Lemma drop_all (n : nat) (s : string) : (String.length s <= n)%nat -> drop n s = "".
Proof.
  revert s. induction n as [|n IH]; intros [|x s] Hn; cbn in *; try done; [lia|].
  apply IH. lia.
Qed.

Lemma take_nil (n : nat) : take n "" = "".
Proof. by destruct n. Qed.

(** The window [extractContext] cuts when the lowercase term is found at
    [index] of the lowercase text: the piece of the text from thirty places
    before [index] to thirty places past [index] and the length of the term,
    as far as the text goes. *)
Definition window (text term : string) (index : nat) (excerpt : string) : Prop :=
  exists before after,
    text = before +:+ excerpt +:+ after /\
    String.length before = Nat.min (index - 30) (String.length text) /\
    String.length excerpt
    = (Nat.min (String.length text) (index + String.length term + 30) - (index - 30))%nat.

Lemma substring_window text term index :
  window text term index
    (substring text (index - 30)
       (Nat.min (String.length text) (index + String.length term + 30))).
Proof.
  set (start := (index - 30)%nat).
  set (stop := Nat.min (String.length text) (index + String.length term + 30)).
  assert (substring text start stop = take (stop - start) (drop start text)) as ->.
  { unfold substring. destruct (Nat.le_gt_cases start stop) as [Hle|Hgt].
    - by rewrite Nat.min_l, Nat.max_r by lia.
    - rewrite Nat.min_r, Nat.max_l by lia.
      assert (stop = String.length text) as Hstop by (subst start stop; lia).
      rewrite (drop_all stop) by lia. rewrite take_nil.
      replace (stop - start)%nat with 0%nat by lia. done. }
  exists (take start text), (drop (stop - start) (drop start text)).
  split; [by rewrite !take_drop|]. split; [apply length_take|].
  rewrite length_take, length_drop. subst start stop. lia.
Qed.

Section Case.

Variable toLowerCase : string -> string.

(** The test [checkAdvisoryLanguage] applies to a term. *)
Definition flagged (text term : string) : bool :=
  includes (toLowerCase text) (toLowerCase term).

(** The violation pushed for a term. *)
Definition violation_for (adapter : GovernanceProfile) (text term : string) (ts : Z)
    : GovernanceViolation :=
  {| type := ADVISORY_LANGUAGE;
     term := term;
     context := extractContext toLowerCase text term;
     severity := error;
     profile := name adapter;
     timestamp := ts |}.

(** A piece of [text] that holds [term] in some case. *)
Definition excerpt_of (text term excerpt : string) : Prop :=
  (exists before after, text = before +:+ excerpt +:+ after) /\
  flagged excerpt term = true.

Lemma checkAdvisoryLanguage_loop_spec adapter now text terms violations :
  checkAdvisoryLanguage_loop toLowerCase adapter now text terms violations =
  (violations ++
   imap (fun k t => violation_for adapter text t (now (length violations + k)%nat))
     (filter (fun t => flagged text t = true) terms))%list.
Proof.
  revert violations. induction terms as [|t terms IH]; intros violations;
    cbn [checkAdvisoryLanguage_loop].
  - rewrite filter_nil. cbn. by rewrite app_nil_r.
  - rewrite filter_cons. fold (flagged text t).
    destruct (flagged text t) eqn:Hf.
    + rewrite decide_True by done. rewrite IH, <- app_assoc. cbn.
      rewrite Nat.add_0_r. f_equal. f_equal. apply imap_ext. intros k x _. cbn.
      rewrite length_app. cbn. do 2 f_equal. lia.
    + rewrite decide_False by done. apply IH.
Qed.

(** The excerpt of a flagged term is the window at the place [indexOf]
    finds, between two ellipses; it has sixty characters more than the term
    at most. *)
Lemma extractContext_window text term :
  flagged text term = true ->
  exists index excerpt,
    indexOf (toLowerCase text) (toLowerCase term) = Some index /\
    extractContext toLowerCase text term = "..." +:+ excerpt +:+ "..." /\
    window text term index excerpt /\
    (String.length excerpt <= String.length term + 60)%nat.
Proof.
  unfold flagged, includes, extractContext.
  destruct (indexOf (toLowerCase text) (toLowerCase term)) as [i|] eqn:Hi; [|done].
  intros _. eexists i, _. split; [done|]. split; [reflexivity|].
  pose proof (substring_window text term i) as Hw. split; [exact Hw|].
  destruct Hw as (before & after & _ & _ & ->). lia.
Qed.

Lemma window_piece text term index excerpt :
  window text term index excerpt ->
  excerpt
  = take (Nat.min (String.length text) (index + String.length term + 30) - (index - 30))
      (drop (index - 30) text).
Proof.
  intros (before & after & Heq & Hb & He). rewrite <- He.
  destruct (Nat.le_gt_cases (index - 30) (String.length text)) as [Hle|Hgt].
  - rewrite Nat.min_l in Hb by done. rewrite <- Hb. rewrite Heq at 1.
    by rewrite drop_append, take_append.
  - rewrite drop_all by lia. rewrite take_nil.
    destruct excerpt; [done|]. cbn in He. lia.
Qed.

(** On a text and a term of ASCII characters the window holds the term, in
    the case the text has it. *)
Lemma window_excerpt text term index excerpt :
  lowers_ascii toLowerCase ->
  ascii_only text = true -> ascii_only term = true ->
  indexOf (toLowerCase text) (toLowerCase term) = Some index ->
  window text term index excerpt ->
  excerpt_of text term excerpt.
Proof.
  intros Hlow Htext Hterm Hi Hw.
  split; [destruct Hw as (before & after & Heq & _); by exists before, after|].
  apply window_piece in Hw. rename index into i.
  rewrite (Hlow text Htext), (Hlow term Hterm) in Hi.
  apply indexOf_Some in Hi as (lbefore & lafter & Hlower & Hlen).
  set (start := (i - 30)%nat) in *.
  set (stop := Nat.min (String.length text) (i + String.length term + 30)) in *.
  pose proof (f_equal String.length Hlower) as Hl.
  rewrite length_lower_ascii, !length_append, length_lower_ascii, Hlen in Hl.
  set (before := take i text). set (m := take (String.length term) (drop i text)).
  set (after := drop (String.length term) (drop i text)).
  assert (text = before +:+ m +:+ after) as Heq.
  { subst before m after. by rewrite !take_drop. }
  assert (String.length before = i) as Hb.
  { subst before. rewrite length_take. lia. }
  assert (String.length m = String.length term) as Hm.
  { subst m. rewrite length_take, length_drop. lia. }
  assert (lower_ascii m = lower_ascii term) as Hlm.
  { rewrite Heq, !lower_ascii_append in Hlower.
    apply append_inv_length in Hlower as [_ Hlower];
      [|by rewrite length_lower_ascii, Hb, Hlen].
    apply append_inv_length in Hlower as [Hlower _];
      [done | by rewrite !length_lower_ascii]. }
  assert (excerpt
          = drop start before +:+ m +:+ take (stop - i - String.length term) after)
    as Hpiece.
  { rewrite Hw. rewrite Heq at 1. rewrite drop_append_le by (subst start; lia).
    rewrite take_append_ge by (rewrite length_drop; subst start stop; lia).
    rewrite length_drop, Hb.
    rewrite take_append_ge by (subst start stop; lia).
    do 3 f_equal. subst start stop. lia. }
  assert (ascii_only excerpt = true) as Hex.
  { rewrite Heq, !ascii_only_append in Htext.
    apply andb_prop in Htext as [Hbefore [Hmid Hafter]%andb_prop].
    rewrite Hpiece, !ascii_only_append.
    assert (forall n s, ascii_only s = true -> ascii_only (drop n s) = true) as Hdrop.
    { intros n s Hs. rewrite <- (take_drop n s), ascii_only_append in Hs.
      by apply andb_prop in Hs as [_ Hs]. }
    assert (forall n s, ascii_only s = true -> ascii_only (take n s) = true) as Htake.
    { intros n s Hs. rewrite <- (take_drop n s), ascii_only_append in Hs.
      by apply andb_prop in Hs as [Hs _]. }
    by rewrite Hdrop, Hmid, Htake. }
  unfold flagged. rewrite (Hlow excerpt Hex), (Hlow term Hterm).
  apply includes_spec. rewrite Hpiece, !lower_ascii_append, Hlm. eauto.
Qed.

Lemma flagged_ascii text term :
  lowers_ascii toLowerCase ->
  ascii_only text = true -> ascii_only term = true ->
  flagged text term = includes (lower_ascii text) (lower_ascii term).
Proof. intros Hlow Htext Hterm. unfold flagged. by rewrite (Hlow text), (Hlow term). Qed.

Lemma extractContext_ascii text term :
  lowers_ascii toLowerCase ->
  ascii_only text = true -> ascii_only term = true ->
  extractContext toLowerCase text term = extractContext lower_ascii text term.
Proof.
  intros Hlow Htext Hterm. unfold extractContext. by rewrite (Hlow text), (Hlow term).
Qed.

Lemma checkAdvisoryLanguage_loop_ascii adapter now text terms violations :
  lowers_ascii toLowerCase ->
  ascii_only text = true -> forallb ascii_only terms = true ->
  checkAdvisoryLanguage_loop toLowerCase adapter now text terms violations
  = checkAdvisoryLanguage_loop lower_ascii adapter now text terms violations.
Proof.
  intros Hlow Htext. revert violations.
  induction terms as [|t terms IH]; intros violations Hterms; [done|].
  cbn in Hterms. apply andb_prop in Hterms as [Ht Hterms].
  cbn [checkAdvisoryLanguage_loop].
  rewrite (Hlow text Htext), (Hlow t Ht), extractContext_ascii by done.
  destruct (includes _ _); by apply IH.
Qed.

(** On a text of ASCII characters, and for the configured terms, which are
    all of ASCII characters, the check is the one the ASCII case mapping
    gives. *)
Lemma checkAdvisoryLanguage_ascii p now text :
  lowers_ascii toLowerCase ->
  ascii_only text = true ->
  checkAdvisoryLanguage toLowerCase (PROFILES p) now text
  = checkAdvisoryLanguage lower_ascii (PROFILES p) now text.
Proof.
  intros Hlow Htext. unfold checkAdvisoryLanguage.
  destruct (advisoryAllowed _); [done|].
  apply checkAdvisoryLanguage_loop_ascii; [done|done|]. by destruct p.
Qed.

End Case.



End GovernanceProps.

(** ** Governance: sanitization *)

Module EnforcementHooksProps.
Import JsString JsStringProps GovernanceAdapter EnforcementHooks.

Lemma strip_spec term s last last' rest :
  strip term s last = Some (last', rest) ->
  exists m, s = m +:+ rest /\ lower_ascii m = lower_ascii term.
Proof.
  revert s last. induction term as [|t term IH]; intros s last; cbn.
  - intros [= _ <-]. by exists "".
  - destruct s as [|c s]; [done|].
    destruct (Ascii.eqb_spec (lower_char c) (lower_char t)) as [Hc|]; [|done].
    intros (m & -> & Hm)%IH. exists (String c m). cbn. by rewrite Hc, Hm.
Qed.

(** Where the regular expression of a term matches, the text holds a copy
    of the term in some letter case. *)
Lemma regex_test_copy term before s :
  regex_test term before s = true ->
  exists pre m post, s = pre +:+ m +:+ post /\ lower_ascii m = lower_ascii term.
Proof.
  assert (forall before s, match_at term before s = true ->
            exists pre m post, s = pre +:+ m +:+ post /\ lower_ascii m = lower_ascii term)
    as Hat.
  { clear. intros before s. unfold match_at.
    destruct (strip term s before) as [[last rest]|] eqn:Hs; [|done]. intros _.
    apply strip_spec in Hs as (m & -> & Hm). by exists "", m, rest. }
  revert before. induction s as [|c s IH]; intros before; cbn [regex_test];
    intros [Hm|Hrest]%orb_prop; [by eapply Hat|done|by eapply Hat|].
  destruct (IH _ Hrest) as (pre & m & post & -> & Hm).
  by exists (String c pre), m, post.
Qed.

(** Where the regular expression of a term matches, the term occurs. *)
Lemma regex_test_flagged toLowerCase term before s :
  GovernanceProps.keeps toLowerCase term ->
  regex_test term before s = true -> GovernanceProps.flagged toLowerCase s term = true.
Proof.
  intros Hkeeps (pre & m & post & -> & Hm)%regex_test_copy.
  apply includes_spec. by apply Hkeeps.
Qed.

(** A text that names a forbidden term only inside a longer word. *)
Definition embedded : string := "Our recommendation engine".

(** C10. [sanitizeContent] tests a term with word boundaries around it and
    [checkAdvisoryLanguage] with none: whatever matches for the former is
    flagged by the latter, and not the other way round. Under the [fo] and
    [retail] profiles, which forbid advisory language, the text
    "Our recommendation engine" comes back from [sanitizeContent] as it was,
    with nothing removed, and [checkAdvisoryLanguage] reports "recommend" on
    it, so on the sanitized text too. Of [toLowerCase] this uses that a copy
    of the term in another letter case comes out as the term does, and, for
    the texts named, what it does to ASCII characters. *)
Theorem sanitizeContent_leaves_flagged_text :
  (forall toLowerCase term,
     GovernanceProps.keeps toLowerCase term ->
     forall before s,
       regex_test term before s = true ->
       GovernanceProps.flagged toLowerCase s term = true) /\
  advisoryAllowed (enforcement FO_PROFILE) = false /\
  advisoryAllowed (enforcement RETAIL_PROFILE) = false /\
  regex_test "recommend" None embedded = false /\
  (forall toLowerCase,
     GovernanceProps.lowers_ascii toLowerCase ->
     GovernanceProps.flagged toLowerCase embedded "recommend" = true) /\
  (forall toLowerCase correlationId createdAt userId roles now,
     GovernanceProps.lowers_ascii toLowerCase ->
     let context tenantProfile :=
       {| TenantContext.tenant :=
            {| TenantRegistry.id := "A"; TenantRegistry.name := "Acme";
               TenantRegistry.profile := tenantProfile;
               TenantRegistry.status := TenantRegistry.active;
               TenantRegistry.encryptionKeyId := "ek_A";
               TenantRegistry.partitionKey := "pk_A";
               TenantRegistry.createdAt := 0; TenantRegistry.updatedAt := 0;
               TenantRegistry.metadata := None |};
          TenantContext.correlationId := correlationId;
          TenantContext.createdAt := createdAt;
          TenantContext.userId := userId;
          TenantContext.roles := roles |} in
     sanitizeContent (Some (context TenantRegistry.fo)) embedded = Ok (embedded, []) /\
     sanitizeContent (Some (context TenantRegistry.retail)) embedded = Ok (embedded, []) /\
     term <$> checkAdvisoryLanguage toLowerCase FO_PROFILE now embedded = ["recommend"] /\
     term <$> checkAdvisoryLanguage toLowerCase RETAIL_PROFILE now embedded
       = ["recommend"]).
Proof.
  split; [intros toLowerCase term Hkeeps before s; by apply regex_test_flagged|].
  split; [done|]. split; [done|]. split; [done|]. split.
  - intros toLowerCase Hlow. by rewrite GovernanceProps.flagged_ascii.
  - intros toLowerCase correlationId createdAt userId roles now Hlow context.
    split; [done|]. split; [done|].
    change FO_PROFILE with (PROFILES TenantRegistry.fo).
    change RETAIL_PROFILE with (PROFILES TenantRegistry.retail).
    rewrite (GovernanceProps.checkAdvisoryLanguage_ascii toLowerCase TenantRegistry.fo
               now embedded Hlow eq_refl).
    rewrite (GovernanceProps.checkAdvisoryLanguage_ascii toLowerCase TenantRegistry.retail
               now embedded Hlow eq_refl).
    by split.
Qed.

Lemma sanitizeContent_leaves_flagged_text_witness :
  GovernanceProps.flagged lower_ascii "We recommend diversifying" "recommend" = true.
Proof.
  apply (proj1 sanitizeContent_leaves_flagged_text lower_ascii "recommend"
           (GovernanceProps.lower_ascii_keeps "recommend") None
           "We recommend diversifying").
  reflexivity.
Defined.

End EnforcementHooksProps.

(** ** Evidence integrity *)

Module EvidenceLinkerProps.
Import EvidenceLinker QueryGuardProps.

(** The store after the bytes kept at [location] are overwritten. *)
Definition overwrite (st : EvidenceLinkerImpl) (location : string) (bytes : Buffer)
    : EvidenceLinkerImpl :=
  {| evidence := evidence st;
     contentStore := <[location := bytes]> (contentStore st);
     eventToEvidence := eventToEvidence st |}.

(** A hash under which no two contents meet. *)
Definition collision_free (sha256 : Buffer -> string) : Prop :=
  forall a b, sha256 a = sha256 b -> a = b.

Section Integrity.

Variable sha256 : Buffer -> string.
Variable utf8 : string -> Buffer.
Context {W : Type} (violationHandler : IsolationGuards.IsolationViolation -> W -> W).

Lemma getById_current context st now evidenceId w :
  TenantRegistry.partitionKey (TenantContext.tenant context) <> "" ->
  getById W violationHandler (Some context) st now evidenceId w =
  (Ok (evidence st !! evidenceKey
         (TenantRegistry.partitionKey (TenantContext.tenant context)) evidenceId), w).
Proof.
  intros Hpk. unfold getById. rewrite getCurrentPartitionKey_Some.
  by rewrite validatePartitionKey_current.
Qed.

(** What [create] returns and leaves behind. *)
Lemma create_Some context st request uuid now1 now2 :
  exists record st',
    create sha256 utf8 (Some context) st request uuid now1 now2 = (Ok record, st') /\
    id record = uuid /\
    contentHash record = sha256 (contentBuffer utf8 (r_content request)) /\
    sizeBytes record = Z.of_nat (length (contentBuffer utf8 (r_content request))) /\
    storageLocation record
      = TenantRegistry.partitionKey (TenantContext.tenant context) +:+ "/evidence/" +:+ uuid /\
    evidence st' !! evidenceKey
      (TenantRegistry.partitionKey (TenantContext.tenant context)) uuid = Some record /\
    contentStore st'
      = <[storageLocation record := contentBuffer utf8 (r_content request)]> (contentStore st) /\
    linkedEvents record = [].
Proof.
  unfold create. cbn [TenantContext.getTenantContext].
  eexists. eexists. split; [reflexivity|]. cbn. by rewrite lookup_insert_eq.
Qed.

(** What [verifyIntegrity] answers for a record and the bytes kept at its
    storage location. *)
Lemma verifyIntegrity_stored context st now evidenceId w record bytes :
  TenantRegistry.partitionKey (TenantContext.tenant context) <> "" ->
  evidence st !! evidenceKey
    (TenantRegistry.partitionKey (TenantContext.tenant context)) evidenceId = Some record ->
  contentStore st !! storageLocation record = Some bytes ->
  verifyIntegrity sha256 W violationHandler (Some context) st now evidenceId w =
  (Ok {| valid := bool_decide (sha256 bytes = contentHash record);
         expectedHash := contentHash record;
         actualHash := sha256 bytes |}, w).
Proof.
  intros Hpk Hrecord Hbytes. unfold verifyIntegrity, getContent.
  rewrite !getById_current, Hrecord by done. by rewrite Hbytes.
Qed.

End Integrity.

(** C9. The record [create] returns carries, as [contentHash], the SHA-256
    digest of the bytes supplied: the bytes of the [Buffer] passed as
    content, or the UTF-8 bytes of the string passed; those bytes are what is
    kept at its storage location, and [sizeBytes] counts them. Verifying the
    record in the store [create] leaves answers valid, with expected and
    actual hash both that digest; and once the bytes at its storage location
    are overwritten by bytes of another digest, which under a collision-free
    hash any other bytes are, the answer is invalid, the expected hash still
    the recorded one and the actual hash different. The tenant's partition
    key is not empty, as no provisioned tenant's is. *)
Theorem create_then_verifyIntegrity :
  forall (sha256 : Buffer -> string) (utf8 : string -> Buffer)
      W (violationHandler : IsolationGuards.IsolationViolation -> W -> W)
      context st request uuid now1 now2 now (w : W),
    TenantRegistry.partitionKey (TenantContext.tenant context) <> "" ->
    let created := create sha256 utf8 (Some context) st request uuid now1 now2 in
    let bytes :=
      match r_content request with
      | OfBuffer supplied => supplied
      | OfString text => utf8 text
      end in
    exists record,
      created.1 = Ok record /\
      id record = uuid /\
      contentHash record = sha256 bytes /\
      sizeBytes record = Z.of_nat (length bytes) /\
      contentStore created.2 !! storageLocation record = Some bytes /\
      linkedEvents record = [] /\
      verifyIntegrity sha256 W violationHandler (Some context) created.2 now (id record) w
        = (Ok {| valid := true;
                 expectedHash := contentHash record;
                 actualHash := contentHash record |}, w) /\
      (forall bytes',
         sha256 bytes' <> sha256 bytes ->
         verifyIntegrity sha256 W violationHandler (Some context)
           (overwrite created.2 (storageLocation record) bytes') now (id record) w
         = (Ok {| valid := false;
                  expectedHash := contentHash record;
                  actualHash := sha256 bytes' |}, w) /\
         sha256 bytes' <> contentHash record) /\
      (collision_free sha256 ->
       forall bytes',
         bytes' <> bytes ->
         exists actual,
           verifyIntegrity sha256 W violationHandler (Some context)
             (overwrite created.2 (storageLocation record) bytes') now (id record) w
           = (Ok {| valid := false;
                    expectedHash := contentHash record;
                    actualHash := actual |}, w) /\
           actual <> contentHash record).
Proof.
  intros sha256 utf8 W violationHandler context st request uuid now1 now2 now w Hpk
    created bytes.
  destruct (create_Some sha256 utf8 context st request uuid now1 now2)
    as (record & st' & Hcreated & Hid & Hhash & Hsize & Hloc & Hrecord & Hstore & Hlinks).
  subst created. rewrite Hcreated. cbn [fst snd].
  assert (contentBuffer utf8 (r_content request) = bytes) as Hbytes
    by (subst bytes; by destruct (r_content request)).
  rewrite Hbytes in Hhash, Hsize, Hstore.
  set (pk := TenantRegistry.partitionKey (TenantContext.tenant context)) in *.
  assert (forall bytes',
    verifyIntegrity sha256 W violationHandler (Some context)
      (overwrite st' (storageLocation record) bytes') now (id record) w
    = (Ok {| valid := bool_decide (sha256 bytes' = contentHash record);
             expectedHash := contentHash record;
             actualHash := sha256 bytes' |}, w)) as Haltered.
  { intros bytes'. rewrite Hid. apply verifyIntegrity_stored; [done|done|].
    cbn. by rewrite lookup_insert_eq. }
  exists record. split; [done|]. split; [done|]. split; [done|]. split; [done|].
  split; [by rewrite Hstore, lookup_insert_eq|]. split; [done|]. split; [|split].
  - rewrite Hid. erewrite verifyIntegrity_stored; [|done|done|].
    + by rewrite Hhash, bool_decide_eq_true_2.
    + by rewrite Hstore, lookup_insert_eq.
  - intros bytes' Hne. rewrite Haltered, Hhash. by rewrite bool_decide_eq_false_2.
  - intros Hfree bytes' Hne. exists (sha256 bytes'). rewrite Haltered, Hhash.
    assert (sha256 bytes' <> sha256 bytes) as Hh by (intros Heq; by apply Hne, Hfree).
    by rewrite bool_decide_eq_false_2.
Qed.

(** A statement of ten bytes, hashed here by a stand-in that writes the bytes
    out. *)
Definition ten_bytes : Buffer := list_byte_of_string "0123456789".

Definition statement_request : EvidenceCreateRequest :=
  {| r_type := statement; r_description := "Custody statement"; r_source := "custodian";
     r_mimeType := "application/pdf"; r_content := OfBuffer ten_bytes;
     r_capturedAt := None; r_metadata := None |}.

(** A note passed as a string; its bytes are those of its characters, all
    ASCII. *)
Definition note_request : EvidenceCreateRequest :=
  {| r_type := statement; r_description := "Custody note"; r_source := "custodian";
     r_mimeType := "text/plain"; r_content := OfString "held";
     r_capturedAt := None; r_metadata := None |}.

Lemma create_then_verifyIntegrity_witness :
  (exists record,
     (create string_of_list_byte list_byte_of_string (Some Samples.context_A) empty
        statement_request "ev-1" 1 2).1 = Ok record /\
     contentHash record = string_of_list_byte ten_bytes /\
     sizeBytes record = 10 /\
     verifyIntegrity string_of_list_byte unit (fun _ w => w) (Some Samples.context_A)
       (create string_of_list_byte list_byte_of_string (Some Samples.context_A) empty
          statement_request "ev-1" 1 2).2 3 (id record) tt
     = (Ok {| valid := true;
              expectedHash := contentHash record;
              actualHash := contentHash record |}, tt)) /\
  (exists record,
     (create string_of_list_byte list_byte_of_string (Some Samples.context_A) empty
        note_request "ev-2" 1 2).1 = Ok record /\
     contentHash record = "held" /\
     sizeBytes record = 4 /\
     verifyIntegrity string_of_list_byte unit (fun _ w => w) (Some Samples.context_A)
       (create string_of_list_byte list_byte_of_string (Some Samples.context_A) empty
          note_request "ev-2" 1 2).2 3 (id record) tt
     = (Ok {| valid := true;
              expectedHash := contentHash record;
              actualHash := contentHash record |}, tt)).
Proof.
  split.
  - destruct (create_then_verifyIntegrity string_of_list_byte list_byte_of_string
                unit (fun _ w => w) Samples.context_A empty statement_request
                "ev-1" 1 2 3 tt) as (record & Hc & _ & Hh & Hs & _ & _ & Hv & _);
      [discriminate|].
    exists record. split; [exact Hc|]. split; [exact Hh|]. split; [exact Hs|exact Hv].
  - destruct (create_then_verifyIntegrity string_of_list_byte list_byte_of_string
                unit (fun _ w => w) Samples.context_A empty note_request
                "ev-2" 1 2 3 tt) as (record & Hc & _ & Hh & Hs & _ & _ & Hv & _);
      [discriminate|].
    exists record. split; [exact Hc|]. split; [exact Hh|]. split; [exact Hs|exact Hv].
Defined.

End EvidenceLinkerProps.

(** ** Replay *)

Module ReplayEngineProps.
Import ReplayEngine.

(** A handler world that records nothing, to name what a call answers
    whatever the violation handler is. *)
Definition silent : IsolationGuards.IsolationViolation -> unit -> unit := fun _ u => u.

Definition replay_query (options : ReplayOptions) : EventStore.EventQuery :=
  {| EventStore.q_aggregateId := aggregateId options;
     EventStore.q_aggregateType := aggregateType options;
     EventStore.q_eventType := None;
     EventStore.q_fromTime := None;
     EventStore.q_toTime := asOf options;
     EventStore.q_fromSequence := None;
     EventStore.q_limit := None;
     EventStore.q_cursor := None |}.

Section Results.

Context {W : Type} (violationHandler : IsolationGuards.IsolationViolation -> W -> W).

Lemma query_result als es now query (w : W) :
  (EventStore.query W violationHandler als es now query w).1 =
  (EventStore.query unit silent als es 0 query tt).1.
Proof.
  unfold EventStore.query.
  destruct (TenantContext.getCurrentPartitionKey als) as [pk|]; [|done].
  pose proof (QueryGuardProps.validatePartitionKey_result violationHandler silent
                als now 0 (Some pk) w tt) as H.
  destruct (IsolationGuards.QueryGuard_validatePartitionKey W _ _ _ _ _) as [[[]|] w1],
    (IsolationGuards.QueryGuard_validatePartitionKey unit _ _ _ _ _) as [[[]|] u1];
    cbn in H; by simplify_eq.
Qed.

Lemma getById_result als el now evidenceId (w : W) :
  (EvidenceLinker.getById W violationHandler als el now evidenceId w).1 =
  (EvidenceLinker.getById unit silent als el 0 evidenceId tt).1.
Proof.
  unfold EvidenceLinker.getById.
  destruct (TenantContext.getCurrentPartitionKey als) as [pk|]; [|done].
  pose proof (QueryGuardProps.validatePartitionKey_result violationHandler silent
                als now 0 (Some pk) w tt) as H.
  destruct (IsolationGuards.QueryGuard_validatePartitionKey W _ _ _ _ _) as [[[]|] w1],
    (IsolationGuards.QueryGuard_validatePartitionKey unit _ _ _ _ _) as [[[]|] u1];
    cbn in H; by simplify_eq.
Qed.

Lemma getForEvent_loop_result als el now evidenceIds results (w : W) :
  (EvidenceLinker.getForEvent_loop W violationHandler als el now evidenceIds results w).1 =
  (EvidenceLinker.getForEvent_loop unit silent als el 0 evidenceIds results tt).1.
Proof.
  revert results w. induction evidenceIds as [|i rest IH]; intros results w; [done|].
  cbn [EvidenceLinker.getForEvent_loop].
  pose proof (getById_result als el now i w) as H.
  destruct (EvidenceLinker.getById W _ _ _ _ _ _) as [[[?|]|] w1],
    (EvidenceLinker.getById unit _ _ _ _ _ _) as [[[?|]|] []];
    cbn in H; simplify_eq; try done; apply IH.
Qed.

Lemma getForEvent_result als el now eventId (w : W) :
  (EvidenceLinker.getForEvent W violationHandler als el now eventId w).1 =
  (EvidenceLinker.getForEvent unit silent als el 0 eventId tt).1.
Proof.
  unfold EvidenceLinker.getForEvent.
  destruct (TenantContext.getCurrentPartitionKey als) as [pk|]; [|done].
  pose proof (QueryGuardProps.validatePartitionKey_result violationHandler silent
                als now 0 (Some pk) w tt) as H.
  destruct (IsolationGuards.QueryGuard_validatePartitionKey W _ _ _ _ _) as [[[]|] w1],
    (IsolationGuards.QueryGuard_validatePartitionKey unit _ _ _ _ _) as [[[]|] []];
    cbn in H; simplify_eq; try done. apply getForEvent_loop_result.
Qed.

Lemma gather_evidence_result als el now events evidence (w : W) :
  (gather_evidence W violationHandler als el now events evidence w).1 =
  (gather_evidence unit silent als el 0 events evidence tt).1.
Proof.
  revert evidence w. induction events as [|event rest IH]; intros evidence w; [done|].
  cbn [gather_evidence].
  pose proof (getForEvent_result als el now (EventStore.id event) w) as H.
  destruct (EvidenceLinker.getForEvent W _ _ _ _ _ _) as [[?|] w1],
    (EvidenceLinker.getForEvent unit _ _ _ _ _ _) as [[?|] []];
    cbn in H; simplify_eq; try done; apply IH.
Qed.

End Results.

Lemma walk_eq bigint fuel stack (h : Heap) v :
  walk bigint fuel stack h v =
  match v with
  | VUndefined => Ok JUndefined
  | VNull => Ok JNull
  | VBool b => Ok (JBool b)
  | VNum n => Ok (JNum n)
  | VNaN => Ok JNaN
  | VBigInt n => bigint n
  | VStr s => Ok (JStr s)
  | VRef l =>
      if bool_decide (l ∈ stack)
      then Throw (TypeError "Converting circular structure to JSON")
      else
        match h !! l with
        | None => Throw (Error "no such object")
        | Some (Date ms) => Ok (JDate ms)
        | Some (Arr xs) =>
            match fuel with
            | O => Throw (TypeError "Converting circular structure to JSON")
            | S fuel' =>
                match Json.traverse (walk bigint fuel' (l :: stack) h) xs with
                | Throw e => Throw e
                | Ok elements => Ok (JArr elements)
                end
            end
        | Some (Obj props) =>
            match fuel with
            | O => Throw (TypeError "Converting circular structure to JSON")
            | S fuel' =>
                match Json.traverse (fun kv => match walk bigint fuel' (l :: stack) h kv.2 with
                                               | Throw e => Throw e
                                               | Ok x => Ok (kv.1, x)
                                               end) props with
                | Throw e => Throw e
                | Ok members => Ok (JObj members)
                end
            end
        end
  end.
Proof. by destruct fuel. Qed.

(** A walk that returns reads the objects it passes through and no other,
    none of its stack among them: on a heap that holds them as they are,
    with fuel to spare and a stack that names none of them, it returns the
    same tree. *)
Lemma walk_agree bigint bigint' fuel fuel' stack stack' (h h' : Heap) v t :
  walk bigint fuel stack h v = Ok t ->
  (forall n x, bigint n = Ok x -> bigint' n = Ok x) ->
  (fuel <= fuel')%nat ->
  (forall l, l ∈ dom h -> l ∉ stack -> h' !! l = h !! l) ->
  (forall l, l ∈ stack' -> l ∈ stack \/ l ∉ dom h) ->
  walk bigint' fuel' stack' h' v = Ok t.
Proof.
  intros Hwalk Hbig. revert fuel' stack stack' v t Hwalk.
  induction fuel as [|fuel IH]; intros fuel' stack stack' v t Hwalk Hfuel Hsame Hstack;
    rewrite walk_eq in Hwalk |- *;
    (destruct v as [| |b|n| |n|s|l]; [done..|by apply Hbig|done|]);
    (case_bool_decide as Hin; [done|]);
    (destruct (h !! l) as [o|] eqn:Hl; [|done]);
    (assert (l ∈ dom h) as Hdom by (apply elem_of_dom; by rewrite Hl));
    (rewrite bool_decide_eq_false_2 by (intros [?|?]%Hstack; done));
    rewrite (Hsame l Hdom Hin), Hl.
  - by destruct o.
  - destruct o as [props|xs|ms]; [| |done].
    + destruct fuel' as [|fuel']; [lia|].
      destruct (Json.traverse _ props) as [members|] eqn:Hprops; [|done].
      injection Hwalk as <-.
      assert (Json.traverse (fun kv => match walk bigint' fuel' (l :: stack') h' kv.2 with
                                       | Throw e => Throw e
                                       | Ok x => Ok (kv.1, x)
                                       end) props = Ok members) as ->; [|done].
      apply JsonProps.traverse_Forall2. apply JsonProps.traverse_Forall2 in Hprops.
      eapply Forall2_impl; [exact Hprops|]. intros [k x] [k' x'] Hx. cbn in *.
      destruct (walk bigint fuel (l :: stack) h x) as [y|] eqn:Hy; [|done].
      rewrite (IH fuel' (l :: stack) (l :: stack') x y Hy); [done|lia| |].
      * intros l0 Hl0 Hnot. apply Hsame; [done|]. set_solver.
      * intros l0 [->|Hl0]%elem_of_cons; [left; set_solver|].
        destruct (Hstack l0 Hl0); [left; set_solver|by right].
    + destruct fuel' as [|fuel']; [lia|].
      destruct (Json.traverse _ xs) as [elements|] eqn:Hxs; [|done].
      injection Hwalk as <-.
      assert (Json.traverse (walk bigint' fuel' (l :: stack') h') xs = Ok elements) as ->;
        [|done].
      apply JsonProps.traverse_Forall2. apply JsonProps.traverse_Forall2 in Hxs.
      eapply Forall2_impl; [exact Hxs|]. intros x y Hy. cbn in *.
      apply (IH fuel' (l :: stack) (l :: stack') x y Hy); [lia| |].
      * intros l0 Hl0 Hnot. apply Hsame; [done|]. set_solver.
      * intros l0 [->|Hl0]%elem_of_cons; [left; set_solver|].
        destruct (Hstack l0 Hl0); [left; set_solver|by right].
Qed.


(** The stack of a walk holds distinct objects of the heap, so the depth of
    a walk is at most their number: fuel beyond it changes nothing. *)
Lemma walk_fuel bigint fuel stack (h : Heap) v :
  NoDup stack -> (forall l, l ∈ stack -> l ∈ dom h) ->
  (size h <= fuel + length stack)%nat ->
  walk bigint (S fuel) stack h v = walk bigint fuel stack h v.
Proof.
  revert stack v. induction fuel as [|fuel IH]; intros stack v Hnodup Hstack Hsize;
    rewrite (walk_eq _ (S _)), (walk_eq _ _ stack);
    (destruct v as [| |b|n| |n|s|l]; [done..|]);
    (case_bool_decide as Hin; [done|]);
    (destruct (h !! l) as [o|] eqn:Hl; [|done]);
    (assert (l ∈ dom h) as Hdom by (apply elem_of_dom; by rewrite Hl));
    (assert (NoDup (l :: stack)) as Hnodup' by (by constructor));
    (assert (forall l0, l0 ∈ l :: stack -> l0 ∈ dom h) as Hstack'
       by (intros l0 [->|?]%elem_of_cons; auto)).
  - assert (length (l :: stack) <= size h)%nat; [|cbn in *; lia].
    rewrite <- size_dom, <- (size_list_to_set (C := gset nat)) by done.
    apply subseteq_size. intros l0 Hl0%elem_of_list_to_set. auto.
  - destruct o as [props|xs|ms]; [| |done].
    + erewrite JsonProps.traverse_ext; [done|]. intros [k x]. cbn [snd].
      rewrite IH; [done|done|done|cbn; lia].
    + erewrite JsonProps.traverse_ext; [done|]. intros x. apply IH; [done|done|cbn; lia].
Qed.

(** *** The tree of a value *)

Fixpoint all2 {A B : Type} (P : A -> B -> Prop) (l : list A) (l' : list B) : Prop :=
  match l, l' with
  | [], [] => True
  | x :: l, y :: l' => P x y /\ all2 P l l'
  | _, _ => False
  end.

(** [holds h t v]: on the heap [h] the value [v] is the tree [t], with the
    objects it refers to, and those they refer to, in place of the
    references. Two values are deep-equal, each on its heap, when they hold
    the same tree. *)
Fixpoint holds (h : Heap) (t : jsval) (v : value) : Prop :=
  match t with
  | JUndefined => v = VUndefined
  | JNull => v = VNull
  | JBool b => v = VBool b
  | JNum n => v = VNum n
  | JNaN => v = VNaN
  | JBigInt n => v = VBigInt n
  | JStr s => v = VStr s
  | JDate ms => exists l, v = VRef l /\ h !! l = Some (Date ms)
  | JArr elements =>
      exists l xs, v = VRef l /\ h !! l = Some (Arr xs) /\ all2 (holds h) elements xs
  | JObj members =>
      exists l props,
        v = VRef l /\ h !! l = Some (Obj props) /\
        all2 (fun (m : string * jsval) (kv : string * value) =>
                m.1 = kv.1 /\ holds h m.2 kv.2) members props
  end.

Lemma all2_Forall2 {A B : Type} (P : A -> B -> Prop) l l' : all2 P l l' <-> Forall2 P l l'.
Proof.
  revert l'. induction l as [|x l IH]; intros [|y l']; cbn.
  - split; [constructor|done].
  - split; [done|by intros ?%Forall2_nil_inv_l].
  - split; [done|by intros ?%Forall2_nil_inv_r].
  - rewrite IH. split; [intros []; by constructor|by intros [? ?]%Forall2_cons_1].
Qed.

(** The number of nodes of a tree. *)
Fixpoint nodes (t : jsval) : nat :=
  match t with
  | JArr elements => S (list_sum (nodes <$> elements))
  | JObj members => S (list_sum ((fun m => nodes m.2) <$> members))
  | _ => 1
  end.

Lemma list_sum_elem (l : list nat) (n : nat) : n ∈ l -> (n <= list_sum l)%nat.
Proof.
  induction l as [|m l IH]; [by intros ?%elem_of_nil|].
  intros [->|Hn]%elem_of_cons; change (list_sum (m :: l)) with (m + list_sum l)%nat; [lia|].
  specialize (IH Hn). lia.
Qed.

Lemma nodes_element t elements : t ∈ elements -> (nodes t < nodes (JArr elements))%nat.
Proof.
  intros Ht. cbn. apply Nat.lt_succ_r, list_sum_elem, list_elem_of_fmap. by exists t.
Qed.

Lemma nodes_member (m : string * jsval) members :
  m ∈ members -> (nodes m.2 < nodes (JObj members))%nat.
Proof.
  intros Hm. cbn. apply Nat.lt_succ_r, list_sum_elem, list_elem_of_fmap. by exists m.
Qed.

(** A value holds one tree at most. *)
Lemma holds_unique (h : Heap) t : forall t' v, holds h t v -> holds h t' v -> t = t'.
Proof.
  induction t as [| |b|n| |n|s|ms|elements IH|members IH] using JsonProps.jsval_nested_ind;
    intros t' v Ht Ht'; cbn in Ht.
  1-7: subst v; destruct t' as [| |b'|n'| |n'|s'|ms'|elements'|members']; cbn in Ht';
    try done; try (by destruct Ht' as (? & ? & ?));
    try (by destruct Ht' as (? & ? & ? & ?)); congruence.
  - destruct Ht as (l & -> & Hl).
    destruct t' as [| |b'|n'| |n'|s'|ms'|elements'|members']; cbn in Ht'; try done.
    + destruct Ht' as (l' & [= <-] & Hl'). congruence.
    + destruct Ht' as (l' & xs & [= <-] & Hl' & _). congruence.
    + destruct Ht' as (l' & props & [= <-] & Hl' & _). congruence.
  - destruct Ht as (l & xs & -> & Hl & Hall).
    destruct t' as [| |b'|n'| |n'|s'|ms'|elements'|members']; cbn in Ht'; try done.
    + destruct Ht' as (l' & [= <-] & Hl'). congruence.
    + destruct Ht' as (l' & xs' & [= <-] & Hl' & Hall').
      assert (xs' = xs) as -> by congruence. f_equal.
      apply all2_Forall2 in Hall, Hall'. clear Hl Hl'.
      revert elements' xs Hall Hall'.
      induction IH as [|t elements Ht _ IHe]; intros elements' xs Hall Hall'.
      * apply Forall2_nil_inv_l in Hall as ->. by apply Forall2_nil_inv_r in Hall' as ->.
      * apply Forall2_cons_inv_l in Hall as (x & xs' & Hx & Hall & ->).
        apply Forall2_cons_inv_r in Hall' as (t' & elements'' & Hx' & Hall' & ->).
        f_equal; [by eapply Ht|by eapply IHe].
    + destruct Ht' as (l' & props & [= <-] & Hl' & _). congruence.
  - destruct Ht as (l & props & -> & Hl & Hall).
    destruct t' as [| |b'|n'| |n'|s'|ms'|elements'|members']; cbn in Ht'; try done.
    + destruct Ht' as (l' & [= <-] & Hl'). congruence.
    + destruct Ht' as (l' & xs & [= <-] & Hl' & _). congruence.
    + destruct Ht' as (l' & props' & [= <-] & Hl' & Hall').
      assert (props' = props) as -> by congruence. f_equal.
      apply all2_Forall2 in Hall, Hall'. clear Hl Hl'.
      revert members' props Hall Hall'.
      induction IH as [|[k t] members Ht _ IHm]; intros members' props Hall Hall'.
      * apply Forall2_nil_inv_l in Hall as ->. by apply Forall2_nil_inv_r in Hall' as ->.
      * apply Forall2_cons_inv_l in Hall as ([k0 x] & props' & [Hk Hx] & Hall & ->).
        apply Forall2_cons_inv_r in Hall' as ([k' t'] & members'' & [Hk' Hx'] & Hall' & ->).
        cbn in *. subst. f_equal; [f_equal; by eapply Ht|by eapply IHm].
Qed.

(** *** The content of a value *)

(** The tree of a value on a heap, as a walk that keeps a [BigInt] finds
    it. *)
Definition content (h : Heap) (v : value) : result jsval :=
  walk (fun n => Ok (JBigInt n)) (size h) [] h v.

Lemma content_fuel (h : Heap) v fuel :
  (size h <= fuel)%nat -> walk (fun n => Ok (JBigInt n)) fuel [] h v = content h v.
Proof.
  unfold content. induction 1 as [|fuel Hle IH]; [done|].
  rewrite walk_fuel; [done|constructor|by intros l ?%elem_of_nil|cbn; lia].
Qed.

(** The content of a value is that of the objects it reaches: it is the same
    on a heap that holds the objects of [h] as they are. *)
Lemma content_agree (h h' : Heap) v t :
  content h v = Ok t ->
  (forall l, l ∈ dom h -> h' !! l = h !! l) ->
  content h' v = Ok t.
Proof.
  intros Hv Hsame. unfold content in *.
  eapply walk_agree; [exact Hv|done| |by auto|by intros l ?%elem_of_nil].
  rewrite <- !size_dom. apply subseteq_size. intros l Hl.
  apply elem_of_dom. rewrite Hsame by done. by apply elem_of_dom.
Qed.

(** A walk that returns has found the tree of the value. *)
Lemma walk_holds fuel stack (h : Heap) v t :
  walk (fun n => Ok (JBigInt n)) fuel stack h v = Ok t -> holds h t v.
Proof.
  revert stack v t. induction fuel as [|fuel IH]; intros stack v t; rewrite walk_eq;
    (destruct v as [| |b|n| |n|s|l]; try (by intros [= <-]));
    (case_bool_decide as Hin; [done|]);
    (destruct (h !! l) as [[props|xs|ms]|] eqn:Hl; try done;
     try (intros [= <-]; by exists l)).
  - destruct (Json.traverse _ props) as [members|] eqn:Hprops; [|done]. intros [= <-].
    exists l, props. split; [done|]. split; [done|]. apply all2_Forall2.
    apply JsonProps.traverse_Forall2, Forall2_flip in Hprops.
    eapply Forall2_impl; [exact Hprops|]. intros [k t] [k' x] Hx. cbn in *.
    destruct (walk _ fuel (l :: stack) h x) as [t'|] eqn:Ht'; [|done].
    injection Hx as -> ->. split; [done|]. by eapply IH.
  - destruct (Json.traverse _ xs) as [elements|] eqn:Hxs; [|done]. intros [= <-].
    exists l, xs. split; [done|]. split; [done|]. apply all2_Forall2.
    apply JsonProps.traverse_Forall2, Forall2_flip in Hxs.
    eapply Forall2_impl; [exact Hxs|]. intros t x Hx. by eapply IH.
Qed.

(** The walk finds the tree a value holds: none of the objects it is inside
    of comes again, their trees being larger than the one it is at. *)
Lemma holds_walk (h : Heap) t :
  forall v fuel stack,
    holds h t v ->
    (nodes t <= fuel)%nat ->
    (forall l t', l ∈ stack -> holds h t' (VRef l) -> (nodes t < nodes t')%nat) ->
    walk (fun n => Ok (JBigInt n)) fuel stack h v = Ok t.
Proof.
  induction t as [| |b|n| |n|s|ms|elements IH|members IH] using JsonProps.jsval_nested_ind;
    intros v fuel stack Ht Hfuel Hstack; rewrite walk_eq; pose proof Ht as Ht0; cbn in Ht.
  1-7: by subst v.
  - destruct Ht as (l & -> & Hl).
    rewrite bool_decide_eq_false_2, Hl; [done|].
    intros Hin. specialize (Hstack l _ Hin Ht0). by apply Nat.lt_irrefl in Hstack.
  - destruct Ht as (l & xs & -> & Hl & Hall).
    rewrite bool_decide_eq_false_2, Hl.
    2: { intros Hin. specialize (Hstack l _ Hin Ht0). by apply Nat.lt_irrefl in Hstack. }
    destruct fuel as [|fuel]; [cbn in Hfuel; lia|].
    assert (Json.traverse (walk (fun n => Ok (JBigInt n)) fuel (l :: stack) h) xs
            = Ok elements) as ->; [|done].
    apply JsonProps.traverse_Forall2.
    apply all2_Forall2, Forall2_flip in Hall.
    apply Forall2_same_length_lookup_2; [by eapply Forall2_length|].
    intros i x t Hx Hti.
    pose proof (Forall2_lookup_lr _ _ _ _ _ _ Hall Hx Hti) as Hholds.
    assert (t ∈ elements) as Hin by (by eapply list_elem_of_lookup_2).
    pose proof (nodes_element _ _ Hin) as Hlt.
    rewrite Forall_forall in IH. apply (IH t Hin); [done|lia|].
    intros l0 t' [->|Hl0]%elem_of_cons Ht'.
    + by rewrite <- (holds_unique h _ _ _ Ht0 Ht').
    + specialize (Hstack l0 t' Hl0 Ht'). lia.
  - destruct Ht as (l & props & -> & Hl & Hall).
    rewrite bool_decide_eq_false_2, Hl.
    2: { intros Hin. specialize (Hstack l _ Hin Ht0). by apply Nat.lt_irrefl in Hstack. }
    destruct fuel as [|fuel]; [cbn in Hfuel; lia|].
    assert (Json.traverse
              (fun kv : string * value =>
                 match walk (fun n => Ok (JBigInt n)) fuel (l :: stack) h kv.2 with
                 | Throw e => Throw e
                 | Ok x => Ok (kv.1, x)
                 end) props = Ok members) as ->; [|done].
    apply JsonProps.traverse_Forall2.
    apply all2_Forall2, Forall2_flip in Hall.
    apply Forall2_same_length_lookup_2; [by eapply Forall2_length|].
    intros i [k x] [k' t] Hx Hti.
    pose proof (Forall2_lookup_lr _ _ _ _ _ _ Hall Hx Hti) as [Hk Hholds]. cbn in *.
    subst k'.
    assert ((k, t) ∈ members) as Hin by (by eapply list_elem_of_lookup_2).
    pose proof (nodes_member _ _ Hin) as Hlt. cbn [snd nodes] in Hlt, Hfuel.
    rewrite Forall_forall in IH. rewrite (IH (k, t) Hin x fuel (l :: stack)); [done|done|cbn [snd]; lia|].
    cbn [snd].
    intros l0 t' [->|Hl0]%elem_of_cons Ht'.
    + pose proof (holds_unique h (JObj members) t' (VRef l) Ht0 Ht') as <-. exact Hlt.
    + specialize (Hstack l0 t' Hl0 Ht'). cbn [nodes] in Hstack. lia.
Qed.

(** The content of a value is the tree it holds. *)
Lemma content_holds (h : Heap) v t : content h v = Ok t <-> holds h t v.
Proof.
  split; [apply walk_holds|]. intros Ht.
  rewrite <- (content_fuel h v (Nat.max (size h) (nodes t))) by lia.
  apply holds_walk; [done|lia|]. by intros l t' ?%elem_of_nil.
Qed.

(** A tree as [JSON.stringify] accepts it: with no [BigInt]. *)
Fixpoint strict (t : jsval) : result jsval :=
  match t with
  | JBigInt _ => Throw (TypeError "Do not know how to serialize a BigInt")
  | JArr xs =>
      match Json.traverse strict xs with
      | Throw e => Throw e
      | Ok elements => Ok (JArr elements)
      end
  | JObj props =>
      match Json.traverse (fun kv => match strict kv.2 with
                                     | Throw e => Throw e
                                     | Ok x => Ok (kv.1, x)
                                     end) props with
      | Throw e => Throw e
      | Ok members => Ok (JObj members)
      end
  | _ => Ok t
  end.

Lemma walk_strict fuel stack (h : Heap) v t :
  walk (fun n => Ok (JBigInt n)) fuel stack h v = Ok t ->
  walk (fun _ => Throw (TypeError "Do not know how to serialize a BigInt")) fuel stack h v
  = strict t.
Proof.
  revert stack v t. induction fuel as [|fuel IH]; intros stack v t;
    rewrite !walk_eq;
    (destruct v as [| |b|n| |n|s|l]; try (by intros [= <-]));
    (case_bool_decide as Hin; [done|]);
    (destruct (h !! l) as [[props|xs|ms]|] eqn:Hl; try done; try (by intros [= <-])).
  - destruct (Json.traverse _ props) as [members|] eqn:Hprops; [|done]. intros [= <-].
    cbn [strict]. erewrite JsonProps.traverse_rel; [done|].
    apply JsonProps.traverse_Forall2 in Hprops. eapply Forall2_impl; [exact Hprops|].
    intros [k x] [k' y] Hy. cbn in *.
    destruct (walk _ fuel (l :: stack) h x) as [y'|] eqn:Hx; [|done].
    injection Hy as <- <-. by rewrite (IH _ _ _ Hx).
  - destruct (Json.traverse _ xs) as [elements|] eqn:Hxs; [|done]. intros [= <-].
    cbn [strict]. erewrite JsonProps.traverse_rel; [done|].
    apply JsonProps.traverse_Forall2 in Hxs. eapply Forall2_impl; [exact Hxs|].
    intros x y Hy. by apply IH.
Qed.

(** [reparse] throws where [strict] does. *)
Lemma strict_reparse toISOString t :
  match strict t with
  | Throw e => reparse toISOString t = Throw e
  | Ok t' => t' = t /\ is_ok (reparse toISOString t) = true
  end.
Proof.
  induction t as [| |b|n| |n|s|ms|xs IH|props IH] using JsonProps.jsval_nested_ind;
    cbn [strict reparse]; try done.
  - assert (match Json.traverse strict xs with
            | Throw e => Json.traverse (reparse toISOString) xs = Throw e
            | Ok xs' => xs' = xs /\ is_ok (Json.traverse (reparse toISOString) xs) = true
            end) as H.
    { induction IH as [|x xs Hx _ IHxs]; [done|]. cbn [Json.traverse].
      destruct (strict x) as [x'|e]; [|by rewrite Hx].
      destruct Hx as [-> Hx]. destruct (reparse toISOString x) as [r|]; [|done].
      destruct (Json.traverse strict xs) as [xs'|e]; [|by rewrite IHxs].
      destruct IHxs as [-> IHxs].
      by destruct (Json.traverse (reparse toISOString) xs). }
    destruct (Json.traverse strict xs) as [xs'|e]; [|by rewrite H].
    destruct H as [-> H]. by destruct (Json.traverse (reparse toISOString) xs).
  - set (f := fun kv : string * jsval => match strict kv.2 with
                                          | Throw e => Throw e
                                          | Ok x => Ok (kv.1, x)
                                          end).
    set (g := fun kv : string * jsval => match reparse toISOString kv.2 with
                                          | Throw e => Throw e
                                          | Ok s => Ok (kv.1, s)
                                          end).
    assert (match Json.traverse f props with
            | Throw e => Json.traverse g props = Throw e
            | Ok props' => props' = props /\ is_ok (Json.traverse g props) = true
            end) as H.
    { induction IH as [|[k x] props Hx _ IHp]; [done|]. cbn [Json.traverse].
      unfold f at 1, g at 1 3. cbn [fst snd] in *.
      destruct (strict x) as [x'|e]; [|by rewrite Hx].
      destruct Hx as [-> Hx]. destruct (reparse toISOString x) as [r|]; [|done].
      destruct (Json.traverse f props) as [props'|e]; [|by rewrite IHp].
      destruct IHp as [-> IHp].
      by destruct (Json.traverse g props). }
    destruct (Json.traverse f props) as [props'|e]; [|by rewrite H].
    destruct H as [-> H]. by destruct (Json.traverse g props).
Qed.


(** *** The objects a value reaches *)

(** The values an object holds. *)
Definition fields (o : object) : list value :=
  match o with
  | Obj props => props.*2
  | Arr xs => xs
  | Date _ => []
  end.

(** The objects a value reaches: the one it refers to and, through the
    values that one holds, those they reach. *)
Inductive reaches (h : Heap) : value -> nat -> Prop :=
| reaches_here l : reaches h (VRef l) l
| reaches_field l o x l' :
    h !! l = Some o -> x ∈ fields o -> reaches h x l' -> reaches h (VRef l) l'.

Lemma reaches_agree (h h' : Heap) v l :
  reaches h' v l ->
  (forall l0, l0 ∈ dom h -> h' !! l0 = h !! l0) ->
  (forall l0, reaches h v l0 -> l0 ∈ dom h) ->
  reaches h v l.
Proof.
  intros Hreach Hsame. induction Hreach as [l|l o x l' Hl Hx _ IH]; intros Hclosed.
  - constructor.
  - assert (h !! l = Some o) as Hl'.
    { rewrite <- Hsame; [done|]. apply Hclosed. constructor. }
    eapply reaches_field; [done..|]. apply IH. intros l0 Hl0.
    apply Hclosed. by eapply reaches_field.
Qed.

(** *** What [JSON.parse] builds *)

(** What [build] makes of a tree [t] on a heap [h]: a value whose content is
    [t], that reaches new objects only, on a heap that holds the objects of
    [h] as they were. *)
Definition built (t : jsval) (h : Heap) (v : value) (h' : Heap) : Prop :=
  (forall l, l ∈ dom h -> h' !! l = h !! l) /\
  (forall l, reaches h' v l -> l ∈ dom h' /\ l ∉ dom h) /\
  content h' v = Ok t.

Lemma thread_built {A B : Type} (f : A -> Heap -> B * Heap)
    (tree_of : A -> jsval) (value_of : B -> value) (l : list A) :
  Forall (fun x => forall h, built (tree_of x) h (value_of (f x h).1) (f x h).2) l ->
  forall h,
    (forall l0, l0 ∈ dom h -> (thread f l h).2 !! l0 = h !! l0) /\
    Forall2 (fun y x =>
               (exists h0, y = (f x h0).1) /\
               content (thread f l h).2 (value_of y) = Ok (tree_of x) /\
               forall l0, reaches (thread f l h).2 (value_of y) l0 ->
                          l0 ∈ dom (thread f l h).2 /\ l0 ∉ dom h)
      (thread f l h).1 l.
Proof.
  induction 1 as [|x l Hx _ IH]; intros h; cbn [thread]; [by split|].
  specialize (Hx h). destruct (f x h) as [y h1] eqn:Hf. cbn [fst snd] in Hx.
  specialize (IH h1). destruct (thread f l h1) as [ys h2]. cbn [fst snd] in *.
  destruct IH as [Hsame Hrest]. destruct Hx as (Hsame1 & Hnew1 & Hcontent1).
  assert (forall l0, l0 ∈ dom h -> l0 ∈ dom h1) as Hdom.
  { intros l0 Hl0. apply elem_of_dom. rewrite Hsame1 by done. by apply elem_of_dom. }
  split.
  - intros l0 Hl0. rewrite Hsame by auto. auto.
  - constructor.
    + split; [exists h; by rewrite Hf|]. split; [by apply (content_agree h1)|].
      intros l0 Hl0. apply (reaches_agree h1) in Hl0; [|done|by apply Hnew1].
      destruct (Hnew1 l0 Hl0) as [Hin Hout]. split; [|done].
      apply elem_of_dom. rewrite Hsame by done. by apply elem_of_dom.
    + eapply Forall2_impl; [exact Hrest|]. intros y' x' (Hy' & Hc & Hnew).
      split; [done|]. split; [done|]. intros l0 Hl0.
      destruct (Hnew l0 Hl0) as [Hin Hout]. split; [done|]. auto.
Qed.

Lemma content_eq (h : Heap) v :
  content h v = walk (fun n => Ok (JBigInt n)) (size h) [] h v.
Proof. done. Qed.

Lemma build_built t : forall h, built t h (build t h).1 (build t h).2.
Proof.
  induction t as [| |b|n| |n|s|ms|xs IH|props IH] using JsonProps.jsval_nested_ind;
    intros h; cbn [build];
    try (split; [done|]; split; [intros l Hl; inversion Hl|];
         by rewrite content_eq, walk_eq).
  - pose proof (is_fresh (dom h)) as Hfresh. set (l := fresh (dom h)) in *.
    cbn [fst snd]. split; [|split].
    + intros l0 Hl0. rewrite lookup_insert_ne; [done|]. by intros ->.
    + intros l0 Hl0. inversion Hl0 as [|? o x ? Ho Hx _]; subst.
      * split; [|done]. set_solver.
      * rewrite lookup_insert_eq in Ho. injection Ho as <-. by apply elem_of_nil in Hx.
    + rewrite content_eq, walk_eq. rewrite bool_decide_eq_false_2 by apply not_elem_of_nil.
      by rewrite lookup_insert_eq.
  - destruct (thread_built build (fun x => x) (fun v => v) xs IH h) as [Hsame Hall].
    destruct (thread build xs h) as [elements h1]. cbn [fst snd] in *.
    pose proof (is_fresh (dom h1)) as Hfresh. set (l := fresh (dom h1)) in *.
    assert (forall l0, l0 ∈ dom h -> l0 ∈ dom h1) as Hdom.
    { intros l0 Hl0. apply elem_of_dom. rewrite Hsame by done. by apply elem_of_dom. }
    assert (forall l0, l0 ∈ dom h1 -> <[l := Arr elements]> h1 !! l0 = h1 !! l0) as Hsame'.
    { intros l0 Hl0. rewrite lookup_insert_ne; [done|]. by intros ->. }
    split; [|split].
    + intros l0 Hl0. rewrite Hsame' by auto. auto.
    + intros l0 Hl0. inversion Hl0 as [|? o x ? Ho Hx Hreach]; subst.
      * split; [set_solver|]. intros ?. apply Hfresh. auto.
      * rewrite lookup_insert_eq in Ho. injection Ho as <-. cbn [fields] in Hx.
        apply list_elem_of_lookup in Hx as [i Hi].
        destruct (Forall2_lookup_l _ _ _ _ _ Hall Hi) as (t & _ & _ & _ & Hnew).
        assert (reaches h1 x l0) as Hreach'.
        { eapply reaches_agree; [exact Hreach|done|].
          intros l1 Hl1. by destruct (Hnew l1 Hl1). }
        pose proof (Hnew l0 Hreach') as [? ?]. split; [|done].
        apply elem_of_dom. rewrite Hsame' by done. by apply elem_of_dom.
    + rewrite content_eq, walk_eq. rewrite bool_decide_eq_false_2 by apply not_elem_of_nil.
      rewrite lookup_insert_eq, map_size_insert_None by (by apply not_elem_of_dom).
      assert (Json.traverse
                (walk (fun n => Ok (JBigInt n)) (size h1) [l] (<[l := Arr elements]> h1))
                elements = Ok xs) as ->; [|done].
      apply JsonProps.traverse_Forall2. eapply Forall2_impl; [exact Hall|].
      intros v t (_ & Hc & _). cbn in Hc.
      eapply walk_agree; [exact Hc|done|done|by auto|].
      intros l0 ->%list_elem_of_singleton. by right.
  - destruct (thread_built
                (fun (kv : string * jsval) h0 =>
                   let '(x, h') := build kv.2 h0 in ((kv.1, x), h'))
                snd snd props) with (h := h) as [Hsame Hall].
    { eapply Forall_impl; [exact IH|]. intros [k x] Hx h0. cbn in *.
      specialize (Hx h0). by destruct (build x h0). }
    destruct (thread _ props h) as [members h1]. cbn [fst snd] in *.
    pose proof (is_fresh (dom h1)) as Hfresh. set (l := fresh (dom h1)) in *.
    assert (forall l0, l0 ∈ dom h -> l0 ∈ dom h1) as Hdom.
    { intros l0 Hl0. apply elem_of_dom. rewrite Hsame by done. by apply elem_of_dom. }
    assert (forall l0, l0 ∈ dom h1 -> <[l := Obj members]> h1 !! l0 = h1 !! l0) as Hsame'.
    { intros l0 Hl0. rewrite lookup_insert_ne; [done|]. by intros ->. }
    split; [|split].
    + intros l0 Hl0. rewrite Hsame' by auto. auto.
    + intros l0 Hl0. inversion Hl0 as [|? o x ? Ho Hx Hreach]; subst.
      * split; [set_solver|]. intros ?. apply Hfresh. auto.
      * rewrite lookup_insert_eq in Ho. injection Ho as <-. cbn [fields] in Hx.
        apply list_elem_of_fmap in Hx as ([k x'] & -> & Hx).
        apply list_elem_of_lookup in Hx as [i Hi].
        destruct (Forall2_lookup_l _ _ _ _ _ Hall Hi) as (t & _ & _ & _ & Hnew).
        cbn [snd] in *.
        assert (reaches h1 x' l0) as Hreach'.
        { eapply reaches_agree; [exact Hreach|done|].
          intros l1 Hl1. by destruct (Hnew l1 Hl1). }
        pose proof (Hnew l0 Hreach') as [? ?]. split; [|done].
        apply elem_of_dom. rewrite Hsame' by done. by apply elem_of_dom.
    + rewrite content_eq, walk_eq. rewrite bool_decide_eq_false_2 by apply not_elem_of_nil.
      rewrite lookup_insert_eq, map_size_insert_None by (by apply not_elem_of_dom).
      assert (Json.traverse
                (fun kv : string * value =>
                   match walk (fun n => Ok (JBigInt n)) (size h1) [l]
                           (<[l := Obj members]> h1) kv.2 with
                   | Throw e => Throw e
                   | Ok x => Ok (kv.1, x)
                   end) members = Ok props) as ->; [|done].
      apply JsonProps.traverse_Forall2. eapply Forall2_impl; [exact Hall|].
      intros [k v] [k' t] ([h0 Hkey] & Hc & _). cbn in *.
      destruct (build t h0) as [v0 h0']. injection Hkey as -> ->.
      erewrite walk_agree; [done|exact Hc|done|done|by auto|].
      intros l0 ->%list_elem_of_singleton. by right.
Qed.


(** *** The deep clone *)

Section Clone.

Variable toISOString : Z -> string.

(** The clone of a value is built from the round trip of its content. *)
Lemma deepClone_content (h : Heap) v t :
  content h v = Ok t ->
  deepClone toISOString h v =
  match reparse toISOString t with
  | Throw e => (Throw e, h)
  | Ok None => (Throw (SyntaxError "undefined is not valid JSON"), h)
  | Ok (Some copy) => (Ok (build copy h).1, (build copy h).2)
  end.
Proof.
  intros Hv. unfold deepClone, unfold. rewrite (walk_strict _ _ _ _ _ Hv).
  pose proof (strict_reparse toISOString t) as Hstrict.
  destruct (strict t) as [t'|e]; [|by rewrite Hstrict].
  destruct Hstrict as [-> _].
  destruct (reparse toISOString t) as [[copy|]|]; [|done..]. by destruct (build copy h).
Qed.

Lemma deepClone_Ok (h : Heap) v clone h' :
  deepClone toISOString h v = (Ok clone, h') ->
  exists t t',
    content h v = Ok t /\ reparse toISOString t = Ok (Some t') /\
    build t' h = (clone, h') /\ built t' h clone h'.
Proof.
  unfold deepClone, unfold. intros Hclone.
  destruct (walk _ (size h) [] h v) as [t|] eqn:Hwalk; [|done].
  assert (content h v = Ok t) as Hv.
  { unfold content. eapply walk_agree; [exact Hwalk|done|lia|auto|auto]. }
  exists t. destruct (reparse toISOString t) as [[t'|]|]; [|done..]. exists t'.
  pose proof (build_built t' h) as Hbuilt. destruct (build t' h) as [v' h0].
  by injection Hclone as <- <-.
Qed.

Lemma deepClone_Throw (h : Heap) v e h' :
  deepClone toISOString h v = (Throw e, h') -> h' = h.
Proof.
  unfold deepClone. destruct (unfold h v) as [t|]; [|by intros [= _ <-]].
  destruct (reparse toISOString t) as [[t'|]|]; [|by intros [= _ <-]..].
  by destruct (build t' h).
Qed.

End Clone.

(** *** The round trip through JSON *)

(** What [JSON.parse(JSON.stringify(v))] makes of a value whose tree is [t]:
    what [JSON.stringify] throws, the [SyntaxError] of [JSON.parse] when no
    text is written, or else the plain value that is written as [t] is. *)
Inductive round_trip (toISOString : Z -> string) (t : jsval) : result jsval -> Prop :=
| round_trip_throw e :
    Json.stringify toISOString t = Throw e -> round_trip toISOString t (Throw e)
| round_trip_undefined :
    Json.stringify toISOString t = Ok None ->
    round_trip toISOString t (Throw (SyntaxError "undefined is not valid JSON"))
| round_trip_value text t' :
    Json.stringify toISOString t = Ok (Some text) ->
    Json.stringify toISOString t' = Ok (Some text) ->
    RoundTripProps.plain t' = true ->
    round_trip toISOString t (Ok t').

Definition copy_of (toISOString : Z -> string) (t : jsval) : result jsval :=
  match reparse toISOString t with
  | Throw e => Throw e
  | Ok None => Throw (SyntaxError "undefined is not valid JSON")
  | Ok (Some copy) => Ok copy
  end.

(** There is one round trip of a tree, and [reparse] computes it. *)
Lemma round_trip_copy toISOString t copy :
  round_trip toISOString t copy <-> copy = copy_of toISOString t.
Proof.
  pose proof (RoundTripProps.stringify_reparse toISOString t) as Hsame.
  unfold RoundTripProps.same_text, copy_of in *. split.
  - intros [e He| Hnone |text t' Ht Ht' Hplain];
      destruct (reparse toISOString t) as [[w|]|e'] eqn:Hw; try congruence;
      try (destruct Hsame as (text' & Hsame & _); congruence).
    destruct Hsame as (text' & Htext & Hw'). rewrite Ht in Htext. injection Htext as <-.
    pose proof (JsonTextProps.reparse_is_plain _ _ _ Hw) as Hpw.
    rewrite (JsonTextProps.stringify_plain _ _ Hpw) in Hw'.
    rewrite (JsonTextProps.stringify_plain _ _ Hplain) in Ht'.
    f_equal. apply JsonTextProps.text_inj; congruence.
  - intros ->. destruct (reparse toISOString t) as [[w|]|e'] eqn:Hw.
    + destruct Hsame as (text & Ht & Hw'). econstructor; [done..|].
      by eapply JsonTextProps.reparse_is_plain.
    + by constructor.
    + by constructor.
Qed.

(** *** Reducers *)

(** A handler that is a reducer of the states that satisfy [inv], a property
    it keeps: it writes to no object that was there but those its state
    reaches; the state it returns reaches no object that was there but those
    its argument reached; and on a state that holds a tree [t] it does what
    the function [reduce] says of [t] and the event: it throws what that
    throws, or returns a state that holds the tree that returns. *)
Record reducer (inv : Heap -> value -> Prop) (handler : EventHandler)
    (reduce : jsval -> EventStore.DomainEvent -> result jsval) : Prop := {
  reducer_local : forall h s event l,
    inv h s -> l ∈ dom h -> ~ reaches h s l -> (handler h s event).2 !! l = h !! l;
  reducer_confined : forall h s event s' l,
    inv h s -> (handler h s event).1 = Ok s' ->
    reaches (handler h s event).2 s' l -> reaches h s l \/ l ∉ dom h;
  reducer_inv : forall h s event s',
    inv h s -> (handler h s event).1 = Ok s' -> inv (handler h s event).2 s';
  reducer_content : forall h s event t,
    inv h s -> holds h t s ->
    match reduce t event with
    | Throw e => (handler h s event).1 = Throw e
    | Ok t' =>
        exists s', (handler h s event).1 = Ok s' /\ holds (handler h s event).2 t' s'
    end;
}.

(** A registry of handlers that are the reducers [reducers], type by
    type. *)
Definition reduces (inv : Heap -> value -> Prop) (handlers : EventHandlerRegistry)
    (reducers : string -> option (jsval -> EventStore.DomainEvent -> result jsval))
    : Prop :=
  forall eventType,
    match handlers eventType, reducers eventType with
    | Some handler, Some reduce => reducer inv handler reduce
    | None, None => True
    | _, _ => False
    end.

(** The reducers folded over a tree. *)
Fixpoint fold_contents
    (reducers : string -> option (jsval -> EventStore.DomainEvent -> result jsval))
    (t : jsval) (events : list EventStore.DomainEvent) : result jsval :=
  match events with
  | [] => Ok t
  | event :: rest =>
      match reducers (EventStore.type event) with
      | None => fold_contents reducers t rest
      | Some reduce =>
          match reduce t event with
          | Throw e => Throw e
          | Ok t' => fold_contents reducers t' rest
          end
      end
  end.

Section Loop.

Variable inv : Heap -> value -> Prop.
Variable handlers : EventHandlerRegistry.
Variable reducers : string -> option (jsval -> EventStore.DomainEvent -> result jsval).
Hypothesis registry : reduces inv handlers reducers.

(** The loop leaves the objects its state does not reach as they are. *)
Lemma apply_handlers_frame (D : nat -> Prop) (h : Heap) s events :
  inv h s ->
  (forall l, D l -> l ∈ dom h /\ ~ reaches h s l) ->
  (forall l, D l -> (apply_handlers handlers h s events).2 !! l = h !! l) /\
  (forall s', (apply_handlers handlers h s events).1 = Ok s' ->
     forall l, D l -> ~ reaches (apply_handlers handlers h s events).2 s' l).
Proof.
  revert h s. induction events as [|event rest IH]; intros h s Hinv HD; cbn [apply_handlers].
  - split; [done|]. intros s' [= <-] l Hl. by apply HD.
  - pose proof (registry (EventStore.type event)) as Hr.
    destruct (handlers (EventStore.type event)) as [handler|]; [|by apply IH].
    destruct (reducers (EventStore.type event)) as [reduce|]; [|done].
    pose proof (reducer_local _ _ _ Hr h s event) as Hlocal.
    pose proof (reducer_confined _ _ _ Hr h s event) as Hconfined.
    pose proof (reducer_inv _ _ _ Hr h s event) as Hkept.
    destruct (handler h s event) as [[s1|e] h1]; cbn [fst snd] in *.
    + assert (forall l, D l -> h1 !! l = h !! l) as Hsame
        by (intros l Hl; apply Hlocal; [done|by apply HD..]).
      destruct (IH h1 s1) as [Hcells Hstate]; [by apply Hkept| |].
      * intros l Hl. destruct (HD l Hl) as [Hdom Hnot]. split.
        -- apply elem_of_dom. rewrite Hsame by done. by apply elem_of_dom.
        -- intros Hreach. by destruct (Hconfined s1 l Hinv eq_refl Hreach).
      * split; [|done]. intros l Hl. rewrite Hcells by done. auto.
    + split; [|done]. intros l Hl. apply Hlocal; [done|by apply HD..].
Qed.

(** The loop folds the reducers over the tree of its state. *)
Lemma apply_handlers_fold (h : Heap) s events t :
  inv h s -> holds h t s ->
  match fold_contents reducers t events with
  | Throw e => (apply_handlers handlers h s events).1 = Throw e
  | Ok t' =>
      exists s',
        (apply_handlers handlers h s events).1 = Ok s' /\
        holds (apply_handlers handlers h s events).2 t' s'
  end.
Proof.
  revert h s t. induction events as [|event rest IH]; intros h s t Hinv Hs;
    cbn [apply_handlers fold_contents]; [by eauto|].
  pose proof (registry (EventStore.type event)) as Hr.
  destruct (handlers (EventStore.type event)) as [handler|],
    (reducers (EventStore.type event)) as [reduce|]; try done; [|by apply IH].
  pose proof (reducer_content _ _ _ Hr h s event t Hinv Hs) as Hstep.
  pose proof (reducer_inv _ _ _ Hr h s event) as Hkept.
  destruct (reduce t event) as [t'|e].
  - destruct Hstep as (s' & Hs' & Ht').
    destruct (handler h s event) as [[s1|e1] h1]; cbn [fst snd] in *; [|done].
    injection Hs' as ->. by apply IH; auto.
  - by destruct (handler h s event) as [[s1|e1] h1]; cbn [fst snd] in *; simplify_eq.
Qed.

End Loop.

(** *** A replay *)

(** What a replay computes from the round trip [copy] of the tree of the
    initial state: the reducers folded over it, the events folded and their
    evidence. *)
Definition replay_value
    (reducers : string -> option (jsval -> EventStore.DomainEvent -> result jsval))
    (als : option TenantContext.TenantContext) (es : EventStore.EventStoreImpl)
    (el : EvidenceLinker.EvidenceLinkerImpl) (options : ReplayOptions)
    (copy : result jsval)
    : result (jsval * list EventStore.DomainEvent * list EvidenceLinker.Evidence) :=
  match (EventStore.query unit silent als es 0 (replay_query options) tt).1 with
  | Throw e => Throw e
  | Ok eventPage =>
      let events := select options (EventStore.events_of eventPage) in
      match copy with
      | Throw e => Throw e
      | Ok initial =>
          match fold_contents reducers initial events with
          | Throw e => Throw e
          | Ok t =>
              match (if default false (includeEvidence options)
                     then (gather_evidence unit silent als el 0 events [] tt).1
                     else Ok []) with
              | Throw e => Throw e
              | Ok evidence => Ok (t, events, evidence)
              end
          end
      end
  end.

(** A replay that answers [expected]: it throws the exception expected, or
    returns a state that holds the tree expected, with the events and the
    evidence expected. *)
Definition returns {W : Type} (run : result ReplayResult * Heap * W)
    (expected : result (jsval * list EventStore.DomainEvent * list EvidenceLinker.Evidence))
    : Prop :=
  match expected with
  | Throw e => run.1.1 = Throw e
  | Ok (t, events', evidence') =>
      exists res,
        run.1.1 = Ok res /\ holds run.1.2 t (state res) /\
        events res = events' /\ evidence res = evidence'
  end.

(** Two replays that answer alike: both throw the same exception, or both
    return deep-equal states, with the same events and evidence. *)
Definition alike {W : Type} (run run' : result ReplayResult * Heap * W) : Prop :=
  match run.1.1, run'.1.1 with
  | Throw e, Throw e' => e' = e
  | Ok res, Ok res' =>
      (exists t, holds run.1.2 t (state res) /\ holds run'.1.2 t (state res')) /\
      events res' = events res /\ evidence res' = evidence res
  | _, _ => False
  end.

Lemma returns_alike {W : Type} (run run' : result ReplayResult * Heap * W) expected :
  returns run expected -> returns run' expected -> alike run run'.
Proof.
  unfold returns, alike. destruct expected as [[[t events'] evidence']|e].
  - intros (res & -> & Ht & <- & <-) (res' & -> & Ht' & Hev & Hevd). eauto.
  - by intros -> ->.
Qed.

Section Replay.

Variable toISOString : Z -> string.

(** What a replay does to the heap [h] and what it answers, whatever the
    clock and the violation handler are. *)
Definition outcome (engine : ReplayEngine) (als : option TenantContext.TenantContext)
    (es : EventStore.EventStoreImpl) (el : EvidenceLinker.EvidenceLinkerImpl)
    (options : ReplayOptions) (h : Heap)
    : result (value * list EventStore.DomainEvent * list EvidenceLinker.Evidence) * Heap :=
  match (EventStore.query unit silent als es 0 (replay_query options) tt).1 with
  | Throw e => (Throw e, h)
  | Ok eventPage =>
      let events := select options (EventStore.events_of eventPage) in
      match deepClone toISOString h (initialState engine) with
      | (Throw e, h0) => (Throw e, h0)
      | (Ok state0, h0) =>
          match apply_handlers (handlers engine) h0 state0 events with
          | (Throw e, h1) => (Throw e, h1)
          | (Ok state, h1) =>
              match (if default false (includeEvidence options)
                     then (gather_evidence unit silent als el 0 events [] tt).1
                     else Ok []) with
              | Throw e => (Throw e, h1)
              | Ok evidence => (Ok (state, events, evidence), h1)
              end
          end
      end
  end.

Definition answer {W : Type} (r : result ReplayResult * Heap * W)
    : result (value * list EventStore.DomainEvent * list EvidenceLinker.Evidence) * Heap :=
  (match r.1.1 with
   | Throw e => Throw e
   | Ok res => Ok (state res, events res, evidence res)
   end, r.1.2).

Context {W : Type} (violationHandler : IsolationGuards.IsolationViolation -> W -> W).

Lemma replay_outcome engine als es el startTime endTime now options (h : Heap) (w : W) :
  answer (replay toISOString W violationHandler engine als es el
            startTime endTime now options h w)
  = outcome engine als es el options h.
Proof.
  unfold replay, outcome, answer. fold (replay_query options).
  rewrite <- (query_result violationHandler als es now (replay_query options) w).
  destruct (EventStore.query W violationHandler als es now (replay_query options) w)
    as [[eventPage|e] w1]; cbn [fst snd]; [|done].
  set (events := select options (EventStore.events_of eventPage)).
  destruct (deepClone toISOString h (initialState engine)) as [[state0|e] h0];
    cbn [fst snd]; [|done].
  destruct (apply_handlers (handlers engine) h0 state0 events) as [[final|e] h1];
    cbn [fst snd]; [|done].
  rewrite <- (gather_evidence_result violationHandler als el now events [] w1).
  destruct (default false (includeEvidence options)); [|done].
  by destruct (gather_evidence W violationHandler als el now events [] w1) as [[evidence|e] w2].
Qed.

(** A replay answers what its outcome says. *)
Lemma returns_outcome (run : result ReplayResult * Heap * W) o expected :
  answer run = o ->
  match expected with
  | Throw e => o.1 = Throw e
  | Ok (t, events', evidence') =>
      exists s, o.1 = Ok (s, events', evidence') /\ holds o.2 t s
  end ->
  returns run expected.
Proof.
  unfold answer, returns. intros <-. cbn [fst snd].
  destruct expected as [[[t events'] evidence']|e].
  - intros (s & Hs & Ht). destruct run.1.1 as [res|]; [|done].
    injection Hs as <- <- <-. eauto.
  - destruct run.1.1 as [res|e']; [done|]. by intros [= ->].
Qed.

Section Reducers.

Variable engine : ReplayEngine.
Variable inv : Heap -> value -> Prop.
Variable reducers : string -> option (jsval -> EventStore.DomainEvent -> result jsval).
Hypothesis builds : forall t (h : Heap), inv (build t h).2 (build t h).1.
Hypothesis registry : reduces inv (handlers engine) reducers.

Lemma outcome_value als es el options (h : Heap) t :
  holds h t (initialState engine) ->
  match replay_value reducers als es el options (copy_of toISOString t) with
  | Throw e => (outcome engine als es el options h).1 = Throw e
  | Ok (t', events', evidence') =>
      exists s,
        (outcome engine als es el options h).1 = Ok (s, events', evidence') /\
        holds (outcome engine als es el options h).2 t' s
  end.
Proof.
  intros Ht%content_holds. unfold outcome, replay_value, copy_of.
  destruct (EventStore.query unit silent als es 0 (replay_query options) tt).1
    as [eventPage|e]; [|done].
  set (events := select options (EventStore.events_of eventPage)).
  rewrite (deepClone_content _ _ _ _ Ht).
  destruct (reparse toISOString t) as [[copy|]|e]; [|done..].
  pose proof (build_built copy h) as (_ & _ & Hcopy%content_holds).
  pose proof (apply_handlers_fold inv (handlers engine) reducers registry _ _ events copy
                (builds copy h) Hcopy) as Hfold.
  destruct (fold_contents reducers copy events) as [t'|e].
  - destruct Hfold as (s' & Hs' & Ht').
    destruct (apply_handlers (handlers engine) (build copy h).2 (build copy h).1 events)
      as [[s|e] h1]; cbn [fst snd] in *; [|done]. injection Hs' as ->.
    destruct (if default false (includeEvidence options) then _ else _) as [evidence|e];
      [|done].
    cbn. eauto.
  - by destruct (apply_handlers (handlers engine) (build copy h).2 (build copy h).1 events)
      as [[s|e'] h1]; cbn [fst snd] in *; simplify_eq.
Qed.

Lemma outcome_frame als es el options (h : Heap) :
  (forall l, l ∈ dom h -> (outcome engine als es el options h).2 !! l = h !! l) /\
  (forall s events evidence,
     (outcome engine als es el options h).1 = Ok (s, events, evidence) ->
     forall l, reaches (outcome engine als es el options h).2 s l -> l ∉ dom h).
Proof.
  unfold outcome.
  destruct (EventStore.query unit silent als es 0 (replay_query options) tt).1
    as [eventPage|e]; [|done].
  set (events := select options (EventStore.events_of eventPage)).
  destruct (deepClone toISOString h (initialState engine)) as [[state0|e] h0] eqn:Hclone.
  2: { apply deepClone_Throw in Hclone as ->. done. }
  apply deepClone_Ok in Hclone as (t & t' & Ht & Ht' & Hbuild & Hsame & Hnew & Hcopy).
  assert (inv h0 state0) as Hinv.
  { pose proof (builds t' h) as Hb. by rewrite Hbuild in Hb. }
  destruct (apply_handlers_frame inv (handlers engine) reducers registry
              (fun l => l ∈ dom h) h0 state0 events Hinv) as [Hcells Hstate].
  { intros l Hl. split.
    - apply elem_of_dom. rewrite Hsame by done. by apply elem_of_dom.
    - intros Hreach. by destruct (Hnew l Hreach). }
  destruct (apply_handlers (handlers engine) h0 state0 events) as [[s|e] h1];
    cbn [fst snd] in *.
  - destruct (if default false (includeEvidence options) then _ else _) as [evidence|e];
      cbn [fst snd].
    + split; [intros l Hl; rewrite Hcells by done; auto|].
      intros ? ? ? [= <- <- <-] l Hreach Hl. by apply (Hstate s eq_refl l).
    + split; [intros l Hl; rewrite Hcells by done; auto|done].
  - split; [intros l Hl; rewrite Hcells by done; auto|done].
Qed.

(** A replay of an initial state that holds no tree throws and leaves the
    heap. *)
Lemma outcome_no_tree als es el options (h : Heap) :
  (forall t, ~ holds h t (initialState engine)) ->
  exists e, outcome engine als es el options h = (Throw e, h).
Proof.
  intros Hnone. unfold outcome.
  destruct (EventStore.query unit silent als es 0 (replay_query options) tt).1
    as [eventPage|e']; [|by eauto].
  destruct (deepClone toISOString h (initialState engine)) as [[state0|e'] h0] eqn:Hclone.
  - apply deepClone_Ok in Hclone as (t & _ & Ht%content_holds & _). by destruct (Hnone t).
  - apply deepClone_Throw in Hclone as ->. eauto.
Qed.

Lemma outcome_initialState als es el options (h : Heap) t :
  holds h t (initialState engine) ->
  holds (outcome engine als es el options h).2 t (initialState engine).
Proof.
  intros Ht%content_holds. apply content_holds, (content_agree h); [done|].
  apply outcome_frame.
Qed.

End Reducers.

(** A run of replays, each on the heap the one before leaves. *)
Fixpoint replays (engine : ReplayEngine) (als : option TenantContext.TenantContext)
    (es : EventStore.EventStoreImpl) (el : EvidenceLinker.EvidenceLinkerImpl)
    (calls : list (Z * Z * Z * ReplayOptions)) (h : Heap) (w : W) : Heap * W :=
  match calls with
  | [] => (h, w)
  | (startTime, endTime, now, options) :: rest =>
      let run := replay toISOString W violationHandler engine als es el
                   startTime endTime now options h w in
      replays engine als es el rest run.1.2 run.2
  end.

Lemma replay_heap engine als es el startTime endTime now options (h : Heap) (w : W) :
  (replay toISOString W violationHandler engine als es el
     startTime endTime now options h w).1.2
  = (outcome engine als es el options h).2.
Proof. by rewrite <- (replay_outcome engine als es el startTime endTime now options h w). Qed.

Lemma replays_frame engine inv reducers als es el calls (h : Heap) (w : W) :
  (forall t (h : Heap), inv (build t h).2 (build t h).1) ->
  reduces inv (handlers engine) reducers ->
  (forall l, l ∈ dom h -> (replays engine als es el calls h w).1 !! l = h !! l) /\
  (forall t, holds h t (initialState engine) ->
             holds (replays engine als es el calls h w).1 t (initialState engine)).
Proof.
  intros builds registry. revert h w.
  induction calls as [|[[[startTime endTime] now] options] rest IH]; intros h w; [done|].
  cbn [replays]. destruct (IH (replay toISOString W violationHandler engine als es el
                                 startTime endTime now options h w).1.2
                              (replay toISOString W violationHandler engine als es el
                                 startTime endTime now options h w).2) as [Hcells Htree].
  rewrite replay_heap in Hcells, Htree |- *.
  destruct (outcome_frame engine inv reducers builds registry als es el options h)
    as [Hframe _].
  split.
  - intros l Hl. rewrite Hcells; [by apply Hframe|].
    apply elem_of_dom. rewrite Hframe by done. by apply elem_of_dom.
  - intros t Ht. by eapply Htree, outcome_initialState.
Qed.

End Replay.


(** *** A reducer that writes into its state *)

(** Assignment [o[k] = v] on the properties of an object: an existing key
    keeps its place, a new one goes last. *)
Fixpoint assign {A : Type} (k : string) (v : A) (props : list (string * A))
    : list (string * A) :=
  match props with
  | [] => [(k, v)]
  | (k', v') :: rest =>
      if bool_decide (k' = k) then (k, v) :: rest else (k', v') :: assign k v rest
  end.

(** The handler
    [(state, event) => { state.revision = event.sequence; return state; }].
    On an array or a [Date] the property it sets is none that
    [JSON.stringify] writes; on a primitive the assignment throws. *)
Definition set_revision : EventHandler := fun h state event =>
  match state with
  | VRef l =>
      match h !! l with
      | Some (Obj props) =>
          (Ok state,
           <[l := Obj (assign "revision" (VNum (EventStore.sequence event)) props)]> h)
      | _ => (Ok state, h)
      end
  | VUndefined => (Throw (TypeError "Cannot set properties of undefined"), h)
  | VNull => (Throw (TypeError "Cannot set properties of null"), h)
  | _ => (Throw (TypeError "Cannot create property 'revision'"), h)
  end.

Lemma elem_of_assign {A : Type} (k : string) (v : A) props kv :
  kv ∈ assign k v props -> kv = (k, v) \/ kv ∈ props.
Proof.
  induction props as [|[k' v'] props IH]; cbn.
  - intros ->%list_elem_of_singleton. by left.
  - case_bool_decide.
    + intros [->|?]%elem_of_cons; [by left|right; by right].
    + intros [->|[->|?]%IH]%elem_of_cons; [right; by left|by left|right; by right].
Qed.

Lemma Forall2_assign {A B : Type} (R : string * A -> string * B -> Prop) k v t props members :
  (forall a b, R a b -> a.1 = b.1) ->
  R (k, v) (k, t) ->
  Forall2 R props members ->
  Forall2 R (assign k v props) (assign k t members).
Proof.
  intros Hkey Hnew. induction 1 as [|[k1 v1] [k2 v2] props members Hhead Htail IH]; cbn.
  - by repeat constructor.
  - pose proof (Hkey _ _ Hhead) as Hk. cbn in Hk. subst k2.
    case_bool_decide; by constructor.
Qed.

(** An object whose values are replaced by some it held and by primitives
    reaches no more than it did. *)
Lemma reaches_update (h : Heap) l o o' v l0 :
  h !! l = Some o ->
  (forall x, x ∈ fields o' -> x ∈ fields o \/ forall l1, x <> VRef l1) ->
  reaches (<[l := o']> h) v l0 -> reaches h v l0.
Proof.
  intros Hl Hfields. induction 1 as [l1|l1 o1 x l2 Hl1 Hx Hreach IH]; [constructor|].
  destruct (decide (l1 = l)) as [->|Hne].
  - rewrite lookup_insert_eq in Hl1. injection Hl1 as <-.
    destruct (Hfields x Hx) as [Hold|Hprim].
    + by eapply reaches_field.
    + inversion Hreach; subst; by destruct (Hprim _ eq_refl).
  - rewrite lookup_insert_ne in Hl1 by done. by eapply reaches_field.
Qed.

(** What the content of a value tells of it. *)
Lemma content_inv (h : Heap) s t :
  content h s = Ok t ->
  match s with
  | VUndefined => t = JUndefined
  | VNull => t = JNull
  | VBool b => t = JBool b
  | VNum n => t = JNum n
  | VNaN => t = JNaN
  | VBigInt n => t = JBigInt n
  | VStr x => t = JStr x
  | VRef l =>
      match h !! l with
      | None => False
      | Some (Date ms) => t = JDate ms
      | Some (Arr xs) => exists elements, t = JArr elements
      | Some (Obj props) =>
          exists fuel members,
            size h = S fuel /\ t = JObj members /\
            Forall2 (fun (kv : string * value) (m : string * jsval) =>
                       match walk (fun n => Ok (JBigInt n)) fuel [l] h kv.2 with
                       | Throw e => Throw e
                       | Ok x => Ok (kv.1, x)
                       end = Ok m) props members
      end
  end.
Proof.
  rewrite content_eq, walk_eq. destruct s as [| |b|n| |n|x|l]; try (by intros [= <-]).
  rewrite bool_decide_eq_false_2 by apply not_elem_of_nil.
  destruct (h !! l) as [[props|xs|ms]|]; [| | |done].
  - destruct (size h) as [|fuel]; [done|].
    destruct (Json.traverse _ props) as [members|] eqn:Hprops; [|done]. intros [= <-].
    exists fuel, members. split; [done|]. split; [done|]. by apply JsonProps.traverse_Forall2.
  - destruct (size h) as [|fuel]; [done|].
    destruct (Json.traverse _ xs) as [elements|]; [|done]. intros [= <-]. eauto.
  - by intros [= <-].
Qed.

(** What [set_revision] makes of a tree. *)
Definition revise (t : jsval) (event : EventStore.DomainEvent) : result jsval :=
  match t with
  | JObj members => Ok (JObj (assign "revision" (JNum (EventStore.sequence event)) members))
  | JArr _ | JDate _ => Ok t
  | JUndefined => Throw (TypeError "Cannot set properties of undefined")
  | JNull => Throw (TypeError "Cannot set properties of null")
  | _ => Throw (TypeError "Cannot create property 'revision'")
  end.

Lemma set_revision_content (h : Heap) s event t :
  content h s = Ok t ->
  match revise t event with
  | Throw e => (set_revision h s event).1 = Throw e
  | Ok t' =>
      (set_revision h s event).1 = Ok s /\ content (set_revision h s event).2 s = Ok t'
  end.
Proof.
  intros Hs. pose proof (content_inv h s t Hs) as Hinv.
  destruct s as [| |b|n| |n|x|l]; try (by subst t).
  unfold set_revision. destruct (h !! l) as [[props|xs|ms]|] eqn:Hl; [| | |done].
  - destruct Hinv as (fuel & members & Hsize & -> & Hprops). cbn [fst snd revise].
    split; [done|]. rewrite content_eq, walk_eq.
    rewrite bool_decide_eq_false_2 by apply not_elem_of_nil.
    rewrite lookup_insert_eq, map_size_insert_Some, Hsize by done.
    set (h' := <[l := _]> h).
    assert (Json.traverse
              (fun kv : string * value =>
                 match walk (fun n => Ok (JBigInt n)) fuel [l] h' kv.2 with
                 | Throw e => Throw e
                 | Ok x => Ok (kv.1, x)
                 end)
              (assign "revision" (VNum (EventStore.sequence event)) props)
            = Ok (assign "revision" (JNum (EventStore.sequence event)) members)) as ->;
      [|done].
    apply JsonProps.traverse_Forall2. apply Forall2_assign.
    + intros [k v] [k' v'] Hkv. cbn in *.
      destruct (walk _ fuel [l] h' v); by simplify_eq.
    + cbn. by rewrite walk_eq.
    + eapply Forall2_impl; [exact Hprops|]. intros [k v] m Hm. cbn in *.
      destruct (walk _ fuel [l] h v) as [x|] eqn:Hv; [|done].
      erewrite walk_agree; [exact Hm|exact Hv|done|done| |by left].
      intros l0 _ Hl0. subst h'. rewrite lookup_insert_ne; [done|]. set_solver.
  - destruct Hinv as [elements ->]. done.
  - by subst t.
Qed.

Lemma set_revision_reducer : reducer (fun _ _ => True) set_revision revise.
Proof.
  split.
  - intros h s event l _ Hl Hnot. unfold set_revision.
    destruct s as [| |b|n| |n|x|l0]; try done.
    destruct (h !! l0) as [[props|xs|ms]|]; try done. cbn.
    rewrite lookup_insert_ne; [done|]. intros ->. apply Hnot. constructor.
  - intros h s event s' l _. unfold set_revision.
    destruct s as [| |b|n| |n|x|l0]; try done.
    destruct (h !! l0) as [[props|xs|ms]|] eqn:Hl0; cbn; intros [= <-]; try (by left).
    intros Hreach. left. eapply reaches_update; [exact Hl0| |exact Hreach].
    cbn. intros v [[k v'] [-> [[= _ ->]|Hold]%elem_of_assign]]%list_elem_of_fmap.
    + by right.
    + left. apply list_elem_of_fmap. by exists (k, v').
  - done.
  - intros h s event t _ Hs%content_holds.
    pose proof (set_revision_content h s event t Hs) as Hout.
    destruct (revise t event) as [t'|e]; [|done].
    destruct Hout as [Hs' Ht'%content_holds]. eauto.
Qed.

(** An engine whose one handler writes into the state it is given, and a
    heap holding its initial state. *)
Definition touching : ReplayEngine :=
  {| handlers := fun eventType =>
       if bool_decide (eventType = "entity.updated") then Some set_revision else None;
     initialState := VRef 0 |}.

Definition touching_reducers (eventType : string)
    : option (jsval -> EventStore.DomainEvent -> result jsval) :=
  if bool_decide (eventType = "entity.updated") then Some revise else None.

Definition one_object : Heap := {[ 0%nat := Obj [("revision", VNum 0)] ]}.

Definition everything : ReplayOptions :=
  {| asOf := None; upToEventId := None; eventTypes := None; aggregateId := None;
     aggregateType := None; includeEvidence := Some true |}.

Lemma touching_reduces : reduces (fun _ _ => True) (handlers touching) touching_reducers.
Proof.
  intros eventType. unfold touching_reducers. cbn. case_bool_decide; [|done].
  apply set_revision_reducer.
Qed.


(** *** Handlers that are no reducers, and a state that is not plain *)

(** The handler [() => v], for a value [v] it holds. *)
Definition returning (v : value) : EventHandler := fun h _ _ => (Ok v, h).

(** The handler
    [(state, event) => { state.total += event.sequence; return state; }],
    for a state that is an object with the one property [total], a number;
    it throws at any other. *)
Definition adding : EventHandler := fun h state event =>
  match state with
  | VRef l =>
      match h !! l with
      | Some (Obj [("total", VNum total)]) =>
          (Ok state, <[l := Obj [("total", VNum (total + EventStore.sequence event))]]> h)
      | _ => (Throw (Error "no total"), h)
      end
  | _ => (Throw (Error "no total"), h)
  end.

(** An account whose [account.reset] handler returns the initial state the
    engine was made with, as
    [createReplayEngine(initial, { 'account.reset': () => initial, ... })]
    does. *)
Definition resetting : ReplayEngine :=
  {| handlers := fun eventType =>
       if bool_decide (eventType = "account.reset") then Some (returning (VRef 0))
       else if bool_decide (eventType = "account.credited") then Some adding
       else None;
     initialState := VRef 0 |}.

Definition account : Heap := {[ 0%nat := Obj [("total", VNum 0)] ]}.

Definition account_event (uuid eventType : string) : EventStoreProps.call :=
  {| EventStoreProps.c_als := Some Samples.context_A; EventStoreProps.c_uuid := uuid;
     EventStoreProps.c_occurred := 1; EventStoreProps.c_recorded := 1;
     EventStoreProps.c_type := eventType; EventStoreProps.c_aggregateId := "acc_1";
     EventStoreProps.c_aggregateType := "Account"; EventStoreProps.c_payload := JObj [];
     EventStoreProps.c_evidenceRefs := []; EventStoreProps.c_metadata := None |}.

(** A reset, then a credit, which is the second event of the account. *)
Definition ledger : EventStore.EventStoreImpl :=
  EventStoreProps.run (fun s => s) pretty EventStore.empty
    [account_event "e1" "account.reset"; account_event "e2" "account.credited"].

(** An engine with no handler, whose initial state holds a number that is
    not finite. *)
Definition idle_rate : ReplayEngine := {| handlers := fun _ => None; initialState := VRef 0 |}.

Definition rates : Heap := {[ 0%nat := Obj [("rate", VNaN)] ]}.

(** C5, where it fails. A handler may return any object, and the loop keeps
    what it returns: after the reset the state is the initial state itself,
    the credit is written into it, and a second replay of the same events
    starts from the changed object and returns another total. And the copy
    the fold starts from is the round trip of the initial state through
    JSON, which is not deep-equal to it when a number of it is not finite:
    with no handler at all the state returned differs from the initial
    state. *)
Lemma replay_not_pure :
  let run :=
    replay pretty unit silent resetting (Some Samples.context_A) ledger
      EvidenceLinker.empty 10 11 12 everything account tt in
  let again :=
    replay pretty unit silent resetting (Some Samples.context_A) ledger
      EvidenceLinker.empty 20 21 22 everything run.1.2 run.2 in
  let lossy :=
    replay pretty unit silent idle_rate (Some Samples.context_A) ledger
      EvidenceLinker.empty 10 11 12 everything rates tt in
  (holds account (JObj [("total", JNum 0)]) (initialState resetting) /\
   holds run.1.2 (JObj [("total", JNum 2)]) (initialState resetting) /\
   (exists res,
      run.1.1 = Ok res /\ state res = initialState resetting /\
      holds run.1.2 (JObj [("total", JNum 2)]) (state res)) /\
   (exists res,
      again.1.1 = Ok res /\ holds again.1.2 (JObj [("total", JNum 4)]) (state res))) /\
  (holds rates (JObj [("rate", JNaN)]) (initialState idle_rate) /\
   (exists res,
      lossy.1.1 = Ok res /\ holds lossy.1.2 (JObj [("rate", JNull)]) (state res))).
Proof.
  intros run again lossy.
  assert (exists res, run.1.1 = Ok res /\ state res = VRef 0) as (res & Hres & Hstate).
  { destruct run.1.1 as [res|] eqn:Hres; [|vm_compute in Hres; discriminate].
    exists res. split; [done|]. vm_compute in Hres. by injection Hres as <-. }
  assert (exists res', again.1.1 = Ok res' /\ state res' = VRef 0)
    as (res' & Hres' & Hstate').
  { destruct again.1.1 as [res'|] eqn:Hres'; [|vm_compute in Hres'; discriminate].
    exists res'. split; [done|]. vm_compute in Hres'. by injection Hres' as <-. }
  assert (exists res0, lossy.1.1 = Ok res0 /\ state res0 = VRef 1)
    as (res0 & Hres0 & Hstate0).
  { destruct lossy.1.1 as [res0|] eqn:Hres0; [|vm_compute in Hres0; discriminate].
    exists res0. split; [done|]. vm_compute in Hres0. by injection Hres0 as <-. }
  split; [split; [|split; [|split]]|split].
  - apply content_holds. vm_compute. reflexivity.
  - apply content_holds. vm_compute. reflexivity.
  - exists res. split; [done|]. split; [done|]. rewrite Hstate.
    apply content_holds. vm_compute. reflexivity.
  - exists res'. split; [done|]. rewrite Hstate'.
    apply content_holds. vm_compute. reflexivity.
  - apply content_holds. vm_compute. reflexivity.
  - exists res0. split; [done|]. rewrite Hstate0.
    apply content_holds. vm_compute. reflexivity.
Qed.

End ReplayEngineProps.

(** ** Tenant registry: lookups *)

Module TenantRegistryLookupsProps.
Import JsString TenantRegistry TenantRegistryLookups.

Section Built.

Variable sha256 : string -> string.
Variable toLowerCase : string -> string.

(** The registries that calls of [provision] and [updateStatus] build from
    the empty one, whatever their arguments and outcomes. *)
Inductive built : TenantRegistryImpl -> Prop :=
| built_empty : built empty
| built_updateStatus r tenantId newStatus now :
    built r -> built (updateStatus r tenantId newStatus now).2
| built_provision r request uuid now1 now2 :
    built r -> built (provision sha256 toLowerCase r request uuid now1 now2).2.

(** Every record is filed under its own id and carries the keys derived
    from it; the partition index points at records; no two records share a
    name, letter case aside. *)
Definition consistent (r : TenantRegistryImpl) : Prop :=
  (forall k t, tenants r !! k = Some t ->
     id t = k /\ partitionKey t = generatePartitionKey sha256 k /\
     encryptionKeyId t = generateEncryptionKeyId sha256 k) /\
  (forall pk k, tenantsByPartition r !! pk = Some k ->
     pk = generatePartitionKey sha256 k /\ is_Some (tenants r !! k)) /\
  (forall k1 k2 t1 t2, tenants r !! k1 = Some t1 -> tenants r !! k2 = Some t2 ->
     toLowerCase (name t1) = toLowerCase (name t2) -> k1 = k2).

Lemma updateStatus_tenants r tenantId newStatus now k t' :
  tenants (updateStatus r tenantId newStatus now).2 !! k = Some t' ->
  exists t, tenants r !! k = Some t /\ id t' = id t /\ name t' = name t /\
            partitionKey t' = partitionKey t /\ encryptionKeyId t' = encryptionKeyId t.
Proof.
  assert (forall t, tenants r !! k = Some t ->
            exists t0, tenants r !! k = Some t0 /\ id t = id t0 /\ name t = name t0 /\
              partitionKey t = partitionKey t0 /\ encryptionKeyId t = encryptionKeyId t0)
    as Hsame by (intros t Ht; by exists t).
  unfold updateStatus. destruct (tenants r !! tenantId) as [t0|] eqn:Ht0; [|by apply Hsame].
  destruct (validateStatusTransition _ _); [|by apply Hsame]. cbn.
  destruct (decide (tenantId = k)) as [<-|Hne].
  - rewrite lookup_insert_eq. intros [= <-]. by exists t0.
  - rewrite lookup_insert_ne by done. apply Hsame.
Qed.

Lemma updateStatus_tenants_is_Some r tenantId newStatus now k :
  is_Some (tenants r !! k) ->
  is_Some (tenants (updateStatus r tenantId newStatus now).2 !! k).
Proof.
  unfold updateStatus. destruct (tenants r !! tenantId) as [t0|] eqn:Ht0; [|done].
  destruct (validateStatusTransition _ _); [|done]. cbn. intros Hk.
  apply lookup_insert_is_Some'. by right.
Qed.

Lemma updateStatus_tenantsByPartition r tenantId newStatus now :
  tenantsByPartition (updateStatus r tenantId newStatus now).2 = tenantsByPartition r.
Proof.
  unfold updateStatus. destruct (tenants r !! tenantId) as [t0|]; [|done].
  by destruct (validateStatusTransition _ _).
Qed.

Lemma updateStatus_consistent r tenantId newStatus now :
  consistent r -> consistent (updateStatus r tenantId newStatus now).2.
Proof.
  intros (Hfiled & Hindex & Hnames). split; [|split].
  - intros k t' (t & Ht & -> & _ & -> & ->)%updateStatus_tenants. by apply Hfiled.
  - intros pk k. rewrite updateStatus_tenantsByPartition. intros Hk.
    destruct (Hindex _ _ Hk) as [-> Hsome]. split; [done|].
    by apply updateStatus_tenants_is_Some.
  - intros k1 k2 t1' t2' (t1 & Ht1 & _ & -> & _)%updateStatus_tenants
      (t2 & Ht2 & _ & -> & _)%updateStatus_tenants. by apply Hnames.
Qed.

(** [provision] throws exactly when a record holds the requested name. *)
Lemma provision_duplicate r request uuid now1 now2 k t :
  tenants r !! k = Some t ->
  toLowerCase (name t) = toLowerCase (req_name request) ->
  provision sha256 toLowerCase r request uuid now1 now2 =
    (Throw (Error ("Tenant with name " +:+ dquote +:+ req_name request
                     +:+ dquote +:+ " already exists")), r).
Proof.
  intros Ht Hname. unfold provision. rewrite bool_decide_eq_true_2; [done|].
  apply map_Exists_lookup. eauto.
Qed.

Lemma provision_fresh_name r request (uuid : string) (now1 now2 : Z) :
  (forall k t, tenants r !! k = Some t ->
     toLowerCase (name t) <> toLowerCase (req_name request)) ->
  provision sha256 toLowerCase r request uuid now1 now2 =
    (Ok {| id := uuid; name := req_name request; profile := req_profile request;
           status := provisioning;
           encryptionKeyId := generateEncryptionKeyId sha256 uuid;
           partitionKey := generatePartitionKey sha256 uuid;
           createdAt := now1; updatedAt := now2;
           metadata := req_metadata request |},
     {| tenants :=
          <[uuid := {| id := uuid; name := req_name request;
                       profile := req_profile request; status := provisioning;
                       encryptionKeyId := generateEncryptionKeyId sha256 uuid;
                       partitionKey := generatePartitionKey sha256 uuid;
                       createdAt := now1; updatedAt := now2;
                       metadata := req_metadata request |}]> (tenants r);
        tenantsByPartition :=
          <[generatePartitionKey sha256 uuid := uuid]> (tenantsByPartition r) |}).
Proof.
  intros Hfresh. unfold provision. rewrite bool_decide_eq_false_2; [done|].
  intros (k & t & Ht & Hname)%map_Exists_lookup. by eapply Hfresh.
Qed.

Lemma provision_cases (r : TenantRegistryImpl) (request : TenantProvisionRequest) :
  (exists k t, tenants r !! k = Some t /\
     toLowerCase (name t) = toLowerCase (req_name request)) \/
  (forall k t, tenants r !! k = Some t ->
     toLowerCase (name t) <> toLowerCase (req_name request)).
Proof.
  destruct (decide (map_Exists (fun _ t =>
              toLowerCase (name t) = toLowerCase (req_name request)) (tenants r)))
    as [(k & t & Ht & Hname)%map_Exists_lookup|Hno].
  - left. eauto.
  - right. intros k t Ht Hname. apply Hno, map_Exists_lookup. eauto.
Qed.

Lemma provision_consistent r request uuid now1 now2 :
  consistent r -> consistent (provision sha256 toLowerCase r request uuid now1 now2).2.
Proof.
  intros (Hfiled & Hindex & Hnames).
  destruct (provision_cases r request) as [(k & t & Ht & Hname)|Hfresh].
  { by rewrite (provision_duplicate _ _ _ _ _ _ _ Ht Hname). }
  rewrite (provision_fresh_name _ _ _ _ _ Hfresh). unfold consistent.
  cbn [snd tenants tenantsByPartition]. split; [|split].
  - intros k t. destruct (decide (uuid = k)) as [<-|Hne].
    + rewrite lookup_insert_eq. by intros [= <-].
    + rewrite lookup_insert_ne by done. apply Hfiled.
  - intros pk k. destruct (decide (generatePartitionKey sha256 uuid = pk)) as [<-|Hne].
    + rewrite lookup_insert_eq. intros [= Hk]. subst k. split; [done|].
      rewrite lookup_insert_eq. by eexists.
    + rewrite lookup_insert_ne by done. intros Hk.
      destruct (Hindex _ _ Hk) as [-> Hsome]. split; [done|].
      apply lookup_insert_is_Some'. by right.
  - intros k1 k2 t1 t2.
    destruct (decide (uuid = k1)) as [<-|Hne1], (decide (uuid = k2)) as [<-|Hne2];
      rewrite ?lookup_insert_eq, ?lookup_insert_ne by done.
    + done.
    + intros [= <-] Ht2 Hname. cbn in Hname. by destruct (Hfresh _ _ Ht2).
    + intros Ht1 [= <-] Hname. cbn in Hname. by destruct (Hfresh _ _ Ht1).
    + apply Hnames.
Qed.

Lemma built_consistent r : built r -> consistent r.
Proof.
  induction 1 as [|r tenantId newStatus now _ IH|r request uuid now1 now2 _ IH].
  - split; [|split]; intros *; cbn; by rewrite lookup_empty.
  - by apply updateStatus_consistent.
  - by apply provision_consistent.
Qed.

End Built.

(** A registry after three calls: "Acme FO" provisioned under the id [u1]
    and moved to [onboarding], then to [active]. *)
Definition registry_acme : TenantRegistryImpl :=
  (updateStatus
     (updateStatus
        (provision (fun s => s) lower_ascii empty
           {| req_name := "Acme FO"; req_profile := fo; req_metadata := None |}
           "u1" 0 0).2
        "u1" onboarding 1).2
     "u1" active 2).2.

Definition tenant_acme : TenantConfig :=
  {| id := "u1"; name := "Acme FO"; profile := fo; status := active;
     encryptionKeyId := "ek_encryption:u1"; partitionKey := "pk_partition:u1";
     createdAt := 0; updatedAt := 2; metadata := None |}.

Lemma registry_acme_built : built (fun s => s) lower_ascii registry_acme.
Proof. apply built_updateStatus, built_updateStatus, built_provision, built_empty. Qed.

Lemma registry_acme_tenant : tenants registry_acme !! "u1" = Some tenant_acme.
Proof. vm_compute. reflexivity. Qed.



(** On a registry built by calls, [getByPartitionKey] answers with a record
    that carries the key asked for and that [getById] finds under its id.
    After a [provision] that returns, with an id that is not empty, the new
    record is found by id and by partition key, [exists] holds of it and
    [isActive] does not. A key the index does not hold finds nothing. *)
Theorem getByPartitionKey_sound :
  (forall sha256 toLowerCase r pk t,
     built sha256 toLowerCase r ->
     getByPartitionKey r pk = Some t ->
     partitionKey t = pk /\ getById r (id t) = Some t) /\
  (forall sha256 toLowerCase r request uuid now1 now2 t,
     (provision sha256 toLowerCase r request uuid now1 now2).1 = Ok t ->
     uuid <> "" ->
     let r' := (provision sha256 toLowerCase r request uuid now1 now2).2 in
     getById r' (id t) = Some t /\
     getByPartitionKey r' (partitionKey t) = Some t /\
     exists_ r' (id t) = true /\
     isActive r' (id t) = false) /\
  (forall r pk, tenantsByPartition r !! pk = None -> getByPartitionKey r pk = None).
Proof.
  split; [|split].
  - intros sha256 toLowerCase r pk t (Hfiled & Hindex & _)%built_consistent.
    unfold getByPartitionKey, getById.
    destruct (tenantsByPartition r !! pk) as [k|] eqn:Hk; [|done].
    destruct k as [|c k]; [done|]. cbn [EventStore.truthy_string].
    intros Ht. destruct (Hfiled _ _ Ht) as (Hid & Hpk & _).
    destruct (Hindex _ _ Hk) as [-> _]. by rewrite Hid.
  - intros sha256 toLowerCase r request uuid now1 now2 t Hprov Huuid r'. subst r'.
    destruct (provision_cases toLowerCase r request) as [(k & t0 & Ht0 & Hname)|Hfresh].
    { by rewrite (provision_duplicate _ _ _ _ _ _ _ _ _ Ht0 Hname) in Hprov. }
    rewrite (provision_fresh_name _ _ _ _ _ _ _ Hfresh) in *. cbn in Hprov.
    injection Hprov as <-. cbn [snd id partitionKey].
    unfold getById, getByPartitionKey, exists_, isActive. cbn [tenants tenantsByPartition].
    rewrite !lookup_insert_eq. split; [done|]. split; [|split].
    + destruct uuid; [done|]. cbn [EventStore.truthy_string]. unfold getById.
      cbn [tenants]. by rewrite lookup_insert_eq.
    + apply bool_decide_eq_true_2. by eexists.
    + done.
  - intros r pk Hpk. unfold getByPartitionKey. by rewrite Hpk.
Qed.

Lemma getByPartitionKey_sound_witness :
  getByPartitionKey registry_acme "pk_partition:u1" = Some tenant_acme /\
  partitionKey tenant_acme = "pk_partition:u1" /\
  getById registry_acme (id tenant_acme) = Some tenant_acme.
Proof.
  assert (getByPartitionKey registry_acme "pk_partition:u1" = Some tenant_acme) as H
    by (vm_compute; reflexivity).
  split; [exact H|].
  exact (proj1 getByPartitionKey_sound (fun s => s) lower_ascii registry_acme
           "pk_partition:u1" tenant_acme registry_acme_built H).
Defined.

End TenantRegistryLookupsProps.

(** ** Tenant context: what the installed context answers *)

Module TenantAssertionsProps.
Import JsString TenantRegistry TenantContext TenantAssertions.
Import TenantRegistryLookupsProps.

Definition no_context : exn :=
  TenantContextError NO_TENANT_CONTEXT
    "No tenant context is active. All operations require a tenant context.".

(** On a registry built by calls, and for an active tenant,
    [withTenantContext] runs its function under the tenant that was asked
    for: the accessors answer with the requested id and the keys derived from
    it, [validateResourceOwnership] accepts that id and no other,
    [assertUserRole] the roles passed in the options and no other (none when
    they are left out), [assertTenantProfile] the tenant's profile and no
    other. *)
Theorem withTenantContext_scopes :
  forall sha256 toLowerCase r options now t,
    built sha256 toLowerCase r ->
    tenants r !! tenantId options = Some t ->
    status t = active ->
    withTenantContext r options now getCurrentTenantId = Ok (tenantId options) /\
    withTenantContext r options now getCurrentPartitionKey
      = Ok (generatePartitionKey sha256 (tenantId options)) /\
    withTenantContext r options now getCurrentEncryptionKeyId
      = Ok (generateEncryptionKeyId sha256 (tenantId options)) /\
    withTenantContext r options now getCurrentTenantProfile = Ok (profile t) /\
    (forall resourceTenantId,
       withTenantContext r options now
         (fun als => validateResourceOwnership als resourceTenantId) = Ok tt
       <-> resourceTenantId = tenantId options) /\
    (forall role,
       withTenantContext r options now (fun als => assertUserRole als role) = Ok tt
       <-> role ∈ default [] (opt_roles options)) /\
    (forall p,
       withTenantContext r options now (fun als => assertTenantProfile als p) = Ok tt
       <-> p = profile t).
Proof.
  intros sha256 toLowerCase r options now t (Hfiled & _)%built_consistent Ht Hactive.
  destruct (Hfiled _ _ Ht) as (Hid & Hpk & Hek).
  rewrite !(TenantContextProps.withTenantContext_active _ _ _ _ _ Ht Hactive).
  cbn. rewrite Hid, Hpk, Hek. repeat split; try done.
  - rewrite (TenantContextProps.withTenantContext_active _ _ _ _ _ Ht Hactive).
    unfold validateResourceOwnership. cbn. rewrite Hid. by case_bool_decide.
  - intros ->.
    rewrite (TenantContextProps.withTenantContext_active _ _ _ _ _ Ht Hactive).
    unfold validateResourceOwnership. cbn. rewrite Hid. by rewrite bool_decide_eq_false_2 by tauto.
  - rewrite (TenantContextProps.withTenantContext_active _ _ _ _ _ Ht Hactive).
    unfold assertUserRole. cbn. by case_bool_decide.
  - intros Hrole.
    rewrite (TenantContextProps.withTenantContext_active _ _ _ _ _ Ht Hactive).
    unfold assertUserRole. cbn. by rewrite bool_decide_eq_true_2.
  - rewrite (TenantContextProps.withTenantContext_active _ _ _ _ _ Ht Hactive).
    unfold assertTenantProfile. cbn. case_bool_decide; [done|]. intros _.
    destruct (decide (p = profile t)); [done|]. by destruct H.
  - intros ->.
    rewrite (TenantContextProps.withTenantContext_active _ _ _ _ _ Ht Hactive).
    unfold assertTenantProfile. cbn. by rewrite bool_decide_eq_false_2 by tauto.
Qed.

Lemma withTenantContext_scopes_witness :
  withTenantContext registry_acme
    {| tenantId := "u1"; opt_correlationId := "req-7"; opt_userId := Some "alice";
       opt_roles := Some ["owner"] |} 5 getCurrentPartitionKey
  = Ok "pk_partition:u1".
Proof.
  exact (proj1 (proj2 (withTenantContext_scopes (fun s => s) lower_ascii registry_acme
           {| tenantId := "u1"; opt_correlationId := "req-7"; opt_userId := Some "alice";
              opt_roles := Some ["owner"] |} 5 tenant_acme
           registry_acme_built registry_acme_tenant eq_refl))).
Defined.

(** The assertions of the context module: without a context every one of
    them throws [NO_TENANT_CONTEXT]; under a context each returns exactly when
    its condition holds and otherwise throws its own code,
    [PROFILE_MISMATCH], [ROLE_REQUIRED] or [CROSS_TENANT_ACCESS]. *)
Theorem assertions_outcome :
  (forall p role resourceTenantId key,
     assertTenantContext None = Throw no_context /\
     assertTenantProfile None p = Throw no_context /\
     assertUserRole None role = Throw no_context /\
     validateResourceOwnership None resourceTenantId = Throw no_context /\
     validatePartitionKey None key = Throw no_context /\
     getCurrentEncryptionKeyId None = Throw no_context) /\
  (forall context p role resourceTenantId key,
     assertTenantContext (Some context) = Ok tt /\
     (p = profile (tenant context) -> assertTenantProfile (Some context) p = Ok tt) /\
     (p <> profile (tenant context) ->
        exists message, assertTenantProfile (Some context) p
                        = Throw (TenantContextError PROFILE_MISMATCH message)) /\
     (role ∈ roles context -> assertUserRole (Some context) role = Ok tt) /\
     (role ∉ roles context ->
        exists message, assertUserRole (Some context) role
                        = Throw (TenantContextError ROLE_REQUIRED message)) /\
     (resourceTenantId = id (tenant context) ->
        validateResourceOwnership (Some context) resourceTenantId = Ok tt) /\
     (resourceTenantId <> id (tenant context) ->
        exists message, validateResourceOwnership (Some context) resourceTenantId
                        = Throw (TenantContextError CROSS_TENANT_ACCESS message)) /\
     (key = partitionKey (tenant context) ->
        validatePartitionKey (Some context) key = Ok tt) /\
     (key <> partitionKey (tenant context) ->
        exists message, validatePartitionKey (Some context) key
                        = Throw (TenantContextError CROSS_TENANT_ACCESS message))).
Proof.
  split; [done|]. intros context p role resourceTenantId key.
  unfold assertTenantProfile, assertUserRole, validateResourceOwnership,
    validatePartitionKey. cbn.
  split; [done|]. repeat split.
  - intros ->. by rewrite bool_decide_eq_false_2 by tauto.
  - intros Hp. rewrite bool_decide_eq_true_2 by congruence. eauto.
  - intros Hrole. by rewrite bool_decide_eq_true_2.
  - intros Hrole. rewrite bool_decide_eq_false_2 by done. cbn. eauto.
  - intros ->. by rewrite bool_decide_eq_false_2 by tauto.
  - intros Hid. rewrite bool_decide_eq_true_2 by done. eauto.
  - intros ->. by rewrite bool_decide_eq_false_2 by tauto.
  - intros Hkey. rewrite bool_decide_eq_true_2 by done. eauto.
Qed.

Lemma assertions_outcome_witness :
  exists message,
    assertUserRole (Some Samples.context_A) "owner"
    = Throw (TenantContextError ROLE_REQUIRED message).
Proof.
  destruct (proj2 assertions_outcome Samples.context_A fo "owner" "A" "pk_A")
    as (_ & _ & _ & _ & H & _).
  apply H. cbn. apply not_elem_of_nil.
Defined.

End TenantAssertionsProps.

(** ** Isolation guards: outcomes *)

Module GuardsProps.
Import JsString JsStringProps IsolationGuards Guards.

Lemma truthy_string_Some o s :
  EventStore.truthy_string o = Some s <-> o = Some s /\ s <> "".
Proof.
  destruct o as [[|c r]|]; cbn; split; try done.
  - by intros [[= <-] H].
  - by intros [= <-].
  - by intros [[= <-] _].
  - by intros [[=] _].
Qed.

Lemma truthy_string_None o :
  EventStore.truthy_string o = None <-> o = None \/ o = Some "".
Proof.
  destruct o as [[|c r]|]; cbn.
  - split; [by right | done].
  - split; [done | by intros [|]].
  - split; [by left | done].
Qed.

Section Outcomes.

Context {W : Type} (violationHandler : IsolationViolation -> W -> W)
  (String_ : jsval -> string).

(** A rejection: the handler in force was handed one violation, stamped
    with the tenant, the request and the time of the call, and
    [CROSS_TENANT_ACCESS] was thrown with the violation's message. *)
Definition rejected (context : TenantContext.TenantContext) (now : Z) (w : W)
    (out : result unit * W) : Prop :=
  exists v,
    out = (Throw (TenantContextError CROSS_TENANT_ACCESS
                    ("Isolation violation: " +:+ message v)),
           violationHandler v w) /\
    tenantId v = TenantRegistry.id (TenantContext.tenant context) /\
    correlationId v = TenantContext.correlationId context /\
    timestamp v = now.

(** What a guard may do under a context: return and leave the handler
    alone, or reject. *)
Definition guarded (context : TenantContext.TenantContext) (now : Z) (w : W)
    (out : result unit * W) : Prop :=
  out = (Ok tt, w) \/ rejected context now w out.

Lemma reportViolation_rejected context now type message resource w :
  rejected context now w
    (let '(e, w') := reportViolation W violationHandler (Some context) now type
                       message resource w in (Throw e, w')).
Proof.
  by exists {| type := type; message := message;
               tenantId := TenantRegistry.id (TenantContext.tenant context);
               attemptedResource := resource; timestamp := now;
               correlationId := TenantContext.correlationId context |}.
Qed.

Lemma validatePartitionKey_guarded context now key w :
  guarded context now w
    (QueryGuard_validatePartitionKey W violationHandler (Some context) now key w).
Proof.
  unfold QueryGuard_validatePartitionKey.
  destruct key as [[|c key]|]; try (right; apply reportViolation_rejected).
  cbn [TenantContext.getCurrentPartitionKey TenantContext.getTenantContext mbind
       result_bind].
  case_bool_decide; [right; apply reportViolation_rejected | by left].
Qed.

Lemma validateExportData_loop_guarded context now cur field i records w :
  guarded context now w
    (validateExportData_loop W violationHandler String_ (Some context) now cur field
       i records w).
Proof.
  revert i. induction records as [|record rest IH]; intros i; [by left|].
  cbn [validateExportData_loop].
  destruct (negb _); [right; apply reportViolation_rejected | apply IH].
Qed.

Lemma validateNoMultiTenantJoin_loop_guarded context now expected keys i tables w :
  guarded context now w
    (validateNoMultiTenantJoin_loop W violationHandler (Some context) now expected
       keys i tables w).
Proof.
  revert i. induction tables as [|table rest IH]; intros i; [by left|].
  cbn [validateNoMultiTenantJoin_loop].
  destruct (EventStore.truthy_string _); [|right; apply reportViolation_rejected].
  case_bool_decide; [right; apply reportViolation_rejected | apply IH].
Qed.

Lemma validateNoMultiTenantJoin_loop_Ok context now expected keys i tables w :
  validateNoMultiTenantJoin_loop W violationHandler (Some context) now expected
    keys i tables w = (Ok tt, w)
  <-> forall j table, tables !! j = Some table ->
        keys !! (i + j)%nat = Some (Some expected) /\ expected <> "".
Proof.
  revert i. induction tables as [|table rest IH]; intros i; [by split|].
  cbn [validateNoMultiTenantJoin_loop].
  destruct (EventStore.truthy_string (mjoin (keys !! i))) as [pk|] eqn:Hpk.
  - apply truthy_string_Some in Hpk as [Hpk Hne].
    assert (keys !! i = Some (Some pk)) as Hi.
    { destruct (keys !! i) as [[k|]|]; cbn in Hpk; congruence. }
    case_bool_decide as Hexp.
    + split; [cbn; discriminate|].
      intros Hall. destruct (Hall 0%nat table eq_refl) as [H0 _].
      rewrite Nat.add_0_r in H0. congruence.
    + subst pk. rewrite IH. split.
      * intros Hall [|j] t Ht.
        -- by rewrite Nat.add_0_r.
        -- rewrite Nat.add_succ_r. exact (Hall j t Ht).
      * intros Hall j t Ht. specialize (Hall (S j) t Ht).
        by rewrite Nat.add_succ_r in Hall.
  - split; [cbn; discriminate|].
    intros Hall. destruct (Hall 0%nat table eq_refl) as [H0 Hne].
    rewrite Nat.add_0_r in H0. rewrite H0 in Hpk.
    apply truthy_string_None in Hpk as [Hpk|Hpk]; cbn in Hpk; congruence.
Qed.

End Outcomes.

(** Without a tenant context every guard throws [NO_TENANT_CONTEXT] and the
    violation handler is not called, the composite guards included. The one
    guard that can return is [validateResourceId] when a prefix is passed to
    it: it then accepts a resource id that starts with that prefix. *)
Theorem guards_fail_closed :
  forall W (violationHandler : IsolationViolation -> W -> W) String_ toISOString now w,
    let stopped := (Throw TenantAssertionsProps.no_context, w) in
    (forall key,
       QueryGuard_validatePartitionKey W violationHandler None now key w = stopped) /\
    (forall tableNames partitionKeys,
       QueryGuard_validateNoMultiTenantJoin W violationHandler None now tableNames
         partitionKeys w = stopped) /\
    (forall cacheKey,
       CacheGuard_validateKey W violationHandler None now cacheKey w = stopped) /\
    (forall records tenantIdField,
       ExportGuard_validateExportData W violationHandler String_ None now records
         tenantIdField w = stopped) /\
    (forall eventTenantId,
       EventGuard_validateEventTenant W violationHandler None now eventTenantId w
       = stopped) /\
    (forall resourceId,
       ResourceGuard_validateResourceId W violationHandler None now resourceId None w
       = stopped) /\
    (forall resourceId prefix,
       ResourceGuard_validateResourceId W violationHandler None now resourceId
         (Some prefix) w
       = if startsWith resourceId (prefix +:+ "_") then (Ok tt, w) else stopped) /\
    (forall partitionKey records tenantIdField eventTenantId,
       IsolationGuard_forRead W violationHandler None now partitionKey w = stopped /\
       IsolationGuard_forWrite W violationHandler None now partitionKey w = stopped /\
       IsolationGuard_forExport W violationHandler String_ None now records
         tenantIdField w = stopped /\
       IsolationGuard_forEvent W violationHandler None now eventTenantId w = stopped) /\
    (forall key,
       CacheGuard_scopeKey None key = Throw TenantAssertionsProps.no_context /\
       CacheGuard_isProperlyScoped None key = Throw TenantAssertionsProps.no_context /\
       ResourceGuard_scopeResourceId None key = Throw TenantAssertionsProps.no_context /\
       QueryGuard_createTenantFilter None = Throw TenantAssertionsProps.no_context /\
       ExportGuard_createExportMetadata toISOString None now
         = Throw TenantAssertionsProps.no_context /\
       EventGuard_createEventMetadata toISOString None now
         = Throw TenantAssertionsProps.no_context).
Proof.
  intros W violationHandler String_ toISOString now w stopped.
  assert (forall key,
            QueryGuard_validatePartitionKey W violationHandler None now key w = stopped)
    as Hkey by (by intros [[|c key]|]).
  repeat split; try done.
  - intros resourceId prefix. unfold ResourceGuard_validateResourceId.
    by destruct (startsWith _ _).
  - apply Hkey.
  - apply Hkey.
Qed.


(** What each guard accepts under a tenant context: the partition-key guard
    the current key, unless it is empty; the join guard table lists whose
    every table comes with the current, non-empty key at its index (partition
    keys past the last table are not looked at); the cache guard the keys that
    start with the current partition key and a colon; the event guard the
    current tenant id; the resource guard the ids that start with the prefix
    passed, or else the current partition key, and an underscore. *)
Theorem guards_accept_exactly :
  forall W (violationHandler : IsolationViolation -> W -> W) context now w,
    let pk := TenantRegistry.partitionKey (TenantContext.tenant context) in
    (forall key,
       QueryGuard_validatePartitionKey W violationHandler (Some context) now key w
         = (Ok tt, w)
       <-> key = Some pk /\ pk <> "") /\
    (forall tableNames partitionKeys,
       QueryGuard_validateNoMultiTenantJoin W violationHandler (Some context) now
         tableNames partitionKeys w = (Ok tt, w)
       <-> forall i table, tableNames !! i = Some table ->
             partitionKeys !! i = Some (Some pk) /\ pk <> "") /\
    (forall cacheKey,
       CacheGuard_validateKey W violationHandler (Some context) now cacheKey w
         = (Ok tt, w)
       <-> exists baseKey, cacheKey = pk +:+ ":" +:+ baseKey) /\
    (forall eventTenantId,
       EventGuard_validateEventTenant W violationHandler (Some context) now
         eventTenantId w = (Ok tt, w)
       <-> eventTenantId = TenantRegistry.id (TenantContext.tenant context)) /\
    (forall resourceId expectedPrefix,
       ResourceGuard_validateResourceId W violationHandler (Some context) now
         resourceId expectedPrefix w = (Ok tt, w)
       <-> exists baseId, resourceId = default pk expectedPrefix +:+ "_" +:+ baseId).
Proof.
  intros W violationHandler context now w pk.
  split; [|split; [|split; [|split]]]; intros *; (split; [|]).
  - unfold QueryGuard_validatePartitionKey.
    destruct key as [[|c key]|]; try done. cbn. fold pk.
    case_bool_decide as Hk; [done|]. intros _. rewrite Hk. split; [done|].
    by rewrite <- Hk.
  - intros [-> Hpk]. unfold QueryGuard_validatePartitionKey.
    destruct pk as [|c pk'] eqn:Hpk'; [done|]. cbn. fold pk. rewrite Hpk'.
    by rewrite bool_decide_eq_false_2 by tauto.
  - unfold QueryGuard_validateNoMultiTenantJoin. cbn. fold pk.
    intros H. exact (proj1 (validateNoMultiTenantJoin_loop_Ok _ _ _ _ _ _ _ _) H).
  - unfold QueryGuard_validateNoMultiTenantJoin. cbn. fold pk.
    intros H. exact (proj2 (validateNoMultiTenantJoin_loop_Ok violationHandler context
                              now pk partitionKeys 0 tableNames w) H).
  - unfold CacheGuard_validateKey. cbn. fold pk.
    destruct (startsWith cacheKey (pk +:+ ":")) eqn:Hs; [|done]. intros _.
    apply startsWith_spec in Hs as [r ->]. exists r. by rewrite append_assoc.
  - intros [baseKey ->]. unfold CacheGuard_validateKey. cbn. fold pk.
    rewrite <- append_assoc.
    assert (startsWith ((pk +:+ ":") +:+ baseKey) (pk +:+ ":") = true) as ->
      by (apply startsWith_spec; eauto). done.
  - unfold EventGuard_validateEventTenant. cbn.
    by case_bool_decide as Hk.
  - intros ->. unfold EventGuard_validateEventTenant. cbn.
    by rewrite bool_decide_eq_false_2 by tauto.
  - unfold ResourceGuard_validateResourceId.
    destruct expectedPrefix as [prefix|]; cbn; fold pk;
      (destruct (startsWith resourceId _) eqn:Hs; [|done]; intros _;
       apply startsWith_spec in Hs as [r ->]; exists r; by rewrite append_assoc).
  - intros [baseId ->]. unfold ResourceGuard_validateResourceId.
    destruct expectedPrefix as [prefix|]; cbn; fold pk; rewrite <- append_assoc.
    + assert (startsWith ((prefix +:+ "_") +:+ baseId) (prefix +:+ "_") = true) as ->
        by (apply startsWith_spec; eauto). done.
    + assert (startsWith ((pk +:+ "_") +:+ baseId) (pk +:+ "_") = true) as ->
        by (apply startsWith_spec; eauto). done.
Qed.

(** ** Isolation guards: keys scoped to a tenant *)

Lemma startsWith_same_length (a b sep x : string) :
  String.length a = String.length b ->
  startsWith (b +:+ sep +:+ x) (a +:+ sep) = true -> a = b.
Proof.
  intros Hlen [r Hr]%startsWith_spec. rewrite append_assoc in Hr.
  by apply append_inv_length in Hr as [-> _].
Qed.

Lemma startsWith_append (a x : string) : startsWith (a +:+ x) a = true.
Proof. apply startsWith_spec. eauto. Qed.

(** A second tenant, with a partition key as long as tenant A's. *)
Definition tenant_B : TenantRegistry.TenantConfig :=
  {| TenantRegistry.id := "B"; TenantRegistry.name := "Birch Retail";
     TenantRegistry.profile := TenantRegistry.retail;
     TenantRegistry.status := TenantRegistry.active;
     TenantRegistry.encryptionKeyId := "ek_B"; TenantRegistry.partitionKey := "pk_B";
     TenantRegistry.createdAt := 0; TenantRegistry.updatedAt := 0;
     TenantRegistry.metadata := None |}.

Definition context_B : TenantContext.TenantContext :=
  {| TenantContext.tenant := tenant_B; TenantContext.correlationId := "req-2";
     TenantContext.createdAt := 2; TenantContext.userId := Some "bob";
     TenantContext.roles := ["viewer"] |}.

(** A key made by [CacheGuard.scopeKey] is accepted under the tenant that
    made it. Under another tenant whose partition key has the same length
    (as the generated keys have) it is rejected: [isProperlyScoped] answers
    [false] and [validateKey] reports the key. Lengths matter: a key scoped
    under a partition key is also accepted under any tenant whose own key,
    followed by a colon, starts that partition key. *)
Theorem cache_keys_are_tenant_scoped :
  (forall W (violationHandler : IsolationViolation -> W -> W) context now baseKey w,
     let key := TenantRegistry.partitionKey (TenantContext.tenant context)
                  +:+ ":" +:+ baseKey in
     CacheGuard_scopeKey (Some context) baseKey = Ok key /\
     CacheGuard_isProperlyScoped (Some context) key = Ok true /\
     CacheGuard_validateKey W violationHandler (Some context) now key w = (Ok tt, w)) /\
  (forall W (violationHandler : IsolationViolation -> W -> W) contextA contextB now
      baseKey key w,
     String.length (TenantRegistry.partitionKey (TenantContext.tenant contextA))
       = String.length (TenantRegistry.partitionKey (TenantContext.tenant contextB)) ->
     TenantRegistry.partitionKey (TenantContext.tenant contextA)
       <> TenantRegistry.partitionKey (TenantContext.tenant contextB) ->
     CacheGuard_scopeKey (Some contextB) baseKey = Ok key ->
     CacheGuard_isProperlyScoped (Some contextA) key = Ok false /\
     exists v,
       CacheGuard_validateKey W violationHandler (Some contextA) now key w
         = (Throw (TenantContextError CROSS_TENANT_ACCESS
                     ("Isolation violation: " +:+ message v)),
            violationHandler v w) /\
       type v = CROSS_TENANT_CACHE /\ attemptedResource v = Some key /\
       tenantId v = TenantRegistry.id (TenantContext.tenant contextA)) /\
  (forall contextA contextB rest baseKey key,
     TenantRegistry.partitionKey (TenantContext.tenant contextB)
       = TenantRegistry.partitionKey (TenantContext.tenant contextA) +:+ ":" +:+ rest ->
     CacheGuard_scopeKey (Some contextB) baseKey = Ok key ->
     CacheGuard_isProperlyScoped (Some contextA) key = Ok true).
Proof.
  split; [|split].
  - intros W violationHandler context now baseKey w key. subst key.
    unfold CacheGuard_isProperlyScoped, CacheGuard_validateKey. cbn.
    rewrite <- append_assoc. by rewrite startsWith_append.
  - intros W violationHandler contextA contextB now baseKey key w Hlen Hne.
    intros [= <-].
    assert (startsWith
              (TenantRegistry.partitionKey (TenantContext.tenant contextB)
                 +:+ ":" +:+ baseKey)
              (TenantRegistry.partitionKey (TenantContext.tenant contextA) +:+ ":")
            = false) as Hs.
    { apply not_true_is_false. by intros H%startsWith_same_length. }
    unfold CacheGuard_isProperlyScoped, CacheGuard_validateKey. cbn. rewrite Hs.
    split; [done|]. cbn. eexists {| type := CROSS_TENANT_CACHE |}. by cbn.
  - intros contextA contextB rest baseKey key Hpk. intros [= <-].
    unfold CacheGuard_isProperlyScoped. cbn. rewrite Hpk.
    rewrite !append_assoc.
    rewrite <- (append_assoc (TenantRegistry.partitionKey (TenantContext.tenant contextA))
                  ":").
    by rewrite startsWith_append.
Qed.

Lemma cache_keys_are_tenant_scoped_witness :
  CacheGuard_isProperlyScoped (Some Samples.context_A) "pk_B:net-worth" = Ok false.
Proof.
  exact (proj1 (proj1 (proj2 cache_keys_are_tenant_scoped) (list IsolationViolation) cons
           Samples.context_A context_B 0 "net-worth" "pk_B:net-worth" []
           eq_refl ltac:(discriminate) eq_refl)).
Defined.

(** The same for resource ids: an id made by [ResourceGuard.scopeResourceId]
    is accepted under the tenant that made it, and also when the tenant's
    partition key is passed as the prefix; under another tenant whose
    partition key has the same length it is rejected and reported; a tenant
    whose key, followed by an underscore, starts the partition key of another
    accepts that other tenant's resource ids. *)
Theorem resource_ids_are_tenant_scoped :
  (forall W (violationHandler : IsolationViolation -> W -> W) context als now baseId w,
     let resourceId := TenantRegistry.partitionKey (TenantContext.tenant context)
                         +:+ "_" +:+ baseId in
     ResourceGuard_scopeResourceId (Some context) baseId = Ok resourceId /\
     ResourceGuard_validateResourceId W violationHandler (Some context) now resourceId
       None w = (Ok tt, w) /\
     ResourceGuard_validateResourceId W violationHandler als now resourceId
       (Some (TenantRegistry.partitionKey (TenantContext.tenant context))) w
       = (Ok tt, w)) /\
  (forall W (violationHandler : IsolationViolation -> W -> W) contextA contextB now
      baseId resourceId w,
     String.length (TenantRegistry.partitionKey (TenantContext.tenant contextA))
       = String.length (TenantRegistry.partitionKey (TenantContext.tenant contextB)) ->
     TenantRegistry.partitionKey (TenantContext.tenant contextA)
       <> TenantRegistry.partitionKey (TenantContext.tenant contextB) ->
     ResourceGuard_scopeResourceId (Some contextB) baseId = Ok resourceId ->
     exists v,
       ResourceGuard_validateResourceId W violationHandler (Some contextA) now
         resourceId None w
         = (Throw (TenantContextError CROSS_TENANT_ACCESS
                     ("Isolation violation: " +:+ message v)),
            violationHandler v w) /\
       type v = SHARED_RESOURCE_ACCESS /\ attemptedResource v = Some resourceId /\
       tenantId v = TenantRegistry.id (TenantContext.tenant contextA)) /\
  (forall W (violationHandler : IsolationViolation -> W -> W) contextA contextB now
      rest baseId resourceId w,
     TenantRegistry.partitionKey (TenantContext.tenant contextB)
       = TenantRegistry.partitionKey (TenantContext.tenant contextA) +:+ "_" +:+ rest ->
     ResourceGuard_scopeResourceId (Some contextB) baseId = Ok resourceId ->
     ResourceGuard_validateResourceId W violationHandler (Some contextA) now
       resourceId None w = (Ok tt, w)).
Proof.
  split; [|split].
  - intros W violationHandler context als now baseId w resourceId. subst resourceId.
    unfold ResourceGuard_validateResourceId. cbn.
    rewrite <- append_assoc. by rewrite startsWith_append.
  - intros W violationHandler contextA contextB now baseId resourceId w Hlen Hne.
    intros [= <-].
    assert (startsWith
              (TenantRegistry.partitionKey (TenantContext.tenant contextB)
                 +:+ "_" +:+ baseId)
              (TenantRegistry.partitionKey (TenantContext.tenant contextA) +:+ "_")
            = false) as Hs.
    { apply not_true_is_false. by intros H%startsWith_same_length. }
    unfold ResourceGuard_validateResourceId. cbn. rewrite Hs. cbn.
    eexists {| type := SHARED_RESOURCE_ACCESS |}. by cbn.
  - intros W violationHandler contextA contextB now rest baseId resourceId w Hpk.
    intros [= <-]. unfold ResourceGuard_validateResourceId. cbn. rewrite Hpk.
    rewrite !append_assoc.
    rewrite <- (append_assoc (TenantRegistry.partitionKey (TenantContext.tenant contextA))
                  "_").
    by rewrite startsWith_append.
Qed.

Lemma resource_ids_are_tenant_scoped_witness :
  exists v,
    ResourceGuard_validateResourceId (list IsolationViolation) cons
      (Some Samples.context_A) 0 "pk_B_doc-1" None []
    = (Throw (TenantContextError CROSS_TENANT_ACCESS
                ("Isolation violation: " +:+ message v)), [v]) /\
    type v = SHARED_RESOURCE_ACCESS /\ attemptedResource v = Some "pk_B_doc-1" /\
    tenantId v = "A".
Proof.
  exact (proj1 (proj2 resource_ids_are_tenant_scoped) (list IsolationViolation) cons
           Samples.context_A context_B 0 "doc-1" "pk_B_doc-1" []
           eq_refl ltac:(discriminate) eq_refl).
Defined.

End GuardsProps.

(** ** Event store: append-only lists, isolation, lookup and paging *)

Module EventStoreLookupsProps.
Import EventStore EventStoreLookups EventStoreProps.

(** The page [query] cuts out of a tenant's list. *)
Definition page_of (query : EventQuery) (allEvents : list DomainEvent) : EventPage :=
  let filtered := filter (fun e => matches query e = true) allEvents in
  let filtered :=
    match truthy_string (q_cursor query) with
    | Some cursor => default filtered (after_cursor cursor filtered)
    | None => filtered
    end in
  let limit := default 100 (q_limit query) in
  let hasMore := Z.of_nat (length filtered) >? limit in
  let events := slice_to limit filtered in
  {| events_of := events;
     nextCursor := if hasMore then id <$> last events else None;
     hasMore := hasMore |}.

(** A query with the filters of [query], a limit and a cursor. *)
Definition paged (query : EventQuery) (limit : option Z) (cursor : option string)
    : EventQuery :=
  {| q_aggregateId := q_aggregateId query; q_aggregateType := q_aggregateType query;
     q_eventType := q_eventType query; q_fromTime := q_fromTime query;
     q_toTime := q_toTime query; q_fromSequence := q_fromSequence query;
     q_limit := limit; q_cursor := cursor |}.

(** The events of a list that pass the filters of a query. *)
Definition selected (query : EventQuery) (allEvents : list DomainEvent)
    : list DomainEvent :=
  filter (fun e => matches query e = true) allEvents.

Lemma matches_paged query limit cursor e :
  matches (paged query limit cursor) e = matches query e.
Proof. reflexivity. Qed.

Lemma selected_paged query limit cursor l :
  selected (paged query limit cursor) l = selected query l.
Proof. reflexivity. Qed.

Section Queries.

Context {W : Type} (violationHandler : IsolationGuards.IsolationViolation -> W -> W).

Lemma query_current context st now q w :
  TenantRegistry.partitionKey (TenantContext.tenant context) <> "" ->
  query W violationHandler (Some context) st now q w
    = (Ok (page_of q (partition_events st context)), w).
Proof.
  intros Hpk. unfold query.
  rewrite QueryGuardProps.getCurrentPartitionKey_Some.
  by rewrite QueryGuardProps.validatePartitionKey_current.
Qed.

Lemma query_Ok context st now q w page w' :
  query W violationHandler (Some context) st now q w = (Ok page, w') ->
  page = page_of q (partition_events st context) /\ w' = w.
Proof.
  destruct (decide (TenantRegistry.partitionKey (TenantContext.tenant context) = ""))
    as [Hpk|Hpk].
  - unfold query. rewrite QueryGuardProps.getCurrentPartitionKey_Some, Hpk. by cbn.
  - rewrite query_current by done. by intros [= <- <-].
Qed.

End Queries.

Lemma slice_to_subseteq {A} limit (l : list A) : slice_to limit l ⊆ l.
Proof.
  unfold slice_to. destruct (limit <? 0); intros x Hx;
    match type of Hx with _ ∈ take ?n _ => rewrite <- (take_drop n l) end;
    apply elem_of_app; by left.
Qed.

Lemma after_cursor_suffix cursor l rest :
  after_cursor cursor l = Some rest ->
  exists before e, l = (before ++ e :: rest)%list /\ id e = cursor /\
    Forall (fun e0 => id e0 <> cursor) before.
Proof.
  revert rest. induction l as [|e l IH]; intros rest; [done|]. cbn.
  case_bool_decide as He.
  - intros [= <-]. by exists [], e.
  - intros (before & e0 & -> & Hid & Hbefore)%IH.
    exists (e :: before), e0. split; [done|]. split; [done|]. by constructor.
Qed.

Lemma after_cursor_None cursor l :
  after_cursor cursor l = None <-> Forall (fun e => id e <> cursor) l.
Proof.
  induction l as [|e l IH]; cbn; [by split|].
  case_bool_decide as He.
  - split; [done|]. intros [Hne _]%Forall_cons. done.
  - rewrite IH. split; [by constructor | by intros [_ H]%Forall_cons].
Qed.

Lemma page_of_subseteq q l : events_of (page_of q l) ⊆ l.
Proof.
  unfold page_of. cbn [events_of]. etrans; [apply slice_to_subseteq|].
  assert (filter (fun e => matches q e = true) l ⊆ l) as Hf.
  { intros e He. by apply list_elem_of_filter in He as [_ He]. }
  destruct (truthy_string (q_cursor q)) as [cursor|]; [|done].
  destruct (after_cursor cursor _) as [rest|] eqn:Hc; [|done]. cbn.
  apply after_cursor_suffix in Hc as (before & e & Hl & _).
  intros x Hx. apply Hf. rewrite Hl. apply elem_of_app. right. by constructor.
Qed.

(** What an [append] under a context does to the lists. *)
Lemma append_events sha256 toISOString context st uuid occurred recorded type
    aggregateId aggregateType payload evidenceRefs metadata :
  let out := append sha256 toISOString (Some context) st uuid occurred recorded type
               aggregateId aggregateType payload evidenceRefs metadata in
  let key := getTenantKey (TenantRegistry.partitionKey (TenantContext.tenant context)) in
  (forall k, k <> key -> default [] (events out.2 !! k) = default [] (events st !! k)) /\
  match out.1 with
  | Ok e => default [] (events out.2 !! key) = (default [] (events st !! key) ++ [e])%list
  | Throw _ => default [] (events out.2 !! key) = default [] (events st !! key)
  end.
Proof.
  intros out key. subst out. unfold append. cbn [TenantContext.getTenantContext].
  fold key.
  set (evs1 := match events st !! key with
               | Some _ => events st
               | None => <[key := []]> (events st)
               end).
  assert (forall k, default [] (evs1 !! k) = default [] (events st !! k)) as Hevs1.
  { intros k. subst evs1. destruct (events st !! key) eqn:Hk; [done|].
    destruct (decide (key = k)) as [<-|Hne].
    - by rewrite lookup_insert_eq, Hk.
    - by rewrite lookup_insert_ne. }
  destruct (calculateHash _ _ _) as [h|err]; cbn [fst snd events].
  - split.
    + intros k Hk. by rewrite lookup_insert_ne, Hevs1.
    + by rewrite lookup_insert_eq, default_Some, Hevs1.
  - split; [intros k _|]; apply Hevs1.
Qed.

(** Stored events are never changed or removed: whatever an [append] does,
    each tenant list it leaves starts with the list it found. A call that
    returns an event adds that event at the end of the caller's list and
    touches no other list; a call that throws adds nothing. So along any
    sequence of calls every list only grows at its end. *)
Theorem append_only :
  forall sha256 toISOString,
    (forall als st uuid occurred recorded type aggregateId aggregateType payload
        evidenceRefs metadata k,
       let out := append sha256 toISOString als st uuid occurred recorded type
                    aggregateId aggregateType payload evidenceRefs metadata in
       default [] (events st !! k) `prefix_of` default [] (events out.2 !! k) /\
       (forall e context,
          out.1 = Ok e -> als = Some context ->
          partition_events out.2 context = (partition_events st context ++ [e])%list /\
          (k <> getTenantKey (TenantRegistry.partitionKey (TenantContext.tenant context)) ->
           default [] (events out.2 !! k) = default [] (events st !! k))) /\
       (forall err,
          out.1 = Throw err ->
          default [] (events out.2 !! k) = default [] (events st !! k))) /\
    (forall st calls k,
       default [] (events st !! k)
         `prefix_of` default [] (events (run sha256 toISOString st calls) !! k)).
Proof.
  intros sha256 toISOString.
  assert (forall als st uuid occurred recorded type aggregateId aggregateType payload
            evidenceRefs metadata k,
            default [] (events st !! k)
              `prefix_of` default [] (events (append sha256 toISOString als st uuid
                 occurred recorded type aggregateId aggregateType payload evidenceRefs
                 metadata).2 !! k)) as Hprefix.
  { intros [context|] st uuid occurred recorded type aggregateId aggregateType payload
      evidenceRefs metadata k; [|done].
    destruct (append_events sha256 toISOString context st uuid occurred recorded type
                aggregateId aggregateType payload evidenceRefs metadata) as [Hother Hown].
    destruct (decide (k = getTenantKey
                (TenantRegistry.partitionKey (TenantContext.tenant context)))) as [->|Hne].
    - destruct (append _ _ _ _ _ _ _ _ _ _ _ _ _).1; rewrite Hown; [|done].
      by apply prefix_app_r.
    - by rewrite Hother. }
  split.
  - intros als st uuid occurred recorded type aggregateId aggregateType payload
      evidenceRefs metadata k out. split; [apply Hprefix|]. split.
    + intros e context He ->.
      destruct (append_events sha256 toISOString context st uuid occurred recorded type
                  aggregateId aggregateType payload evidenceRefs metadata) as [Hother Hown].
      fold out in Hother, Hown. rewrite He in Hown. split; [exact Hown|]. apply Hother.
    + intros err Herr. destruct als as [context|]; [|done].
      destruct (append_events sha256 toISOString context st uuid occurred recorded type
                  aggregateId aggregateType payload evidenceRefs metadata) as [Hother Hown].
      fold out in Hother, Hown. rewrite Herr in Hown.
      destruct (decide (k = getTenantKey
                  (TenantRegistry.partitionKey (TenantContext.tenant context)))) as [->|Hne];
        [done | by apply Hother].
  - intros st calls k. revert st.
    induction calls as [|c calls IH]; intros st; [done|].
    etrans; [|apply IH]. apply Hprefix.
Qed.

Lemma append_only_witness :
  partition_events
    (append (fun s => s) pretty (Some Samples.context_A)
       (run (fun s => s) pretty empty [entity_updated 1]) "evt-2" 2 2
       "entity.updated" "ent_1" "Entity" (JObj [("units", JBigInt 9007199254740993)])
       [] None).2 Samples.context_A
  = partition_events (run (fun s => s) pretty empty [entity_updated 1]) Samples.context_A.
Proof.
  exact (proj2 (proj2 (proj1 (append_only (fun s => s) pretty)
           (Some Samples.context_A) (run (fun s => s) pretty empty [entity_updated 1])
           "evt-2" 2 2 "entity.updated" "ent_1" "Entity"
           (JObj [("units", JBigInt 9007199254740993)]) [] None
           (getTenantKey "pk_A")))
           (TypeError "Do not know how to serialize a BigInt") eq_refl).
Defined.

(** Tenants do not see each other's events. On a store built by [append]
    calls, every event that [query] or [getById] returns carries the partition
    key of the tenant that asks. And whatever the store, an [append] under
    one partition key changes nothing of what [query], [getById] and
    [verifyChainIntegrity] answer under another. *)
Theorem store_is_partitioned :
  (forall sha256 toISOString W (violationHandler : IsolationGuards.IsolationViolation -> W -> W)
      st context now q w page w',
     reachable sha256 toISOString st ->
     query W violationHandler (Some context) st now q w = (Ok page, w') ->
     Forall (fun e => partitionKey e
                      = TenantRegistry.partitionKey (TenantContext.tenant context))
       (events_of page)) /\
  (forall sha256 toISOString st context eventId e,
     reachable sha256 toISOString st ->
     getById (Some context) st eventId = Ok (Some e) ->
     partitionKey e = TenantRegistry.partitionKey (TenantContext.tenant context) /\
     id e = eventId) /\
  (forall sha256 toISOString W (violationHandler : IsolationGuards.IsolationViolation -> W -> W)
      st contextA contextB now q w eventId
      uuid occurred recorded type aggregateId aggregateType payload evidenceRefs metadata,
     TenantRegistry.partitionKey (TenantContext.tenant contextA)
       <> TenantRegistry.partitionKey (TenantContext.tenant contextB) ->
     let st' := (append sha256 toISOString (Some contextB) st uuid occurred recorded type
                   aggregateId aggregateType payload evidenceRefs metadata).2 in
     query W violationHandler (Some contextA) st' now q w
       = query W violationHandler (Some contextA) st now q w /\
     getById (Some contextA) st' eventId = getById (Some contextA) st eventId /\
     verifyChainIntegrity sha256 toISOString (Some contextA) st'
       = verifyChainIntegrity sha256 toISOString (Some contextA) st).
Proof.
  split; [|split].
  - intros sha256 toISOString W violationHandler st context now q w page w'
      (_ & Hfiled & _)%reachable_numbered [-> _]%query_Ok.
    apply Forall_forall. intros e He%page_of_subseteq.
    destruct (Hfiled _ _ He) as [Hk _]. by apply getTenantKey_inj in Hk.
  - intros sha256 toISOString st context eventId e
      (_ & Hfiled & _)%reachable_numbered.
    unfold getById. cbn. intros [= Hfind]. apply find_some in Hfind as [Hin Hid].
    apply bool_decide_eq_true in Hid. split; [|done].
    apply list_elem_of_In in Hin. destruct (Hfiled _ _ Hin) as [Hk _].
    by apply getTenantKey_inj in Hk.
  - intros sha256 toISOString W violationHandler st contextA contextB now q w eventId
      uuid occurred recorded type aggregateId aggregateType payload evidenceRefs metadata
      Hne st'.
    destruct (append_events sha256 toISOString contextB st uuid occurred recorded type
                aggregateId aggregateType payload evidenceRefs metadata) as [Hother _].
    fold st' in Hother.
    assert (default [] (events st' !! getTenantKey
              (TenantRegistry.partitionKey (TenantContext.tenant contextA)))
            = default [] (events st !! getTenantKey
                (TenantRegistry.partitionKey (TenantContext.tenant contextA)))) as HA.
    { apply Hother. by intros H%getTenantKey_inj. }
    split; [|split].
    + unfold query. rewrite QueryGuardProps.getCurrentPartitionKey_Some.
      destruct (IsolationGuards.QueryGuard_validatePartitionKey _ _ _ _ _ _)
        as [[[]|] w1]; [|done].
      by rewrite HA.
    + unfold getById. cbn. by rewrite HA.
    + unfold verifyChainIntegrity. cbn. by rewrite HA.
Qed.

Lemma store_is_partitioned_witness :
  verifyChainIntegrity (fun s => s) pretty (Some Samples.context_A)
    (append (fun s => s) pretty (Some GuardsProps.context_B)
       (run (fun s => s) pretty empty [entity_updated 1]) "evt-9" 9 9
       "entity.created" "ent_9" "Entity" JNull [] None).2
  = verifyChainIntegrity (fun s => s) pretty (Some Samples.context_A)
      (run (fun s => s) pretty empty [entity_updated 1]).
Proof.
  exact (proj2 (proj2 (proj2 (proj2 store_is_partitioned) (fun s => s) pretty
           (list IsolationGuards.IsolationViolation) cons
           (run (fun s => s) pretty empty [entity_updated 1])
           Samples.context_A GuardsProps.context_B 0 no_filter [] "evt-1"
           "evt-9" 9 9 "entity.created" "ent_9" "Entity" JNull [] None
           ltac:(discriminate)))).
Defined.

Lemma find_app_last {A} (p : A -> bool) (l : list A) (x : A) :
  Forall (fun y => p y = false) l -> p x = true -> List.find p (l ++ [x]) = Some x.
Proof.
  induction 1 as [|y l Hy _ IH]; intros Hx; cbn; [by rewrite Hx|].
  rewrite Hy. by apply IH.
Qed.

Lemma find_None_Forall {A} (p : A -> bool) (l : list A) :
  List.find p l = None <-> Forall (fun y => p y = false) l.
Proof.
  induction l as [|y l IH]; cbn; [by split|].
  destruct (p y) eqn:Hy.
  - split; [done|]. intros [H _]%Forall_cons. congruence.
  - rewrite IH. split; [by constructor | by intros [_ H]%Forall_cons].
Qed.

(** An event that [append] returns carries the id drawn for it, and
    [getById] finds it under that id, provided no earlier event of the tenant
    has the same id: [getById] returns the first event with the id, so an
    earlier one would be found instead. An id no event of the tenant carries
    finds nothing, and without a context [getById] throws. *)
Theorem getById_finds_appended :
  (forall sha256 toISOString context st uuid occurred recorded type aggregateId
      aggregateType payload evidenceRefs metadata e st',
     append sha256 toISOString (Some context) st uuid occurred recorded type
       aggregateId aggregateType payload evidenceRefs metadata = (Ok e, st') ->
     id e = uuid /\
     (Forall (fun e0 => id e0 <> uuid) (partition_events st context) ->
      getById (Some context) st' uuid = Ok (Some e)) /\
     (forall e0, getById (Some context) st uuid = Ok (Some e0) ->
                 getById (Some context) st' uuid = Ok (Some e0))) /\
  (forall context st eventId,
     getById (Some context) st eventId = Ok None
     <-> Forall (fun e => id e <> eventId) (partition_events st context)) /\
  (forall st eventId,
     getById None st eventId = Throw TenantAssertionsProps.no_context).
Proof.
  split; [|split].
  - intros sha256 toISOString context st uuid occurred recorded type aggregateId
      aggregateType payload evidenceRefs metadata e st' Happ.
    destruct (append_events sha256 toISOString context st uuid occurred recorded type
                aggregateId aggregateType payload evidenceRefs metadata) as [_ Hown].
    rewrite Happ in Hown. cbn [fst snd] in Hown.
    assert (id e = uuid) as Hid.
    { revert Happ. unfold append. cbn [TenantContext.getTenantContext].
      destruct (calculateHash _ _ _); [|done]. by intros [= <- _]. }
    split; [done|]. unfold getById. cbn. rewrite Hown. split.
    + intros Hfresh. f_equal. apply find_app_last.
      * eapply Forall_impl; [exact Hfresh|]. intros e0 He0. cbn.
        by apply bool_decide_eq_false_2.
      * by apply bool_decide_eq_true_2.
    + intros e0 [= Hfind]. f_equal.
      revert Hfind. generalize (default [] (events st !! getTenantKey
        (TenantRegistry.partitionKey (TenantContext.tenant context)))).
      intros l. induction l as [|x l IH]; [done|]. cbn.
      by destruct (bool_decide (id x = uuid)).
  - intros context st eventId. unfold getById, partition_events. cbn.
    split.
    + intros [= Hfind]. apply find_None_Forall in Hfind.
      eapply Forall_impl; [exact Hfind|]. intros e He. cbn in He.
      by apply bool_decide_eq_false in He.
    + intros Hall. f_equal. apply find_None_Forall.
      eapply Forall_impl; [exact Hall|]. intros e He. cbn.
      by apply bool_decide_eq_false_2.
  - done.
Qed.

Lemma getById_finds_appended_witness :
  exists e,
    getById (Some Samples.context_A)
      (append (fun s => s) pretty (Some Samples.context_A)
         (run (fun s => s) pretty empty [entity_updated 1]) "evt-2" 2 2
         "entity.updated" "ent_1" "Entity" JNull [] None).2 "evt-2" = Ok (Some e) /\
    id e = "evt-2" /\ sequence e = 2.
Proof.
  destruct (append (fun s => s) pretty (Some Samples.context_A)
              (run (fun s => s) pretty empty [entity_updated 1]) "evt-2" 2 2
              "entity.updated" "ent_1" "Entity" JNull [] None) as [[e|err] st'] eqn:Happ;
    [|vm_compute in Happ; discriminate].
  exists e.
  destruct (proj1 getById_finds_appended (fun s => s) pretty Samples.context_A
              (run (fun s => s) pretty empty [entity_updated 1]) "evt-2" 2 2
              "entity.updated" "ent_1" "Entity" JNull [] None e st' Happ)
    as (Hid & Hfound & _).
  split; [|split; [exact Hid|]].
  - apply Hfound. vm_compute. repeat constructor; discriminate.
  - vm_compute in Happ. by injection Happ as <- _.
Defined.

Lemma slice_to_of_nat {A} (n : nat) (l : list A) : slice_to (Z.of_nat n) l = take n l.
Proof.
  unfold slice_to. destruct (Z.ltb_spec (Z.of_nat n) 0) as [H|_]; [lia|].
  by rewrite Nat2Z.id.
Qed.

Lemma after_cursor_lookup l k e :
  NoDup (id <$> l) -> l !! k = Some e ->
  after_cursor (id e) l = Some (drop (S k) l).
Proof.
  revert k. induction l as [|x l IH]; intros k Hnd Hk; [done|].
  rewrite fmap_cons in Hnd. apply NoDup_cons in Hnd as [Hx Hnd]. cbn.
  destruct k as [|k].
  - injection Hk as ->. by rewrite bool_decide_eq_true_2.
  - cbn in Hk. rewrite bool_decide_eq_false_2.
    + by apply IH.
    + intros Heq. apply Hx. rewrite Heq. apply list_elem_of_fmap.
      exists e. split; [done|]. by eapply list_elem_of_lookup_2.
Qed.

Lemma last_take_lookup {A} (n : nat) (l : list A) :
  (0 < n)%nat -> (n <= length l)%nat -> last (take n l) = l !! (n - 1)%nat.
Proof.
  intros Hn Hlen. rewrite last_lookup, length_take, Nat.min_l by done.
  replace (Nat.pred n) with (n - 1)%nat by lia. apply lookup_take_lt. lia.
Qed.

(** Paging through the events of a query, for a positive limit [n] and
    events with distinct, non-empty ids. The page without a cursor holds the
    first [n] selected events; it has more exactly when more than [n] are
    selected, and its cursor is then the id of its last event. A page asked
    for with the id of the [k]-th selected event as cursor holds the [n]
    events after that one. So asking again with the cursor a page returns
    yields the next [n] events, and the pages go through the selected events
    in order, without gap or repetition. *)
Theorem query_pages :
  forall W (violationHandler : IsolationGuards.IsolationViolation -> W -> W)
      context st now q (n : nat) w,
    TenantRegistry.partitionKey (TenantContext.tenant context) <> "" ->
    (0 < n)%nat ->
    let all := selected q (partition_events st context) in
    NoDup (id <$> all) ->
    Forall (fun e => id e <> "") all ->
    (exists page,
       query W violationHandler (Some context) st now
         (paged q (Some (Z.of_nat n)) None) w = (Ok page, w) /\
       events_of page = take n all /\
       hasMore page = bool_decide (n < length all)%nat /\
       nextCursor page
         = (if hasMore page then id <$> all !! (n - 1)%nat else None)) /\
    (forall k e,
       all !! k = Some e ->
       exists page,
         query W violationHandler (Some context) st now
           (paged q (Some (Z.of_nat n)) (Some (id e))) w = (Ok page, w) /\
         events_of page = take n (drop (S k) all) /\
         hasMore page = bool_decide (S k + n < length all)%nat /\
         nextCursor page
           = (if hasMore page then id <$> all !! (k + n)%nat else None)).
Proof.
  intros W violationHandler context st now q n w Hpk Hn all Hnd Hids. split.
  - eexists. split; [by apply query_current|].
    unfold page_of. cbn [events_of hasMore nextCursor q_cursor q_limit paged
                         truthy_string default from_option].
    fold (selected (paged q (Some (Z.of_nat n)) None) (partition_events st context)).
    rewrite selected_paged. fold all. unfold Datatypes.id. rewrite slice_to_of_nat.
    assert ((Z.of_nat (length all) >? Z.of_nat n) = bool_decide (n < length all)%nat)
      as ->.
    { case_bool_decide; [apply Z.gtb_lt | rewrite Z.gtb_ltb; apply Z.ltb_ge]; lia. }
    do 2 (split; [done|]). case_bool_decide as Hmore; [|done].
    f_equal. apply last_take_lookup; lia.
  - intros k e Hk.
    assert (id e <> "") as He.
    { rewrite Forall_forall in Hids. apply Hids. by eapply list_elem_of_lookup_2. }
    eexists. split; [by apply query_current|].
    unfold page_of. cbn [events_of hasMore nextCursor q_cursor q_limit paged].
    assert (truthy_string (Some (id e)) = Some (id e)) as ->
      by (by destruct (id e)).
    fold (selected (paged q (Some (Z.of_nat n)) (Some (id e)))
            (partition_events st context)).
    rewrite selected_paged. fold all.
    rewrite (after_cursor_lookup all k e Hnd Hk).
    cbn [default from_option Datatypes.id]. unfold Datatypes.id.
    rewrite slice_to_of_nat.
    pose proof (lookup_lt_Some _ _ _ Hk) as Hlt.
    assert ((Z.of_nat (length (drop (S k) all)) >? Z.of_nat n)
            = bool_decide (S k + n < length all)%nat) as ->.
    { rewrite length_drop.
      case_bool_decide; [apply Z.gtb_lt | rewrite Z.gtb_ltb; apply Z.ltb_ge]; lia. }
    do 2 (split; [done|]). case_bool_decide as Hmore; [|done].
    f_equal. rewrite last_take_lookup by (rewrite ?length_drop; lia).
    rewrite lookup_drop. f_equal. lia.
Qed.

(** Three notes appended under tenant A, by a hash that is constant. *)
Definition note (uuid : string) : call :=
  {| c_als := Some Samples.context_A; c_uuid := uuid; c_occurred := 0; c_recorded := 0;
     c_type := "note.added"; c_aggregateId := "n"; c_aggregateType := "Note";
     c_payload := JNull; c_evidenceRefs := []; c_metadata := None |}.

Definition notes : EventStoreImpl :=
  run (fun _ => "h") (fun _ => "t") empty [note "e1"; note "e2"; note "e3"].

Definition noted (uuid : string) (sequence : Z) (previous : option string) : DomainEvent :=
  {| id := uuid; type := "note.added"; version := 1; tenantId := "A";
     partitionKey := "pk_A"; aggregateId := "n"; aggregateType := "Note";
     sequence := sequence; payload := JNull; evidenceRefs := [];
     metadata := JObj [("correlationId", JStr "req-1"); ("userId", JUndefined);
                       ("source", JStr "ultrawealth-platform")];
     occurredAt := 0; recordedAt := 0; hash := "h"; previousHash := previous |}.

Lemma notes_selected :
  selected no_filter (partition_events notes Samples.context_A)
  = [noted "e1" 1 None; noted "e2" 2 (Some "h"); noted "e3" 3 (Some "h")].
Proof. vm_compute. reflexivity. Qed.

Lemma query_pages_witness :
  exists page,
    query (list IsolationGuards.IsolationViolation) cons (Some Samples.context_A)
      notes 0 (paged no_filter (Some 1) (Some "e1")) []
    = (Ok page, []) /\
    events_of page = [noted "e2" 2 (Some "h")] /\
    hasMore page = true /\ nextCursor page = Some "e2".
Proof.
  assert (NoDup (id <$> selected no_filter (partition_events notes Samples.context_A)))
    as Hnd.
  { rewrite notes_selected. cbn.
    repeat (apply NoDup_cons_2;
            [rewrite ?not_elem_of_cons;
             repeat split; (discriminate || apply not_elem_of_nil)|]).
    apply NoDup_nil_2. }
  assert (Forall (fun e => id e <> "")
            (selected no_filter (partition_events notes Samples.context_A))) as Hids.
  { rewrite notes_selected. repeat constructor; discriminate. }
  destruct (proj2 (query_pages (list IsolationGuards.IsolationViolation) cons
              Samples.context_A notes 0 no_filter 1 []
              ltac:(discriminate) ltac:(lia) Hnd Hids)
            0%nat (noted "e1" 1 None) ltac:(by rewrite notes_selected))
    as (page & Hq & Hevents & Hmore & Hcursor).
  exists page. split; [exact Hq|].
  rewrite Hcursor, Hmore, Hevents. vm_compute. repeat split; reflexivity.
Defined.

(** The edges of paging. A cursor that is empty or names none of the
    selected events is ignored: the page starts at the first event again. A
    limit left out is 100. With limit 0 the page is empty and carries no
    cursor, yet says there is more whenever an event is selected. A negative
    limit [-k] returns all selected events but the last [k] and always says
    there is more. *)
Theorem query_page_edges :
  forall W (violationHandler : IsolationGuards.IsolationViolation -> W -> W)
      context st now q w,
    TenantRegistry.partitionKey (TenantContext.tenant context) <> "" ->
    let all := selected q (partition_events st context) in
    let ask limit cursor :=
      query W violationHandler (Some context) st now (paged q limit cursor) w in
    (forall limit cursor,
       cursor = "" \/ Forall (fun e => id e <> cursor) all ->
       ask limit (Some cursor) = ask limit None) /\
    (exists page,
       ask None None = (Ok page, w) /\ events_of page = take 100 all /\
       hasMore page = bool_decide (100 < length all)%nat) /\
    (exists page,
       ask (Some 0) None = (Ok page, w) /\ events_of page = [] /\
       nextCursor page = None /\ hasMore page = bool_decide (all <> [])) /\
    (forall k : nat,
       (0 < k)%nat ->
       exists page,
         ask (Some (- Z.of_nat k)) None = (Ok page, w) /\
         events_of page = take (length all - k) all /\
         hasMore page = true).
Proof.
  intros W violationHandler context st now q w Hpk all ask. subst ask. cbn beta.
  split; [|split; [|split]].
  - intros limit cursor Hc. rewrite !query_current by done. do 2 f_equal.
    unfold page_of. cbn [q_cursor q_limit paged truthy_string].
    destruct Hc as [->|Hc]; [done|].
    destruct cursor as [|c cursor]; [done|]. cbn [truthy_string].
    fold (selected (paged q limit (Some (String c cursor))) (partition_events st context)).
    fold (selected (paged q limit None) (partition_events st context)).
    rewrite !selected_paged. fold all.
    by rewrite (proj2 (after_cursor_None _ _) Hc).
  - eexists. split; [by apply query_current|].
    unfold page_of. cbn [events_of hasMore q_cursor q_limit paged truthy_string
                         default from_option].
    fold (selected (paged q None None) (partition_events st context)).
    rewrite selected_paged. fold all. unfold Datatypes.id.
    change 100 with (Z.of_nat 100). rewrite slice_to_of_nat. split; [done|].
    case_bool_decide; [apply Z.gtb_lt | rewrite Z.gtb_ltb; apply Z.ltb_ge]; lia.
  - eexists. split; [by apply query_current|].
    unfold page_of. cbn [events_of hasMore nextCursor q_cursor q_limit paged
                         truthy_string default from_option].
    fold (selected (paged q (Some 0) None) (partition_events st context)).
    rewrite selected_paged. fold all. unfold Datatypes.id.
    change 0 with (Z.of_nat 0). rewrite slice_to_of_nat, take_0.
    split; [done|]. split; [by destruct (_ >? _)|].
    destruct all as [|e all']; [done|].
    rewrite bool_decide_eq_true_2 by done. apply Z.gtb_lt. cbn [length]. lia.
  - intros k Hk. eexists. split; [by apply query_current|].
    unfold page_of. cbn [events_of hasMore q_cursor q_limit paged truthy_string
                         default from_option].
    fold (selected (paged q (Some (- Z.of_nat k)) None) (partition_events st context)).
    rewrite selected_paged. fold all. unfold Datatypes.id. split.
    + unfold slice_to. destruct (Z.ltb_spec (- Z.of_nat k) 0) as [_|H]; [|lia].
      f_equal. lia.
    + apply Z.gtb_lt. lia.
Qed.

Lemma query_page_edges_witness :
  query (list IsolationGuards.IsolationViolation) cons (Some Samples.context_A)
    notes 0 (paged no_filter (Some 2) (Some "no-such-event")) []
  = query (list IsolationGuards.IsolationViolation) cons (Some Samples.context_A)
      notes 0 (paged no_filter (Some 2) None) [].
Proof.
  apply (proj1 (query_page_edges (list IsolationGuards.IsolationViolation) cons
           Samples.context_A notes 0 no_filter [] ltac:(discriminate))
           (Some 2) "no-such-event").
  right. rewrite notes_selected. repeat constructor; discriminate.
Defined.

End EventStoreLookupsProps.

(** ** Evidence: links and isolation *)

Module EvidenceLinksProps.
Import JsString JsStringProps EvidenceLinker QueryGuardProps.

Lemma evidenceKey_inj pk1 id1 pk2 id2 :
  String.length pk1 = String.length pk2 ->
  evidenceKey pk1 id1 = evidenceKey pk2 id2 -> pk1 = pk2 /\ id1 = id2.
Proof.
  unfold evidenceKey, getTenantKey. intros Hlen Heq.
  apply append_inv_length in Heq as [Hpk Hid].
  - apply append_inv_length in Hpk as [_ ->]; [|done].
    rewrite !append_cons, !append_nil_l in Hid. by injection Hid as ->.
  - rewrite !length_append. by rewrite Hlen.
Qed.

Section Links.

Context {W : Type} (violationHandler : IsolationGuards.IsolationViolation -> W -> W).

(** The records filed under a tenant's keys for a list of ids. *)
Definition filed_under (st : EvidenceLinkerImpl) (partitionKey : string)
    (evidenceIds : list string) : list Evidence :=
  omap (fun i => evidence st !! evidenceKey partitionKey i) evidenceIds.

Lemma getById_Some context st now evidenceId w :
  TenantRegistry.partitionKey (TenantContext.tenant context) <> "" ->
  getById W violationHandler (Some context) st now evidenceId w =
  (Ok (evidence st !! evidenceKey
         (TenantRegistry.partitionKey (TenantContext.tenant context)) evidenceId), w).
Proof.
  intros Hpk. unfold getById. rewrite getCurrentPartitionKey_Some.
  by rewrite validatePartitionKey_current.
Qed.

Lemma getForEvent_loop_filed context st now evidenceIds results w :
  TenantRegistry.partitionKey (TenantContext.tenant context) <> "" ->
  getForEvent_loop W violationHandler (Some context) st now evidenceIds results w =
  (Ok (results ++ filed_under st
         (TenantRegistry.partitionKey (TenantContext.tenant context)) evidenceIds)%list, w).
Proof.
  intros Hpk. revert results.
  induction evidenceIds as [|i rest IH]; intros results; cbn [getForEvent_loop].
  - by rewrite app_nil_r.
  - rewrite getById_Some by done. unfold filed_under. cbn [omap list_omap].
    destruct (evidence st !! _) as [e|]; rewrite IH; [|done].
    by rewrite <- app_assoc.
Qed.

Lemma getForEvent_filed context st now eventId w :
  TenantRegistry.partitionKey (TenantContext.tenant context) <> "" ->
  getForEvent W violationHandler (Some context) st now eventId w =
  (Ok (filed_under st (TenantRegistry.partitionKey (TenantContext.tenant context))
         (default [] (eventToEvidence st !! eventId))), w).
Proof.
  intros Hpk. unfold getForEvent. rewrite getCurrentPartitionKey_Some.
  rewrite validatePartitionKey_current by done.
  by rewrite getForEvent_loop_filed.
Qed.

Lemma linkToEvent_Ok context st now request w updated st' w' :
  linkToEvent W violationHandler (Some context) st now request w = (Ok updated, st', w') ->
  let pk := TenantRegistry.partitionKey (TenantContext.tenant context) in
  pk <> "" /\ w' = w /\
  exists existing,
    evidence st !! evidenceKey pk (evidenceId request) = Some existing /\
    updated = add_link existing (eventId request) /\
    st' = {| evidence := <[evidenceKey pk (evidenceId request) := updated]> (evidence st);
             contentStore := contentStore st;
             eventToEvidence :=
               <[eventId request :=
                   set_add (evidenceId request)
                     (default [] (eventToEvidence st !! eventId request))]>
                 (eventToEvidence st) |}.
Proof.
  intros Hlink pk. revert Hlink. unfold linkToEvent.
  rewrite getCurrentPartitionKey_Some. fold pk.
  destruct (decide (pk = "")) as [Hpk|Hpk].
  { rewrite Hpk. by cbn. }
  subst pk. rewrite validatePartitionKey_current by done.
  destruct (evidence st !! _) as [existing|] eqn:He; [|done].
  intros [= <- <- <-]. split; [done|]. split; [done|]. by exists existing.
Qed.

End Links.

(** Linking. A [linkToEvent] that returns hands back the stored record with
    the event id added at the end of its [linkedEvents]; from then on
    [getById] answers with that record and [getForEvent], for the event,
    with a list that holds it. For an evidence id the tenant has no record
    of, it throws and leaves the linker as it was. Linking the same pair
    again adds the event id to [linkedEvents] a second time, while the event's
    set of evidence ids stays as it is. *)
Theorem linkToEvent_then_getForEvent :
  (forall W (violationHandler : IsolationGuards.IsolationViolation -> W -> W)
      context st now now' request w updated st' w',
     linkToEvent W violationHandler (Some context) st now request w
       = (Ok updated, st', w') ->
     w' = w /\
     (exists existing,
        getById W violationHandler (Some context) st now' (evidenceId request) w
          = (Ok (Some existing), w) /\
        updated = add_link existing (eventId request) /\
        linkedEvents updated = (linkedEvents existing ++ [eventId request])%list) /\
     getById W violationHandler (Some context) st' now' (evidenceId request) w
       = (Ok (Some updated), w) /\
     (exists linked,
        getForEvent W violationHandler (Some context) st' now' (eventId request) w
          = (Ok linked, w) /\
        updated ∈ linked)) /\
  (forall W (violationHandler : IsolationGuards.IsolationViolation -> W -> W)
      context st now request w,
     getById W violationHandler (Some context) st now (evidenceId request) w
       = (Ok None, w) ->
     linkToEvent W violationHandler (Some context) st now request w
       = (Throw (Error ("Evidence " +:+ evidenceId request +:+ " not found")), st, w)) /\
  (forall W (violationHandler : IsolationGuards.IsolationViolation -> W -> W)
      context st now request w updated st' w',
     linkToEvent W violationHandler (Some context) st now request w
       = (Ok updated, st', w') ->
     exists again st'',
       linkToEvent W violationHandler (Some context) st' now request w
         = (Ok again, st'', w) /\
       linkedEvents again = (linkedEvents updated ++ [eventId request])%list /\
       eventToEvidence st'' !! eventId request = eventToEvidence st' !! eventId request).
Proof.
  split; [|split].
  - intros W violationHandler context st now now' request w updated st' w'
      (Hpk & -> & existing & He & -> & ->)%linkToEvent_Ok.
    split; [done|]. split; [|split].
    + exists existing. rewrite getById_Some by done. by rewrite He.
    + rewrite getById_Some by done. cbn. by rewrite lookup_insert_eq.
    + eexists. split; [by apply getForEvent_filed|].
      cbn [eventToEvidence evidence]. rewrite lookup_insert_eq. cbn.
      unfold filed_under. apply list_elem_of_omap.
      exists (evidenceId request). split.
      * unfold set_add. case_bool_decide; [done|]. apply elem_of_app. right.
        by apply list_elem_of_singleton.
      * cbn. by rewrite lookup_insert_eq.
  - intros W violationHandler context st now request w. unfold getById, linkToEvent.
    rewrite getCurrentPartitionKey_Some.
    destruct (IsolationGuards.QueryGuard_validatePartitionKey _ _ _ _ _ _)
      as [[[]|] w1]; [|done].
    by intros [= -> ->].
  - intros W violationHandler context st now request w updated st' w'
      (Hpk & -> & existing & He & -> & ->)%linkToEvent_Ok.
    unfold linkToEvent. rewrite getCurrentPartitionKey_Some.
    rewrite validatePartitionKey_current by done. cbn [evidence eventToEvidence].
    rewrite !lookup_insert_eq. eexists. eexists. split; [reflexivity|].
    split; [done|]. cbn [eventToEvidence]. rewrite !lookup_insert_eq. f_equal.
    cbn. unfold set_add at 1. rewrite bool_decide_eq_true_2; [done|].
    unfold set_add. case_bool_decide; [done|]. apply elem_of_app. right.
    by apply list_elem_of_singleton.
Qed.

(** A linker that holds one statement of tenant A, under the id [ev-1]. *)
Definition one_statement : EvidenceLinkerImpl :=
  (create (fun _ => "h") (fun _ => []) (Some Samples.context_A) empty
     {| r_type := statement; r_description := "Custody statement";
        r_source := "custodian"; r_mimeType := "application/pdf";
        r_content := OfBuffer []; r_capturedAt := Some 5; r_metadata := None |}
     "ev-1" 6 7).2.

Lemma linkToEvent_then_getForEvent_witness :
  exists updated,
    getById (list IsolationGuards.IsolationViolation) cons (Some Samples.context_A)
      (linkToEvent (list IsolationGuards.IsolationViolation) cons
         (Some Samples.context_A) one_statement 8
         {| evidenceId := "ev-1"; eventId := "evt-1" |} []).1.2
      9 "ev-1" []
    = (Ok (Some updated), []) /\
    linkedEvents updated = ["evt-1"].
Proof.
  destruct (linkToEvent (list IsolationGuards.IsolationViolation) cons
              (Some Samples.context_A) one_statement 8
              {| evidenceId := "ev-1"; eventId := "evt-1" |} [])
    as [[[updated|err] st'] w'] eqn:Hlink; [|vm_compute in Hlink; discriminate].
  exists updated.
  destruct (proj1 linkToEvent_then_getForEvent (list IsolationGuards.IsolationViolation)
              cons Samples.context_A one_statement 8 9
              {| evidenceId := "ev-1"; eventId := "evt-1" |} [] updated st' w' Hlink)
    as (_ & (existing & Hget & -> & Hl) & Hget' & _).
  split; [exact Hget'|]. rewrite Hl.
  vm_compute in Hget. injection Hget as <-. reflexivity.
Defined.

Section Isolation.

Variable sha256 : Buffer -> string.
Variable utf8 : string -> Buffer.
Variable L : nat.

(** The linkers that calls of [create] and [linkToEvent] build from the
    empty one, when the partition keys of the creating tenants all have [L]
    characters. *)
Inductive built : EvidenceLinkerImpl -> Prop :=
| built_empty : built empty
| built_create st context request uuid now1 now2 :
    String.length (TenantRegistry.partitionKey (TenantContext.tenant context)) = L ->
    built st ->
    built (create sha256 utf8 (Some context) st request uuid now1 now2).2
| built_linkToEvent W (violationHandler : IsolationGuards.IsolationViolation -> W -> W)
    st als now request w :
    built st ->
    built (linkToEvent W violationHandler als st now request w).1.2.

(** Every record is filed under the key made of its own partition key and
    id. *)
Definition filed (st : EvidenceLinkerImpl) : Prop :=
  forall K e, evidence st !! K = Some e ->
    K = evidenceKey (partitionKey e) (id e) /\ String.length (partitionKey e) = L.

Lemma built_filed st : built st -> filed st.
Proof.
  induction 1 as [|st context request uuid now1 now2 Hlen _ IH
                  |W violationHandler st als now request w _ IH].
  - intros K e. cbn. by rewrite lookup_empty.
  - intros K e. unfold create. cbn [TenantContext.getTenantContext snd evidence].
    destruct (decide (evidenceKey
                (TenantRegistry.partitionKey (TenantContext.tenant context)) uuid = K))
      as [<-|Hne].
    + rewrite lookup_insert_eq. by intros [= <-].
    + rewrite lookup_insert_ne by done. apply IH.
  - destruct als as [context|]; [|exact IH].
    destruct (linkToEvent W violationHandler (Some context) st now request w)
      as [[[updated|err] st'] w'] eqn:Hlink.
    + apply linkToEvent_Ok in Hlink as (_ & _ & existing & He & -> & ->).
      intros K e. cbn [fst snd evidence].
      destruct (decide (evidenceKey
                  (TenantRegistry.partitionKey (TenantContext.tenant context))
                  (evidenceId request) = K)) as [<-|Hne].
      * rewrite lookup_insert_eq. intros [= <-]. cbn. by apply IH.
      * rewrite lookup_insert_ne by done. apply IH.
    + revert Hlink. unfold linkToEvent. rewrite getCurrentPartitionKey_Some.
      destruct (IsolationGuards.QueryGuard_validatePartitionKey _ _ _ _ _ _)
        as [[[]|] w1]; [|by intros [= _ <- _]].
      destruct (evidence st !! _); [done|]. by intros [= _ <- _].
Qed.

End Isolation.

Lemma getById_Ok {W} (violationHandler : IsolationGuards.IsolationViolation -> W -> W)
    context st now evidenceId w r w' :
  getById W violationHandler (Some context) st now evidenceId w = (Ok r, w') ->
  r = evidence st !! evidenceKey
        (TenantRegistry.partitionKey (TenantContext.tenant context)) evidenceId /\
  TenantRegistry.partitionKey (TenantContext.tenant context) <> "" /\ w' = w.
Proof.
  destruct (decide (TenantRegistry.partitionKey (TenantContext.tenant context) = ""))
    as [Hpk|Hpk].
  - unfold getById. rewrite getCurrentPartitionKey_Some, Hpk. by cbn.
  - rewrite getById_Some by done. by intros [= <- <-].
Qed.

(** Tenants do not see each other's evidence. On a linker built by calls
    under partition keys of one length (as the generated keys have), every
    record that [getById] or [getForEvent] returns carries the partition key
    of the tenant that asks, although the index from events to evidence ids is
    shared by all tenants. And whatever the linker, a [create] under one
    partition key changes nothing of what [getById] answers under another of
    the same length. *)
Theorem evidence_is_partitioned :
  (forall sha256 utf8 L W (violationHandler : IsolationGuards.IsolationViolation -> W -> W)
      st context now w,
     built sha256 utf8 L st ->
     String.length (TenantRegistry.partitionKey (TenantContext.tenant context)) = L ->
     (forall evidenceId e w',
        getById W violationHandler (Some context) st now evidenceId w
          = (Ok (Some e), w') ->
        partitionKey e = TenantRegistry.partitionKey (TenantContext.tenant context) /\
        id e = evidenceId) /\
     (forall eventId linked w',
        getForEvent W violationHandler (Some context) st now eventId w = (Ok linked, w') ->
        Forall (fun e => partitionKey e
                         = TenantRegistry.partitionKey (TenantContext.tenant context))
          linked)) /\
  (forall sha256 utf8 W (violationHandler : IsolationGuards.IsolationViolation -> W -> W)
      st contextA contextB request uuid now1 now2 now evidenceId w,
     String.length (TenantRegistry.partitionKey (TenantContext.tenant contextA))
       = String.length (TenantRegistry.partitionKey (TenantContext.tenant contextB)) ->
     TenantRegistry.partitionKey (TenantContext.tenant contextA)
       <> TenantRegistry.partitionKey (TenantContext.tenant contextB) ->
     getById W violationHandler (Some contextB)
       (create sha256 utf8 (Some contextA) st request uuid now1 now2).2 now evidenceId w
     = getById W violationHandler (Some contextB) st now evidenceId w).
Proof.
  split.
  - intros sha256 utf8 L W violationHandler st context now w Hfiled%built_filed Hlen.
    assert (forall evidenceId e,
              evidence st !! evidenceKey
                (TenantRegistry.partitionKey (TenantContext.tenant context)) evidenceId
              = Some e ->
              partitionKey e = TenantRegistry.partitionKey (TenantContext.tenant context)
              /\ id e = evidenceId) as Hown.
    { intros evidenceId e He. destruct (Hfiled _ _ He) as [HK HL].
      apply evidenceKey_inj in HK as [-> ->]; [done | by rewrite HL]. }
    split.
    + intros evidenceId e w' (He & _ & _)%getById_Ok. by apply Hown.
    + intros eventId linked w'. unfold getForEvent.
      rewrite getCurrentPartitionKey_Some.
      destruct (decide (TenantRegistry.partitionKey (TenantContext.tenant context) = ""))
        as [Hpk|Hpk]; [rewrite Hpk; by cbn|].
      rewrite validatePartitionKey_current by done.
      rewrite getForEvent_loop_filed by done. intros [= <- _]. cbn.
      apply Forall_forall. intros e (i & _ & He)%list_elem_of_omap.
      by apply (Hown i).
  - intros sha256 utf8 W violationHandler st contextA contextB request uuid now1 now2 now
      evidenceId w Hlen Hne.
    unfold getById. rewrite getCurrentPartitionKey_Some.
    destruct (IsolationGuards.QueryGuard_validatePartitionKey _ _ _ _ _ _)
      as [[[]|] w1]; [|done].
    unfold create. cbn [TenantContext.getTenantContext snd evidence].
    rewrite lookup_insert_ne; [done|].
    by intros [H _]%evidenceKey_inj.
Qed.

Lemma evidence_is_partitioned_witness :
  getById (list IsolationGuards.IsolationViolation) cons (Some GuardsProps.context_B)
    one_statement 9 "ev-1" []
  = getById (list IsolationGuards.IsolationViolation) cons (Some GuardsProps.context_B)
      empty 9 "ev-1" [].
Proof.
  exact (proj2 evidence_is_partitioned (fun _ => "h") (fun _ => [])
           (list IsolationGuards.IsolationViolation) cons empty
           Samples.context_A GuardsProps.context_B _ "ev-1" 6 7 9 "ev-1" []
           eq_refl ltac:(discriminate)).
Defined.

End EvidenceLinksProps.

(** ** Replay: the events folded, and one aggregate *)

Module ReplayAggregateProps.
Import EventStore ReplayEngine ReplayAggregate.
Import EventStoreProps EventStoreLookupsProps ReplayEngineProps.

(** The events [replay] keeps of a page when [eventTypes] is applied. *)
Definition typed (options : ReplayOptions) (page : list DomainEvent) : list DomainEvent :=
  match eventTypes options with
  | Some (t :: ts) => filter (fun e => type e ∈ t :: ts) page
  | _ => page
  end.

Lemma select_typed options page :
  select options page =
  match truthy_string (upToEventId options) with
  | Some upTo =>
      match list_find (fun e => id e = upTo) (typed options page) with
      | Some (index, _) => take index (typed options page)
      | None => typed options page
      end
  | None => typed options page
  end.
Proof. unfold select, typed. by destruct (eventTypes options) as [[|t ts]|]. Qed.

Lemma select_prefix options page : select options page `prefix_of` typed options page.
Proof.
  rewrite select_typed. destruct (truthy_string _) as [upTo|]; [|done].
  destruct (list_find _ _) as [[index e]|]; [|done]. apply prefix_take.
Qed.

Lemma select_upTo options page upTo :
  truthy_string (upToEventId options) = Some upTo ->
  Forall (fun e => id e <> upTo) (select options page) /\
  (select options page = typed options page
   <-> Forall (fun e => id e <> upTo) (typed options page)).
Proof.
  intros Hup. rewrite select_typed, Hup.
  destruct (list_find _ _) as [[index e]|] eqn:Hfind.
  - apply list_find_Some in Hfind as (Hi & He & Hbefore). split.
    + apply Forall_forall. intros x [j [Hj Hlt]%lookup_take_Some]%list_elem_of_lookup_1.
      by eapply Hbefore.
    + pose proof (lookup_lt_Some _ _ _ Hi) as Hlt. split.
      * intros Htake. apply (f_equal length) in Htake. rewrite length_take in Htake. lia.
      * intros Hall. rewrite Forall_forall in Hall. destruct (Hall e); [|done].
        by eapply list_elem_of_lookup_2.
  - apply list_find_None in Hfind. by split.
Qed.

Section Replay.

Variable toISOString : Z -> string.
Context {W : Type} (violationHandler : IsolationGuards.IsolationViolation -> W -> W).

Lemma replay_Ok engine context es el startTime endTime now options (h : Heap) (w : W)
    res h1 w1 :
  replay toISOString W violationHandler engine (Some context) es el
    startTime endTime now options h w = (Ok res, h1, w1) ->
  events res
    = select options
        (take 100 (selected (replay_query options) (partition_events es context))) /\
  eventCount res = length (events res) /\
  r_asOf res = occurredAt <$> last (events res) /\
  durationMs res = endTime - startTime /\
  (default false (includeEvidence options) = false -> evidence res = []).
Proof.
  unfold replay. fold (replay_query options).
  destruct (query W violationHandler (Some context) es now (replay_query options) w)
    as [[page|e] w0] eqn:Hq; [|done].
  apply query_Ok in Hq as [-> ->].
  assert (events_of (page_of (replay_query options) (partition_events es context))
          = take 100 (selected (replay_query options) (partition_events es context)))
    as ->.
  { unfold page_of. cbn [events_of replay_query q_cursor q_limit truthy_string
                         default from_option]. unfold Datatypes.id.
    change 100 with (Z.of_nat 100). by rewrite slice_to_of_nat. }
  destruct (deepClone _ _ _) as [[state0|e] h0]; [|done].
  destruct (apply_handlers _ _ _ _) as [[final|e] h2]; [|done].
  destruct (default false (includeEvidence options)).
  - destruct (gather_evidence _ _ _ _ _ _ _ _) as [[evidence|e] w2]; [|done].
    by intros [= <- _ _].
  - by intros [= <- _ _].
Qed.

End Replay.

(** What [replay] folds. A replay that returns has folded a prefix of the
    first hundred events of the tenant that match the aggregate and [asOf]
    options, narrowed to [eventTypes] when that list is not empty: never more
    than a hundred events, whatever the store holds. With [upToEventId] set,
    the events folded stop before the first one that carries the id, and an
    id that none of them carries cuts nothing. Without it nothing is cut.
    [eventCount] counts the events folded, [asOf] is the time of the last one
    and [durationMs] the difference of the two clock readings. *)
Theorem replay_folds_first_page :
  forall toISOString W (violationHandler : IsolationGuards.IsolationViolation -> W -> W)
      engine context es el startTime endTime now options (h : Heap) (w : W) res h1 w1,
    replay toISOString W violationHandler engine (Some context) es el
      startTime endTime now options h w = (Ok res, h1, w1) ->
    let page := take 100 (selected (replay_query options) (partition_events es context)) in
    events res `prefix_of` typed options page /\
    (length (events res) <= 100)%nat /\
    (forall upTo,
       truthy_string (upToEventId options) = Some upTo ->
       Forall (fun e => id e <> upTo) (events res) /\
       (events res = typed options page
        <-> Forall (fun e => id e <> upTo) (typed options page))) /\
    (truthy_string (upToEventId options) = None -> events res = typed options page) /\
    (eventTypes options = None \/ eventTypes options = Some [] ->
     typed options page = page) /\
    eventCount res = length (events res) /\
    r_asOf res = occurredAt <$> last (events res) /\
    durationMs res = endTime - startTime.
Proof.
  intros toISOString W violationHandler engine context es el startTime endTime now
    options h w res h1 w1 (Hev & Hcount & HasOf & Hms & _)%replay_Ok page.
  fold page in Hev. rewrite Hev.
  assert (length (typed options page) <= 100)%nat as Htyped.
  { unfold typed. assert (length page <= 100)%nat as Hp
      by (subst page; rewrite length_take; lia).
    destruct (eventTypes options) as [[|t ts]|]; [done| |done].
    etrans; [apply length_filter|done]. }
  split; [apply select_prefix|]. split.
  { etrans; [apply prefix_length, select_prefix|done]. }
  split; [intros upTo Hup; by apply select_upTo|].
  split; [intros Hup; by rewrite select_typed, Hup|].
  split; [intros [Ht|Ht]; unfold typed; by rewrite Ht|].
  by rewrite <- Hev.
Qed.

(** An engine with no handler, over a heap that holds its initial state. *)
Definition idle : ReplayEngine := {| handlers := fun _ => None; initialState := VRef 0 |}.

Definition heap0 : Heap := {[ 0%nat := Obj [] ]}.

Definition up_to (upTo : string) : ReplayOptions :=
  {| asOf := None; upToEventId := Some upTo; eventTypes := None; aggregateId := None;
     aggregateType := None; includeEvidence := None |}.

Lemma replay_folds_first_page_witness :
  exists res h1,
    replay (fun _ => "t") (list IsolationGuards.IsolationViolation) cons idle
      (Some Samples.context_A) notes EvidenceLinker.empty 0 1 0 (up_to "e3") heap0 []
    = (Ok res, h1, []) /\
    (length (events res) <= 100)%nat /\
    Forall (fun e => id e <> "e3") (events res).
Proof.
  destruct (replay (fun _ => "t") (list IsolationGuards.IsolationViolation) cons idle
              (Some Samples.context_A) notes EvidenceLinker.empty 0 1 0 (up_to "e3")
              heap0 []) as [[[res|err] h1] w1] eqn:Hr;
    [|vm_compute in Hr; discriminate].
  destruct (replay_folds_first_page _ _ _ _ _ _ _ _ _ _ _ _ _ res h1 w1 Hr)
    as (_ & Hlen & Hup & _).
  exists res, h1. split; [|split; [exact Hlen|]].
  - vm_compute in Hr. by injection Hr as _ _ <-.
  - by apply Hup.
Defined.

(** *** One aggregate *)

Lemma sorted_le_last (l : list Z) (x : Z) :
  StronglySorted Z.lt l -> x ∈ l -> x <= default 0 (last l).
Proof.
  intros Hs. revert x.
  induction Hs as [|y l Hl IH Hy]; intros x; [by intros ?%elem_of_nil|].
  rewrite Forall_forall in Hy.
  intros [->|Hx]%elem_of_cons.
  - destruct l as [|z l]; [done|].
    assert (z <= default 0 (last (z :: l))) by (apply IH; by left).
    assert (y < z) by (apply Hy; by left).
    change (last (y :: z :: l)) with (last (z :: l)). lia.
  - destruct l as [|z l]; [by apply elem_of_nil in Hx|].
    change (last (y :: z :: l)) with (last (z :: l)). by apply IH.
Qed.

Section Aggregate.

Variable sha256 : string -> string.
Variable toISOString : Z -> string.
Context {W : Type} (violationHandler : IsolationGuards.IsolationViolation -> W -> W).

(** The events stored for an aggregate of a tenant. *)
Definition stored (es : EventStoreImpl) (context : TenantContext.TenantContext)
    (aggregateType aggregateId : string) : list DomainEvent :=
  filter (of_aggregate aggregateType aggregateId) (partition_events es context).

Lemma getAggregateEvents_stored context es now aggregateType aggregateId w :
  TenantRegistry.partitionKey (TenantContext.tenant context) <> "" ->
  aggregateType <> "" -> aggregateId <> "" ->
  getAggregateEvents W violationHandler (Some context) es now aggregateType aggregateId w
  = (Ok (take 100 (stored es context aggregateType aggregateId)), w).
Proof.
  intros Hpk Htype Hid. unfold getAggregateEvents. rewrite query_current by done.
  do 2 f_equal. unfold page_of.
  cbn [events_of q_cursor q_limit truthy_string default from_option]. unfold Datatypes.id.
  change 100 with (Z.of_nat 100). rewrite slice_to_of_nat. f_equal.
  apply list_filter_iff. intros e. unfold matches, of_aggregate. cbn.
  destruct aggregateId as [|c1 i]; [done|]. destruct aggregateType as [|c2 t]; [done|].
  cbn. rewrite !andb_true_r, andb_true_iff, !bool_decide_eq_true. tauto.
Qed.

Lemma stored_sorted es context aggregateType aggregateId :
  reachable sha256 toISOString es ->
  StronglySorted Z.lt (sequence <$> stored es context aggregateType aggregateId) /\
  Forall (fun e => 1 <= sequence e) (stored es context aggregateType aggregateId).
Proof.
  intros (_ & Hbound & Hsorted)%reachable_numbered. unfold stored.
  set (pk := TenantRegistry.partitionKey (TenantContext.tenant context)).
  set (K := aggregateKey pk aggregateType aggregateId). split.
  - assert (filter (of_aggregate aggregateType aggregateId) (partition_events es context)
            = filter (of_aggregate aggregateType aggregateId)
                (filter (fun e => event_key e = K) (partition_events es context))) as ->.
    { rewrite list_filter_filter. apply filter_ext_Forall, Forall_forall.
      intros e He. split; [|tauto]. intros [Ht Hi]. split; [done|].
      destruct (Hbound _ _ He) as [Hk%getTenantKey_inj _].
      unfold K, event_key. by rewrite Hk, Ht, Hi. }
    apply StronglySorted_fmap_filter, Hsorted.
  - apply Forall_forall. intros e [_ He]%list_elem_of_filter.
    destruct (Hbound _ _ He) as [_ Hb]. lia.
Qed.

End Aggregate.

(** [replayAggregate] on a store built by [append] calls, for a tenant and
    an aggregate whose partition key, type and id are not empty. It folds the
    first hundred events stored for the aggregate, those up to [asOf] when a
    time is passed, in ascending order of sequence number. The version it
    reports is the sequence number of the last event folded, which no event
    folded exceeds, and 0 when none is folded, as for an aggregate that has
    no event. *)
Theorem replayAggregate_version :
  forall sha256 toISOString toISOString'
      W (violationHandler : IsolationGuards.IsolationViolation -> W -> W)
      engine context es now aggregateType aggregateId asOf (h : Heap) (w : W) r h1 w1,
    reachable sha256 toISOString es ->
    TenantRegistry.partitionKey (TenantContext.tenant context) <> "" ->
    aggregateType <> "" -> aggregateId <> "" ->
    replayAggregate toISOString' W violationHandler engine (Some context) es now
      aggregateType aggregateId asOf h w = (Ok r, h1, w1) ->
    let first := take 100 (stored es context aggregateType aggregateId) in
    a_events r = match asOf with
                 | Some t => filter (fun e => occurredAt e <= t) first
                 | None => first
                 end /\
    StronglySorted Z.lt (sequence <$> a_events r) /\
    Forall (fun e => 1 <= sequence e <= a_version r) (a_events r) /\
    a_version r = default 0 (sequence <$> last (a_events r)) /\
    (stored es context aggregateType aggregateId = [] -> a_version r = 0) /\
    a_aggregateType r = aggregateType /\ a_aggregateId r = aggregateId /\ w1 = w.
Proof.
  intros sha256 toISOString toISOString' W violationHandler engine context es now
    aggregateType aggregateId asOf h w r h1 w1 Hreach Hpk Htype Hid.
  unfold replayAggregate. rewrite getAggregateEvents_stored by done.
  destruct (stored_sorted sha256 toISOString es context aggregateType aggregateId Hreach)
    as [Hsorted Hpos].
  set (all := stored es context aggregateType aggregateId) in *.
  set (folded := match asOf with
                 | Some t => filter (fun e => occurredAt e <= t) (take 100 all)
                 | None => take 100 all
                 end).
  assert (StronglySorted Z.lt (sequence <$> folded)) as Hfolded.
  { assert (StronglySorted Z.lt (sequence <$> take 100 all)) as Htake
      by (rewrite fmap_take; by apply StronglySorted_take).
    subst folded. destruct asOf as [t|]; [|done].
    by apply StronglySorted_fmap_filter. }
  assert (folded ⊆ all) as Hsub.
  { intros e He. subst folded.
    assert (e ∈ take 100 all) as Ht.
    { destruct asOf as [t|]; [|done]. by apply list_elem_of_filter in He as [_ He]. }
    rewrite <- (take_drop 100 all). apply elem_of_app. by left. }
  destruct (deepClone _ _ _) as [[state0|e] h0]; [|done].
  destruct (apply_handlers _ _ _ _) as [[final|e] h2]; [|done].
  intros Heq. injection Heq as <- _ <-.
  cbn [a_events a_version a_aggregateType a_aggregateId].
  split; [done|]. split; [done|]. split; [|split; [done|]].
  - apply Forall_forall. intros e He. split.
    + rewrite Forall_forall in Hpos. by apply Hpos, Hsub.
    + rewrite <- fmap_last. apply sorted_le_last; [done|].
      apply list_elem_of_fmap. eauto.
  - split; [|done]. intros Hnone. subst folded. rewrite Hnone.
    by destruct asOf.
Qed.

Lemma replayAggregate_version_witness :
  exists r,
    (replayAggregate (fun _ => "t") (list IsolationGuards.IsolationViolation) cons idle
       (Some Samples.context_A) notes 0 "Note" "n" (Some 0) heap0 []).1.1 = Ok r /\
    a_version r = 3 /\ sequence <$> a_events r = [1; 2; 3].
Proof.
  assert (is_ok (replayAggregate (fun _ => "t") (list IsolationGuards.IsolationViolation)
                   cons idle (Some Samples.context_A) notes 0 "Note" "n" (Some 0)
                   heap0 []).1.1 = true) as Hok by (vm_compute; reflexivity).
  destruct (replayAggregate (fun _ => "t") (list IsolationGuards.IsolationViolation) cons
              idle (Some Samples.context_A) notes 0 "Note" "n" (Some 0) heap0 [])
    as [[[r|err] h1] w1] eqn:Hr; [|discriminate Hok].
  destruct (replayAggregate_version (fun _ => "h") (fun _ => "t") (fun _ => "t")
              (list IsolationGuards.IsolationViolation) cons idle Samples.context_A
              notes 0 "Note" "n" (Some 0) heap0 [] r h1 w1 (run_reachable _ _ _)
              ltac:(discriminate) ltac:(discriminate) ltac:(discriminate) Hr)
    as (Hev & _ & _ & Hversion & _).
  exists r. split; [reflexivity|]. rewrite Hversion, Hev. vm_compute. by split.
Defined.

End ReplayAggregateProps.

(** ** Governance: code, ledger and dependency checks *)

Module GovernanceChecksProps.
Import JsString JsStringProps GovernanceAdapter EnforcementHooks GovernanceChecks.

(** The last character of [s], or [before] when [s] is empty. *)
Fixpoint last_of (before : option ascii) (s : string) : option ascii :=
  match s with
  | EmptyString => before
  | String c r => last_of (Some c) r
  end.

(** [term] occurs in [code] as a whole word, in any letter case: [code]
    reads [pre], then a copy [m] of the term, then [post], with a word
    boundary on either side of the copy; [before] is what precedes [code]. *)
Definition occurs (term : string) (before : option ascii) (code : string) : Prop :=
  exists pre m post,
    code = pre +:+ m +:+ post /\
    lower_ascii m = lower_ascii term /\
    boundary (last_of before pre) (head (m +:+ post)) = true /\
    boundary (last_of (last_of before pre) m) (head post) = true.

Lemma strip_iff term s last last' rest :
  strip term s last = Some (last', rest)
  <-> exists m, s = m +:+ rest /\ lower_ascii m = lower_ascii term /\
                last' = last_of last m.
Proof.
  revert s last. induction term as [|t term IH]; intros s last; cbn [strip].
  - split.
    + intros [= <- <-]. by exists "".
    + intros ([|c m] & -> & Hm & ->); [done|discriminate].
  - destruct s as [|c s].
    + split; [done|]. intros ([|c m] & Hs & Hm & _); discriminate.
    + destruct (Ascii.eqb_spec (lower_char c) (lower_char t)) as [Hc|Hc].
      * rewrite IH. split.
        -- intros (m & -> & Hm & ->). exists (String c m). cbn. by rewrite Hc, Hm.
        -- intros ([|c' m] & Hs & Hm & ->); [discriminate|].
           rewrite append_cons in Hs. injection Hs as <- ->. cbn in Hm.
           injection Hm as _ Hm. by exists m.
      * split; [done|]. intros ([|c' m] & Hs & Hm & _); [discriminate|].
        rewrite append_cons in Hs. injection Hs as <- _. cbn in Hm. by injection Hm.
Qed.

Lemma match_at_iff term before s :
  match_at term before s = true
  <-> exists m rest, s = m +:+ rest /\ lower_ascii m = lower_ascii term /\
        boundary before (head s) = true /\
        boundary (last_of before m) (head rest) = true.
Proof.
  unfold match_at. destruct (strip term s before) as [[last rest]|] eqn:Hs.
  - apply strip_iff in Hs as (m & -> & Hm & ->). rewrite andb_true_iff. split.
    + intros [H1 H2]. by exists m, rest.
    + intros (m' & rest' & Heq & Hm' & H1 & H2). split; [done|].
      apply append_inv_length in Heq as [<- <-]; [done|].
      apply (f_equal String.length) in Hm, Hm'.
      rewrite !length_lower_ascii in Hm, Hm'. congruence.
  - split; [done|]. intros (m & rest & -> & Hm & _).
    assert (strip term (m +:+ rest) before = Some (last_of before m, rest)) as Hs'
      by (apply strip_iff; by exists m).
    congruence.
Qed.

(** The regular expression of a term matches exactly where the term occurs
    as a whole word. *)
Lemma regex_test_occurs term before s :
  regex_test term before s = true <-> occurs term before s.
Proof.
  revert before. induction s as [|c s IH]; intros before; cbn [regex_test].
  - rewrite orb_false_r, match_at_iff. split.
    + intros (m & rest & Hs & Hm & H1 & H2). exists "", m, rest.
      rewrite append_nil_l. cbn [last_of]. by rewrite <- Hs.
    + intros ([|c pre] & m & post & Hs & Hm & H1 & H2); [|discriminate].
      rewrite append_nil_l in Hs. exists m, post. cbn [last_of] in *.
      by rewrite Hs.
  - rewrite orb_true_iff, match_at_iff, IH. split.
    + intros [(m & rest & Hs & Hm & H1 & H2)|(pre & m & post & -> & Hm & H1 & H2)].
      * exists "", m, rest. rewrite append_nil_l. cbn [last_of]. by rewrite <- Hs.
      * by exists (String c pre), m, post.
    + intros ([|c' pre] & m & post & Hs & Hm & H1 & H2).
      * left. rewrite append_nil_l in Hs. exists m, post. cbn [last_of] in *.
        by rewrite Hs.
      * right. rewrite append_cons in Hs. injection Hs as <- ->.
        by exists pre, m, post.
Qed.

#[global] Instance occurs_dec term before code : Decision (occurs term before code).
Proof.
  refine (cast_if (decide (regex_test term before code = true)));
    by rewrite <- regex_test_occurs.
Defined.

(** The violation pushed for a term by either check. *)
Definition code_violation (toLowerCase : string -> string)
    (kind : GovernanceViolationType) (adapter : GovernanceProfile)
    (code term : string) (ts : Z) : GovernanceViolation :=
  {| type := kind; term := term; context := extractContext toLowerCase code term;
     severity := error; profile := name adapter; timestamp := ts |}.

Lemma checkExecutionCapability_loop_spec toLowerCase adapter now code terms violations :
  checkExecutionCapability_loop toLowerCase adapter now code terms violations =
  (violations ++
   imap (fun k t => code_violation toLowerCase EXECUTION_CAPABILITY adapter code t
                      (now (length violations + k)%nat))
     (filter (fun t => regex_test t None code = true) terms))%list.
Proof.
  revert violations. induction terms as [|t terms IH]; intros violations;
    cbn [checkExecutionCapability_loop].
  - rewrite filter_nil. cbn. by rewrite app_nil_r.
  - rewrite filter_cons. destruct (regex_test t None code) eqn:Hf.
    + rewrite decide_True by done. rewrite IH, <- app_assoc. cbn.
      rewrite Nat.add_0_r. f_equal. f_equal. apply imap_ext. intros k x _. cbn.
      rewrite length_app. cbn. do 2 f_equal. lia.
    + rewrite decide_False by done. apply IH.
Qed.

Lemma checkSorLeakage_loop_spec toLowerCase adapter now code patterns violations :
  checkSorLeakage_loop toLowerCase adapter now code patterns violations =
  (violations ++
   imap (fun k t => code_violation toLowerCase SOR_LEAKAGE adapter code t
                      (now (length violations + k)%nat))
     (filter (fun t => regex_test t None code = true) patterns))%list.
Proof.
  revert violations. induction patterns as [|t patterns IH]; intros violations;
    cbn [checkSorLeakage_loop].
  - rewrite filter_nil. cbn. by rewrite app_nil_r.
  - rewrite filter_cons. destruct (regex_test t None code) eqn:Hf.
    + rewrite decide_True by done. rewrite IH, <- app_assoc. cbn.
      rewrite Nat.add_0_r. f_equal. f_equal. apply imap_ext. intros k x _. cbn.
      rewrite length_app. cbn. do 2 f_equal. lia.
    + rewrite decide_False by done. apply IH.
Qed.

Lemma fmap_imap_id {A B} (f : nat -> A -> B) (g : B -> A) (l : list A) :
  (forall k x, g (f k x) = x) -> g <$> imap f l = l.
Proof.
  intros Hfg. revert f Hfg. induction l as [|x l IH]; intros f Hfg; [done|].
  rewrite imap_cons. cbn. rewrite Hfg. f_equal. apply IH. intros k y. apply Hfg.
Qed.

(** [checkExecutionCapability] and [checkSorLeakage]. A profile that allows
    the capability yields no violation. Otherwise the violations list, in the
    order of the configuration, the terms that occur in the code as whole
    words, in any letter case, one violation each, of type
    [EXECUTION_CAPABILITY] or [SOR_LEAKAGE]. A term inside a longer word is
    not reported by these checks, though the substring test of
    [checkAdvisoryLanguage] would find it: every term they report occurs as a
    substring, and not the other way round. *)
Theorem code_checks_spec :
  (forall toLowerCase adapter now code,
     (executionAllowed (enforcement adapter) = true ->
      checkExecutionCapability toLowerCase adapter now code = []) /\
     (sorAllowed (enforcement adapter) = true ->
      checkSorLeakage toLowerCase adapter now code = [])) /\
  (forall toLowerCase adapter now code,
     executionAllowed (enforcement adapter) = false ->
     term <$> checkExecutionCapability toLowerCase adapter now code
       = filter (fun t => occurs t None code)
           (forbiddenExecutionTerms (enforcement adapter)) /\
     Forall (fun v => type v = EXECUTION_CAPABILITY /\ profile v = name adapter)
       (checkExecutionCapability toLowerCase adapter now code)) /\
  (forall toLowerCase adapter now code,
     sorAllowed (enforcement adapter) = false ->
     term <$> checkSorLeakage toLowerCase adapter now code
       = filter (fun t => occurs t None code)
           (forbiddenSorPatterns (enforcement adapter)) /\
     Forall (fun v => type v = SOR_LEAKAGE /\ profile v = name adapter)
       (checkSorLeakage toLowerCase adapter now code)) /\
  (forall toLowerCase term code,
     GovernanceProps.keeps toLowerCase term ->
     occurs term None code -> GovernanceProps.flagged toLowerCase code term = true) /\
  ((forall toLowerCase,
      GovernanceProps.lowers_ascii toLowerCase ->
      GovernanceProps.flagged toLowerCase "trademark" "trade" = true) /\
   ~ occurs "trade" None "trademark").
Proof.
  assert (forall code (terms : list string),
            filter (fun t => regex_test t None code = true) terms
            = filter (fun t => occurs t None code) terms) as Hfilter.
  { intros code terms. apply list_filter_iff. intros t. apply regex_test_occurs. }
  split; [|split; [|split; [|split]]].
  - intros toLowerCase adapter now code. unfold checkExecutionCapability, checkSorLeakage.
    split; by intros ->.
  - intros toLowerCase adapter now code Ha. unfold checkExecutionCapability. rewrite Ha.
    rewrite checkExecutionCapability_loop_spec. cbn [app]. rewrite <- Hfilter. split.
    + by apply fmap_imap_id.
    + apply Forall_forall. intros v [k (t & _ & ->)%list_lookup_imap_Some]%list_elem_of_lookup_1.
      done.
  - intros toLowerCase adapter now code Ha. unfold checkSorLeakage. rewrite Ha.
    rewrite checkSorLeakage_loop_spec. cbn [app]. rewrite <- Hfilter. split.
    + by apply fmap_imap_id.
    + apply Forall_forall. intros v [k (t & _ & ->)%list_lookup_imap_Some]%list_elem_of_lookup_1.
      done.
  - intros toLowerCase term code Hkeeps Hocc%regex_test_occurs.
    by eapply EnforcementHooksProps.regex_test_flagged.
  - split; [|by intros H%regex_test_occurs].
    intros toLowerCase Hlow. by rewrite GovernanceProps.flagged_ascii.
Qed.

Lemma code_checks_spec_witness :
  term <$> checkExecutionCapability lower_ascii FO_PROFILE (fun _ => 0)
             "await broker.placeorder(x); // no Trademark here"
  = filter (fun t => occurs t None "await broker.placeorder(x); // no Trademark here")
      (forbiddenExecutionTerms (enforcement FO_PROFILE)).
Proof.
  exact (proj1 (proj1 (proj2 code_checks_spec) lower_ascii FO_PROFILE (fun _ => 0)
           "await broker.placeorder(x); // no Trademark here" eq_refl)).
Defined.

Lemma checkDependencies_loop_spec adapter now dependencies violations :
  checkDependencies_loop adapter now dependencies violations =
  (violations ++
   imap (fun k dep =>
           {| type := FORBIDDEN_DEPENDENCY; term := dep;
              context := "Dependency: " +:+ dep; severity := error;
              profile := name adapter;
              timestamp := now (length violations + k)%nat |})
     (filter (fun dep => dep ∈ forbiddenDependencies (enforcement adapter))
        dependencies))%list.
Proof.
  revert violations. induction dependencies as [|d dependencies IH]; intros violations;
    cbn [checkDependencies_loop].
  - rewrite filter_nil. cbn. by rewrite app_nil_r.
  - rewrite filter_cons. case_bool_decide as Hd.
    + rewrite decide_True by done. rewrite IH, <- app_assoc. cbn.
      rewrite Nat.add_0_r. f_equal. f_equal. apply imap_ext. intros k x _. cbn.
      rewrite length_app. cbn. do 2 f_equal. lia.
    + rewrite decide_False by done. apply IH.
Qed.

(** [checkDependencies] and [checkAll]. The dependency check reports the
    packages of the list it is given that are, letter for letter, forbidden
    packages of the profile, in the order and as many times as the list
    names them; no flag of the profile switches it off. [checkAll] lists the
    advisory violations, then the execution ones, then the system-of-record
    ones, then the dependency ones, the last only when a list of dependencies
    is passed. *)
Theorem checkDependencies_spec :
  forall toLowerCase adapter now dependencies,
    term <$> checkDependencies adapter now dependencies
      = filter (fun dep => dep ∈ forbiddenDependencies (enforcement adapter)) dependencies /\
    Forall (fun v => type v = FORBIDDEN_DEPENDENCY /\
                     context v = "Dependency: " +:+ term v /\
                     profile v = name adapter)
      (checkDependencies adapter now dependencies) /\
    (forall now1 now2 now3 content,
       term <$> checkAll toLowerCase adapter now1 now2 now3 now content (Some dependencies)
       = ((term <$> checkAdvisoryLanguage toLowerCase adapter now1 content)
          ++ (term <$> checkExecutionCapability toLowerCase adapter now2 content)
          ++ (term <$> checkSorLeakage toLowerCase adapter now3 content)
          ++ filter (fun dep => dep ∈ forbiddenDependencies (enforcement adapter))
               dependencies)%list /\
       checkAll toLowerCase adapter now1 now2 now3 now content None
       = (checkAdvisoryLanguage toLowerCase adapter now1 content
          ++ checkExecutionCapability toLowerCase adapter now2 content
          ++ checkSorLeakage toLowerCase adapter now3 content)%list).
Proof.
  intros toLowerCase adapter now dependencies.
  assert (term <$> checkDependencies adapter now dependencies
          = filter (fun dep => dep ∈ forbiddenDependencies (enforcement adapter))
              dependencies) as Hterms.
  { unfold checkDependencies. rewrite checkDependencies_loop_spec. cbn [app].
    by apply fmap_imap_id. }
  split; [done|]. split.
  - unfold checkDependencies. rewrite checkDependencies_loop_spec. cbn [app].
    apply Forall_forall.
    intros v [k (t & _ & ->)%list_lookup_imap_Some]%list_elem_of_lookup_1. done.
  - intros now1 now2 now3 content. unfold checkAll. split.
    + by rewrite !fmap_app, Hterms.
    + by rewrite app_nil_r.
Qed.

End GovernanceChecksProps.

(** ** Enforcement hooks *)

Module EnforcementProps.
Import GovernanceAdapter Enforcement.

(** The result a content hook builds for a list of violations. *)
Definition result_for (context : TenantContext.TenantContext)
    (violations : list GovernanceViolation) (stamp : Z) : EnforcementResult :=
  {| allowed := bool_decide (violations = []);
     violations := violations;
     r_profile := TenantRegistry.profile (TenantContext.tenant context);
     r_timestamp := stamp;
     r_correlationId := TenantContext.correlationId context |}.

(** What a content hook does with it: the handler is called, and the hook
    returns the result when there is no violation and throws otherwise. *)
Definition enforced {H} (enforcementHandler : EnforcementResult -> EnforcementContext -> H -> H)
    (context : TenantContext.TenantContext) (violations : list GovernanceViolation)
    (stamp : Z) (about : EnforcementContext) (h : H) : outcome EnforcementResult * H :=
  (match violations with
   | [] => Returned (result_for context [] stamp)
   | _ :: _ =>
       Thrown (GovernanceEnforcementError violations
                 (TenantRegistry.profile (TenantContext.tenant context)))
   end,
   enforcementHandler (result_for context violations stamp) about h).

Lemma enforce_enforced {H} (enforcementHandler : EnforcementResult -> EnforcementContext -> H -> H)
    context violations stamp about h :
  enforce H enforcementHandler context violations stamp about h
  = enforced enforcementHandler context violations stamp about h.
Proof. unfold enforce, enforced, result_for. by destruct violations. Qed.

(** The content hooks are fail-closed. Without a tenant context each throws
    [NO_TENANT_CONTEXT] and the enforcement handler is not called. Under a
    context, [enforceReportGeneration], [enforceUiContent] and
    [enforceDataExport] check the text with [checkAdvisoryLanguage] for the
    tenant's profile, call the handler once with the result, whether allowed
    or not, and return the result exactly when there is no violation; with a
    violation they throw a [GovernanceEnforcementError] that carries the
    violations. [withGovernanceEnforcement] throws the same error, but calls
    the handler only when there is a violation; what the wrapped function
    throws comes first, even without a context. *)
Theorem content_hooks_fail_closed :
  forall H (enforcementHandler : EnforcementResult -> EnforcementContext -> H -> H)
      toISOString toLowerCase now stamp text resource h,
    (enforceReportGeneration H enforcementHandler toLowerCase None now stamp text resource h
       = (Thrown (Plain TenantAssertionsProps.no_context), h) /\
     enforceUiContent H enforcementHandler toLowerCase None now stamp text resource h
       = (Thrown (Plain TenantAssertionsProps.no_context), h) /\
     (forall exportData,
        enforceDataExport H enforcementHandler toISOString toLowerCase None now stamp exportData
          resource h
        = (Thrown (Plain TenantAssertionsProps.no_context), h)) /\
     (forall v,
        withGovernanceEnforcement H enforcementHandler toISOString toLowerCase None now stamp
          (Returned v) resource h
        = (Thrown (Plain TenantAssertionsProps.no_context), h))) /\
    (forall context,
       let violations :=
         checkAdvisoryLanguage toLowerCase
           (PROFILES (TenantRegistry.profile (TenantContext.tenant context))) now text in
       enforceReportGeneration H enforcementHandler toLowerCase (Some context) now stamp
         text resource h
       = enforced enforcementHandler context violations stamp
           {| operation := "report_generation"; resource := Some resource;
              content := Some text |} h /\
       enforceUiContent H enforcementHandler toLowerCase (Some context) now stamp text resource h
       = enforced enforcementHandler context violations stamp
           {| operation := "ui_render"; resource := Some resource;
              content := Some text |} h /\
       enforceDataExport H enforcementHandler toISOString toLowerCase (Some context) now stamp
         (JStr text) resource h
       = enforced enforcementHandler context violations stamp
           {| operation := "data_export"; resource := Some resource;
              content := Some text |} h /\
       withGovernanceEnforcement H enforcementHandler toISOString toLowerCase (Some context) now
         stamp (Returned (JStr text)) resource h
       = match violations with
         | [] => (Returned (JStr text), h)
         | _ :: _ =>
             (Thrown (GovernanceEnforcementError violations
                        (TenantRegistry.profile (TenantContext.tenant context))),
              enforcementHandler (result_for context violations stamp)
                {| operation := resource; resource := None; content := Some text |} h)
         end) /\
    (forall als e,
       withGovernanceEnforcement H enforcementHandler toISOString toLowerCase als now stamp
         (Thrown e) resource h = (Thrown e, h)).
Proof.
  intros H enforcementHandler toISOString toLowerCase now stamp text resource h.
  split; [done|]. split; [|done]. intros context violations.
  unfold enforceReportGeneration, enforceUiContent, enforceDataExport,
    withGovernanceEnforcement.
  cbn [TenantContext.getTenantContext forCurrentTenant
       TenantContext.getCurrentTenantProfile mbind result_bind to_text
       checkAdvisoryLanguage_text].
  fold violations. rewrite !enforce_enforced. do 3 (split; [done|]).
  unfold result_for. by destruct violations.
Qed.

(** Exports that are not strings. [enforceDataExport] checks the JSON text
    of the value. For [undefined], which has none, a profile that forbids
    advisory language makes the hook throw a [TypeError] before the handler is
    called, while under the advisor profile the export is allowed; a value
    that cannot be serialized at all makes the hook throw what
    [JSON.stringify] throws. *)
Theorem enforceDataExport_without_text :
  forall H (enforcementHandler : EnforcementResult -> EnforcementContext -> H -> H)
      toISOString toLowerCase context now stamp exportType h,
    (TenantRegistry.profile (TenantContext.tenant context) <> TenantRegistry.advisor ->
     exists message,
       enforceDataExport H enforcementHandler toISOString toLowerCase (Some context) now stamp
         JUndefined exportType h = (Thrown (Plain (TypeError message)), h)) /\
    (TenantRegistry.profile (TenantContext.tenant context) = TenantRegistry.advisor ->
     enforceDataExport H enforcementHandler toISOString toLowerCase (Some context) now stamp
       JUndefined exportType h
     = enforced enforcementHandler context [] stamp
         {| operation := "data_export"; resource := Some exportType; content := None |}
         h) /\
    (forall n,
     exists message,
       enforceDataExport H enforcementHandler toISOString toLowerCase (Some context) now stamp
         (JBigInt n) exportType h = (Thrown (Plain (TypeError message)), h)).
Proof.
  intros H enforcementHandler toISOString toLowerCase context now stamp exportType h.
  unfold enforceDataExport.
  cbn [TenantContext.getTenantContext forCurrentTenant
       TenantContext.getCurrentTenantProfile mbind result_bind to_text Json.stringify
       checkAdvisoryLanguage_text].
  split; [|split].
  - intros Hp. destruct (TenantRegistry.profile _); cbn; by eauto.
  - intros ->. cbn. by rewrite enforce_enforced.
  - intros n. eauto.
Qed.

Lemma enforceDataExport_without_text_witness :
  exists message,
    enforceDataExport (list EnforcementResult) (fun r _ h => r :: h) (fun _ => "t")
      JsString.lower_ascii
      (Some Samples.context_A) (fun _ => 0) 0 JUndefined "csv" []
    = (Thrown (Plain (TypeError message)), []).
Proof.
  apply (proj1 (enforceDataExport_without_text (list EnforcementResult)
                  (fun r _ h => r :: h) (fun _ => "t") JsString.lower_ascii
                  Samples.context_A
                  (fun _ => 0) 0 "csv" [])).
  discriminate.
Defined.

(** The profile guards. Every profile forbids execution and
    system-of-record logic, so under any tenant context [assertNoExecution]
    and [assertNoSor] throw a [GovernanceEnforcementError] with one violation
    of their kind: neither ever returns. [assertFoGovernance] returns under
    every context. Without a context all three throw [NO_TENANT_CONTEXT]. *)
Theorem profile_guards :
  (forall context now,
     let profile := TenantRegistry.profile (TenantContext.tenant context) in
     (exists v,
        assertNoExecution (Some context) now
          = Thrown (GovernanceEnforcementError [v] profile) /\
        type v = EXECUTION_CAPABILITY /\ term v = "execution_attempt" /\
        GovernanceAdapter.profile v = profile /\ timestamp v = now) /\
     (exists v,
        assertNoSor (Some context) now = Thrown (GovernanceEnforcementError [v] profile) /\
        type v = SOR_LEAKAGE /\ term v = "sor_attempt" /\
        GovernanceAdapter.profile v = profile /\ timestamp v = now) /\
     assertFoGovernance (Some context) = Ok tt) /\
  (forall now,
     assertNoExecution None now = Thrown (Plain TenantAssertionsProps.no_context) /\
     assertNoSor None now = Thrown (Plain TenantAssertionsProps.no_context) /\
     assertFoGovernance None = Throw TenantAssertionsProps.no_context).
Proof.
  split; [|done]. intros context now profile. subst profile.
  unfold assertNoExecution, assertNoSor, assertFoGovernance. cbn.
  destruct (TenantRegistry.profile (TenantContext.tenant context)); cbn;
    (split; [eexists; split; [reflexivity|done]|]);
    (split; [eexists; split; [reflexivity|done]|done]).
Qed.

End EnforcementProps.

(** ** Sanitization removes whole words *)

Module SanitizeProps.
Import JsString JsStringProps GovernanceAdapter EnforcementHooks.
Import GovernanceChecksProps.

(** The characters the configured advisory terms are made of: word
    characters and spaces. *)
Definition plain_char (c : ascii) : bool :=
  is_word (Some c) || Ascii.eqb c " ".

Fixpoint all_plain (t : string) : bool :=
  match t with
  | EmptyString => true
  | String c r => plain_char c && all_plain r
  end.

(** A term that starts and ends with a word character. *)
Definition worded (t : string) : bool :=
  is_word (head t) && is_word (last_of None t) && all_plain t.

(** A term no match of which can be read off the replacement text. *)
Definition clean (t : string) : Prop :=
  forall before rest,
    regex_test t before ("[REDACTED]" +:+ rest) = regex_test t (Some "]"%char) rest.

Lemma is_word_lower_char c : is_word (Some (lower_char c)) = is_word (Some c).
Proof. by destruct c as [[] [] [] [] [] [] [] []]. Qed.

Lemma is_word_same_letter c t :
  lower_char c = lower_char t -> is_word (Some c) = is_word (Some t).
Proof. intros H. by rewrite <- (is_word_lower_char c), H, is_word_lower_char. Qed.

Lemma plain_not_bracket t : plain_char t = true -> lower_char "["%char <> lower_char t.
Proof.
  unfold plain_char. intros [Hw|Hs%Ascii.eqb_eq]%orb_prop He.
  - apply is_word_same_letter in He. by rewrite Hw in He.
  - by subst t.
Qed.

Lemma worded_head t :
  worded t = true -> exists t0 t', t = String t0 t' /\ is_word (Some t0) = true.
Proof.
  unfold worded. destruct t as [|t0 t']; [done|]. cbn [head].
  intros [[H _]%andb_prop _]%andb_prop. by exists t0, t'.
Qed.

Lemma worded_all_plain t : worded t = true -> all_plain t = true.
Proof. unfold worded. by intros [_ H]%andb_prop. Qed.

Lemma worded_last t : worded t = true -> is_word (last_of None t) = true.
Proof. unfold worded. by intros [[_ H]%andb_prop _]%andb_prop. Qed.

Lemma last_of_same_letter x y m t :
  lower_ascii m = lower_ascii t -> m <> "" ->
  is_word (last_of x m) = is_word (last_of y t).
Proof.
  revert x y t. induction m as [|c m IH]; intros x y [|t0 t]; try done. cbn.
  intros [= Hc Hm] _. destruct m as [|c' m].
  - destruct t; [|done]. cbn. by apply is_word_same_letter.
  - by apply IH.
Qed.

(** A match of a worded term ends on a word character, and is followed by
    none. *)
Lemma strip_last_word t s last last' rest :
  worded t = true -> strip t s last = Some (last', rest) -> is_word last' = true.
Proof.
  intros Ht (m & -> & Hm & ->)%strip_iff.
  rewrite (last_of_same_letter last None m t Hm); [by apply worded_last|].
  intros ->. by destruct (worded_head t Ht) as (t0 & t' & -> & _).
Qed.

Lemma strip_head_word t s last last' rest :
  worded t = true -> strip t s last = Some (last', rest) -> is_word (head s) = true.
Proof.
  intros (t0 & t' & -> & Ht0)%worded_head. cbn. destruct s as [|c s]; [done|].
  destruct (Ascii.eqb_spec (lower_char c) (lower_char t0)) as [Hc|]; [|done].
  intros _. cbn [head]. by rewrite (is_word_same_letter _ _ Hc).
Qed.

Lemma strip_length t s last last' rest :
  strip t s last = Some (last', rest) -> rest = drop (String.length t) s.
Proof.
  intros (m & -> & Hm & _)%strip_iff.
  apply (f_equal String.length) in Hm. rewrite !length_lower_ascii in Hm.
  by rewrite <- Hm, drop_append.
Qed.

Lemma match_at_after u before c rest :
  worded u = true -> match_at u before (String c rest) = true ->
  is_word before = false /\
  is_word (head (drop (String.length u - 1) rest)) = false.
Proof.
  intros Hu. unfold match_at.
  destruct (strip u (String c rest) before) as [[last rest']|] eqn:Hs; [|done].
  intros [H1 H2]%andb_prop.
  pose proof (strip_head_word _ _ _ _ _ Hu Hs) as Hhead.
  pose proof (strip_last_word _ _ _ _ _ Hu Hs) as Hlast.
  apply strip_length in Hs. unfold boundary in *. rewrite Hhead in H1. rewrite Hlast in H2.
  split; [by destruct (is_word before)|].
  destruct (worded_head u Hu) as (u0 & u' & -> & _). cbn [String.length] in *.
  rewrite Nat.sub_1_r. cbn [Nat.pred]. cbn [drop] in Hs. subst rest'.
  by destruct (is_word (head _)).
Qed.

Section Replace.

Variables t u : string.
Hypothesis Ht : worded t = true.
Hypothesis Hu : worded u = true.
Hypothesis Hclean : clean t.

(** Reading a piece of a plain term off the replaced text reads it off the
    original, and leaves the replaced rest of the original. *)
Lemma strip_replaced t' rest last last' restY :
  all_plain t' = true ->
  strip t' (regex_replace u "[REDACTED]" last 0 rest) last = Some (last', restY) ->
  exists rest',
    strip t' rest last = Some (last', rest') /\
    restY = regex_replace u "[REDACTED]" last' 0 rest'.
Proof.
  revert rest last. induction t' as [|tc t' IH]; intros rest last Hplain; cbn [strip].
  - intros [= <- <-]. by exists rest.
  - cbn in Hplain. apply andb_prop in Hplain as [Htc Hplain].
    destruct rest as [|c rest]; [done|]. cbn [regex_replace].
    destruct (match_at u last (String c rest)).
    + rewrite append_cons.
      destruct (Ascii.eqb_spec (lower_char "[") (lower_char tc)) as [Hb|]; [|done].
      by apply plain_not_bracket in Hb.
    + destruct (Ascii.eqb (lower_char c) (lower_char tc)); [|done]. by apply IH.
Qed.

(** The places the replacement passes over without replacing hold no match
    of [t]. *)
Fixpoint quiet (before : option ascii) (skip : nat) (s : string) : bool :=
  match s with
  | EmptyString => true
  | String c rest =>
      match skip with
      | S k => quiet (Some c) k rest
      | O =>
          if match_at u before s then quiet (Some c) (String.length u - 1) rest
          else negb (match_at t before s) && quiet (Some c) 0 rest
      end
  end.

Lemma quiet_of_no_match before skip s :
  regex_test t before s = false -> quiet before skip s = true.
Proof.
  revert before skip. induction s as [|c s IH]; intros before skip; [done|].
  cbn [regex_test quiet]. intros [Hm Hrest]%orb_false_elim.
  destruct skip as [|k]; [|by apply IH].
  destruct (match_at u before (String c s)); [by apply IH|].
  rewrite Hm. cbn. by apply IH.
Qed.

(** What the replacement has in hand at a position: it is passing the
    characters of a match, after which no word character comes; or it reads on
    with its left neighbour in the output the one of the input, or with no
    word character under it. *)
Definition reading (before before' : option ascii) (skip : nat) (s : string) : Prop :=
  match skip with
  | O => before' = before \/ is_word (head s) = false
  | S _ => is_word (head (drop skip s)) = false
  end.

Lemma match_at_replaced before c rest :
  match_at u before (String c rest) = false ->
  match_at t before (String c (regex_replace u "[REDACTED]" (Some c) 0 rest)) = true ->
  match_at t before (String c rest) = true.
Proof.
  intros Hno. unfold match_at at 1.
  destruct (strip t (String c _) before) as [[last restY]|] eqn:Hs; [|done].
  intros [H1 H2]%andb_prop.
  pose proof (strip_last_word _ _ _ _ _ Ht Hs) as Hlast.
  destruct (worded_head t Ht) as (t0 & t' & Heq & Ht0).
  pose proof (worded_all_plain t Ht) as Hplain. rewrite Heq in Hs, Hplain.
  cbn [strip] in Hs. cbn in Hplain. apply andb_prop in Hplain as [_ Hplain].
  destruct (Ascii.eqb (lower_char c) (lower_char t0)) eqn:Hc; [|done].
  apply strip_replaced in Hs as (rest' & Hs & ->); [|done].
  unfold match_at. rewrite Heq. cbn [strip]. rewrite Hc, Hs.
  apply andb_true_intro. split; [done|].
  unfold boundary in *. rewrite Hlast in *.
  destruct rest' as [|c2 r2]; [done|]. cbn [regex_replace] in H2.
  destruct (match_at u last (String c2 r2)) eqn:Hm.
  - apply match_at_after in Hm as [Hm _]; [|done]. by rewrite Hlast in Hm.
  - done.
Qed.

Lemma regex_test_replaced s before before' skip :
  reading before before' skip s ->
  quiet before skip s = true ->
  regex_test t before' (regex_replace u "[REDACTED]" before skip s) = false.
Proof.
  destruct (worded_head t Ht) as (t0 & t' & Heq & Ht0).
  revert before before' skip. induction s as [|c s IH]; intros before before' skip.
  - intros _ _. cbn. unfold match_at. rewrite Heq. done.
  - cbn [regex_replace quiet]. destruct skip as [|k].
    + destruct (match_at u before (String c s)) eqn:Hm.
      * intros _ Hq. rewrite Hclean. apply IH; [|done].
        apply match_at_after in Hm as [_ Hm]; [|done].
        unfold reading. destruct (String.length u - 1)%nat; [|done].
        right. by rewrite drop_0 in Hm.
      * intros Hr [Hno Hq]%andb_prop. apply negb_true_iff in Hno.
        cbn [regex_test]. apply orb_false_intro.
        -- destruct Hr as [->|Hr].
           ++ apply not_true_is_false. intros H.
              apply match_at_replaced in H; [|done]. congruence.
           ++ unfold match_at. rewrite Heq. cbn [strip].
              destruct (Ascii.eqb_spec (lower_char c) (lower_char t0)) as [Hc|]; [|done].
              apply is_word_same_letter in Hc. cbn [head] in Hr. congruence.
        -- apply IH; [|done]. by left.
    + intros Hr Hq. apply IH; [|done]. unfold reading in *.
      destruct k as [|k]; [right|]; exact Hr.
Qed.

End Replace.

Lemma quiet_same u before skip s : quiet u u before skip s = true.
Proof.
  revert before skip. induction s as [|c s IH]; intros before skip; [done|].
  cbn [quiet]. destruct skip as [|k]; [|apply IH].
  destruct (match_at u before (String c s)); [apply IH|]. cbn. apply IH.
Qed.

(** Replacing the matches of a term leaves no match of it, and makes no
    match of another term. *)
Lemma regex_replace_removes u s :
  worded u = true -> clean u ->
  regex_test u None (regex_replace u "[REDACTED]" None 0 s) = false.
Proof.
  intros Hu Hclean. apply regex_test_replaced; try done; [by left|apply quiet_same].
Qed.

Lemma regex_replace_adds_none t u s :
  worded t = true -> worded u = true -> clean t ->
  regex_test t None s = false ->
  regex_test t None (regex_replace u "[REDACTED]" None 0 s) = false.
Proof.
  intros Ht Hu Hclean Hno. apply regex_test_replaced; try done; [by left|].
  by apply quiet_of_no_match.
Qed.

(** Terms fit for the argument. *)
Definition fit (t : string) : Prop := worded t = true /\ clean t.

Lemma sanitizeContent_loop_spec terms s removed :
  Forall fit terms ->
  let out := sanitizeContent_loop terms s removed in
  (forall t, fit t -> regex_test t None s = false -> regex_test t None out.1 = false) /\
  Forall (fun t => regex_test t None out.1 = false) terms /\
  (exists more, out.2 = (removed ++ more)%list /\ more `sublist_of` terms /\
                Forall (fun t => regex_test t None s = true) more /\
                (more = [] -> out.1 = s)).
Proof.
  intros Hfit. revert s removed.
  induction Hfit as [|u terms [Hu Hclean] Hfit IH]; intros s removed;
    cbn [sanitizeContent_loop].
  - cbn. split; [done|]. split; [done|]. exists []. by rewrite app_nil_r.
  - destruct (regex_test u None s) eqn:Hm.
    + specialize (IH (regex_replace u "[REDACTED]" None 0 s) (removed ++ [u])%list).
      cbn zeta in *. destruct IH as (Hkeep & Hall & more & Hmore & Hsub & Hwas & _).
      split; [|split].
      * intros t [Ht Hct] Hno. apply Hkeep; [done|]. by apply regex_replace_adds_none.
      * constructor; [|done]. apply Hkeep; [done|]. by apply regex_replace_removes.
      * exists (u :: more). rewrite Hmore, <- app_assoc. split; [done|].
        split; [by constructor|]. split; [|done]. constructor; [done|].
        apply Forall_forall. intros t Hin.
        assert (fit t) as [Ht Hct].
        { eapply Forall_forall; [exact Hfit|]. by eapply elem_of_sublist. }
        rewrite Forall_forall in Hwas. specialize (Hwas t Hin).
        destruct (regex_test t None s) eqn:Hts; [done|].
        by rewrite (regex_replace_adds_none t u s) in Hwas.
    + specialize (IH s removed). cbn zeta in *.
      destruct IH as (Hkeep & Hall & more & Hmore & Hsub & Hwas & Hsame).
      split; [done|]. split.
      * constructor; [|done]. by apply Hkeep.
      * exists more. split; [done|]. split; [by constructor|done].
Qed.

Lemma sanitizeContent_loop_idle terms s removed :
  Forall (fun t => regex_test t None s = false) terms ->
  sanitizeContent_loop terms s removed = (s, removed).
Proof.
  induction 1 as [|t terms Ht _ IH]; [done|]. cbn [sanitizeContent_loop]. by rewrite Ht.
Qed.

Lemma regex_test_cons t before c rest :
  regex_test t before (String c rest)
  = match_at t before (String c rest) || regex_test t (Some c) rest.
Proof. reflexivity. Qed.

Ltac clean_term :=
  intros before rest; cbv -[regex_test]; rewrite !regex_test_cons;
  cbv -[regex_test]; reflexivity.

(** Every advisory term of the three profiles is fit. *)
Lemma advisory_terms_fit p :
  Forall fit (forbiddenAdvisoryTerms (enforcement (PROFILES p))).
Proof.
  destruct p;
    cbn [PROFILES FO_PROFILE RETAIL_PROFILE ADVISOR_PROFILE enforcement
         forbiddenAdvisoryTerms];
    repeat (constructor; [split; [vm_compute; reflexivity | clean_term]|]);
    constructor.
Qed.

(** [sanitizeContent] under a context returns a text in which no
    forbidden advisory term of the tenant's profile occurs as a whole word, in
    any letter case. The removed terms it reports are terms of the profile, in
    the profile's order, each of which occurred in the content as a whole
    word; when it reports none the content is returned as it was; and
    sanitizing the result again changes nothing and reports nothing. *)
Theorem sanitizeContent_removes_whole_words context content :
  exists sanitized removedTerms,
    sanitizeContent (Some context) content = Ok (sanitized, removedTerms) /\
    let terms :=
      forbiddenAdvisoryTerms
        (enforcement (PROFILES (TenantRegistry.profile (TenantContext.tenant context)))) in
    (forall term, term ∈ terms -> ~ occurs term None sanitized) /\
    removedTerms `sublist_of` terms /\
    (forall term, term ∈ removedTerms -> occurs term None content) /\
    (removedTerms = [] -> sanitized = content) /\
    sanitizeContent (Some context) sanitized = Ok (sanitized, []).
Proof.
  unfold sanitizeContent, forCurrentTenant, TenantContext.getCurrentTenantProfile,
    TenantContext.getTenantContext. cbn.
  set (terms := forbiddenAdvisoryTerms _).
  pose proof (advisory_terms_fit (TenantRegistry.profile (TenantContext.tenant context)))
    as Hfit. fold terms in Hfit.
  destruct (sanitizeContent_loop_spec terms content [] Hfit)
    as (_ & Hall & more & Hmore & Hsub & Hwas & Hsame).
  destruct (sanitizeContent_loop terms content []) as [sanitized removedTerms] eqn:Hloop.
  cbn [fst snd] in *. rewrite app_nil_l in Hmore. subst more.
  exists sanitized, removedTerms. split; [done|].
  split; [|split; [done|split; [|split; [done|]]]].
  - intros term Hin Hocc. apply regex_test_occurs in Hocc.
    rewrite Forall_forall in Hall. by rewrite (Hall term Hin) in Hocc.
  - intros term Hin. apply regex_test_occurs.
    rewrite Forall_forall in Hwas. by apply Hwas.
  - by rewrite sanitizeContent_loop_idle.
Qed.

End SanitizeProps.

(** ** Role-based access control *)

Module RbacProps.
Import Rbac.

Lemma elem_of_Set_add {A : Type} `{EqDecision A} (set : list A) (x y : A) :
  y ∈ Set_add set x <-> y ∈ set \/ y = x.
Proof.
  unfold Set_add. case_bool_decide as Hx.
  - split; [by left|]. by intros [?| ->].
  - rewrite elem_of_app, list_elem_of_singleton. done.
Qed.

Lemma elem_of_foldl_Set_add {A : Type} `{EqDecision A} (set xs : list A) (y : A) :
  y ∈ foldl Set_add set xs <-> y ∈ set \/ y ∈ xs.
Proof.
  revert set. induction xs as [|x xs IH]; intros set; cbn [foldl].
  - rewrite elem_of_nil. tauto.
  - rewrite IH, elem_of_Set_add, elem_of_cons. tauto.
Qed.

Lemma NoDup_foldl_Set_add {A : Type} `{EqDecision A} (set xs : list A) :
  NoDup set -> NoDup (foldl Set_add set xs).
Proof.
  revert set. induction xs as [|x xs IH]; intros set Hset; [done|]. cbn [foldl].
  apply IH. unfold Set_add. case_bool_decide as Hx; [done|].
  apply NoDup_app. split; [done|]. split; [|apply NoDup_singleton].
  intros y Hy ->%list_elem_of_singleton. done.
Qed.

(** No definition inherits, so the permissions of a role are the ones its
    definition lists, whatever the depth allowed. *)
Lemma getPermissionsForRole_within_listed depth role :
  getPermissionsForRole_within depth role = new_Set (permissions (ROLE_DEFINITIONS role)).
Proof. by destruct depth, role. Qed.

Lemma elem_of_getPermissionsForRole role permission :
  permission ∈ getPermissionsForRole role
  <-> permission ∈ permissions (ROLE_DEFINITIONS role).
Proof.
  unfold getPermissionsForRole. rewrite getPermissionsForRole_within_listed.
  unfold new_Set. rewrite elem_of_foldl_Set_add, elem_of_nil. tauto.
Qed.

Lemma elem_of_user_permissions roles set permission :
  permission ∈ foldl (fun permissions role =>
                        foldl Set_add permissions (getPermissionsForRole role)) set roles
  <-> permission ∈ set \/
      exists role, role ∈ roles /\ permission ∈ permissions (ROLE_DEFINITIONS role).
Proof.
  revert set. induction roles as [|r roles IH]; intros set; cbn [foldl].
  - split; [by left|]. intros [?|(r & Hr & _)]; [done|]. by apply elem_of_nil in Hr.
  - rewrite IH, elem_of_foldl_Set_add, elem_of_getPermissionsForRole. split.
    + intros [[?|?]|(r' & Hr' & Hp)]; [by left| |].
      * right. exists r. split; [by left|done].
      * right. exists r'. split; [by right|done].
    + intros [?|(r' & [->|Hr']%elem_of_cons & Hp)]; [by left; left| |].
      * by left; right.
      * right. by exists r'.
Qed.

(** The assignments kept for a user of a tenant. *)
Definition assigned (st : RBACImpl) (tenantId userId : string) : list UserRoleAssignment :=
  default [] (assignments st !! assignmentKey tenantId userId).

Definition tenant_id (context : TenantContext.TenantContext) : string :=
  TenantRegistry.id (TenantContext.tenant context).

Lemma getUserRoles_assigned context now st userId :
  getUserRoles (Some context) now st userId
  = Ok (role <$> filter (unexpired now) (assigned st (tenant_id context) userId)).
Proof. reflexivity. Qed.

Lemma hasRole_assigned context now st userId role0 :
  hasRole (Some context) now st userId role0
  = Ok (bool_decide
          (role0 ∈ role <$> filter (unexpired now) (assigned st (tenant_id context) userId))).
Proof. reflexivity. Qed.

Lemma assignRole_assigned context now st userId role0 assignedBy expires tenantId' userId' :
  assigned (assignRole (Some context) now st userId role0 assignedBy expires).2
    tenantId' userId'
  = if bool_decide (assignmentKey tenantId' userId'
                    = assignmentKey (tenant_id context) userId)
    then (filter (other_role role0) (assigned st (tenant_id context) userId) ++
            [ {| userId := userId; tenantId := tenant_id context; role := role0;
                 assignedAt := now; assignedBy := assignedBy; expiresAt := expires |} ])%list
    else assigned st tenantId' userId'.
Proof.
  unfold assigned, assignRole, tenant_id. cbn. case_bool_decide as Hk.
  - rewrite Hk. by rewrite lookup_insert_eq.
  - by rewrite lookup_insert_ne.
Qed.

Lemma removeRole_assigned context st userId role0 tenantId' userId' :
  assigned (removeRole (Some context) st userId role0).2 tenantId' userId'
  = if bool_decide (assignmentKey tenantId' userId'
                    = assignmentKey (tenant_id context) userId)
    then filter (other_role role0) (assigned st (tenant_id context) userId)
    else assigned st tenantId' userId'.
Proof.
  unfold assigned, removeRole, tenant_id. cbn.
  destruct (assignments st !! assignmentKey _ userId) as [existing|] eqn:He; cbn.
  - case_bool_decide as Hk.
    + rewrite Hk. by rewrite lookup_insert_eq.
    + by rewrite lookup_insert_ne.
  - case_bool_decide as Hk; [|done]. rewrite Hk, He. done.
Qed.

Lemma filter_none {A : Type} (P : A -> Prop) `{!forall x, Decision (P x)} (l : list A) :
  Forall (fun x => ~ P x) l -> filter P l = [].
Proof. induction 1 as [|x l Hx _ IH]; [done|]. by rewrite filter_cons_False. Qed.

Lemma elem_of_roles role0 (l : list UserRoleAssignment) :
  role0 ∈ role <$> l <-> exists a, a ∈ l /\ role a = role0.
Proof.
  rewrite list_elem_of_fmap. split.
  - intros (a & -> & Ha). by exists a.
  - intros (a & Ha & <-). by exists a.
Qed.

(** The expiry of an assignment made with [expiresAt]. *)
Definition lasting (expires : option Z) (now : Z) : Prop :=
  match expires with
  | None => True
  | Some t => now < t
  end.

#[global] Instance lasting_dec expires now : Decision (lasting expires now).
Proof. destruct expires; cbn; apply _. Defined.

(** After [assignRole] gives a user a role, [hasRole] answers for that
    user and role, at any later time, whether the assignment has not
    expired (it lasts for ever without [expiresAt], and else while the time
    is before it); the answer for any other role of the user is what it was;
    and the user holds one assignment of the role, the one returned. *)
Theorem assignRole_then_hasRole context now st userId role0 assignedBy expires :
  exists assignment st',
    assignRole (Some context) now st userId role0 assignedBy expires = (Ok assignment, st') /\
    assignment = {| userId := userId; tenantId := tenant_id context; role := role0;
                    assignedAt := now; assignedBy := assignedBy; expiresAt := expires |} /\
    (forall now',
       hasRole (Some context) now' st' userId role0
       = Ok (bool_decide (lasting expires now'))) /\
    (forall now' role',
       role' <> role0 ->
       hasRole (Some context) now' st' userId role'
       = hasRole (Some context) now' st userId role') /\
    filter (fun a => role a = role0) (assigned st' (tenant_id context) userId)
    = [assignment].
Proof.
  eexists _, _. split; [reflexivity|]. split; [reflexivity|].
  set (st' := {| assignments := _ |}).
  assert (assigned st' (tenant_id context) userId
          = (filter (other_role role0) (assigned st (tenant_id context) userId) ++
               [ {| userId := userId; tenantId := tenant_id context; role := role0;
                    assignedAt := now; assignedBy := assignedBy;
                    expiresAt := expires |} ])%list) as Hst'.
  { pose proof (assignRole_assigned context now st userId role0 assignedBy expires
                  (tenant_id context) userId) as H.
    by rewrite bool_decide_eq_true_2 in H. }
  split; [|split].
  - intros now'. rewrite hasRole_assigned, Hst'. f_equal.
    apply bool_decide_ext. rewrite elem_of_roles. split.
    + intros (a & Ha & Hr). apply list_elem_of_filter in Ha as [Hun Ha].
      apply elem_of_app in Ha as [Ha|Ha].
      * apply list_elem_of_filter in Ha as [Hne _]. by destruct Hne.
      * apply list_elem_of_singleton in Ha. subst a. exact Hun.
    + intros Hl.
      exists {| userId := userId; tenantId := tenant_id context; role := role0;
                assignedAt := now; assignedBy := assignedBy; expiresAt := expires |}.
      split; [|reflexivity].
      apply list_elem_of_filter. split; [exact Hl|].
      apply elem_of_app. right. by apply list_elem_of_singleton.
  - intros now' role' Hne. rewrite !hasRole_assigned, Hst'. f_equal.
    apply bool_decide_ext. rewrite !elem_of_roles. split.
    + intros (a & Ha & Hr). exists a. split; [|done].
      apply list_elem_of_filter in Ha as [Hun Ha]. apply list_elem_of_filter.
      split; [done|]. apply elem_of_app in Ha as [Ha|Ha].
      * by apply list_elem_of_filter in Ha as [_ Ha].
      * apply list_elem_of_singleton in Ha. subst a. by destruct Hne.
    + intros (a & Ha & Hr). exists a. split; [|done].
      apply list_elem_of_filter in Ha as [Hun Ha]. apply list_elem_of_filter.
      split; [done|]. apply elem_of_app. left. apply list_elem_of_filter.
      split; [|done]. unfold other_role. congruence.
  - rewrite Hst', filter_app, filter_cons_True, filter_nil by done.
    rewrite filter_none; [done|].
    apply Forall_forall. intros a Ha Hr.
    apply list_elem_of_filter in Ha as [Hne _]. by destruct Hne.
Qed.

(** After [removeRole] takes a role from a user, [hasRole] answers [false]
    for that user and role at any time, the answer for any other role of the
    user is what it was, and the user has no permission they had not
    before. *)
Theorem removeRole_then_hasRole context st userId role0 :
  exists st',
    removeRole (Some context) st userId role0 = (Ok tt, st') /\
    (forall now', hasRole (Some context) now' st' userId role0 = Ok false) /\
    (forall now' role',
       role' <> role0 ->
       hasRole (Some context) now' st' userId role'
       = hasRole (Some context) now' st userId role') /\
    (forall now' permission,
       hasPermission (Some context) now' st' userId permission = Ok true ->
       hasPermission (Some context) now' st userId permission = Ok true).
Proof.
  exists (removeRole (Some context) st userId role0).2.
  split. { unfold removeRole. cbn. by destruct (assignments st !! _). }
  set (st' := (removeRole _ _ _ _).2).
  assert (assigned st' (tenant_id context) userId
          = filter (other_role role0) (assigned st (tenant_id context) userId)) as Hst'.
  { pose proof (removeRole_assigned context st userId role0 (tenant_id context) userId) as H.
    by rewrite bool_decide_eq_true_2 in H. }
  split; [|split].
  - intros now'. rewrite hasRole_assigned, Hst'. f_equal.
    apply bool_decide_eq_false_2. rewrite elem_of_roles. intros (a & Ha & Hr).
    apply list_elem_of_filter in Ha as [_ Ha].
    apply list_elem_of_filter in Ha as [Hne _]. by destruct Hne.
  - intros now' role' Hne. rewrite !hasRole_assigned, Hst'. f_equal.
    apply bool_decide_ext. rewrite !elem_of_roles. split.
    + intros (a & Ha & Hr). exists a. split; [|done].
      apply list_elem_of_filter in Ha as [Hun Ha]. apply list_elem_of_filter.
      split; [done|]. by apply list_elem_of_filter in Ha as [_ Ha].
    + intros (a & Ha & Hr). exists a. split; [|done].
      apply list_elem_of_filter in Ha as [Hun Ha]. apply list_elem_of_filter.
      split; [done|]. apply list_elem_of_filter. split; [|done].
      unfold other_role. congruence.
  - intros now' permission. unfold hasPermission, getUserPermissions.
    rewrite !getUserRoles_assigned, Hst'. cbn. intros [= Hp]. f_equal.
    apply bool_decide_eq_true in Hp. apply bool_decide_eq_true.
    apply elem_of_user_permissions in Hp as [Hp|(r & Hr & Hp)];
      [by apply elem_of_nil in Hp|].
    apply elem_of_user_permissions. right. exists r. split; [|done].
    apply elem_of_roles in Hr as (a & Ha & Hr). apply elem_of_roles. exists a.
    split; [|done]. apply list_elem_of_filter in Ha as [Hun Ha].
    apply list_elem_of_filter. split; [done|].
    by apply list_elem_of_filter in Ha as [_ Ha].
Qed.

Lemma filter_sublist_impl {A : Type} (P Q : A -> Prop) `{!forall x, Decision (P x)}
    `{!forall x, Decision (Q x)} (l : list A) :
  (forall x, P x -> Q x) -> filter P l `sublist_of` filter Q l.
Proof.
  intros HPQ. induction l as [|x l IH]; [done|]. rewrite !filter_cons.
  destruct (decide (P x)) as [HP|HP].
  - rewrite decide_True by auto. by constructor.
  - destruct (decide (Q x)); [by constructor|done].
Qed.

(** Assigning or removing a role of a user under one tenant changes the
    roles of no other user and of no user of another tenant, provided the two
    tenant ids hold no colon (as generated ids do): the key of a user's
    assignments is the tenant id, a colon and the user id. *)
Theorem roles_are_tenant_scoped context context' st userId userId' role0 :
  EventStoreProps.no_colon (tenant_id context) = true ->
  EventStoreProps.no_colon (tenant_id context') = true ->
  (tenant_id context, userId) <> (tenant_id context', userId') ->
  forall now now' assignedBy expires,
    getUserRoles (Some context') now'
      (assignRole (Some context) now st userId role0 assignedBy expires).2 userId'
    = getUserRoles (Some context') now' st userId' /\
    getUserRoles (Some context') now' (removeRole (Some context) st userId role0).2 userId'
    = getUserRoles (Some context') now' st userId'.
Proof.
  intros Hc Hc' Hne now now' assignedBy expires.
  assert (assignmentKey (tenant_id context') userId'
          <> assignmentKey (tenant_id context) userId) as Hk.
  { unfold assignmentKey. intros Heq.
    apply EventStoreProps.no_colon_split in Heq as [Ht Hu]; [|done..].
    apply Hne. by rewrite Ht, Hu. }
  rewrite !getUserRoles_assigned, assignRole_assigned, removeRole_assigned.
  by rewrite !bool_decide_eq_false_2.
Qed.

Lemma roles_are_tenant_scoped_witness :
  getUserRoles (Some GuardsProps.context_B) 5
    (assignRole (Some Samples.context_A) 1 empty "bob" owner "root" None).2 "bob"
  = getUserRoles (Some GuardsProps.context_B) 5 empty "bob".
Proof.
  exact (proj1 (roles_are_tenant_scoped Samples.context_A GuardsProps.context_B empty
                  "bob" "bob" owner eq_refl eq_refl ltac:(discriminate)
                  1 5 "root" None)).
Defined.

(** A user holds a permission at a time when an assignment of theirs that
    has not expired gives a role whose definition lists it. *)
Definition grants (context : TenantContext.TenantContext) (now : Z) (st : RBACImpl)
    (userId : string) (permission : Permission) : Prop :=
  exists a, a ∈ assigned st (tenant_id context) userId /\ unexpired now a /\
            permission ∈ permissions (ROLE_DEFINITIONS (role a)).

Definition holds (context : TenantContext.TenantContext) (now : Z) (st : RBACImpl)
    (userId : string) (role0 : Role) : Prop :=
  exists a, a ∈ assigned st (tenant_id context) userId /\ unexpired now a /\
            role a = role0.

Lemma hasRole_holds context now st userId role0 :
  exists b, hasRole (Some context) now st userId role0 = Ok b /\
            (b = true <-> holds context now st userId role0).
Proof.
  rewrite hasRole_assigned. eexists. split; [reflexivity|].
  rewrite bool_decide_eq_true, elem_of_roles. unfold holds. split.
  - intros (a & [Hun Ha]%list_elem_of_filter & Hr). by exists a.
  - intros (a & Ha & Hun & Hr). exists a. split; [|done]. by apply list_elem_of_filter.
Qed.

Lemma hasPermission_grants context now st userId permission :
  exists b, hasPermission (Some context) now st userId permission = Ok b /\
            (b = true <-> grants context now st userId permission).
Proof.
  unfold hasPermission, getUserPermissions. rewrite getUserRoles_assigned. cbn.
  eexists. split; [reflexivity|].
  rewrite bool_decide_eq_true, elem_of_user_permissions. unfold grants. split.
  - intros [H|(r & (a & [Hun Ha]%list_elem_of_filter & <-)%elem_of_roles & Hp)];
      [by apply elem_of_nil in H|]. by exists a.
  - intros (a & Ha & Hun & Hp). right. exists (role a). split; [|done].
    apply elem_of_roles. exists a. split; [|done]. by apply list_elem_of_filter.
Qed.

(** [requirePermission] returns exactly when the context names a user (an
    id that is not empty) and an unexpired assignment of that user under the
    context's tenant gives a role that lists the permission; otherwise it
    throws [PermissionDeniedError] for that user, or for [anonymous] when
    the context names none, and without a context a [NO_TENANT_CONTEXT]
    error. [checkPermission] answers [true] in the same case and [false]
    otherwise, and [requireRole] returns exactly when such an assignment gives
    the role. *)
Theorem permission_needs_unexpired_role now st permission role0 :
  (exists message,
     requirePermission None now st permission
     = Thrown (Plain (TenantContextError NO_TENANT_CONTEXT message)) /\
     requireRole None now st role0
     = Thrown (Plain (TenantContextError NO_TENANT_CONTEXT message)) /\
     checkPermission None now st permission
     = Throw (TenantContextError NO_TENANT_CONTEXT message)) /\
  forall context,
    let who := EventStore.truthy_string (TenantContext.userId context) in
    (requirePermission (Some context) now st permission = Returned tt
     <-> exists userId, who = Some userId /\ grants context now st userId permission) /\
    (requirePermission (Some context) now st permission = Returned tt \/
     requirePermission (Some context) now st permission
     = Thrown (PermissionDeniedError permission (default "anonymous" who))) /\
    (checkPermission (Some context) now st permission = Ok true
     <-> exists userId, who = Some userId /\ grants context now st userId permission) /\
    (checkPermission (Some context) now st permission = Ok true \/
     checkPermission (Some context) now st permission = Ok false) /\
    (requireRole (Some context) now st role0 = Returned tt
     <-> exists userId, who = Some userId /\ holds context now st userId role0) /\
    (requireRole (Some context) now st role0 = Returned tt \/
     requireRole (Some context) now st role0
     = Thrown (RoleDeniedError role0 (default "anonymous" who))).
Proof.
  split; [by eexists|]. intros context who.
  unfold requirePermission, checkPermission, requireRole, assertPermission, assertRole.
  cbn [TenantContext.getTenantContext mbind result_bind]. fold who.
  destruct who as [u|].
  - destruct (hasPermission_grants context now st u permission) as (b & -> & Hb).
    destruct (hasRole_holds context now st u role0) as (b' & -> & Hb').
    cbn. repeat split.
    + destruct b; [|done]. intros _. exists u. split; [done|]. by apply Hb.
    + intros (u' & [= <-] & Hg). apply Hb in Hg. by subst b.
    + destruct b; [by left|by right].
    + intros [= ->]. exists u. split; [done|]. by apply Hb.
    + intros (u' & [= <-] & Hg). apply Hb in Hg. by subst b.
    + destruct b; [by left|by right].
    + destruct b'; [|done]. intros _. exists u. split; [done|]. by apply Hb'.
    + intros (u' & [= <-] & Hg). apply Hb' in Hg. by subst b'.
    + destruct b'; [by left|by right].
  - cbn. repeat split; try done; try (by right); by intros (u & [=] & _).
Qed.

(** With the assignments unchanged, the roles of a user at a later time are
    among their roles at an earlier one, in the same order, and so are
    their permissions: time takes roles away and gives none. *)
Theorem roles_lapse_only context st userId now now' :
  now <= now' ->
  exists roles roles',
    getUserRoles (Some context) now st userId = Ok roles /\
    getUserRoles (Some context) now' st userId = Ok roles' /\
    roles' `sublist_of` roles /\
    forall permission,
      hasPermission (Some context) now' st userId permission = Ok true ->
      hasPermission (Some context) now st userId permission = Ok true.
Proof.
  intros Hle.
  assert (forall a, unexpired now' a -> unexpired now a) as Hun.
  { intros a. unfold unexpired. destruct (expiresAt a); [lia|done]. }
  eexists _, _. rewrite !getUserRoles_assigned.
  split; [reflexivity|]. split; [reflexivity|]. split.
  - apply fmap_sublist. by apply filter_sublist_impl.
  - intros permission.
    destruct (hasPermission_grants context now' st userId permission) as (b' & -> & Hb').
    destruct (hasPermission_grants context now st userId permission) as (b & -> & Hb).
    intros [= ->]. f_equal. apply Hb.
    destruct (proj1 Hb' eq_refl) as (a & Ha & Ha' & Hp). exists a. auto.
Qed.

(** A principal assignment for [ann] under tenant A that expires at 10. *)
Definition ann_until_10 : RBACImpl :=
  (assignRole (Some Samples.context_A) 1 empty "ann" principal "root" (Some 10)).2.

Lemma roles_lapse_only_witness :
  exists roles roles',
    getUserRoles (Some Samples.context_A) 5 ann_until_10 "ann" = Ok roles /\
    getUserRoles (Some Samples.context_A) 15 ann_until_10 "ann" = Ok roles' /\
    roles' `sublist_of` roles /\
    forall permission,
      hasPermission (Some Samples.context_A) 15 ann_until_10 "ann" permission = Ok true ->
      hasPermission (Some Samples.context_A) 5 ann_until_10 "ann" permission = Ok true.
Proof.
  exact (roles_lapse_only Samples.context_A ann_until_10 "ann" 5 15 ltac:(lia)).
Defined.

(** The stores calls of [assignRole] and [removeRole] build. *)
Inductive reachable : RBACImpl -> Prop :=
| reachable_empty : reachable empty
| reachable_assignRole als now st userId role0 assignedBy expires :
    reachable st ->
    reachable (assignRole als now st userId role0 assignedBy expires).2
| reachable_removeRole als st userId role0 :
    reachable st ->
    reachable (removeRole als st userId role0).2.

(** Under each key, one assignment a role at most, each made for a tenant
    and a user the key is of. *)
Definition tidy (st : RBACImpl) : Prop :=
  forall key l,
    assignments st !! key = Some l ->
    NoDup (role <$> l) /\
    Forall (fun a => assignmentKey (tenantId a) (userId a) = key) l.

Lemma reachable_tidy st : reachable st -> tidy st.
Proof.
  induction 1 as [|als now st userId role0 assignedBy expires _ IH
                  |als st userId role0 _ IH].
  - intros key l Hl. cbn in Hl. by rewrite lookup_empty in Hl.
  - destruct als as [context|]; [|exact IH]. unfold tidy. cbn. intros key l.
    set (k := assignmentKey _ userId).
    destruct (decide (key = k)) as [->|Hne].
    + rewrite lookup_insert_eq. intros [= <-].
      assert (NoDup (role <$> default [] (assignments st !! k)) /\
              Forall (fun a => assignmentKey (tenantId a) (Rbac.userId a) = k)
                (default [] (assignments st !! k))) as [Hnd Hall].
      { destruct (assignments st !! k) as [l|] eqn:Hl; [by apply IH|].
        cbn. split; constructor. }
      split.
      * rewrite fmap_app. apply NoDup_app. split; [|split].
        -- eapply sublist_NoDup; [exact Hnd|]. apply fmap_sublist, sublist_filter.
        -- intros r (a & [Ha _]%list_elem_of_filter & <-)%elem_of_roles.
           cbn. rewrite list_elem_of_singleton. exact Ha.
        -- apply NoDup_singleton.
      * apply Forall_app. split; [|by repeat constructor].
        eapply Forall_forall. intros a [_ Ha]%list_elem_of_filter.
        by eapply Forall_forall in Hall.
    + rewrite lookup_insert_ne by done. apply IH.
  - destruct als as [context|]; [|exact IH]. cbn.
    set (k := assignmentKey _ userId).
    destruct (assignments st !! k) as [existing|] eqn:He; [|exact IH].
    unfold tidy. cbn. intros key l. destruct (decide (key = k)) as [->|Hne].
    + rewrite lookup_insert_eq. intros [= <-].
      destruct (IH k existing He) as [Hnd Hall]. split.
      * eapply sublist_NoDup; [exact Hnd|]. apply fmap_sublist, sublist_filter.
      * eapply Forall_forall. intros a [_ Ha]%list_elem_of_filter.
        by eapply Forall_forall in Hall.
    + rewrite lookup_insert_ne by done. apply IH.
Qed.

(** On a store built by [assignRole] and [removeRole] calls, [getUserRoles]
    names no role twice and [getUserPermissions] no permission twice, and
    every assignment kept for a user of a tenant was made under the key of
    that tenant and user. *)
Theorem getUserRoles_lists_each_role_once st context now userId :
  reachable st ->
  exists roles permissions,
    getUserRoles (Some context) now st userId = Ok roles /\ NoDup roles /\
    getUserPermissions (Some context) now st userId = Ok permissions /\
    NoDup permissions /\
    forall a, a ∈ assigned st (tenant_id context) userId ->
              assignmentKey (tenantId a) (Rbac.userId a)
              = assignmentKey (tenant_id context) userId.
Proof.
  intros Htidy%reachable_tidy. unfold getUserPermissions.
  rewrite getUserRoles_assigned. cbn. eexists _, _.
  split; [reflexivity|].
  assert (NoDup (role <$> assigned st (tenant_id context) userId) /\
          Forall (fun a => assignmentKey (tenantId a) (Rbac.userId a)
                           = assignmentKey (tenant_id context) userId)
            (assigned st (tenant_id context) userId)) as [Hnd Hall].
  { unfold assigned.
    destruct (assignments st !! assignmentKey (tenant_id context) userId) as [l|] eqn:Hl;
      [by apply Htidy|]. cbn. split; constructor. }
  split; [|split; [reflexivity|split]].
  - eapply sublist_NoDup; [exact Hnd|]. apply fmap_sublist, sublist_filter.
  - generalize (role <$> filter (unexpired now) (assigned st (tenant_id context) userId)).
    intros roles. assert (NoDup (@nil Permission)) as Hnil by constructor.
    revert Hnil. generalize (@nil Permission).
    induction roles as [|r roles IH]; intros set Hset; [done|]. cbn [foldl].
    apply IH. by apply NoDup_foldl_Set_add.
  - intros a Ha. by eapply Forall_forall in Hall.
Qed.

Lemma getUserRoles_lists_each_role_once_witness :
  exists roles permissions,
    getUserRoles (Some Samples.context_A) 5 ann_until_10 "ann" = Ok roles /\
    NoDup roles /\
    getUserPermissions (Some Samples.context_A) 5 ann_until_10 "ann" = Ok permissions /\
    NoDup permissions /\
    forall a, a ∈ assigned ann_until_10 (tenant_id Samples.context_A) "ann" ->
              assignmentKey (tenantId a) (Rbac.userId a)
              = assignmentKey (tenant_id Samples.context_A) "ann".
Proof.
  exact (getUserRoles_lists_each_role_once ann_until_10 Samples.context_A 5 "ann"
           (reachable_assignRole _ _ _ _ _ _ _ reachable_empty)).
Defined.

End RbacProps.

(** ** Sequence counters *)

Module EventStoreCountersProps.
Import EventStore EventStoreProps.

(** [append] numbers an event by the key string it builds from the
    partition key, the aggregate type and the aggregate id: an event a call
    returns is numbered one more than the calls made before it whose key reads
    the same, whether those returned or threw. Two aggregates whose keys read
    the same, as a/b:c and a:b/c do, are numbered together. *)
Theorem append_numbers_by_key sha256 toISOString calls c e :
  (perform sha256 toISOString (run sha256 toISOString empty calls) c).1 = Ok e ->
  exists context,
    c_als c = Some context /\
    sequence e
    = 1 + Z.of_nat (length (filter (fun c' => key_of c' = key_of c) calls)) /\
    key_of c = Some (aggregateKey (TenantRegistry.partitionKey (TenantContext.tenant context))
                       (aggregateType e) (aggregateId e)).
Proof.
  intros He. pose proof He as Hseq.
  apply perform_sequence in Hseq as (k & Hk & ->). rewrite run_sequences, Hk.
  unfold key_of in *. unfold perform, append in He.
  destruct (c_als c) as [context|]; [|done]. exists context.
  split; [done|]. split; [lia|]. cbn in He |- *.
  destruct (calculateHash _ _ _); cbn in He; [|done]. by injection He as <-.
Qed.

Lemma append_numbers_by_key_witness :
  sequence <$> (perform (fun s => s) pretty
                  (run (fun s => s) pretty empty [created 1 "a" "b:c"])
                  (created 2 "a:b" "c")).1 = Ok 2.
Proof.
  destruct (perform (fun s => s) pretty
              (run (fun s => s) pretty empty [created 1 "a" "b:c"])
              (created 2 "a:b" "c")).1 as [e|err] eqn:He; [|vm_compute in He; discriminate].
  cbn. f_equal.
  destruct (append_numbers_by_key (fun s => s) pretty
              [created 1 "a" "b:c"] (created 2 "a:b" "c") e He) as (context & _ & -> & _).
  reflexivity.
Defined.

End EventStoreCountersProps.
